(* ===== verification/_CoqProject ===== *)
-Q . S2P
Prelude.v
ErrorCode.v
Net.v
IpText.v
Keys.v
Addr.v
Proto.v
Validate.v
Packet.v
Handshake.v
HandshakeTime.v
Retry.v
Route.v
Relay.v
RelayJoin.v
RelayTests.v
Dns.v
UnitTests.v
Session.v
Floats.v
Ecn.v
BufferPool.v
PacketTests.v
DataPlane.v
PeerTests.v
DropPolicy.v
Security.v
Tun.v
TxQueue.v
TunControl.v
EndToEnd.v
ConnMetrics.v
Toml.v
Config.v
ConfigTests.v
Show.v
Connection.v
Main.v
Startup.v
Daemon.v
