(* ===== verification/Prelude.v ===== *)
(** * Verification of zeroconf-p2p-vpn

    The program is a daemon that joins hosts into an IPv6 network over QUIC
    connections. A node derives its own address from a signature with its key
    ([src/src/addr.rs]), advertises it to every configured peer in a handshake
    ([peer.rs], [proto.rs], [peer/validate_addr.rs]), and registers what the
    peer advertises in a relay ([relay.rs]) that keeps one system route per
    address ([route.rs]). A session per peer ([session.rs]) supervises its
    connections and keeps the relay and the DNS names ([dns.rs]) up to date.
    Packets from the TUN device ([tun.rs], [buffer_pool.rs]) are dispatched by
    destination to a peer, to the resolver, or answered with ICMP ([main.rs],
    [tun/packet.rs], [route/ecn.rs]).

    ** How the code is modelled

    Rust's [Result] is [result], a panic is [Panic] of [outcome]; the [?]
    operator is [let?], sequencing after something that may panic is [let!].
    Integers are [Z] with their width written out ([unsigned], [as_unsigned],
    [bit_not]), bytes are [Byte.byte], [DashMap] and [HashMap] are [gmap], and
    [f32] is the binary32 format of the Standard Library's [SpecFloat].

    Code of other crates is a type class of operations with a second class of
    the laws the program relies on: [ipnet] ([Net.Ipnet]), the Ed25519 keys of
    [iroh] ([Keys.IrohKeys]; unforgeability is never assumed), [prost]
    ([Proto.Message]), [etherparse] ([Packet.Etherparse], [Ecn.IpHeaderOps]),
    [backoff] ([Retry.Backoff]), [net_route] ([Route.NetRouteOps]), the channel
    of [tokio] and its clock ([BufferPool.Mpsc], [HandshakeTime.TokioTime]), [dns_stack] ([Dns.DnsStack],
    [DataPlane.DnsHandler]), the parser of [toml], the discovery settings and the
    key files ([Config.ConfigFormats]),
    [thin_status] ([ErrorCode.ThinStatusOps]), [tun_rs] ([Tun.TunDevice],
    [TunControl.TunBuilder]) and what start-up calls of the rest
    ([Startup.Platform]). Every class of laws has a
    reference instance that computes ([IpnetRef], [KeysRef], ...), with which
    the theorems are applied to concrete inputs. What a connection, a stream or
    a device delivers is an input of the definition that reads it.

    ** The files

    - [Prelude]: results, panics, machine integers, bytes, tactics.
    - [ErrorCode]: [error.rs] and [osal/tun/error.rs]; codes, labels, transient
      errors.
    - [Net], [IpText], [Keys]: addresses and networks, their text, keys and
      signatures.
    - [Addr]: [addr.rs]. The address of a node round-trips through verification,
      a signature pins one address of its network, the signed message determines
      the network, and the subnets of the plan are the allowed ones.
    - [Proto]: [proto.rs]. Reading a stream is independent of its chunks and
      bounded; over streams that deliver what is written to them a request and its
      verdict survive the exchange, unless the handler closes the connection
      first; malformed requests never reach the handler.
    - [Validate]: [peer/validate_addr.rs]. Accepted addresses are signed by the
      peer's key and allowed; nothing is lost or reordered. A host route lets a
      peer claim any allowed address, which is recorded as a finding.
    - [Packet]: [tun/packet.rs]. ICMP replies.
    - [Handshake]: the control plane of [peer.rs]. A handshake yields only
      routes the peer is entitled to; two nodes learn each other's address;
      a rejection fails both ends.
    - [HandshakeTime]: the handshake with its clock, for any [join!] and [timeout]
      that do what is documented. It ends within its deadline once there is a
      direct path, the wait for which has none.
    - [Retry], [Route]: [osal/retry.rs] and [route.rs]. The retry loop ends, and
      the system table keeps the contract of [RoutingTable] that the relay is
      proved against.
    - [Relay]: [relay.rs]. The operations refine a map from addresses to peers,
      and panic only for a batch that repeats an address, for which the example
      [RelayRef.repeated_address] does;
      the rollback theorem shows a route the relay removes without owning it.
    - [RelayJoin]: the futures inside an insertion and a removal. Modules [Join]
      and [Removal] are their step relations, on which every interleaving of
      distinct addresses is safe and comes to an end; the one [Relay] runs is
      among them. [Duplicate] shows a batch that panics.
    - [Dns]: [dns.rs]. Queries see the latest names.
    - [Session]: [session.rs]. The loop of one session, cut into steps by
      [advance]; section [System] runs the sessions of all peers on the shared
      relay in any order, with the invariant that every address is dispatched
      to the live connection of its peer, parked, or unknown. A panic needs a
      peer that advertises an address twice; here and below the theorems say so.
    - [Ecn], [DataPlane]: [route/ecn.rs], [Peer::send_packet] and the packet
      loop of [main.rs]. Marking keeps packets intact; a packet only reaches the
      peer of its destination and never exceeds the datagram limit.
    - [Floats], [DropPolicy]: when floating-point operations do not round, and
      that the drop policy on a buffer whose size is a power of two up to 2^24
      is exactly linear.
    - [Security]: the sessions again, with peers that do as they please. Every
      address the node holds is well-formed and allowed, and a packet only
      leaves over a connection whose key has signed for its destination.
    - [BufferPool], [Tun]: [buffer_pool.rs] and the tasks of [tun.rs]. Buffers
      are conserved and frames delivered unaltered and in order.
    - [TxQueue]: the channel to the device, with the receive loops of all peers,
      the packet loop and the write task taking turns. The packets of each peer
      stay in order, and nobody waits for ever.
    - [TunControl]: creating the device, and both tasks under [select!] on one
      pool with the bounded channel to the packet loop, which refine a machine of
      queues that also counts the transient errors.
    - [EndToEnd]: these parts of two nodes put together, from the device of one
      to the device of the other, over a network that loses and reorders.
    - [ConnMetrics]: [peer/conn_metrics.rs]. The gauges show the latest
      statistics until the exporter is cancelled or the connection is closed.
    - [Toml]: TOML documents, the part of serde that the derived [Deserialize]
      of the configuration uses, and a reader for the repository's own files.
    - [Config]: [config.rs] and [generate.rs]. Exactly which documents are
      accepted as a configuration, and the files [generate] leaves.
    - [Show]: [show.rs] and what [generate.rs] prints. The report does not
      depend on the order of the map of peers.
    - [Connection]: [connection.rs]. Incoming connections reach their peer while
      its link has the receiver of its channel, and are counted otherwise.
    - [Main]: the command line, the metrics address and the identity of a node.
    - [Startup]: [main] from its arguments to its loops, in a monad with the
      state of the system, early returns and panics. It ends; what it leaves
      running is the node of the configuration; on a platform that grants its
      calls it starts. A key that is configured twice and the loss of the TUN
      device are recorded as findings.
    - [Daemon]: [Startup], the system table as the table of the relay, and the
      sessions with hostile peers put together: what a started daemon never
      does, whatever its peers do.
    - [RelayTests], [PacketTests], [UnitTests], [PeerTests], [ConfigTests]: the
      unit tests of the sources as programs over the model, evaluated.

    ** Fuel and bounds

    Only the retry loop needs fuel ([Retry.retry_loop], passed down by
    [Startup.daemon] and [Route.net_table]), one unit per call of the operation.
    Its laws say that the backoff gives up after some number [n] of delays, and
    [S n] units are proved to be enough. All other loops are
    structural, over the list of what their input has delivered so far; where
    the code would wait for more, the result says so.

    ** What is not modelled

    Tracing and histograms, and the text of errors and panics, so that the unit
    tests that read it are left out too, as are those that need the public keys
    of key files and the one whose reads of the relay race with an insertion; the
    set-up of logging; the build script. [Relay_insert]
    polls the futures of a batch once around and then finishes those that wait for
    the routing table in order, and [remove_locked] runs its futures one after the
    other; [RelayJoin] has every other order. Sessions interleave at the steps of
    [advance]: an insertion is one step, since it holds the lock of the relay and
    only parks of other addresses commute with it. *)

From stdpp Require Export prelude gmap strings.
From Stdlib Require Import Strings.Byte.
From Stdlib Require Export Btauto.

(** ** Results, panics and their notation *)

(** Rust's [Result<A, E>]. *)
Inductive result (A E : Type) : Type :=
  | Ok (a : A)
  | Err (e : E).
Arguments Ok {A E} a.
Arguments Err {A E} e.

(** A computation that returns or panics ([panic!], [expect], an out-of-range
    slice). The message of a panic is not observable by the program. *)
Inductive outcome (A : Type) : Type :=
  | Ret (a : A)
  | Panic.
Arguments Ret {A} a.
Arguments Panic {A}.

Declare Scope rust_scope.
Delimit Scope rust_scope with rust.

(** Rust's [?] operator: return early with the error. *)
Notation "'let?' x := e 'in' k" :=
  (match e with Ok x => k | Err err => Err err end)
  (at level 10, x pattern, e at level 100, k at level 200,
   format "'[v' 'let?'  x  :=  e  'in' '/' k ']'") : rust_scope.

(** Sequencing after a computation that may panic. *)
Notation "'let!' x := e 'in' k" :=
  (match e with Ret x => k | Panic => Panic end)
  (at level 10, x pattern, e at level 100, k at level 200,
   format "'[v' 'let!'  x  :=  e  'in' '/' k ']'") : rust_scope.

Open Scope rust_scope.

Definition is_ok {A E} (r : result A E) : bool :=
  match r with Ok _ => true | Err _ => false end.

Definition ok {A E} (r : result A E) : option A :=
  match r with Ok a => Some a | Err _ => None end.

Definition map_err {A E F} (f : E → F) (r : result A E) : result A F :=
  match r with Ok a => Ok a | Err e => Err (f e) end.

(** ** Tactics *)

(** Case analysis on the scrutinee of every [match] of the goal or of [H]. *)
Ltac split_match :=
  repeat match goal with
  | |- context [match ?x with _ => _ end] => destruct x eqn:?; simplify_eq/=
  end.
Ltac split_match_in H :=
  repeat match type of H with
  | context [match ?x with _ => _ end] => destruct x eqn:?; simplify_eq/=
  end.

(** Turn the boolean tests of the code into propositions. *)
Ltac bool_to_prop :=
  repeat match goal with
  | H : (_ && _) = true |- _ => apply andb_true_iff in H; destruct H
  | H : (_ || _) = false |- _ => apply orb_false_iff in H; destruct H
  | H : negb _ = true |- _ => apply negb_true_iff in H
  | H : negb _ = false |- _ => apply negb_false_iff in H
  | H : (_ =? _)%Z = true |- _ => apply Z.eqb_eq in H
  | H : (_ =? _)%Z = false |- _ => apply Z.eqb_neq in H
  | H : (_ <=? _)%Z = true |- _ => apply Z.leb_le in H
  | H : (_ <=? _)%Z = false |- _ => apply Z.leb_gt in H
  | H : (_ <? _)%Z = true |- _ => apply Z.ltb_lt in H
  | H : (_ <? _)%Z = false |- _ => apply Z.ltb_ge in H
  | H : (_ <=? _)%nat = true |- _ => apply Nat.leb_le in H
  | H : (_ <=? _)%nat = false |- _ => apply Nat.leb_gt in H
  | H : (_ <? _)%nat = true |- _ => apply Nat.ltb_lt in H
  | H : (_ <? _)%nat = false |- _ => apply Nat.ltb_ge in H
  | H : bool_decide _ = true |- _ => apply bool_decide_eq_true in H
  | H : bool_decide _ = false |- _ => apply bool_decide_eq_false in H
  end.

(** Evaluate a decidable proposition. *)
Ltac by_decide := apply (bool_decide_unpack _); vm_compute; exact I.

(** ** Lists *)

Lemma app_inv_tail_nil {A} (l k : list A) : l ++ k = k → l = [].
Proof. intros E. apply (f_equal length) in E. rewrite length_app in E. destruct l; simpl in *; [done|lia]. Qed.

(** The weight of a list after an element is replaced. *)
Lemma sum_list_insert {A} (f : A → nat) (l : list A) i x y :
  l !! i = Some x →
  sum_list (f <$> <[i := y]> l) + f x = sum_list (f <$> l) + f y.
Proof.
  revert i. induction l as [|z l IH]; intros [|i] Hi; simplify_eq/=; [lia|].
  specialize (IH i Hi). lia.
Qed.

Lemma sum_list_const {A} (f : A → nat) (l : list A) n :
  (∀ x, x ∈ l → f x = n) → sum_list (f <$> l) = n * length l.
Proof.
  induction l as [|x l IH]; intros Hl; csimpl; [lia|].
  rewrite IH by set_solver. rewrite (Hl x) by set_solver. lia.
Qed.

(** ** Strings *)

Lemma string_app_assoc (s t u : string) : (s +:+ t) +:+ u = s +:+ (t +:+ u).
Proof. induction s as [|c s IH]; [done|exact (f_equal (String c) IH)]. Qed.

Lemma string_app_nil_r (s : string) : s +:+ EmptyString = s.
Proof. induction s as [|c s IH]; [done|exact (f_equal (String c) IH)]. Qed.

(** ** Machine integers: values, masks and bitwise reasoning *)

Local Open Scope Z_scope.

(** An unsigned integer of [w] bits. *)
Definition unsigned (w z : Z) : Prop := 0 ≤ z < 2 ^ w.

#[export] Instance unsigned_dec w z : Decision (unsigned w z).
Proof. unfold unsigned. apply _. Defined.

(** [!x] on an unsigned integer of [w] bits. *)
Definition bit_not (w z : Z) : Z := Z.lxor z (Z.ones w).

(** [x as uN]. *)
Definition as_unsigned (w z : Z) : Z := z mod 2 ^ w.

Create HintDb zbits.
Create Rewrite HintDb zbits.

Lemma testbit_unsigned_high w z i :
  unsigned w z → 0 ≤ w → w ≤ i → Z.testbit z i = false.
Proof.
  intros [??] ??. rewrite <- (Z.mod_small z (2 ^ w)) by lia.
  apply Z.mod_pow2_bits_high. lia.
Qed.

Lemma testbit_ones w i :
  0 ≤ w → Z.testbit (Z.ones w) i = (0 <=? i) && (i <? w).
Proof.
  intros. destruct (Z.leb_spec 0 i); [|by rewrite Z.testbit_neg_r by lia].
  destruct (Z.ltb_spec i w).
  - by rewrite Z.ones_spec_low by lia.
  - by rewrite Z.ones_spec_high by lia.
Qed.

(** The high-[p]-bits mask of a [w]-bit address. *)
Definition high_mask (w p : Z) : Z := Z.shiftl (Z.ones p) (w - p).

Lemma testbit_high_mask w p i :
  0 ≤ p ≤ w → 0 ≤ i → Z.testbit (high_mask w p) i = (w - p <=? i) && (i <? w).
Proof.
  intros. unfold high_mask. rewrite Z.shiftl_spec, testbit_ones by lia.
  destruct (Z.leb_spec 0 (i - (w - p))), (Z.leb_spec (w - p) i),
    (Z.ltb_spec (i - (w - p)) p), (Z.ltb_spec i w); simpl; lia || done.
Qed.

Lemma testbit_bit_not w z i :
  0 ≤ w → 0 ≤ i → Z.testbit (bit_not w z) i = xorb (Z.testbit z i) (i <? w).
Proof.
  intros. unfold bit_not. rewrite Z.lxor_spec, testbit_ones by lia.
  destruct (Z.leb_spec 0 i); [done|lia].
Qed.

Lemma testbit_as_unsigned w z i :
  0 ≤ w → 0 ≤ i → Z.testbit (as_unsigned w z) i = (i <? w) && Z.testbit z i.
Proof.
  intros. unfold as_unsigned. destruct (Z.ltb_spec i w).
  - by rewrite Z.mod_pow2_bits_low by lia.
  - by rewrite Z.mod_pow2_bits_high by lia.
Qed.

#[export] Hint Rewrite Z.land_spec Z.lor_spec Z.lxor_spec Z.ldiff_spec : zbits.
#[export] Hint Rewrite testbit_high_mask testbit_bit_not testbit_as_unsigned
  testbit_ones Z.shiftl_spec Z.shiftr_spec using lia : zbits.
#[export] Hint Rewrite Z.testbit_0_l Bool.andb_false_r Bool.andb_true_r
  Bool.andb_false_l Bool.andb_true_l Bool.orb_false_r Bool.orb_false_l
  Bool.orb_true_r Bool.orb_true_l Bool.xorb_false_r : zbits.

(** Case analysis on the comparisons of bit positions. *)
Ltac split_positions :=
  repeat match goal with
  | |- context [(?x <=? ?y)%Z] => destruct (Z.leb_spec x y); try lia
  | |- context [(?x <? ?y)%Z] => destruct (Z.ltb_spec x y); try lia
  end; autorewrite with zbits; try done.

(** Equality of integers bit by bit. *)
Ltac bits :=
  apply Z.bits_inj'; intros i Hi; autorewrite with zbits; split_positions;
  try btauto.

Lemma unsigned_bits w z :
  0 ≤ w → 0 ≤ z → (∀ i, w ≤ i → Z.testbit z i = false) → unsigned w z.
Proof.
  intros Hw Hz Hb. split; [done|].
  assert (z = z mod 2 ^ w) as ->.
  { apply Z.bits_inj'. intros i Hi. destruct (Z.lt_ge_cases i w).
    - by rewrite Z.mod_pow2_bits_low by lia.
    - rewrite Z.mod_pow2_bits_high by lia. by apply Hb. }
  apply Z.mod_pos_bound. by apply Z.pow_pos_nonneg.
Qed.

Lemma unsigned_land w a b : 0 ≤ w → unsigned w a → 0 ≤ b → unsigned w (Z.land a b).
Proof.
  intros ? Ha ?. apply unsigned_bits; [done|apply Z.land_nonneg; right; lia|].
  intros i ?. by rewrite Z.land_spec, (testbit_unsigned_high w a).
Qed.

Lemma unsigned_lor w a b : 0 ≤ w → unsigned w a → unsigned w b → unsigned w (Z.lor a b).
Proof.
  intros ? Ha Hb. apply unsigned_bits; [done| |].
  - apply Z.lor_nonneg. unfold unsigned in *. lia.
  - intros i ?.
    by rewrite Z.lor_spec, (testbit_unsigned_high w a), (testbit_unsigned_high w b).
Qed.

Lemma unsigned_as_unsigned w z : 0 ≤ w → unsigned w (as_unsigned w z).
Proof. intros. apply Z.mod_pos_bound. by apply Z.pow_pos_nonneg. Qed.

Lemma unsigned_ones w p : 0 ≤ p ≤ w → unsigned w (Z.ones p).
Proof.
  intros. rewrite Z.ones_equiv. split.
  - assert (0 < 2 ^ p) by (apply Z.pow_pos_nonneg; lia). lia.
  - assert (2 ^ p ≤ 2 ^ w) by (apply Z.pow_le_mono_r; lia). lia.
Qed.

Lemma high_mask_nonneg w p : 0 ≤ p → 0 ≤ high_mask w p.
Proof. intros. apply Z.shiftl_nonneg, (proj1 (unsigned_ones p p ltac:(lia))). Qed.

#[export] Hint Resolve unsigned_land unsigned_lor unsigned_as_unsigned
  unsigned_ones high_mask_nonneg : zbits.

(** ** Bytes *)

(** A [u8] is [Byte.byte]; [byte_val] is its value, [byte_of z] is [z as u8]. *)
Definition byte_val (b : byte) : Z := Z.of_N (Byte.to_N b).

Definition byte_of (z : Z) : byte :=
  match Byte.of_N (Z.to_N (z mod 256)) with Some b => b | None => x00 end.

#[export] Instance byte_eq_dec : EqDecision byte := Byte.byte_eq_dec.

Lemma byte_val_unsigned b : unsigned 8 (byte_val b).
Proof.
  unfold byte_val, unsigned. pose proof (Byte.to_N_bounded b). lia.
Qed.

Lemma byte_of_val b : byte_of (byte_val b) = b.
Proof.
  unfold byte_of. pose proof (byte_val_unsigned b) as [??].
  rewrite Z.mod_small by lia. unfold byte_val.
  by rewrite N2Z.id, Byte.of_to_N.
Qed.

Lemma byte_val_of z : byte_val (byte_of z) = z mod 256.
Proof.
  unfold byte_of. pose proof (Z.mod_pos_bound z 256 ltac:(lia)).
  destruct (Byte.of_N _) as [b|] eqn:E.
  - apply Byte.to_of_N in E. unfold byte_val. rewrite E. lia.
  - apply Byte.of_N_None_iff in E. lia.
Qed.

Lemma byte_val_inj b c : byte_val b = byte_val c → b = c.
Proof. intros E. by rewrite <- (byte_of_val b), E, byte_of_val. Qed.

(** [uN::from_le_bytes]. *)
Fixpoint from_le_bytes (l : list byte) : Z :=
  match l with
  | [] => 0
  | b :: l => byte_val b + 256 * from_le_bytes l
  end.

(** [uN::to_le_bytes] for an integer of [n] bytes. *)
Fixpoint to_le_bytes (n : nat) (z : Z) : list byte :=
  match n with
  | O => []
  | S n => byte_of z :: to_le_bytes n (z / 256)
  end.

(** The network (big-endian) order; [Ipv4Addr::octets] and [Ipv6Addr::octets]. *)
Definition to_be_bytes (n : nat) (z : Z) : list byte := reverse (to_le_bytes n z).
Definition from_be_bytes (l : list byte) : Z := from_le_bytes (reverse l).

Lemma length_to_le_bytes n z : length (to_le_bytes n z) = n.
Proof. revert z. induction n; intros; simpl; auto. Qed.

Lemma length_to_be_bytes n z : length (to_be_bytes n z) = n.
Proof. unfold to_be_bytes. by rewrite length_reverse, length_to_le_bytes. Qed.

Lemma from_le_bytes_unsigned l : unsigned (8 * Z.of_nat (length l)) (from_le_bytes l).
Proof.
  induction l as [|b l [??]]; [done|].
  pose proof (byte_val_unsigned b) as [??]. unfold unsigned. simpl length.
  replace (8 * Z.of_nat (S (length l))) with (8 + 8 * Z.of_nat (length l)) by lia.
  rewrite Z.pow_add_r by lia. simpl from_le_bytes. lia.
Qed.

Lemma from_to_le_bytes n z :
  from_le_bytes (to_le_bytes n z) = z mod 2 ^ (8 * Z.of_nat n).
Proof.
  revert z. induction n as [|n IH]; intros z.
  { simpl. by rewrite Z.mod_1_r. }
  simpl to_le_bytes. simpl from_le_bytes. rewrite byte_val_of, IH.
  replace (8 * Z.of_nat (S n)) with (8 + 8 * Z.of_nat n) by lia.
  rewrite Z.pow_add_r by lia. change (2 ^ 8) with 256.
  rewrite Z.rem_mul_r; lia.
Qed.

Lemma from_to_be_bytes n z :
  from_be_bytes (to_be_bytes n z) = z mod 2 ^ (8 * Z.of_nat n).
Proof.
  unfold from_be_bytes, to_be_bytes. by rewrite reverse_involutive, from_to_le_bytes.
Qed.

Lemma from_be_bytes_unsigned l n :
  length l = n → unsigned (8 * Z.of_nat n) (from_be_bytes l).
Proof.
  intros <-. unfold from_be_bytes. rewrite <- (length_reverse l).
  apply from_le_bytes_unsigned.
Qed.

Lemma to_be_bytes_inj n a b :
  unsigned (8 * Z.of_nat n) a → unsigned (8 * Z.of_nat n) b →
  to_be_bytes n a = to_be_bytes n b → a = b.
Proof.
  intros Ha Hb E. apply (f_equal from_be_bytes) in E.
  rewrite !from_to_be_bytes, !Z.mod_small in E; done.
Qed.
