(* ===== verification/ErrorCode.v ===== *)
(** * Error kinds, status codes and metric labels

    Models [src/src/error.rs] and [src/src/osal/tun/error.rs]: the data of
    [std::io::Error] and [thin_status::ThinStatus] the program reads, the
    extraction of an error code and kind out of an [anyhow::Error], the labels
    it becomes, and the transient-error test of the TUN loops. *)

From S2P Require Import Prelude.
From stdpp Require Import prelude strings.

Local Open Scope Z_scope.

(** [std::io::ErrorKind]. [Unlisted] stands for the kinds [error_kind_str]
    does not name: the enum is [non_exhaustive]. *)
Module ErrorKind.
Inductive t : Type :=
  | NotFound | PermissionDenied | ConnectionRefused | ConnectionReset
  | HostUnreachable | NetworkUnreachable | ConnectionAborted | NotConnected
  | AddrInUse | AddrNotAvailable | NetworkDown | BrokenPipe | AlreadyExists
  | WouldBlock | NotADirectory | IsADirectory | DirectoryNotEmpty
  | ReadOnlyFilesystem | StaleNetworkFileHandle | InvalidInput | InvalidData
  | TimedOut | WriteZero | StorageFull | NotSeekable | QuotaExceeded
  | FileTooLarge | ResourceBusy | ExecutableFileBusy | Deadlock
  | CrossesDevices | TooManyLinks | InvalidFilename | ArgumentListTooLong
  | Interrupted | Unsupported | UnexpectedEof | OutOfMemory | Other | Unlisted.

#[global] Instance t_eq_dec : EqDecision t.
Proof. solve_decision. Defined.

Definition all : list t :=
  [NotFound; PermissionDenied; ConnectionRefused; ConnectionReset;
   HostUnreachable; NetworkUnreachable; ConnectionAborted; NotConnected;
   AddrInUse; AddrNotAvailable; NetworkDown; BrokenPipe; AlreadyExists;
   WouldBlock; NotADirectory; IsADirectory; DirectoryNotEmpty;
   ReadOnlyFilesystem; StaleNetworkFileHandle; InvalidInput; InvalidData;
   TimedOut; WriteZero; StorageFull; NotSeekable; QuotaExceeded;
   FileTooLarge; ResourceBusy; ExecutableFileBusy; Deadlock;
   CrossesDevices; TooManyLinks; InvalidFilename; ArgumentListTooLong;
   Interrupted; Unsupported; UnexpectedEof; OutOfMemory; Other; Unlisted].

Lemma all_complete k : k ∈ all.
Proof. destruct k; unfold all; repeat constructor. Qed.
End ErrorKind.

(** [thin_status::ErrorCode]: "just a gRPC Status code" ([control.proto]),
    with the gRPC numbering. *)
Module ErrorCode.
Inductive t : Type :=
  | Cancelled | Unknown | InvalidArgument | DeadlineExceeded | NotFound
  | AlreadyExists | PermissionDenied | ResourceExhausted | FailedPrecondition
  | Aborted | OutOfRange | Unimplemented | Internal | Unavailable | DataLoss
  | Unauthenticated.

#[global] Instance t_eq_dec : EqDecision t.
Proof. solve_decision. Defined.

Definition as_i32 (c : t) : Z :=
  match c with
  | Cancelled => 1 | Unknown => 2 | InvalidArgument => 3
  | DeadlineExceeded => 4 | NotFound => 5 | AlreadyExists => 6
  | PermissionDenied => 7 | ResourceExhausted => 8 | FailedPrecondition => 9
  | Aborted => 10 | OutOfRange => 11 | Unimplemented => 12 | Internal => 13
  | Unavailable => 14 | DataLoss => 15 | Unauthenticated => 16
  end.

Definition all : list t :=
  [Cancelled; Unknown; InvalidArgument; DeadlineExceeded; NotFound;
   AlreadyExists; PermissionDenied; ResourceExhausted; FailedPrecondition;
   Aborted; OutOfRange; Unimplemented; Internal; Unavailable; DataLoss;
   Unauthenticated].

(** The code a raw number stands for, if it is a known one. *)
Definition of_i32 (z : Z) : option t :=
  find (λ c, as_i32 c =? z) all.

Lemma of_as_i32 c : of_i32 (as_i32 c) = Some c.
Proof. by destruct c. Qed.
End ErrorCode.

(** The part of [std::io::Error] the program reads: [kind()] and
    [raw_os_error()]. *)
Record IoError := {
  kind : ErrorKind.t;
  raw_os_error : option Z;
}.

#[export] Instance IoError_eq_dec : EqDecision IoError.
Proof. solve_decision. Defined.

(** [thin_status::ThinStatus]: a non-zero [i32] code and a message. *)
Record ThinStatus := {
  code_raw : Z;
  message : string;
}.

#[export] Instance ThinStatus_eq_dec : EqDecision ThinStatus.
Proof. solve_decision. Defined.

Definition ThinStatus_code (s : ThinStatus) : option ErrorCode.t :=
  ErrorCode.of_i32 (code_raw s).

(** What [anyhow::Error::downcast_ref] finds in an error. Adding a context
    ([.context(..)]) changes the message only. *)
Record AnyhowError := {
  downcast_io : option IoError;
  downcast_status : option ThinStatus;
}.

Definition anyhow_msg : AnyhowError :=
  {| downcast_io := None; downcast_status := None |}.
Definition anyhow_io (e : IoError) : AnyhowError :=
  {| downcast_io := Some e; downcast_status := None |}.
Definition anyhow_status (s : ThinStatus) : AnyhowError :=
  {| downcast_io := None; downcast_status := Some s |}.

(** [check_eq!]: the macro gets the expressions and their texts. *)
Definition check_eq {A} `{EqDecision A} (left right : A) (left_text right_text : string) :
    result unit ThinStatus :=
  if bool_decide (left ≠ right) then
    Err {| code_raw := ErrorCode.as_i32 ErrorCode.Internal;
           message := left_text +:+ " != " +:+ right_text |}
  else Ok tt.

(** The conversions of the [thin_status] crate, which is not part of the
    sources. *)
Class ThinStatusOps := {
  from_error_kind : ErrorKind.t → ErrorCode.t;
  code_str : ErrorCode.t → string;
  status_from_io : IoError → ThinStatus;
}.

Section Extracted.
Context `{ThinStatusOps}.

Record ExtractedErrorCode := {
  ext_code : ErrorCode.t;
  ext_kind : ErrorKind.t;
}.

Definition from_io (error : IoError) : ExtractedErrorCode :=
  let kind := kind error in
  {| ext_code := from_error_kind kind; ext_kind := kind |}.

Definition from_anyhow (error : AnyhowError) : ExtractedErrorCode :=
  let kind := kind <$> downcast_io error in
  let code := downcast_status error ≫= ThinStatus_code in
  let code := match code with
              | Some c => Some c
              | None => from_error_kind <$> kind
              end in
  {| ext_code := default ErrorCode.Unknown code;
     ext_kind := default ErrorKind.Other kind |}.

(** [metrics::Label]: a key and a value. *)
Definition Label : Type := string * string.

Definition labels_static (code kind : string) : list Label :=
  [("ERROR_CODE", code); ("ERROR_KIND", kind)]%string.

Definition error_kind_str (kind : ErrorKind.t) : string :=
  match kind with
  | ErrorKind.NotFound => "NotFound"
  | ErrorKind.PermissionDenied => "PermissionDenied"
  | ErrorKind.ConnectionRefused => "ConnectionRefused"
  | ErrorKind.ConnectionReset => "ConnectionReset"
  | ErrorKind.HostUnreachable => "HostUnreachable"
  | ErrorKind.NetworkUnreachable => "NetworkUnreachable"
  | ErrorKind.ConnectionAborted => "ConnectionAborted"
  | ErrorKind.NotConnected => "NotConnected"
  | ErrorKind.AddrInUse => "AddrInUse"
  | ErrorKind.AddrNotAvailable => "AddrNotAvailable"
  | ErrorKind.NetworkDown => "NetworkDown"
  | ErrorKind.BrokenPipe => "BrokenPipe"
  | ErrorKind.AlreadyExists => "AlreadyExists"
  | ErrorKind.WouldBlock => "WouldBlock"
  | ErrorKind.NotADirectory => "NotADirectory"
  | ErrorKind.IsADirectory => "IsADirectory"
  | ErrorKind.DirectoryNotEmpty => "DirectoryNotEmpty"
  | ErrorKind.ReadOnlyFilesystem => "ReadOnlyFilesystem"
  | ErrorKind.StaleNetworkFileHandle => "StaleNetworkFileHandle"
  | ErrorKind.InvalidInput => "InvalidInput"
  | ErrorKind.InvalidData => "InvalidData"
  | ErrorKind.TimedOut => "TimedOut"
  | ErrorKind.WriteZero => "WriteZero"
  | ErrorKind.StorageFull => "StorageFull"
  | ErrorKind.NotSeekable => "NotSeekable"
  | ErrorKind.QuotaExceeded => "QuotaExceeded"
  | ErrorKind.FileTooLarge => "FileTooLarge"
  | ErrorKind.ResourceBusy => "ResourceBusy"
  | ErrorKind.ExecutableFileBusy => "ExecutableFileBusy"
  | ErrorKind.Deadlock => "Deadlock"
  | ErrorKind.CrossesDevices => "CrossesDevices"
  | ErrorKind.TooManyLinks => "TooManyLinks"
  | ErrorKind.InvalidFilename => "InvalidFilename"
  | ErrorKind.ArgumentListTooLong => "ArgumentListTooLong"
  | ErrorKind.Interrupted => "Interrupted"
  | ErrorKind.Unsupported => "Unsupported"
  | ErrorKind.UnexpectedEof => "UnexpectedEof"
  | ErrorKind.OutOfMemory => "OutOfMemory"
  | ErrorKind.Other | ErrorKind.Unlisted => "Other"
  end%string.

(** [impl From<&ExtractedErrorCode> for Vec<Label>] and [into_labels]. *)
Definition into_labels (e : ExtractedErrorCode) : list Label :=
  labels_static (code_str (ext_code e)) (error_kind_str (ext_kind e)).
End Extracted.

(** ** Transient TUN errors *)

(** The [libc] error numbers the code matches on, which depend on the
    platform. *)
Class Libc := {
  EAGAIN : Z;
  EINTR : Z;
  EINVAL : Z;
  EMSGSIZE : Z;
  ENOBUFS : Z;
}.

(** The label of a transient error ([match_libc_errors!]). *)
Definition match_libc_errors `{Libc} (os_err : Z) : option string :=
  if os_err =? EAGAIN then Some "EAGAIN"%string
  else if os_err =? EINTR then Some "EINTR"%string
  else if os_err =? EINVAL then Some "EINVAL"%string
  else if os_err =? EMSGSIZE then Some "EMSGSIZE"%string
  else if os_err =? ENOBUFS then Some "ENOBUFS"%string
  else None.

Definition is_tun_transient `{Libc} (err : IoError) : bool :=
  match raw_os_error err with
  | Some os_err =>
      match match_libc_errors os_err with
      | Some _ => true
      | None => false
      end
  | None => false
  end.

(** ** Properties *)

(** The [ERROR_KIND] label separates every two kinds the table names;
    only [Other] and the kinds outside the table share the label Other. *)
Theorem error_kind_str_separates (k1 k2 : ErrorKind.t) :
  error_kind_str k1 = error_kind_str k2 ↔
  k1 = k2 ∨ (k1 ∈ [ErrorKind.Other; ErrorKind.Unlisted] ∧
             k2 ∈ [ErrorKind.Other; ErrorKind.Unlisted]).
Proof.
  assert (Forall (λ k1, Forall (λ k2,
    error_kind_str k1 = error_kind_str k2 ↔
    k1 = k2 ∨ (k1 ∈ [ErrorKind.Other; ErrorKind.Unlisted] ∧
               k2 ∈ [ErrorKind.Other; ErrorKind.Unlisted]))
    ErrorKind.all) ErrorKind.all) as H by (apply (bool_decide_unpack _); by vm_compute).
  rewrite Forall_forall in H. specialize (H k1 (ErrorKind.all_complete k1)).
  rewrite Forall_forall in H. apply (H k2), ErrorKind.all_complete.
Qed.

(** The code extracted from an [anyhow::Error] is the recognised code of
    its [ThinStatus] if it has one, else the code of its I/O error kind, else
    [Unknown]; the kind is the I/O error's, else [Other]. *)
Theorem from_anyhow_priority `{ThinStatusOps} (e : AnyhowError) :
  (∀ s c, downcast_status e = Some s → ThinStatus_code s = Some c →
     ext_code (from_anyhow e) = c) ∧
  (downcast_status e ≫= ThinStatus_code = None →
     ext_code (from_anyhow e) =
       match downcast_io e with
       | Some io => ext_code (from_io io)
       | None => ErrorCode.Unknown
       end) ∧
  ext_kind (from_anyhow e) =
    match downcast_io e with
    | Some io => ext_kind (from_io io)
    | None => ErrorKind.Other
    end.
Proof.
  unfold from_anyhow, from_io. split_and!.
  - intros s c -> Hc. simpl. by rewrite Hc.
  - intros ->. by destruct (downcast_io e).
  - by destruct (downcast_io e).
Qed.
