(* ===== verification/Net.v ===== *)
(** * IP addresses and networks

    [std::net::IpAddr] as the program uses it, and the interface of the
    [ipnet] crate: its operations as a class, what the program relies on as a
    second class of laws, and a reference implementation of both. The
    components are written and proved against the interface. *)

From S2P Require Import Prelude.
From stdpp Require Import prelude gmap strings.
From Stdlib Require Import Strings.Byte.
From Stdlib Require Strings.String.

Local Open Scope Z_scope.

(** ** [std::net] *)

(** An address is its value as a 32- or 128-bit integer ([to_bits]). *)
Inductive IpAddr : Type :=
  | V4 (bits : Z)
  | V6 (bits : Z).

#[export] Instance IpAddr_eq_dec : EqDecision IpAddr.
Proof. solve_decision. Defined.

#[export] Instance IpAddr_countable : Countable IpAddr.
Proof.
  refine (inj_countable'
    (λ a, match a with V4 z => inl z | V6 z => inr z end)
    (λ s, match s with inl z => V4 z | inr z => V6 z end) _).
  by intros [].
Defined.

Definition IpAddr_wf (a : IpAddr) : Prop :=
  match a with V4 z => unsigned 32 z | V6 z => unsigned 128 z end.

Definition is_ipv6 (a : IpAddr) : bool :=
  match a with V4 _ => false | V6 _ => true end.

(** [IpAddr::is_unspecified]: 0.0.0.0 or ::. *)
Definition is_unspecified (a : IpAddr) : bool :=
  match a with V4 z | V6 z => z =? 0 end.

(** [Ipv6Addr::new]: eight 16-bit groups, most significant first. *)
Definition Ipv6Addr_new (groups : list Z) : Z :=
  fold_left (λ acc g, acc * 65536 + g) groups 0.

(** ** [ipnet]: data *)

Record Ipv4Net := mkIpv4Net { addr4 : Z; prefix4 : Z }.
Record Ipv6Net := mkIpv6Net { addr6 : Z; prefix6 : Z }.

Inductive IpNet : Type :=
  | Net4 (n : Ipv4Net)
  | Net6 (n : Ipv6Net).

#[export] Instance Ipv4Net_eq_dec : EqDecision Ipv4Net.
Proof. solve_decision. Defined.
#[export] Instance Ipv6Net_eq_dec : EqDecision Ipv6Net.
Proof. solve_decision. Defined.
#[export] Instance IpNet_eq_dec : EqDecision IpNet.
Proof. solve_decision. Defined.

Definition IpNet_addr (n : IpNet) : IpAddr :=
  match n with Net4 n => V4 (addr4 n) | Net6 n => V6 (addr6 n) end.

Definition IpNet_prefix_len (n : IpNet) : Z :=
  match n with Net4 n => prefix4 n | Net6 n => prefix6 n end.

(** The values the crate's constructors produce. *)
Definition Ipv4Net_wf (n : Ipv4Net) : Prop :=
  unsigned 32 (addr4 n) ∧ 0 ≤ prefix4 n ≤ 32.
Definition Ipv6Net_wf (n : Ipv6Net) : Prop :=
  unsigned 128 (addr6 n) ∧ 0 ≤ prefix6 n ≤ 128.
Definition IpNet_wf (n : IpNet) : Prop :=
  match n with Net4 n => Ipv4Net_wf n | Net6 n => Ipv6Net_wf n end.

#[export] Instance IpAddr_wf_dec a : Decision (IpAddr_wf a).
Proof. destruct a; apply _. Defined.
#[export] Instance IpNet_wf_dec n : Decision (IpNet_wf n).
Proof. destruct n; unfold IpNet_wf, Ipv4Net_wf, Ipv6Net_wf; apply _. Defined.

(** ** Networks as integer ranges

    The first and the last address of the network of [a] with prefix length
    [p], for addresses of [w] bits. *)
Definition network (w a p : Z) : Z := Z.land a (high_mask w p).
Definition broadcast (w a p : Z) : Z := Z.lor a (Z.ones (w - p)).

Section Ranges.
Context (w p : Z) (Hp : 0 ≤ p ≤ w).

Lemma network_div a : unsigned w a → network w a p = 2 ^ (w - p) * (a / 2 ^ (w - p)).
Proof.
  intros Ha. rewrite Z.mul_comm, <- Z.shiftr_div_pow2, <- Z.shiftl_mul_pow2 by lia.
  unfold network. apply Z.bits_inj'. intros i Hi. autorewrite with zbits.
  split_positions.
  - f_equal. lia.
  - replace (i - (w - p) + (w - p)) with i by lia.
    by rewrite (testbit_unsigned_high w a) by (done || lia).
  - by rewrite Z.testbit_neg_r by lia.
Qed.

Lemma broadcast_div a :
  unsigned w a → broadcast w a p = 2 ^ (w - p) * (a / 2 ^ (w - p)) + (2 ^ (w - p) - 1).
Proof.
  intros Ha. rewrite <- network_div by done. unfold broadcast, network.
  replace (2 ^ (w - p) - 1) with (Z.ones (w - p)) by (rewrite Z.ones_equiv; lia).
  rewrite Z.add_nocarry_lxor by bits.
  apply Z.bits_inj'. intros i Hi. autorewrite with zbits.
  split_positions; try btauto.
  by rewrite (testbit_unsigned_high w a) by (done || lia).
Qed.

(** The range of a network holds exactly the addresses with its network part. *)
Lemma network_range a x :
  unsigned w a → unsigned w x →
  network w a p ≤ x ≤ broadcast w a p ↔ network w x p = network w a p.
Proof.
  intros Ha Hx. rewrite !network_div, broadcast_div by done.
  assert (0 < 2 ^ (w - p)) by (apply Z.pow_pos_nonneg; lia).
  pose proof (Z.div_mod x (2 ^ (w - p)) ltac:(lia)).
  pose proof (Z.mod_pos_bound x (2 ^ (w - p)) ltac:(lia)).
  split; [intros ?; f_equal|lia].
  symmetry. apply (Z.div_unique_pos _ _ _ (x - 2 ^ (w - p) * (a / 2 ^ (w - p)))); lia.
Qed.

Lemma network_unsigned a : unsigned w a → unsigned w (network w a p).
Proof. intros. unfold network. apply unsigned_land; auto with zbits lia. Qed.

Lemma network_idemp a : network w (network w a p) p = network w a p.
Proof. unfold network. bits. Qed.

Lemma network_le a : unsigned w a → network w a p ≤ a ≤ broadcast w a p.
Proof. intros. by apply network_range. Qed.
End Ranges.

(** ** [ipnet]: operations and laws *)

Class Ipnet := {
  Ipv4Net_netmask : Ipv4Net → Z;
  Ipv4Net_broadcast : Ipv4Net → Z;
  Ipv4Net_trunc : Ipv4Net → Ipv4Net;
  Ipv6Net_netmask : Ipv6Net → Z;
  Ipv6Net_trunc : Ipv6Net → Ipv6Net;
  IpNet_contains : IpNet → IpNet → bool;
  IpNet_new_assert : IpAddr → Z → outcome IpNet;
  IpNet_from_str : string → option IpNet;
  IpNet_to_string : IpNet → string;
}.

(** What the crate documents: masks, truncation to the prefix, the broadcast
    address, containment as inclusion of address ranges, the panic of
    [new_assert] on a prefix length beyond the address width, and the CIDR
    notation being read back as the network it was printed from. *)
Class IpnetLaws (ipnet : Ipnet) : Prop := {
  netmask4_law n : Ipv4Net_wf n → Ipv4Net_netmask n = high_mask 32 (prefix4 n);
  broadcast4_law n : Ipv4Net_wf n →
    Ipv4Net_broadcast n = broadcast 32 (addr4 n) (prefix4 n);
  trunc4_law n : Ipv4Net_wf n →
    Ipv4Net_trunc n = mkIpv4Net (network 32 (addr4 n) (prefix4 n)) (prefix4 n);
  netmask6_law n : Ipv6Net_wf n → Ipv6Net_netmask n = high_mask 128 (prefix6 n);
  trunc6_law n : Ipv6Net_wf n →
    Ipv6Net_trunc n = mkIpv6Net (network 128 (addr6 n) (prefix6 n)) (prefix6 n);
  contains_law a b : IpNet_wf a → IpNet_wf b →
    IpNet_contains a b =
      match a, b with
      | Net4 a, Net4 b =>
          (network 32 (addr4 a) (prefix4 a) <=? network 32 (addr4 b) (prefix4 b)) &&
          (broadcast 32 (addr4 b) (prefix4 b) <=? broadcast 32 (addr4 a) (prefix4 a))
      | Net6 a, Net6 b =>
          (network 128 (addr6 a) (prefix6 a) <=? network 128 (addr6 b) (prefix6 b)) &&
          (broadcast 128 (addr6 b) (prefix6 b) <=? broadcast 128 (addr6 a) (prefix6 a))
      | _, _ => false
      end;
  new_assert_law ip p :
    IpNet_new_assert ip p =
      match ip with
      | V4 a => if p <=? 32 then Ret (Net4 (mkIpv4Net a p)) else Panic
      | V6 a => if p <=? 128 then Ret (Net6 (mkIpv6Net a p)) else Panic
      end;
  from_str_wf s n : IpNet_from_str s = Some n → IpNet_wf n;
  from_to_str n : IpNet_wf n → IpNet_from_str (IpNet_to_string n) = Some n;
}.

(** [IpNet::trunc] on the enum. *)
Definition IpNet_trunc `{Ipnet} (n : IpNet) : IpNet :=
  match n with
  | Net4 n => Net4 (Ipv4Net_trunc n)
  | Net6 n => Net6 (Ipv6Net_trunc n)
  end.

(** The address [x] lies in the network [n]. *)
Definition in_network (n : IpNet) (x : IpAddr) : Prop :=
  match n, x with
  | Net4 n, V4 x => network 32 x (prefix4 n) = network 32 (addr4 n) (prefix4 n)
  | Net6 n, V6 x => network 128 x (prefix6 n) = network 128 (addr6 n) (prefix6 n)
  | _, _ => False
  end.

#[export] Instance in_network_dec n x : Decision (in_network n x).
Proof. destruct n, x; simpl; apply _. Defined.

Section Facts.
Context `{IpnetLaws}.

(** Containment of networks puts the address of the inner one in the outer. *)
Lemma contains_in_network a b :
  IpNet_wf a → IpNet_wf b → IpNet_contains a b = true → in_network a (IpNet_addr b).
Proof.
  intros Ha Hb Hc. rewrite contains_law in Hc by done.
  destruct a as [a|a], b as [b|b]; try done; destruct Ha, Hb; bool_to_prop; simpl.
  - apply network_range; [lia|done..|].
    pose proof (network_le 32 (prefix4 b) ltac:(lia) (addr4 b) ltac:(done)). lia.
  - apply network_range; [lia|done..|].
    pose proof (network_le 128 (prefix6 b) ltac:(lia) (addr6 b) ltac:(done)). lia.
Qed.

Lemma IpNet_trunc_prefix_len n :
  IpNet_wf n → IpNet_prefix_len (IpNet_trunc n) = IpNet_prefix_len n.
Proof.
  destruct n; simpl; intros; [by rewrite trunc4_law|by rewrite trunc6_law].
Qed.

Lemma IpNet_trunc_wf n : IpNet_wf n → IpNet_wf (IpNet_trunc n).
Proof.
  destruct n; simpl; intros Hn; [rewrite trunc4_law by done|rewrite trunc6_law by done];
    destruct Hn; split; simpl; try done; by apply network_unsigned.
Qed.
End Facts.

(** ** A reference implementation

    Networks are printed as a family tag, the prefix length and the octets. It
    is an instance of the laws that computes. *)
Module IpnetRef.

Definition contains (a b : IpNet) : bool :=
  match a, b with
  | Net4 a, Net4 b =>
      (network 32 (addr4 a) (prefix4 a) <=? network 32 (addr4 b) (prefix4 b)) &&
      (broadcast 32 (addr4 b) (prefix4 b) <=? broadcast 32 (addr4 a) (prefix4 a))
  | Net6 a, Net6 b =>
      (network 128 (addr6 a) (prefix6 a) <=? network 128 (addr6 b) (prefix6 b)) &&
      (broadcast 128 (addr6 b) (prefix6 b) <=? broadcast 128 (addr6 a) (prefix6 a))
  | _, _ => false
  end.

Definition new_assert (ip : IpAddr) (p : Z) : outcome IpNet :=
  match ip with
  | V4 a => if p <=? 32 then Ret (Net4 (mkIpv4Net a p)) else Panic
  | V6 a => if p <=? 128 then Ret (Net6 (mkIpv6Net a p)) else Panic
  end.

Definition to_string (n : IpNet) : string :=
  String.string_of_list_byte
    match n with
    | Net4 n => x34 :: byte_of (prefix4 n) :: to_be_bytes 4 (addr4 n)
    | Net6 n => x36 :: byte_of (prefix6 n) :: to_be_bytes 16 (addr6 n)
    end.

Definition from_str (s : string) : option IpNet :=
  match String.list_byte_of_string s with
  | x34 :: p :: l =>
      if (byte_val p <=? 32) && bool_decide (length l = 4%nat)
      then Some (Net4 (mkIpv4Net (from_be_bytes l) (byte_val p))) else None
  | x36 :: p :: l =>
      if (byte_val p <=? 128) && bool_decide (length l = 16%nat)
      then Some (Net6 (mkIpv6Net (from_be_bytes l) (byte_val p))) else None
  | _ => None
  end.

#[export] Instance ipnet : Ipnet := {
  Ipv4Net_netmask n := high_mask 32 (prefix4 n);
  Ipv4Net_broadcast n := broadcast 32 (addr4 n) (prefix4 n);
  Ipv4Net_trunc n := mkIpv4Net (network 32 (addr4 n) (prefix4 n)) (prefix4 n);
  Ipv6Net_netmask n := high_mask 128 (prefix6 n);
  Ipv6Net_trunc n := mkIpv6Net (network 128 (addr6 n) (prefix6 n)) (prefix6 n);
  IpNet_contains := contains;
  IpNet_new_assert := new_assert;
  IpNet_from_str := from_str;
  IpNet_to_string := to_string;
}.

Lemma from_str_wf s n : from_str s = Some n → IpNet_wf n.
Proof.
  unfold from_str. intros E.
  destruct (String.list_byte_of_string s) as [|f [|p l]]; [done|by destruct f|].
  pose proof (byte_val_unsigned p) as [??].
  destruct f; try done; case_match; try done; simplify_eq; bool_to_prop;
    (split; [|simpl; lia]).
  - by apply (from_be_bytes_unsigned l 4).
  - by apply (from_be_bytes_unsigned l 16).
Qed.

Lemma from_to_str n : IpNet_wf n → from_str (to_string n) = Some n.
Proof.
  unfold from_str, to_string. intros Hn. rewrite String.list_byte_of_string_of_list_byte.
  destruct n as [[a p]|[a p]]; destruct Hn as [Ha Hp]; simpl in Ha, Hp;
    rewrite byte_val_of, (Z.mod_small p), length_to_be_bytes, from_to_be_bytes,
      Z.mod_small by (done || lia); cbn [prefix4 addr4 prefix6 addr6];
    rewrite (proj2 (Z.leb_le p _)) by lia; done.
Qed.

#[export] Instance ipnet_laws : IpnetLaws ipnet.
Proof.
  constructor; try done.
  - apply from_str_wf.
  - apply from_to_str.
Qed.
End IpnetRef.
