(* ===== verification/IpText.v ===== *)
(** * Addresses as text

    How [std::net] prints and reads an [IpAddr], which [src/src/show.rs] prints
    and the configuration and the tests write down. Printing follows
    [fmt::Display]: dotted octets, lower-case groups with the longest run of at
    least two zero groups compressed, and the dotted form of a mapped IPv4
    address. Reading is the recursive descent of [FromStr]. *)

From S2P Require Import Prelude Net.
From stdpp Require Import prelude strings.
From Stdlib Require Import Ascii.

Local Open Scope Z_scope.

(** ** Numbers *)
Definition digit_char (d : Z) : ascii :=
  ascii_of_N (Z.to_N (if d <? 10 then 48 + d else 87 + d)).

(** [char::to_digit] for a radix of at most 16. *)
Definition to_digit (radix : Z) (c : ascii) : option Z :=
  let n := Z.of_N (N_of_ascii c) in
  let d := if (48 <=? n) && (n <=? 57) then n - 48
           else if (97 <=? n) && (n <=? 122) then n - 87
           else if (65 <=? n) && (n <=? 90) then n - 55
           else radix in
  if d <? radix then Some d else None.

(** The digits of [z] without leading zeros; [fuel] bounds their number. *)
Fixpoint digits_of (fuel : nat) (radix z : Z) : list Z :=
  match fuel with
  | O => []
  | S fuel => (if z / radix =? 0 then [] else digits_of fuel radix (z / radix)) ++ [z mod radix]
  end.

Definition string_of_digits (ds : list Z) : string :=
  foldr (λ d s, String (digit_char d) s) EmptyString ds.

(** [{}] of a [u8] and [{:x}] of a [u16]. *)
Definition fmt_u8 (z : Z) : string := string_of_digits (digits_of 3 10 z).
Definition fmt_hex (z : Z) : string := string_of_digits (digits_of 4 16 z).

(** ** [Display] *)
Definition octets (z : Z) : list Z := byte_val <$> to_be_bytes 4 z.
Definition segments (z : Z) : list Z :=
  (λ i, Z.shiftr z (16 * i) mod 65536) <$> [7; 6; 5; 4; 3; 2; 1; 0].

(** Texts with a separator between them. *)
Fixpoint intersperse (sep : string) (l : list string) : string :=
  match l with
  | [] => EmptyString
  | s :: l => s +:+ foldr (λ t rest, sep +:+ t +:+ rest) EmptyString l
  end.

Definition fmt_ipv4 (z : Z) : string := intersperse "." (fmt_u8 <$> octets z).

Record Span := mkSpan { start : nat; len : nat }.

(** The first of the longest runs of zeros. *)
Fixpoint zeroes (i : nat) (segs : list Z) (longest current : Span) : Span :=
  match segs with
  | [] => longest
  | seg :: segs =>
      if seg =? 0 then
        let current := mkSpan (if (len current =? 0)%nat then i else start current)
                              (S (len current)) in
        zeroes (S i) segs (if (len longest <? len current)%nat then current else longest) current
      else zeroes (S i) segs longest (mkSpan 0 0)
  end.

Definition fmt_subslice (chunk : list Z) : string := intersperse ":" (fmt_hex <$> chunk).

Definition to_ipv4_mapped (z : Z) : option Z :=
  if Z.shiftr z 32 =? 0xffff then Some (z mod 2 ^ 32) else None.

Definition fmt_ipv6 (z : Z) : string :=
  match to_ipv4_mapped z with
  | Some v4 => "::ffff:" +:+ fmt_ipv4 v4
  | None =>
      let segs := segments z in
      let zs := zeroes 0 segs (mkSpan 0 0) (mkSpan 0 0) in
      if (1 <? len zs)%nat then
        fmt_subslice (take (start zs) segs) +:+ "::" +:+
        fmt_subslice (drop (start zs + len zs) segs)
      else fmt_subslice segs
  end.

Definition IpAddr_to_string (a : IpAddr) : string :=
  match a with V4 z => fmt_ipv4 z | V6 z => fmt_ipv6 z end.

(** ** [FromStr]

    A reader consumes a prefix of its input or fails without consuming. *)
Definition reader (A : Type) : Type := string → option (A * string).

Fixpoint read_digits (radix : Z) (s : string) : list Z * string :=
  match s with
  | EmptyString => ([], s)
  | String c s' =>
      match to_digit radix c with
      | Some d => let '(ds, rest) := read_digits radix s' in (d :: ds, rest)
      | None => ([], s)
      end
  end.

Definition digits_value (radix : Z) (ds : list Z) : Z := foldl (λ acc d, acc * radix + d) 0 ds.

(** The result has [width] bits. *)
Definition read_number (radix : Z) (max_digits : nat) (allow_zero_prefix : bool) (width : Z) :
    reader Z := λ s,
  let '(ds, rest) := read_digits radix s in
  let has_leading_zero := bool_decide (head ds = Some 0) in
  if (max_digits <? length ds)%nat then None
  else if (length ds =? 0)%nat then None
  else if negb allow_zero_prefix && has_leading_zero && (1 <? length ds)%nat then None
  else let n := digits_value radix ds in
       if n <? 2 ^ width then Some (n, rest) else None.

(** The separator comes before every element but the first. *)
Definition read_separator {A} (sep : ascii) (index : nat) (inner : reader A) : reader A := λ s,
  if (0 <? index)%nat then
    match s with
    | String c s' => if decide (c = sep) then inner s' else None
    | EmptyString => None
    end
  else inner s.

Definition read_octet (index : nat) : reader Z :=
  read_separator "." index (read_number 10 3 false 8).

Definition read_ipv4_addr : reader Z := λ s,
  '(a, s) ← read_octet 0 s; '(b, s) ← read_octet 1 s;
  '(c, s) ← read_octet 2 s; '(d, s) ← read_octet 3 s;
  Some (((a * 256 + b) * 256 + c) * 256 + d, s).

(** [n] slots from index [i] on; an embedded IPv4 address takes two of them and
    ends the groups. *)
Fixpoint read_groups (n i : nat) (s : string) : list Z * bool * string :=
  match n with
  | O => ([], false, s)
  | S n' =>
      match (if (0 <? n')%nat then read_separator ":" i read_ipv4_addr s else None) with
      | Some (v4, rest) => ([v4 / 65536; v4 mod 65536], true, rest)
      | None =>
          match read_separator ":" i (read_number 16 4 true 16) s with
          | Some (g, rest) =>
              let '(gs, is_v4, rest) := read_groups n' (S i) rest in (g :: gs, is_v4, rest)
          | None => ([], false, s)
          end
      end
  end.

Definition read_ipv6_addr : reader Z := λ s,
  let '(head, head_ipv4, rest) := read_groups 8 0 s in
  if (length head =? 8)%nat then Some (Ipv6Addr_new head, rest)
  else if head_ipv4 then None
  else
    match rest with
    | String c1 (String c2 rest) =>
        if bool_decide (c1 = ":"%char) && bool_decide (c2 = ":"%char) then
          let '(tail, _, rest) := read_groups (8 - (length head + 1)) 0 rest in
          Some (Ipv6Addr_new (head ++ replicate (8 - length head - length tail) 0 ++ tail), rest)
        else None
    | _ => None
    end.

Definition read_ip_addr : reader IpAddr := λ s,
  match read_ipv4_addr s with
  | Some (z, rest) => Some (V4 z, rest)
  | None => '(z, rest) ← read_ipv6_addr s; Some (V6 z, rest)
  end.

Definition IpAddr_from_str (s : string) : option IpAddr :=
  match read_ip_addr s with
  | Some (a, EmptyString) => Some a
  | _ => None
  end.

Example texts :
  IpAddr_to_string (V6 0xfdbda6ce654d00006f56d923de1e5588) =
    "fdbd:a6ce:654d:0:6f56:d923:de1e:5588"%string ∧
  IpAddr_to_string (V6 0x20010db8000000000001000000000000) = "2001:db8:0:0:1::"%string ∧
  IpAddr_to_string (V6 0xffffc0a80001) = "::ffff:192.168.0.1"%string ∧
  IpAddr_to_string (V6 0) = "::"%string ∧ IpAddr_to_string (V4 0x0a0000ff) = "10.0.0.255"%string ∧
  IpAddr_from_str "FDBD::1" = Some (V6 0xfdbd0000000000000000000000000001) ∧
  IpAddr_from_str "1::2::3" = None ∧ IpAddr_from_str "10.0.0.01" = None ∧
  IpAddr_from_str "1:2:3:4:5:6:7.8.9.10" = Some (V6 0x0001000200030004000500060708090a).
Proof. vm_compute. done. Qed.

(** ** Numbers are read back *)

Lemma to_digit_char radix d :
  0 ≤ d < 16 → radix = 10 ∨ radix = 16 →
  to_digit radix (digit_char d) = if d <? radix then Some d else None.
Proof.
  intros Hd Hr.
  assert (Forall (λ d, to_digit 10 (digit_char d) = (if d <? 10 then Some d else None) ∧
    to_digit 16 (digit_char d) = (if d <? 16 then Some d else None)) (seqZ 0 16)) as H
    by by_decide.
  rewrite Forall_forall in H. destruct (H d) as [H10 H16]; [by apply elem_of_seqZ|].
  by destruct Hr as [-> | ->].
Qed.

Lemma digit_char_not_sep d : 0 ≤ d < 16 → digit_char d ≠ ":"%char ∧ digit_char d ≠ "."%char.
Proof.
  intros Hd.
  assert (Forall (λ d, digit_char d ≠ ":"%char ∧ digit_char d ≠ "."%char) (seqZ 0 16)) as H
    by by_decide.
  rewrite Forall_forall in H. by apply H, elem_of_seqZ.
Qed.

Section Digits.
Context (radix : Z) (Hradix : radix = 10 ∨ radix = 16).

Lemma digits_value_snoc ds d :
  digits_value radix (ds ++ [d]) = digits_value radix ds * radix + d.
Proof. unfold digits_value. by rewrite foldl_app. Qed.

Lemma digits_of_bounds fuel z : 0 ≤ z → Forall (λ d, 0 ≤ d < radix) (digits_of fuel radix z).
Proof.
  revert z. induction fuel as [|fuel IH]; intros z Hz; [constructor|].
  simpl. apply Forall_app. split.
  - case_match; [constructor|]. apply IH. apply Z.div_pos; lia.
  - repeat constructor; apply Z.mod_pos_bound; lia.
Qed.

Lemma digits_of_value fuel z :
  0 ≤ z < radix ^ Z.of_nat fuel → digits_value radix (digits_of fuel radix z) = z.
Proof.
  revert z. induction fuel as [|fuel IH]; intros z Hz;
    [change (0 ≤ z < 1) in Hz; change (0 = z); lia|].
  rewrite Nat2Z.inj_succ, Z.pow_succ_r in Hz by lia.
  assert (0 ≤ z / radix < radix ^ Z.of_nat fuel) as Hd
    by (split; [apply Z.div_pos|apply Z.div_lt_upper_bound]; lia).
  pose proof (Z.div_mod z radix ltac:(lia)) as Hm.
  simpl. rewrite digits_value_snoc. destruct (Z.eqb_spec (z / radix) 0) as [E|E].
  - change (digits_value radix []) with 0. lia.
  - rewrite IH by done. lia.
Qed.

Lemma digits_of_length fuel z :
  (0 < fuel)%nat → (1 ≤ length (digits_of fuel radix z) ≤ fuel)%nat.
Proof.
  revert z. induction fuel as [|fuel IH]; intros z Hf; [lia|].
  simpl. rewrite length_app. simpl. case_match; simpl; [lia|].
  destruct fuel as [|fuel]; [simpl; lia|]. pose proof (IH (z / radix) ltac:(lia)). lia.
Qed.

(** There is no leading zero but in zero itself. *)
Lemma digits_of_head fuel z :
  0 ≤ z < radix ^ Z.of_nat fuel → head (digits_of fuel radix z) = Some 0 →
  length (digits_of fuel radix z) = 1%nat.
Proof.
  revert z. induction fuel as [|fuel IH]; intros z Hz Hh; [done|].
  rewrite Nat2Z.inj_succ, Z.pow_succ_r in Hz by lia.
  assert (0 ≤ z / radix < radix ^ Z.of_nat fuel) as Hd
    by (split; [apply Z.div_pos|apply Z.div_lt_upper_bound]; lia).
  simpl in *. destruct (Z.eqb_spec (z / radix) 0) as [E|E]; [done|exfalso].
  destruct fuel as [|fuel]; [simpl in Hd; lia|].
  pose proof (digits_of_length (S fuel) (z / radix) ltac:(lia)) as Hl.
  pose proof (digits_of_value (S fuel) (z / radix) Hd) as Hv.
  specialize (IH (z / radix) Hd).
  destruct (digits_of (S fuel) radix (z / radix)) as [|d ds]; [simpl in Hl; lia|].
  simpl in Hh. injection Hh as ->. specialize (IH eq_refl).
  destruct ds; [|done]. by change (0 * radix + 0 = z / radix) in Hv; lia.
Qed.

Definition no_digit (s : string) : Prop :=
  match s with EmptyString => True | String c _ => to_digit radix c = None end.

Lemma read_digits_string ds rest :
  Forall (λ d, 0 ≤ d < radix) ds → no_digit rest →
  read_digits radix (string_of_digits ds +:+ rest) = (ds, rest).
Proof.
  intros Hds Hrest. induction Hds as [|d ds Hd Hds IH].
  - simpl. destruct rest as [|c rest]; [done|]. simpl in *. by rewrite Hrest.
  - change (string_of_digits (d :: ds) +:+ rest)
      with (String (digit_char d) (string_of_digits ds +:+ rest)).
    cbn [read_digits]. rewrite to_digit_char by lia. rewrite (proj2 (Z.ltb_lt d radix)) by lia.
    by rewrite IH.
Qed.

Lemma read_number_string fuel z allow width rest :
  (0 < fuel)%nat → 0 ≤ z < radix ^ Z.of_nat fuel → z < 2 ^ width → no_digit rest →
  read_number radix fuel allow width (string_of_digits (digits_of fuel radix z) +:+ rest)
    = Some (z, rest).
Proof.
  intros Hf Hz Hw Hrest. unfold read_number.
  rewrite read_digits_string by (done || (apply digits_of_bounds; lia)).
  pose proof (digits_of_length fuel z Hf) as Hl. pose proof (digits_of_head fuel z Hz) as Hh.
  rewrite digits_of_value by done.
  destruct (Nat.ltb_spec fuel (length (digits_of fuel radix z))); [lia|].
  destruct (Nat.eqb_spec (length (digits_of fuel radix z)) 0); [lia|].
  assert (negb allow && bool_decide (head (digits_of fuel radix z) = Some 0) &&
          (1 <? length (digits_of fuel radix z))%nat = false) as ->.
  { case_bool_decide as Eh; [|by rewrite andb_false_r]. by rewrite (Hh Eh), andb_false_r. }
  by rewrite (proj2 (Z.ltb_lt z _)).
Qed.
End Digits.

(** ** Groups and octets are read back *)

(** What follows a group: nothing, or a colon. *)
Definition ends_group (s : string) : Prop :=
  match s with EmptyString => True | String c _ => c = ":"%char end.

Lemma read_group g rest :
  unsigned 16 g → ends_group rest →
  read_number 16 4 true 16 (fmt_hex g +:+ rest) = Some (g, rest).
Proof.
  intros [??] Hr. apply read_number_string; [by right|lia|simpl; lia|done|].
  destruct rest as [|c rest]; [done|]. simpl in Hr. by subst c.
Qed.

(** A group is no IPv4 address: after its decimal digits comes no dot. *)
Lemma read_digits_no_dot ds rest :
  Forall (λ d, 0 ≤ d < 16) ds → ends_group rest →
  match (read_digits 10 (string_of_digits ds +:+ rest)).2 with
  | EmptyString => True
  | String c _ => c ≠ "."%char
  end.
Proof.
  intros Hds Hr. induction Hds as [|d ds Hd Hds IH].
  - simpl. destruct rest as [|c rest]; [done|]. simpl in Hr. by subst c.
  - change (string_of_digits (d :: ds) +:+ rest)
      with (String (digit_char d) (string_of_digits ds +:+ rest)).
    cbn [read_digits]. rewrite to_digit_char by (done || by left).
    destruct (d <? 10).
    + by destruct (read_digits 10 _) as [??].
    + simpl. by apply digit_char_not_sep.
Qed.

Lemma read_octet_no_dot i s :
  match s with EmptyString => True | String c _ => c ≠ "."%char end → read_octet (S i) s = None.
Proof.
  intros Hs. unfold read_octet, read_separator. change (0 <? S i)%nat with true.
  destruct s as [|c s]; [done|]. by destruct (decide (c = "."%char)).
Qed.

Lemma read_ipv4_no_dot s :
  match (read_digits 10 s).2 with EmptyString => True | String c _ => c ≠ "."%char end →
  read_ipv4_addr s = None.
Proof.
  intros Hs. unfold read_ipv4_addr.
  destruct (read_octet 0 s) as [[z rest]|] eqn:E; [|done]. simpl.
  assert (rest = (read_digits 10 s).2) as ->.
  { unfold read_octet, read_separator, read_number in E. simpl in E.
    destruct (read_digits 10 s) as [ds r]. by repeat case_match; simplify_eq. }
  by rewrite read_octet_no_dot.
Qed.

Lemma read_ipv4_group g rest :
  unsigned 16 g → ends_group rest → read_ipv4_addr (fmt_hex g +:+ rest) = None.
Proof.
  intros [??] Hr. apply read_ipv4_no_dot, read_digits_no_dot; [|done].
  apply digits_of_bounds; [by right|lia].
Qed.

(** The text from group [i] on: with its separator unless it is the first. *)
Definition groups_text (i : nat) (gs : list Z) : string :=
  match i with
  | O => fmt_subslice gs
  | S _ => foldr (λ t rest, ":" +:+ t +:+ rest) EmptyString (fmt_hex <$> gs)
  end.

Lemma groups_text_ends gs rest :
  ends_group rest → ends_group (groups_text 1 gs +:+ rest).
Proof. by destruct gs. Qed.

Lemma read_separator_group {A} i (inner : reader A) g gs rest :
  read_separator ":" i inner (groups_text i (g :: gs) +:+ rest) =
  inner (fmt_hex g +:+ (groups_text 1 gs +:+ rest)).
Proof.
  destruct i as [|i]; unfold read_separator.
  - change (groups_text 0 (g :: gs)) with (fmt_hex g +:+ groups_text 1 gs).
    by rewrite string_app_assoc.
  - change (groups_text (S i) (g :: gs) +:+ rest)
      with (String ":" ((fmt_hex g +:+ groups_text 1 gs) +:+ rest)).
    change (0 <? S i)%nat with true. cbv iota.
    rewrite decide_True by done. by rewrite string_app_assoc.
Qed.

(** Reading stops where no further group can start. *)
Definition no_group (s : string) : Prop :=
  s = EmptyString ∨ ∃ s', s = String ":" (String ":" s').

Lemma read_groups_stop n i s : no_group s → read_groups n i s = ([], false, s).
Proof.
  intros Hs. destruct n as [|n]; [done|]. cbn [read_groups].
  assert (read_separator ":" i read_ipv4_addr s = None) as ->.
  { destruct Hs as [-> | [s' ->]]; unfold read_separator; destruct i; done. }
  assert (read_separator ":" i (read_number 16 4 true 16) s = None) as ->.
  { destruct Hs as [-> | [s' ->]]; unfold read_separator; destruct i; done. }
  by destruct (0 <? n)%nat.
Qed.

Lemma no_group_ends s : no_group s → ends_group s.
Proof. by intros [-> | [s' ->]]. Qed.

Lemma read_groups_text n i gs rest :
  Forall (unsigned 16) gs → (length gs ≤ n)%nat → no_group rest →
  read_groups n i (groups_text i gs +:+ rest) = (gs, false, rest).
Proof.
  intros Hgs. revert n i. induction Hgs as [|g gs Hg Hgs IH]; intros n i Hn Hr.
  { assert (groups_text i [] +:+ rest = rest) as -> by by destruct i.
    by apply read_groups_stop. }
  destruct n as [|n]; [simpl in Hn; lia|]. cbn [read_groups]. rewrite !read_separator_group.
  assert (ends_group (groups_text 1 gs +:+ rest)) by by apply groups_text_ends, no_group_ends.
  rewrite read_ipv4_group, read_group by done. change (groups_text 1 gs) with (groups_text (S i) gs).
  rewrite (IH n (S i)) by (done || (simpl in Hn; lia)).
  by destruct (0 <? n)%nat.
Qed.

Definition ends_octet (s : string) : Prop :=
  match s with EmptyString => True | String c _ => c = "."%char end.

Lemma read_octet_first o rest :
  unsigned 8 o → ends_octet rest → read_octet 0 (fmt_u8 o +:+ rest) = Some (o, rest).
Proof.
  intros [??] Hr. apply read_number_string; [by left|lia|simpl in *; lia|done|].
  destruct rest as [|c rest]; [done|]. simpl in Hr. by subst c.
Qed.

Lemma read_octet_next i o rest :
  unsigned 8 o → ends_octet rest →
  read_octet (S i) (String "." (fmt_u8 o +:+ rest)) = Some (o, rest).
Proof.
  intros Ho Hr. rewrite <- (read_octet_first o rest Ho Hr).
  unfold read_octet, read_separator. change (0 <? S i)%nat with true. cbv iota.
  by rewrite decide_True.
Qed.

Lemma octets_value z :
  unsigned 32 z →
  ∃ a b c d, octets z = [a; b; c; d] ∧ Forall (unsigned 8) [a; b; c; d] ∧
    z = ((a * 256 + b) * 256 + c) * 256 + d.
Proof.
  intros Hz. pose proof (from_to_be_bytes 4 z) as E. rewrite Z.mod_small in E by done.
  unfold octets. pose proof (length_to_be_bytes 4 z) as Hl.
  destruct (to_be_bytes 4 z) as [|a [|b [|c [|d [|]]]]]; try done.
  exists (byte_val a), (byte_val b), (byte_val c), (byte_val d). split; [done|]. split.
  - repeat constructor; apply byte_val_unsigned.
  - rewrite <- E. unfold from_be_bytes. simpl. lia.
Qed.

Lemma read_ipv4_text z rest :
  unsigned 32 z → ends_octet rest → read_ipv4_addr (fmt_ipv4 z +:+ rest) = Some (z, rest).
Proof.
  intros Hz Hr. destruct (octets_value z Hz) as (a & b & c & d & E & Hb & ->).
  apply Forall_cons in Hb as [Ha Hb]. apply Forall_cons in Hb as [Hb Hc].
  apply Forall_cons in Hc as [Hc Hd]. apply Forall_cons in Hd as [Hd _].
  unfold fmt_ipv4. rewrite E.
  change (intersperse "." (fmt_u8 <$> [a; b; c; d]))
    with (fmt_u8 a +:+ String "." (fmt_u8 b +:+ String "." (fmt_u8 c +:+ String "."
           (fmt_u8 d +:+ EmptyString)))).
  rewrite string_app_nil_r.
  set (t3 := String "." (fmt_u8 d)). set (t2 := String "." (fmt_u8 c +:+ t3)).
  set (t1 := String "." (fmt_u8 b +:+ t2)). rewrite string_app_assoc. unfold read_ipv4_addr.
  rewrite (read_octet_first a) by done. cbn [mbind option_bind].
  change (t1 +:+ rest) with (String "." ((fmt_u8 b +:+ t2) +:+ rest)). rewrite string_app_assoc.
  rewrite (read_octet_next 0 b _ Hb) by done. cbn [mbind option_bind].
  change (t2 +:+ rest) with (String "." ((fmt_u8 c +:+ t3) +:+ rest)). rewrite string_app_assoc.
  rewrite (read_octet_next 1 c _ Hc) by done. cbn [mbind option_bind].
  change (t3 +:+ rest) with (String "." (fmt_u8 d +:+ rest)).
  by rewrite (read_octet_next 2 d _ Hd).
Qed.

(** ** The run of zeros *)

(** [span] is a run of zeros of [segs]. *)
Definition zero_run (segs : list Z) (span : Span) : Prop :=
  take (len span) (drop (start span) segs) = replicate (len span) 0.

Lemma zeroes_run segs done_ todo longest current :
  segs = done_ ++ todo → zero_run segs longest → zero_run segs current →
  (len current = 0 ∨ start current + len current = length done_)%nat →
  zero_run segs (zeroes (length done_) todo longest current).
Proof.
  revert done_ longest current.
  induction todo as [|seg todo IH]; intros done_ longest current Hs Hl Hc He; [done|].
  assert (S (length done_) = length (done_ ++ [seg])) as El by (rewrite length_app; simpl; lia).
  assert (segs = (done_ ++ [seg]) ++ todo) as Hs' by (by rewrite <- app_assoc).
  cbn [zeroes]. rewrite El. destruct (Z.eqb_spec seg 0) as [->|]; [|by apply IH; [| | |left]].
  set (st := if (len current =? 0)%nat then length done_ else start current).
  assert (st + len current = length done_)%nat as Hst.
  { subst st. destruct (Nat.eqb_spec (len current) 0); lia. }
  assert (zero_run segs (mkSpan st (S (len current)))) as Hc'.
  { unfold zero_run in *. simpl. rewrite (take_S_r _ _ 0).
    - replace (take (len current) (drop st segs)) with (replicate (len current) 0).
      + by rewrite <- replicate_S_end.
      + subst st. destruct (Nat.eqb_spec (len current) 0) as [E|E]; [by rewrite E|done].
    - rewrite lookup_drop, Hst, Hs. by apply list_lookup_middle. }
  apply IH; [done| |done|right; simpl; rewrite <- El; lia]. by case_match.
Qed.

Lemma zero_run_split segs span :
  zero_run segs span →
  segs = take (start span) segs ++ replicate (len span) 0 ++ drop (start span + len span) segs.
Proof.
  intros Hz. rewrite <- Hz, <- drop_drop, take_drop. by rewrite take_drop.
Qed.

(** ** Round trip *)

Lemma segment_step z i :
  0 ≤ i → Z.shiftr z (16 * (i + 1)) * 65536 + Z.shiftr z (16 * i) mod 65536 = Z.shiftr z (16 * i).
Proof.
  intros Hi. replace (16 * (i + 1)) with (16 * i + 16) by lia.
  rewrite <- Z.shiftr_shiftr, (Z.shiftr_div_pow2 _ 16) by lia. change (2 ^ 16) with 65536.
  pose proof (Z.div_mod (Z.shiftr z (16 * i)) 65536 ltac:(lia)). lia.
Qed.

Lemma segments_value z : unsigned 128 z → Ipv6Addr_new (segments z) = z.
Proof.
  intros Hz. unfold Ipv6Addr_new, segments. csimpl.
  rewrite Z.mul_0_l, Z.add_0_l, (Z.mod_small (Z.shiftr z (16 * 7))).
  2: { rewrite Z.shiftr_div_pow2 by lia. destruct Hz.
       split; [apply Z.div_pos|apply Z.div_lt_upper_bound]; lia. }
  rewrite (segment_step z 6 ltac:(lia) : Z.shiftr z (16 * 7) * 65536 + _ = _).
  rewrite (segment_step z 5 ltac:(lia) : Z.shiftr z (16 * 6) * 65536 + _ = _).
  rewrite (segment_step z 4 ltac:(lia) : Z.shiftr z (16 * 5) * 65536 + _ = _).
  rewrite (segment_step z 3 ltac:(lia) : Z.shiftr z (16 * 4) * 65536 + _ = _).
  rewrite (segment_step z 2 ltac:(lia) : Z.shiftr z (16 * 3) * 65536 + _ = _).
  rewrite (segment_step z 1 ltac:(lia) : Z.shiftr z (16 * 2) * 65536 + _ = _).
  exact (segment_step z 0 ltac:(lia)).
Qed.

Lemma segments_unsigned z : Forall (unsigned 16) (segments z).
Proof.
  apply Forall_fmap, Forall_true. intros i. by apply Z.mod_pos_bound.
Qed.

(** A reader of the uncompressed form, of the compressed form, and of the form
    with an embedded IPv4 address. *)
Lemma read_ipv6_full gs :
  Forall (unsigned 16) gs → length gs = 8%nat →
  read_ipv6_addr (fmt_subslice gs) = Some (Ipv6Addr_new gs, EmptyString).
Proof.
  intros Hgs Hl. unfold read_ipv6_addr. rewrite <- (string_app_nil_r (fmt_subslice gs)).
  change (fmt_subslice gs) with (groups_text 0 gs).
  rewrite read_groups_text by (done || lia || by left). by rewrite Hl.
Qed.

Lemma read_ipv6_compressed hd tl :
  Forall (unsigned 16) hd → Forall (unsigned 16) tl → (length hd + length tl ≤ 7)%nat →
  read_ipv6_addr (fmt_subslice hd +:+ "::" +:+ fmt_subslice tl) =
    Some (Ipv6Addr_new (hd ++ replicate (8 - length hd - length tl) 0 ++ tl), EmptyString).
Proof.
  intros Hh Ht Hl. unfold read_ipv6_addr. change (fmt_subslice hd) with (groups_text 0 hd).
  rewrite read_groups_text; [|done|lia|by right; eexists].
  destruct (Nat.eqb_spec (length hd) 8); [lia|]. cbv iota.
  change ("::" +:+ fmt_subslice tl) with (String ":" (String ":" (fmt_subslice tl))). cbv iota.
  rewrite !bool_decide_eq_true_2 by done. cbv iota. simpl andb. cbv iota.
  rewrite <- (string_app_nil_r (fmt_subslice tl)). change (fmt_subslice tl) with (groups_text 0 tl).
  by rewrite read_groups_text by (done || lia || by left).
Qed.

Lemma read_ipv6_mapped v4 :
  unsigned 32 v4 →
  read_ipv6_addr ("::ffff:" +:+ fmt_ipv4 v4) =
    Some (Ipv6Addr_new [0; 0; 0; 0; 0; 0xffff; v4 / 65536; v4 mod 65536], EmptyString).
Proof.
  intros Hv. unfold read_ipv6_addr.
  change ("::ffff:" +:+ fmt_ipv4 v4)
    with (String ":" (String ":" (fmt_hex 0xffff +:+ String ":" (fmt_ipv4 v4)))).
  rewrite read_groups_stop by (by right; eexists). cbn [length Nat.eqb].
  rewrite !bool_decide_eq_true_2 by done. cbn [andb Nat.sub Nat.add].
  cbn [read_groups Nat.ltb Nat.leb]. unfold read_separator at 1 2. cbn [Nat.ltb Nat.leb].
  rewrite read_ipv4_group, read_group by done.
  unfold read_separator at 1. cbn [Nat.ltb Nat.leb]. rewrite decide_True by done.
  rewrite <- (string_app_nil_r (fmt_ipv4 v4)). by rewrite read_ipv4_text.
Qed.

(** An IPv6 text is no IPv4 text. *)
Lemma read_ipv4_colons s : read_ipv4_addr (String ":" s) = None.
Proof. by apply read_ipv4_no_dot. Qed.

Lemma read_ipv4_subslice gs rest :
  Forall (unsigned 16) gs → ends_group rest → gs ≠ [] ∨ rest ≠ EmptyString →
  read_ipv4_addr (fmt_subslice gs +:+ rest) = None.
Proof.
  intros Hgs Hr Hne. destruct Hgs as [|g gs Hg Hgs].
  - destruct rest as [|c rest]; [by destruct Hne|]. simpl in Hr. subst c.
    apply read_ipv4_colons.
  - change (fmt_subslice (g :: gs)) with (fmt_hex g +:+ groups_text 1 gs).
    rewrite string_app_assoc. apply read_ipv4_group; [done|]. by apply groups_text_ends.
Qed.

Lemma mapped_value z v4 :
  unsigned 128 z → to_ipv4_mapped z = Some v4 →
  unsigned 32 v4 ∧ z = Ipv6Addr_new [0; 0; 0; 0; 0; 0xffff; v4 / 65536; v4 mod 65536].
Proof.
  intros Hz E. unfold to_ipv4_mapped in E. rewrite Z.shiftr_div_pow2 in E by lia.
  destruct (Z.eqb_spec (z / 2 ^ 32) 0xffff) as [Ed|]; [|done]. injection E as <-.
  pose proof (Z.mod_pos_bound z (2 ^ 32) ltac:(done)) as Hm. split; [done|].
  pose proof (Z.div_mod z (2 ^ 32) ltac:(done)) as Hd. rewrite Ed in Hd.
  pose proof (Z.div_mod (z mod 2 ^ 32) 65536 ltac:(done)) as Hd'.
  unfold Ipv6Addr_new. simpl fold_left. lia.
Qed.

Lemma fmt_ipv6_form z :
  unsigned 128 z →
  read_ipv6_addr (fmt_ipv6 z) = Some (z, EmptyString) ∧ read_ipv4_addr (fmt_ipv6 z) = None.
Proof.
  intros Hz. unfold fmt_ipv6. destruct (to_ipv4_mapped z) as [v4|] eqn:Em.
  { destruct (mapped_value z v4 Hz Em) as [Hv ->]. rewrite read_ipv6_mapped by done.
    split; [done|]. apply (read_ipv4_colons (":ffff:" +:+ fmt_ipv4 v4)). }
  pose proof (segments_unsigned z) as Hs. pose proof (segments_value z Hz) as Hv.
  pose proof (zeroes_run (segments z) [] (segments z) (mkSpan 0 0) (mkSpan 0 0)
    eq_refl eq_refl eq_refl ltac:(by left)) as Hrun. simpl length in Hrun.
  set (zs := zeroes 0 (segments z) (mkSpan 0 0) (mkSpan 0 0)) in *.
  pose proof (zero_run_split _ _ Hrun) as Hsplit. cbv zeta.
  assert (length (segments z) = 8%nat) as Hl8 by done.
  destruct (Nat.ltb_spec 1 (len zs)) as [Hlen|Hlen].
  - set (hd := take (start zs) (segments z)) in *.
    set (tl := drop (start zs + len zs) (segments z)) in *.
    assert (length hd + len zs + length tl = 8)%nat as Hlens.
    { rewrite <- Hl8, Hsplit, !length_app, length_replicate. lia. }
    assert (Forall (unsigned 16) hd) by by apply Forall_take.
    assert (Forall (unsigned 16) tl) by by apply Forall_drop.
    rewrite read_ipv6_compressed by (done || lia).
    replace (8 - length hd - length tl)%nat with (len zs) by lia.
    rewrite <- Hsplit, Hv. split; [done|].
    apply read_ipv4_subslice; [done|done|by right].
  - rewrite read_ipv6_full, Hv by done. split; [done|].
    rewrite <- (string_app_nil_r (fmt_subslice _)).
    apply read_ipv4_subslice; [done|done|]. left. intros E. by rewrite E in Hl8.
Qed.

(** What [Display] writes, [FromStr] reads back. *)
Lemma IpAddr_text_roundtrip a : IpAddr_wf a → IpAddr_from_str (IpAddr_to_string a) = Some a.
Proof.
  destruct a as [z|z]; intros Hz; unfold IpAddr_from_str, read_ip_addr, IpAddr_to_string.
  - rewrite <- (string_app_nil_r (fmt_ipv4 z)). by rewrite read_ipv4_text.
  - by destruct (fmt_ipv6_form z Hz) as [-> ->].
Qed.

Lemma IpAddr_to_string_inj a b :
  IpAddr_wf a → IpAddr_wf b → IpAddr_to_string a = IpAddr_to_string b → a = b.
Proof.
  intros Ha Hb E. apply (f_equal IpAddr_from_str) in E.
  rewrite !IpAddr_text_roundtrip in E by done. by injection E.
Qed.
