(* ===== verification/Keys.v ===== *)
(** * Keys and signatures

    The interface of the Ed25519 keys of the [iroh] crate, which is not part of
    the sources: operations, what the program relies on as laws, and a toy
    scheme that satisfies them and computes. *)

From S2P Require Import Prelude.
From stdpp Require Import prelude gmap strings.
From Stdlib Require Import Strings.Byte.

Local Open Scope Z_scope.

Class IrohKeys := {
  SecretKey : Type;
  PublicKey : Type;
  Signature : Type;
  PublicKey_eq_dec :: EqDecision PublicKey;
  PublicKey_countable :: Countable PublicKey;
  SecretKey_public : SecretKey → PublicKey;
  SecretKey_sign : SecretKey → list byte → Signature;
  PublicKey_verify : PublicKey → list byte → Signature → bool;
  Signature_to_bytes : Signature → list byte;
  Signature_try_from : list byte → option Signature;
  to_z32 : PublicKey → string;
  from_z32 : string → option PublicKey;
}.

(** A signature verifies under the key that made it, is 64 bytes on the wire
    and is read back from them; a key is read back from its z-base-32 text. No
    unforgeability is assumed. *)
Class IrohLaws (keys : IrohKeys) : Prop := {
  verify_sign sk m : PublicKey_verify (SecretKey_public sk) m (SecretKey_sign sk m) = true;
  length_to_bytes s : length (Signature_to_bytes s) = 64%nat;
  try_from_to_bytes s : Signature_try_from (Signature_to_bytes s) = Some s;
  to_bytes_try_from l s : Signature_try_from l = Some s → Signature_to_bytes s = l;
  from_to_z32 k : from_z32 (to_z32 k) = Some k;
}.

Lemma try_from_length `{IrohLaws} l s :
  Signature_try_from l = Some s → length l = 64%nat.
Proof. intros E. by rewrite <- (to_bytes_try_from _ _ E), length_to_bytes. Qed.

(** ** A toy scheme *)
Module KeysRef.

(** Keys are texts; the signature is a 64-byte digest of key and message. *)
Definition digest (key : string) (m : list byte) : Z :=
  fold_left (λ acc b, (acc * 263 + byte_val b + 1) mod 2 ^ 512) m
    (Z.pos (encode key)).

Definition signature : Type := dsig (λ l : list byte, length l = 64%nat).

Definition sign (key : string) (m : list byte) : signature :=
  dexist (to_le_bytes 64 (digest key m)) (length_to_le_bytes _ _).

Definition try_from (l : list byte) : option signature :=
  match decide (length l = 64%nat) with
  | left H => Some (dexist l H)
  | right _ => None
  end.

#[export] Instance keys : IrohKeys := {
  SecretKey := string;
  PublicKey := string;
  Signature := signature;
  SecretKey_public k := k;
  SecretKey_sign := sign;
  PublicKey_verify k m s := bool_decide (proj1_sig s = proj1_sig (sign k m));
  Signature_to_bytes s := proj1_sig s;
  Signature_try_from := try_from;
  to_z32 k := k;
  from_z32 k := Some k;
}.

(** Texts as keys. *)
Definition sk (s : string) : @SecretKey keys := s.
Definition pk (s : string) : @PublicKey keys := s.

#[export] Instance keys_laws : IrohLaws keys.
Proof.
  constructor; simpl.
  - intros. by apply bool_decide_eq_true.
  - intros s. exact (proj2_dsig s).
  - intros s. unfold try_from. destruct (decide _) as [H|H].
    + f_equal. by apply dsig_eq.
    + destruct (H (proj2_dsig s)).
  - unfold try_from. intros l s E. destruct (decide _); by simplify_eq.
  - done.
Qed.
End KeysRef.
