(* ===== verification/Addr.v ===== *)
(** * VPN addresses derived from signatures

    Models [src/src/addr.rs]: the address plan of the VPN, the derivation of a
    host address from a signature over the network, and the verification a
    peer runs on an advertised address. *)

From S2P Require Import Prelude ErrorCode Net Keys.
From stdpp Require Import prelude strings.
From Stdlib Require Import Strings.Byte.

Local Open Scope Z_scope.

(** ** The address plan *)

Definition VPN_IPV6_PREFIX : Ipv6Net :=
  mkIpv6Net (Ipv6Addr_new [0xfdbd; 0xa6ce; 0x654d; 0; 0; 0; 0; 0]) 48.

Definition VPN_IPV6_DEFAULT_ALLOWED : Ipv6Net :=
  mkIpv6Net (addr6 VPN_IPV6_PREFIX) (prefix6 VPN_IPV6_PREFIX + 1).

Definition u16_MAX : Z := 0xffff.

Definition MAX_SUBNET : Z :=
  Z.shiftr u16_MAX (prefix6 VPN_IPV6_DEFAULT_ALLOWED - prefix6 VPN_IPV6_PREFIX).

Definition vpn_subnet (subnet : Z) : Ipv6Net :=
  let base_bits := addr6 VPN_IPV6_PREFIX in
  let addr_bits := Z.lor base_bits (Z.shiftl subnet 64) in
  mkIpv6Net addr_bits 64.

(** ** Derivation *)

Section Addr.
Context `{Ipnet, IrohKeys}.

Definition serialize_network (net : IpNet) : list byte :=
  byte_of (IpNet_prefix_len net) ::
  match net with
  | Net4 net4 => to_be_bytes 4 (addr4 net4)
  | Net6 net6 => to_be_bytes 16 (addr6 net6)
  end.

Definition derive_ipv4 (net : Ipv4Net) (entropy : Z) : Z :=
  let net_mask := Ipv4Net_netmask net in
  let net_bits := Z.land (addr4 net) net_mask in
  let host_bits := Z.land entropy (bit_not 32 net_mask) in
  let final_bits := Z.lor net_bits host_bits in
  if final_bits =? Ipv4Net_broadcast net
  then Z.land final_bits (bit_not 32 1)
  else final_bits.

Definition derive_ipv6 (net : Ipv6Net) (entropy : Z) : Z :=
  let net_mask := Ipv6Net_netmask net in
  let net_bits := Z.land (addr6 net) net_mask in
  let host_bits := Z.land entropy (bit_not 128 net_mask) in
  Z.lor net_bits host_bits.

Definition generate_signed_ip_with_signature (net : IpNet) (signature : Signature) : IpAddr :=
  let signature_bytes := Signature_to_bytes signature in
  let entropy_128 := from_le_bytes (take 16 signature_bytes) in
  match net with
  | Net4 net4 => V4 (derive_ipv4 net4 (as_unsigned 32 entropy_128))
  | Net6 net6 => V6 (derive_ipv6 net6 entropy_128)
  end.

(** [IpNet::new_assert] can panic. *)
Definition generate_signed_ipnet (net : IpNet) (secret_key : SecretKey) :
    outcome (IpNet * Signature) :=
  let signature := SecretKey_sign secret_key (serialize_network (IpNet_trunc net)) in
  let ip := generate_signed_ip_with_signature net signature in
  let! own := IpNet_new_assert ip (IpNet_prefix_len net) in
  Ret (own, signature).

Definition permission_denied : IoError :=
  {| kind := ErrorKind.PermissionDenied; raw_os_error := None |}.

Definition verify_signed_ipnet (net : IpNet) (public_key : PublicKey)
    (signature : Signature) : result unit AnyhowError :=
  let base_net := IpNet_trunc net in
  let network_bytes := serialize_network base_net in
  let? _ := if PublicKey_verify public_key network_bytes signature
            then Ok tt else Err anyhow_msg in
  let gen_addr := generate_signed_ip_with_signature base_net signature in
  if bool_decide (IpNet_addr net = gen_addr) then Ok tt
  else Err (anyhow_io permission_denied).
End Addr.

(** ** Network part and host part *)

(** The network part of [a] completed with the host bits of [e]. *)
Definition merge (w p a e : Z) : Z := Z.lor (network w a p) (Z.land e (Z.ones (w - p))).

Section Merge.
Context (w p : Z) (Hp : 0 ≤ p ≤ w).

Lemma testbit_merge a e i :
  unsigned w a → 0 ≤ i →
  Z.testbit (merge w p a e) i =
    if i <? w - p then Z.testbit e i else Z.testbit a i.
Proof.
  intros Ha Hi. unfold merge, network. autorewrite with zbits. split_positions.
  by rewrite (testbit_unsigned_high w a) by (done || lia).
Qed.

Lemma merge_unsigned a e : unsigned w a → unsigned w (merge w p a e).
Proof.
  intros. unfold merge. apply unsigned_lor; [lia|by apply network_unsigned|].
  rewrite Z.land_comm. apply unsigned_bits; [lia|apply Z.land_nonneg; left|].
  - apply (unsigned_ones w); lia.
  - intros i ?. rewrite Z.land_spec, testbit_ones by lia. split_positions.
Qed.

Lemma network_merge a e : unsigned w a → network w (merge w p a e) p = network w a p.
Proof.
  intros. unfold network. apply Z.bits_inj'. intros i Hi.
  rewrite !Z.land_spec, testbit_merge, testbit_high_mask by (done || lia).
  split_positions.
Qed.

Lemma merge_network a e : merge w p (network w a p) e = merge w p a e.
Proof. unfold merge. by rewrite network_idemp. Qed.
End Merge.

(** Clearing the lowest bit of an odd number. *)
Lemma land_not_one z : unsigned 32 z → Z.odd z = true → Z.land z (bit_not 32 1) = z - 1.
Proof.
  intros Hz Ho. assert (z = Z.lxor (Z.land z (bit_not 32 1)) 1) as E.
  { apply Z.bits_inj'. intros i Hi. autorewrite with zbits.
    destruct (decide (i = 0)) as [->|].
    - by rewrite Z.bit0_odd, Ho.
    - assert (Z.testbit 1 i = false) as ->
        by (apply (testbit_unsigned_high 1); [done|lia..]).
      split_positions. by rewrite (testbit_unsigned_high 32 z) by (done || lia). }
  rewrite <- Z.add_nocarry_lxor in E; [lia|].
  apply Z.bits_inj'. intros i Hi. autorewrite with zbits.
  destruct (decide (i = 0)) as [->|]; [by rewrite Bool.andb_false_r|].
  assert (Z.testbit 1 i = false) as -> by (apply (testbit_unsigned_high 1); [done|lia..]).
  by rewrite Bool.andb_false_r.
Qed.

Section Derive.
Context `{IpnetLaws}.

Lemma derive_ipv6_merge net e :
  Ipv6Net_wf net → derive_ipv6 net e = merge 128 (prefix6 net) (addr6 net) e.
Proof.
  intros Hn. unfold derive_ipv6. rewrite netmask6_law by done. destruct Hn.
  unfold merge, network. bits.
Qed.

Lemma ipv4_raw_merge net e :
  Ipv4Net_wf net →
  Z.lor (Z.land (addr4 net) (Ipv4Net_netmask net))
    (Z.land e (bit_not 32 (Ipv4Net_netmask net))) = merge 32 (prefix4 net) (addr4 net) e.
Proof.
  intros Hn. rewrite netmask4_law by done. destruct Hn. unfold merge, network. bits.
Qed.

Lemma broadcast_odd p a : 0 ≤ p ≤ 31 → Z.odd (broadcast 32 a p) = true.
Proof.
  intros. rewrite <- Z.bit0_odd. unfold broadcast.
  rewrite Z.lor_spec, testbit_ones by lia. split_positions.
Qed.

Lemma derive_ipv4_merge net e :
  Ipv4Net_wf net → prefix4 net ≤ 31 →
  let raw := merge 32 (prefix4 net) (addr4 net) e in
  derive_ipv4 net e =
    if raw =? broadcast 32 (addr4 net) (prefix4 net) then raw - 1 else raw.
Proof.
  intros Hn ? raw. unfold derive_ipv4. rewrite ipv4_raw_merge, broadcast4_law by done.
  fold raw. destruct (Z.eqb_spec raw (broadcast 32 (addr4 net) (prefix4 net))) as [E|]; [|done].
  destruct Hn. apply land_not_one; [apply merge_unsigned; [lia|done]|].
  rewrite E. apply broadcast_odd. lia.
Qed.

(** Below /32 the derived address is a host address of the network. *)
Lemma derive_ipv4_network net e :
  Ipv4Net_wf net → prefix4 net ≤ 31 →
  unsigned 32 (derive_ipv4 net e) ∧
  network 32 (derive_ipv4 net e) (prefix4 net) = network 32 (addr4 net) (prefix4 net) ∧
  derive_ipv4 net e ≠ broadcast 32 (addr4 net) (prefix4 net).
Proof.
  intros Hn ?. rewrite derive_ipv4_merge by done. destruct Hn as [Ha Hp].
  set (raw := merge _ _ _ _).
  assert (unsigned 32 raw) as Hr by (apply merge_unsigned; [lia|done]).
  assert (network 32 raw (prefix4 net) = network 32 (addr4 net) (prefix4 net)) as Hnet
    by (apply network_merge; [lia|done]).
  case_match; bool_to_prop; [|done].
  assert (0 < 2 ^ (32 - prefix4 net - 1)) by (apply Z.pow_pos_nonneg; lia).
  assert (2 ^ (32 - prefix4 net) = 2 * 2 ^ (32 - prefix4 net - 1)).
  { rewrite <- Z.pow_succ_r by lia. f_equal. lia. }
  pose proof (network_div 32 (prefix4 net) Hp _ Ha).
  pose proof (broadcast_div 32 (prefix4 net) Hp _ Ha).
  pose proof (network_unsigned 32 (prefix4 net) Hp _ Ha) as [??].
  assert (unsigned 32 (raw - 1)) by (unfold unsigned in *; lia).
  split; [done|]. split; [|lia].
  apply network_range; [lia|done..|lia].
Qed.
End Derive.

(** ** Verification of advertised addresses *)

(** Every network but an IPv4 host route (/32). *)
Definition has_host_part (net : IpNet) : Prop :=
  match net with Net4 n => prefix4 n ≤ 31 | Net6 _ => True end.

#[export] Instance has_host_part_dec net : Decision (has_host_part net).
Proof. destruct net; apply _. Defined.

Section Verify.
Context `{IpnetLaws, IrohLaws}.

Lemma broadcast_network w a p :
  0 ≤ p ≤ w → unsigned w a → broadcast w (network w a p) p = broadcast w a p.
Proof.
  intros ? Ha. unfold broadcast, network. bits.
  by rewrite (testbit_unsigned_high w a) by (done || lia).
Qed.

(** The derivation looks at the network part only. *)
Lemma generate_trunc net sig :
  IpNet_wf net →
  generate_signed_ip_with_signature (IpNet_trunc net) sig =
  generate_signed_ip_with_signature net sig.
Proof.
  intros Hn. pose proof (IpNet_trunc_wf net Hn) as Ht.
  destruct net as [n|n]; simpl in *; f_equal.
  - unfold derive_ipv4. rewrite !ipv4_raw_merge, !broadcast4_law by done.
    rewrite trunc4_law by done. simpl. destruct Hn.
    by rewrite merge_network, broadcast_network.
  - rewrite !derive_ipv6_merge by done. rewrite trunc6_law by done.
    apply merge_network. by destruct Hn.
Qed.

Lemma generate_wf net sig :
  IpNet_wf net → has_host_part net →
  IpAddr_wf (generate_signed_ip_with_signature net sig) ∧
  in_network net (generate_signed_ip_with_signature net sig).
Proof.
  destruct net as [n|n]; simpl; intros Hn Hh.
  - by destruct (derive_ipv4_network n
      (as_unsigned 32 (from_le_bytes (take 16 (Signature_to_bytes sig)))) Hn Hh) as (?&?&_).
  - rewrite derive_ipv6_merge by done. destruct Hn.
    split; [by apply merge_unsigned|by apply network_merge].
Qed.

(** The network a generated address is returned in. *)
Definition with_addr (net : IpNet) (a : IpAddr) : IpNet :=
  match a with
  | V4 z => Net4 (mkIpv4Net z (IpNet_prefix_len net))
  | V6 z => Net6 (mkIpv6Net z (IpNet_prefix_len net))
  end.

Lemma trunc_with_addr net a :
  IpNet_wf net → IpAddr_wf a → in_network net a →
  IpNet_wf (with_addr net a) ∧ IpNet_trunc (with_addr net a) = IpNet_trunc net.
Proof.
  destruct net as [n|n], a as [z|z]; simpl; try done; intros [Hn Hp] Hz Hin.
  - split; [done|]. rewrite !trunc4_law by done. simpl. by rewrite Hin.
  - split; [done|]. rewrite !trunc6_law by done. simpl. by rewrite Hin.
Qed.

Lemma verify_unfold net pk sig :
  verify_signed_ipnet net pk sig = Ok tt ↔
  PublicKey_verify pk (serialize_network (IpNet_trunc net)) sig = true ∧
  IpNet_addr net = generate_signed_ip_with_signature (IpNet_trunc net) sig.
Proof.
  unfold verify_signed_ipnet. destruct (PublicKey_verify _ _ _).
  - case_bool_decide; by split; [|intros []].
  - by split; [|intros []].
Qed.

Lemma generate_verify net secret_key :
  IpNet_wf net → has_host_part net →
  ∃ own sig,
    generate_signed_ipnet net secret_key = Ret (own, sig) ∧
    IpNet_wf own ∧
    verify_signed_ipnet own (SecretKey_public secret_key) sig = Ok tt ∧
    in_network net (IpNet_addr own) ∧
    IpNet_prefix_len own = IpNet_prefix_len net.
Proof.
  intros Hn Hh. set (sig := SecretKey_sign secret_key (serialize_network (IpNet_trunc net))).
  set (ip := generate_signed_ip_with_signature net sig).
  destruct (generate_wf net sig Hn Hh) as [Hwf Hin]. fold ip in Hwf, Hin.
  destruct (trunc_with_addr net ip Hn Hwf Hin) as [Howf Htr].
  exists (with_addr net ip), sig. split_and!; [|done| | |].
  - unfold generate_signed_ipnet. fold sig ip. rewrite new_assert_law.
    destruct net, ip; try done; destruct Hn; simpl in *;
      by rewrite (proj2 (Z.leb_le _ _)) by lia.
  - apply verify_unfold. rewrite Htr. split; [apply verify_sign|].
    rewrite generate_trunc by done. fold ip. by destruct ip.
  - by destruct ip.
  - by destruct net, ip.
Qed.

(** C3: an address generated with a secret key verifies under its public key,
    lies in the requested network and keeps its prefix length, and the
    generation does not panic; IPv4 /32 networks are the only exception. *)
Theorem generate_verify_roundtrip (net : IpNet) (secret_key : SecretKey) :
  IpNet_wf net → has_host_part net →
  ∃ own sig,
    generate_signed_ipnet net secret_key = Ret (own, sig) ∧
    verify_signed_ipnet own (SecretKey_public secret_key) sig = Ok tt ∧
    in_network net (IpNet_addr own) ∧
    IpNet_prefix_len own = IpNet_prefix_len net.
Proof.
  intros Hn Hh. destruct (generate_verify net secret_key Hn Hh) as (own & sig & ?&?&?&?&?).
  by exists own, sig.
Qed.

(** C10: a signature pins the address: once a network with an address verifies,
    the same signature is rejected with [PermissionDenied] for every other
    address of that network. *)
Theorem verify_rejects_spoofed (net net' : IpNet) (pk : PublicKey) (sig : Signature) :
  verify_signed_ipnet net pk sig = Ok tt →
  IpNet_trunc net' = IpNet_trunc net →
  IpNet_addr net' ≠ IpNet_addr net →
  verify_signed_ipnet net' pk sig = Err (anyhow_io permission_denied).
Proof.
  intros [Hv Ha]%verify_unfold Ht Hne. unfold verify_signed_ipnet.
  rewrite Ht, Hv. rewrite bool_decide_eq_false_2; [done|congruence].
Qed.

(** An accepted address is a host address of its own network: it carries
    the network part and the host bits of the signature, and an accepted IPv4
    address below /32 is not the broadcast address. *)
Theorem verify_accepts_derived (net : IpNet) (pk : PublicKey) (sig : Signature) :
  IpNet_wf net →
  verify_signed_ipnet net pk sig = Ok tt →
  let entropy := from_le_bytes (take 16 (Signature_to_bytes sig)) in
  match net with
  | Net6 n => ∀ i, 0 ≤ i < 128 - prefix6 n → Z.testbit (addr6 n) i = Z.testbit entropy i
  | Net4 n => prefix4 n ≤ 31 →
      addr4 n ≠ broadcast 32 (addr4 n) (prefix4 n) ∧
      ∀ i, 0 < i < 32 - prefix4 n → Z.testbit (addr4 n) i = Z.testbit entropy i
  end.
Proof.
  intros Hn [_ Ha]%verify_unfold entropy. rewrite generate_trunc in Ha by done.
  destruct net as [n|n]; simpl in Ha; injection Ha as Ha; fold entropy in Ha.
  - intros Hp. destruct (derive_ipv4_network n (as_unsigned 32 entropy) Hn Hp) as (_&_&Hb).
    rewrite <- Ha in Hb. split; [done|]. intros i ?.
    rewrite Ha, derive_ipv4_merge by done. destruct Hn as [Hw ?].
    set (raw := merge _ _ _ _).
    assert (Z.testbit raw i = Z.testbit entropy i) as <-.
    { unfold raw. rewrite testbit_merge, testbit_as_unsigned by (done || lia).
      split_positions. }
    destruct (Z.eqb_spec raw (broadcast 32 (addr4 n) (prefix4 n))) as [E|]; [|done].
    rewrite <- (land_not_one raw), Z.land_spec, testbit_bit_not; [|lia|lia| |].
    + rewrite (testbit_unsigned_high 1 1) by (done || lia). split_positions.
    + by apply merge_unsigned.
    + rewrite E. apply broadcast_odd. lia.
  - intros i ?. rewrite Ha, derive_ipv6_merge, testbit_merge by (done || destruct Hn; done || lia).
    split_positions.
Qed.

(** The signed message determines the network: two well-formed networks
    with the same serialization are equal. *)
Theorem serialize_network_inj (a b : IpNet) :
  IpNet_wf a → IpNet_wf b → serialize_network a = serialize_network b → a = b.
Proof.
  assert (∀ p q, 0 ≤ p ≤ 128 → 0 ≤ q ≤ 128 → byte_of p = byte_of q → p = q) as Hbyte.
  { intros p q ?? E%(f_equal byte_val). rewrite !byte_val_of, !Z.mod_small in E; lia. }
  intros Ha Hb E. injection E as Ep El.
  destruct a as [[a p]|[a p]], b as [[b q]|[b q]]; destruct Ha as [Ha Hp], Hb as [Hb Hq];
    simpl in *.
  - apply Hbyte in Ep; [|lia..]. apply (to_be_bytes_inj 4) in El; [|done..]. by subst.
  - by apply (f_equal length) in El; rewrite !length_to_be_bytes in El.
  - by apply (f_equal length) in El; rewrite !length_to_be_bytes in El.
  - apply Hbyte in Ep; [|lia..]. apply (to_be_bytes_inj 16) in El; [|done..]. by subst.
Qed.

Lemma network_host_route addr : unsigned 128 addr → network 128 addr 128 = addr.
Proof.
  intros Ha. apply Z.bits_inj'. intros i Hi. unfold network. autorewrite with zbits.
  split_positions. by rewrite (testbit_unsigned_high 128 addr) by (done || lia).
Qed.

Lemma broadcast_host_route addr : broadcast 128 addr 128 = addr.
Proof. apply Z.lor_0_r. Qed.

Lemma host_route_verifies addr secret_key :
  unsigned 128 addr →
  let net := Net6 (mkIpv6Net addr 128) in
  verify_signed_ipnet net (SecretKey_public secret_key)
    (SecretKey_sign secret_key (serialize_network net)) = Ok tt.
Proof.
  intros Ha net. assert (IpNet_wf net) as Hn by done.
  assert (IpNet_trunc net = net) as Ht.
  { simpl. rewrite trunc6_law by done. simpl. by rewrite network_host_route. }
  apply verify_unfold. rewrite Ht. split; [apply verify_sign|].
  simpl. f_equal. rewrite derive_ipv6_merge by done. unfold merge. simpl.
  rewrite network_host_route, Z.land_0_r by done. by rewrite Z.lor_0_r.
Qed.

(** In an IPv4 host route (/32) the address is its own broadcast address,
    so the derivation clears its lowest bit: for an odd address it leaves the
    network, and no signature makes the verification of that route succeed. *)
Theorem ipv4_host_route_odd (addr : Z) (pk : PublicKey) (sig : Signature) :
  unsigned 32 addr → Z.odd addr = true →
  let net := Net4 (mkIpv4Net addr 32) in
  generate_signed_ip_with_signature net sig = V4 (addr - 1) ∧
  ¬ in_network net (V4 (addr - 1)) ∧
  verify_signed_ipnet net pk sig ≠ Ok tt.
Proof.
  intros Ha Ho net. assert (IpNet_wf net) as Hn by done.
  assert (∀ z, unsigned 32 z → network 32 z 32 = z) as Hnet.
  { intros z Hz. apply Z.bits_inj'. intros i Hi. unfold network. autorewrite with zbits.
    split_positions. by rewrite (testbit_unsigned_high 32 z) by (done || lia). }
  assert (generate_signed_ip_with_signature net sig = V4 (addr - 1)) as Hg.
  { simpl. f_equal. unfold derive_ipv4. rewrite ipv4_raw_merge, broadcast4_law by done.
    unfold merge, broadcast. simpl. rewrite Hnet, Z.land_0_r, !Z.lor_0_r by done.
    rewrite Z.eqb_refl. by apply land_not_one. }
  assert (1 ≤ addr). { destruct Ha. destruct (decide (addr = 0)); [by subst|lia]. }
  split_and!; [done| |].
  - simpl. rewrite !Hnet; [lia|done|]. unfold unsigned in *. lia.
  - intros [_ Hv]%verify_unfold. rewrite generate_trunc, Hg in Hv by done.
    simpl in Hv. injection Hv. lia.
Qed.
End Verify.

Lemma vpn_subnet_addr s :
  unsigned 16 s → addr6 (vpn_subnet s) = addr6 VPN_IPV6_PREFIX + 2 ^ 64 * s.
Proof.
  intros Hs. unfold vpn_subnet. cbn [addr6].
  rewrite <- Z.add_nocarry_lor; [by rewrite Z.shiftl_mul_pow2, Z.mul_comm by lia|].
  change (addr6 VPN_IPV6_PREFIX) with (Z.shiftl 0xfdbda6ce654d 80).
  apply Z.bits_inj'. intros i Hi. autorewrite with zbits.
  destruct (Z.lt_ge_cases i 80).
  - by rewrite (Z.testbit_neg_r _ (i - 80)) by lia.
  - rewrite (testbit_unsigned_high 16 s) by (done || lia). by rewrite Bool.andb_false_r.
Qed.

Lemma vpn_subnet_contained `{IpnetLaws} subnet :
  unsigned 16 subnet →
  IpNet_wf (Net6 (vpn_subnet subnet)) ∧
  (IpNet_contains (Net6 VPN_IPV6_DEFAULT_ALLOWED) (Net6 (vpn_subnet subnet)) = true ↔
   subnet ≤ MAX_SUBNET).
Proof.
  intros Hs. pose proof (vpn_subnet_addr subnet Hs) as Ha.
  change (addr6 VPN_IPV6_PREFIX) with 337279410272193555662265547958572285952 in Ha.
  assert (IpNet_wf (Net6 (vpn_subnet subnet))) as Hwf.
  { split; [rewrite Ha|simpl; lia]. unfold unsigned in *. lia. }
  split; [done|].
  rewrite contains_law by done. set (a := 337279410272193555662265547958572285952) in *.
  change (addr6 VPN_IPV6_DEFAULT_ALLOWED) with a.
  change (prefix6 VPN_IPV6_DEFAULT_ALLOWED) with 49.
  change (prefix6 (vpn_subnet subnet)) with 64. rewrite Ha.
  destruct Hwf as [Hw _]. rewrite Ha in Hw. assert (unsigned 128 a) by done.
  rewrite !(network_div 128 49), !(broadcast_div 128 49), !(network_div 128 64),
    !(broadcast_div 128 64) by (done || lia).
  replace ((a + 2 ^ 64 * subnet) / 2 ^ (128 - 64)) with (a / 2 ^ 64 + subnet)
    by (change (128 - 64) with 64; rewrite Z.mul_comm, Z.div_add by lia; done).
  replace (a / 2 ^ (128 - 49)) with (2 * 0xfdbda6ce654d) by reflexivity.
  replace (a / 2 ^ 64) with (0xfdbda6ce654d * 65536) by reflexivity.
  change MAX_SUBNET with 0x7fff. unfold unsigned in Hs.
  rewrite andb_true_iff, !Z.leb_le. clear -Hs. lia.
Qed.

(** A subnet identifier gives a network the default configuration of a peer
    allows exactly when it is at most [MAX_SUBNET]; every 16-bit identifier
    gives a well-formed /64 of its own. *)
Theorem vpn_subnet_allowed `{IpnetLaws} (subnet : Z) :
  unsigned 16 subnet →
  IpNet_wf (Net6 (vpn_subnet subnet)) ∧
  (IpNet_contains (Net6 VPN_IPV6_DEFAULT_ALLOWED) (Net6 (vpn_subnet subnet)) = true ↔
   subnet ≤ MAX_SUBNET) ∧
  ∀ other, unsigned 16 other → vpn_subnet other = vpn_subnet subnet → other = subnet.
Proof.
  intros Hs. destruct (vpn_subnet_contained subnet Hs) as [Hwf Hc]. split_and!; [done..|].
  intros other Ho E%(f_equal addr6). rewrite !vpn_subnet_addr in E by done. lia.
Qed.

(** ** Witnesses

    The theorems at concrete networks and keys, with the reference
    implementations of the interfaces. *)
Import IpnetRef KeysRef.

Lemma generate_verify_roundtrip_witness :
  ∃ own sig,
    generate_signed_ipnet (Net6 (vpn_subnet 0)) (sk "alice") = Ret (own, sig) ∧
    verify_signed_ipnet own (pk "alice") sig = Ok tt ∧
    in_network (Net6 (vpn_subnet 0)) (IpNet_addr own) ∧
    IpNet_prefix_len own = 64.
Proof.
  apply (generate_verify_roundtrip (Net6 (vpn_subnet 0)) (sk "alice")); by_decide.
Defined.

(** The address of a key in the default subnet, as the daemon derives it. *)
Definition example_own : IpNet :=
  match generate_signed_ipnet (Net6 (vpn_subnet 0)) (sk "alice") with
  | Ret (own, _) => own
  | Panic => Net6 (vpn_subnet 0)
  end.

Definition example_sig : Signature :=
  SecretKey_sign (sk "alice") (serialize_network (Net6 (vpn_subnet 0))).

(** The same network with the lowest address bit flipped. *)
Definition example_spoofed : IpNet :=
  match example_own with
  | Net6 n => Net6 (mkIpv6Net (Z.lxor (addr6 n) 1) (prefix6 n))
  | n => n
  end.

Lemma verify_rejects_spoofed_witness :
  verify_signed_ipnet example_spoofed (pk "alice") example_sig =
  Err (anyhow_io permission_denied).
Proof.
  apply (verify_rejects_spoofed example_own); by vm_compute.
Defined.

Lemma verify_accepts_derived_witness :
  let entropy := from_le_bytes (take 16 (Signature_to_bytes example_sig)) in
  match example_own with
  | Net6 n => ∀ i, 0 ≤ i < 128 - prefix6 n → Z.testbit (addr6 n) i = Z.testbit entropy i
  | Net4 n => prefix4 n ≤ 31 →
      addr4 n ≠ broadcast 32 (addr4 n) (prefix4 n) ∧
      ∀ i, 0 < i < 32 - prefix4 n → Z.testbit (addr4 n) i = Z.testbit entropy i
  end.
Proof.
  apply (verify_accepts_derived example_own (pk "alice") example_sig);
    [by_decide|by vm_compute].
Defined.

Lemma serialize_network_inj_witness :
  Net6 (vpn_subnet 7) = Net6 (mkIpv6Net (addr6 (vpn_subnet 7)) 64).
Proof. apply serialize_network_inj; [by_decide|by_decide|by vm_compute]. Defined.

Lemma ipv4_host_route_odd_witness :
  let net := Net4 (mkIpv4Net 0x0a000001 32) in
  generate_signed_ip_with_signature net example_sig = V4 0x0a000000 ∧
  ¬ in_network net (V4 0x0a000000) ∧
  verify_signed_ipnet net (pk "alice") example_sig ≠ Ok tt.
Proof. apply (ipv4_host_route_odd 0x0a000001 (pk "alice")); [by_decide|done]. Defined.

Lemma vpn_subnet_allowed_witness :
  IpNet_contains (Net6 VPN_IPV6_DEFAULT_ALLOWED) (Net6 (vpn_subnet 0x7fff)) = true ∧
  IpNet_contains (Net6 VPN_IPV6_DEFAULT_ALLOWED) (Net6 (vpn_subnet 0x8000)) = false.
Proof.
  destruct (vpn_subnet_allowed 0x7fff ltac:(by_decide)) as (_ & [_ Hin] & _).
  destruct (vpn_subnet_allowed 0x8000 ltac:(by_decide)) as (_ & [Hout _] & _).
  split; [apply Hin; by_decide|].
  apply not_true_iff_false. intros E. apply Hout in E. by destruct E.
Defined.

Example MAX_SUBNET_value : MAX_SUBNET = 0x7fff.
Proof. by vm_compute. Qed.
