(* ===== verification/Proto.v ===== *)
(** * The control protocol

    Models [src/src/proto.rs] over the messages of
    [src/proto/p2p_vpn/control/v1/control.proto]: conversion of statuses, the
    bounded read of a stream, and the two halves of a request/response exchange
    on a QUIC stream. The encoding of messages ([prost]) and the streams of
    [iroh] are parameters. *)

From S2P Require Import Prelude ErrorCode.
From stdpp Require Import prelude strings.
From Stdlib Require Import Strings.Byte.

Local Open Scope Z_scope.

(** ** Messages *)

Record HostAddress := {
  peer_network : string;
  peer_network_signature : list byte;
}.

Record Advertise := { own_addresses : list HostAddress }.

Inductive Command := Command_Advertise (a : Advertise).

Record ControlRequest := { command : option Command }.

Record Status := { code : Z; status_message : option string }.

Record ControlResponse := { status : option Status }.

(** [Default::default()] of a response. *)
Definition ControlResponse_default : ControlResponse := {| status := None |}.

(** The generated encoder and decoder of a message type ([prost::Message]). *)
Class Message (P : Type) := {
  msg_encode : P → list byte;
  msg_decode : list byte → option P;
}.

Class MessageLaws (P : Type) `{Message P} : Prop := {
  msg_decode_encode (p : P) : msg_decode (msg_encode p) = Some p;
}.

(** [ThinStatusExt::error_code] of the [thin_status] crate: an error as a
    status of the given code. *)
Class ErrorCodeExt := { error_code : AnyhowError → ErrorCode.t → ThinStatus }.

(** ** Statuses on the wire *)

Definition status_to_control (s : ThinStatus) : ControlResponse :=
  {| status := Some {| code := code_raw s; status_message := Some (message s) |} |}.

Definition control_to_status (response : ControlResponse) : result unit ThinStatus :=
  match status response with
  | Some st =>
      if code st =? 0 then Ok tt
      else Err {| code_raw := code st; message := default "" (status_message st) |}
  | None => Ok tt
  end.

(** [i32 as u32]. *)
Definition close_code (s : ThinStatus) : Z := as_unsigned 32 (code_raw s).

(** ** What is visible on a connection *)

Inductive wire_event : Type :=
  | Wrote (bytes : list byte)            (* [SendStream::write_all], all of it *)
  | WriteFailed                          (* [SendStream::write_all], at most a part *)
  | Finished                             (* [SendStream::finish] *)
  | Stopped (error_code : Z)             (* [RecvStream::stop] *)
  | Closed (code : Z) (reason : string). (* [Connection::close] *)

Definition close_connection (s : ThinStatus) : list wire_event :=
  [Closed (close_code s) (message s)].

(** A receiving stream: what [read_chunks] returns, call after call; the end of
    the list is the end of the stream. A batch holds at most four chunks. *)
Inductive read_event : Type :=
  | Chunks (chunks : list (list byte))
  | ReadError (e : AnyhowError).

Definition RecvStream : Type := list read_event.

(** A sending stream: the results its operations have, depending on whether this
    end has closed the connection before. *)
Record SendStream := {
  write_all : bool → list byte → result unit AnyhowError;
  finish : bool → result unit AnyhowError;
  stopped : bool → result unit AnyhowError;
}.

(** This end has closed the connection. *)
Definition closes (events : list wire_event) : bool :=
  existsb (λ e, match e with Closed _ _ => true | _ => false end) events.

(** ** Reading a stream to its end *)

Definition MAX_MESSAGE_SIZE : nat := 2048.

Definition num_bytes (buffer_list : list (list byte)) : nat :=
  sum_list_with length buffer_list.

Definition out_of_range : AnyhowError :=
  anyhow_status {| code_raw := ErrorCode.as_i32 ErrorCode.OutOfRange;
                   message := "stream longer than the limit" |}.

(** The [for] loop over the chunks of a batch. *)
Fixpoint push_chunks (buffer_list chunks : list (list byte)) (max_bytes : nat) :
    result (list (list byte)) AnyhowError :=
  match chunks with
  | [] => Ok buffer_list
  | chunk :: chunks =>
      let buffer_list := buffer_list ++ [chunk] in
      if (max_bytes <=? num_bytes buffer_list)%nat then Err out_of_range
      else push_chunks buffer_list chunks max_bytes
  end.

Fixpoint read_to_end_loop (buffer_list : list (list byte)) (recv : RecvStream)
    (max_bytes : nat) : result (list (list byte)) AnyhowError :=
  match recv with
  | [] => Ok buffer_list
  | ReadError e :: _ => Err e
  | Chunks chunks :: recv =>
      let? buffer_list := push_chunks buffer_list chunks max_bytes in
      read_to_end_loop buffer_list recv max_bytes
  end.

Definition read_to_end (recv : RecvStream) (max_bytes : nat) :
    result (list (list byte)) AnyhowError :=
  read_to_end_loop [] recv max_bytes.

Section Streams.
Context `{Message P}.

(** The stream is stopped with code 0 after a well-formed message, with
    [Aborted] after a malformed one, and left alone if reading fails. *)
Definition read_control_stream (stream : RecvStream) :
    list wire_event * result P AnyhowError :=
  match read_to_end stream MAX_MESSAGE_SIZE with
  | Err e => ([], Err e)
  | Ok buf_list =>
      match msg_decode (concat buf_list) with
      | Some control => ([Stopped 0], Ok control)
      | None => ([Stopped (ErrorCode.as_i32 ErrorCode.Aborted)], Err anyhow_msg)
      end
  end.

(** The result of the write is looked at after [finish] and [stopped]. *)
Definition write_control_stream (closed : bool) (send : SendStream) (msg : P) :
    list wire_event * result unit AnyhowError :=
  let buf := msg_encode msg in
  let result := write_all send closed buf in
  ((if is_ok result then [Wrote buf] else [WriteFailed]) ++
   (if is_ok (finish send closed) then [Finished] else []),
   let? _ := finish send closed in
   let? _ := stopped send closed in
   let? _ := result in
   Ok tt).
End Streams.

Section Exchange.
Context `{Message ControlRequest, Message ControlResponse, ErrorCodeExt}.

(** [accepted] is what [accept_bi] returns; [f] may act on the connection, and even
    close it before the response is written. *)
Definition read_control {R} (accepted : result (SendStream * RecvStream) AnyhowError)
    (f : ControlRequest → list wire_event * result R ThinStatus) :
    list wire_event * result R ThinStatus :=
  match accepted with
  | Err e => ([], Err (error_code e ErrorCode.FailedPrecondition))
  | Ok (send, recv) =>
      let '(ev1, request) := read_control_stream recv in
      match request with
      | Err e => (ev1, Err (error_code e ErrorCode.DataLoss))
      | Ok r =>
          let '(ev2, response) := f r in
          let control_response :=
            match response with
            | Ok _ => ControlResponse_default
            | Err status => status_to_control status
            end in
          let '(ev3, written) := write_control_stream (closes ev2) send control_response in
          (ev1 ++ ev2 ++ ev3,
           let? _ := map_err (λ e, error_code e ErrorCode.Aborted) written in
           response)
      end
  end.

(** [opened] is what [open_bi] returns. *)
Definition write_control (opened : result (SendStream * RecvStream) AnyhowError)
    (control : ControlRequest) : list wire_event * result ControlResponse AnyhowError :=
  match opened with
  | Err e => ([], Err e)
  | Ok (send, recv) =>
      let '(ev1, written) := write_control_stream false send control in
      match written with
      | Err e => (ev1, Err e)
      | Ok _ =>
          let '(ev2, response) := read_control_stream recv in
          (ev1 ++ ev2, response)
      end
  end.
End Exchange.

(** ** Properties *)

Lemma num_bytes_app l k : num_bytes (l ++ k) = (num_bytes l + num_bytes k)%nat.
Proof. apply sum_list_with_app. Qed.

Lemma num_bytes_concat l : num_bytes l = length (concat l).
Proof.
  unfold num_bytes. induction l as [|c l IH]; [done|]. simpl. by rewrite length_app, IH.
Qed.

(** The chunks a stream delivers, when no read of it fails. *)
Fixpoint stream_chunks (recv : RecvStream) : option (list (list byte)) :=
  match recv with
  | [] => Some []
  | ReadError _ :: _ => None
  | Chunks cs :: recv => (λ rest, cs ++ rest) <$> stream_chunks recv
  end.

Lemma push_chunks_spec max cs b :
  (num_bytes b < max)%nat →
  push_chunks b cs max =
    if (num_bytes (b ++ cs) <? max)%nat then Ok (b ++ cs) else Err out_of_range.
Proof.
  revert b. induction cs as [|c cs IH]; intros b Hb; simpl.
  - rewrite app_nil_r. by rewrite (proj2 (Nat.ltb_lt _ _)).
  - destruct (Nat.leb_spec max (num_bytes (b ++ [c]))) as [Hm|Hm].
    + rewrite (proj2 (Nat.ltb_ge _ _)); [done|].
      rewrite num_bytes_app in *. unfold num_bytes in *. simpl in *. lia.
    + by rewrite IH, <- app_assoc by done.
Qed.

Lemma read_to_end_loop_spec max recv cs b :
  (num_bytes b < max)%nat → stream_chunks recv = Some cs →
  read_to_end_loop b recv max =
    if (num_bytes (b ++ cs) <? max)%nat then Ok (b ++ cs) else Err out_of_range.
Proof.
  revert b cs. induction recv as [|[c|e] recv IH]; intros b cs Hb Hcs; simplify_eq/=.
  - rewrite app_nil_r. by rewrite (proj2 (Nat.ltb_lt _ _)).
  - destruct (stream_chunks recv) as [rest|]; simplify_eq/=.
    rewrite push_chunks_spec by done.
    destruct (Nat.ltb_spec (num_bytes (b ++ c)) max) as [Hc|Hc].
    + rewrite (IH _ rest), <- app_assoc by done. done.
    + rewrite (proj2 (Nat.ltb_ge _ _)); [done|].
      rewrite app_assoc, num_bytes_app. lia.
Qed.

Lemma read_to_end_chunks recv chunks max :
  (0 < max)%nat → stream_chunks recv = Some chunks →
  read_to_end recv max =
    if (length (concat chunks) <? max)%nat then Ok chunks else Err out_of_range.
Proof.
  intros Hm Hc. rewrite <- num_bytes_concat. by apply (read_to_end_loop_spec max recv chunks []).
Qed.

Lemma control_to_status_err s :
  code_raw s ≠ 0 → control_to_status (status_to_control s) = Err s.
Proof.
  intros Hs. unfold control_to_status, status_to_control. simpl.
  destruct s; simpl in *. by rewrite (proj2 (Z.eqb_neq _ _)).
Qed.

(** C26: a stream that delivers its chunks without error is read whole, in
    order, exactly when it holds fewer bytes than the limit; a stream of
    exactly the limit is already refused, with [OutOfRange]. *)
Theorem read_to_end_spec (recv : RecvStream) (chunks : list (list byte)) (max : nat) :
  (0 < max)%nat → stream_chunks recv = Some chunks →
  read_to_end recv max =
    if (length (concat chunks) <? max)%nat then Ok chunks else Err out_of_range.
Proof.
  apply read_to_end_chunks.
Qed.

(** A status survives the round trip through a response, and an absent
    status or a zero code is success whatever the message. *)
Theorem status_roundtrip (s : ThinStatus) (msg : option string) :
  code_raw s ≠ 0 →
  control_to_status (status_to_control s) = Err s ∧
  control_to_status ControlResponse_default = Ok tt ∧
  control_to_status {| status := Some {| code := 0; status_message := msg |} |} = Ok tt.
Proof. intros Hs. split_and!; [by apply control_to_status_err|done..]. Qed.

(** A stream that carries [bytes], in whatever chunks. *)
Definition carries (recv : RecvStream) (bytes : list byte) : Prop :=
  ∃ chunks, stream_chunks recv = Some chunks ∧ concat chunks = bytes.

(** A sending stream that works: its operations succeed, but as documented nothing
    can be written once this end has closed the connection. *)
Definition sends (send : SendStream) : Prop :=
  (∀ b, write_all send false b = Ok tt) ∧ finish send false = Ok tt ∧ stopped send false = Ok tt ∧
  ∀ b, ∃ e, write_all send true b = Err e.

(** What is written to a stream. *)
Definition written (events : list wire_event) : list byte :=
  concat (omap (λ e, match e with Wrote bytes => Some bytes | _ => None end) events).

(** What the connection does for the other end: a stream that was written without
    an error and finished is delivered, in whatever chunks; when the connection is
    closed instead, reading from it fails. *)
Definition delivers (events : list wire_event) (recv : RecvStream) : Prop :=
  if closes events then stream_chunks recv = None
  else Finished ∈ events → WriteFailed ∉ events → carries recv (written events).

Lemma written_app ev ev' : written (ev ++ ev') = written ev ++ written ev'.
Proof. unfold written. by rewrite omap_app, concat_app. Qed.

Lemma written_message bytes ev : written (Wrote bytes :: Finished :: ev) = bytes ++ written ev.
Proof. done. Qed.

Lemma closes_app ev ev' : closes (ev ++ ev') = closes ev || closes ev'.
Proof. apply existsb_app. Qed.

Section Facts.
Context `{MessageLaws P}.

Lemma read_control_stream_ok recv (msg : P) :
  carries recv (msg_encode msg) → (length (msg_encode msg) < MAX_MESSAGE_SIZE)%nat →
  read_control_stream recv = ([Stopped 0], Ok msg).
Proof.
  intros (chunks & Hc & Hb) Hl. unfold read_control_stream.
  rewrite (read_to_end_chunks _ chunks) by (done || unfold MAX_MESSAGE_SIZE; lia).
  rewrite (proj2 (Nat.ltb_lt _ _)) by (by rewrite Hb). by rewrite Hb, msg_decode_encode.
Qed.

Lemma write_control_stream_ok send (msg : P) :
  sends send → write_control_stream false send msg = ([Wrote (msg_encode msg); Finished], Ok tt).
Proof. intros (Hw & Hf & Hs & _). unfold write_control_stream. by rewrite Hf, Hs, Hw. Qed.

(** Nothing is written once the connection is closed. *)
Lemma write_control_stream_closed send (msg : P) :
  sends send → ∃ events e, write_control_stream true send msg = (events, Err e) ∧
    ∀ bytes, Wrote bytes ∉ events.
Proof.
  intros (_ & _ & _ & Hw). unfold write_control_stream. destruct (Hw (msg_encode msg)) as [e ->].
  destruct (finish send true), (stopped send true); eexists _, _; (split; [done|]); set_solver.
Qed.

Lemma read_control_stream_lost recv :
  stream_chunks recv = None → ∃ e, snd (read_control_stream (P := P) recv) = Err e.
Proof.
  intros Hr. unfold read_control_stream. cut (∃ e, read_to_end recv MAX_MESSAGE_SIZE = Err e).
  { intros [e ->]. by exists e. }
  unfold read_to_end. generalize (@nil (list byte)) as b. revert Hr.
  induction recv as [|[c|e] recv IH]; intros Hr b; simpl in *; [done| |by exists e].
  destruct (push_chunks b c _) as [b'|e]; [|by exists e]. apply IH.
  by destruct (stream_chunks recv).
Qed.

(** A message that was written over a working stream is read. *)
Lemma delivered_message recv ev (msg : P) :
  (length (msg_encode msg) < MAX_MESSAGE_SIZE)%nat → closes ev = false → WriteFailed ∉ ev →
  written ev = [] → delivers (Wrote (msg_encode msg) :: Finished :: ev) recv →
  read_control_stream recv = ([Stopped 0], Ok msg).
Proof.
  intros Hl Hc Hf Hw Hd. unfold delivers in Hd.
  change (closes (Wrote (msg_encode msg) :: Finished :: ev)) with (closes ev) in Hd.
  rewrite Hc, written_message, Hw, app_nil_r in Hd.
  apply read_control_stream_ok; [|done]. apply Hd; set_solver.
Qed.

(** Reading sends nothing back. *)
Lemma read_control_stream_quiet recv :
  let events := fst (read_control_stream (P := P) recv) in
  closes events = false ∧ WriteFailed ∉ events ∧ written events = [].
Proof.
  unfold read_control_stream. destruct (read_to_end _ _); [|split_and!; [done|set_solver|done]].
  destruct (msg_decode _); (split_and!; [done|set_solver|done]).
Qed.
End Facts.

Section ExchangeFacts.
Context `{MessageLaws ControlRequest, MessageLaws ControlResponse, ErrorCodeExt}.

(** The response [read_control] builds from the handler's outcome. *)
Definition response_of {R} (r : result R ThinStatus) : ControlResponse :=
  match r with Ok _ => ControlResponse_default | Err s => status_to_control s end.

(** Both halves of an exchange, over streams that deliver what was written. *)
Lemma exchange_outcome {R} (request : ControlRequest)
    (f : ControlRequest → list wire_event * result R ThinStatus)
    (send_c send_s : SendStream) (recv_c recv_s : RecvStream) :
  let client := write_control (Ok (send_c, recv_c)) request in
  let server := read_control (Ok (send_s, recv_s)) f in
  sends send_c → sends send_s →
  delivers client.1 recv_s → delivers server.1 recv_c →
  (length (msg_encode request) < MAX_MESSAGE_SIZE)%nat →
  (length (msg_encode (response_of (f request).2)) < MAX_MESSAGE_SIZE)%nat →
  written (f request).1 = [] → WriteFailed ∉ (f request).1 →
  (∀ s, (f request).2 = Err s → code_raw s ≠ 0) →
  if closes (f request).1 then
    (∃ e, server.2 = Err (error_code e ErrorCode.Aborted)) ∧ (∃ e, client.2 = Err e) ∧
    ∃ ev, server.1 = Stopped 0 :: (f request).1 ++ ev ∧ ∀ bytes, Wrote bytes ∉ ev
  else
    server.2 = (f request).2 ∧
    ∃ response, client.2 = Ok response ∧
      control_to_status response = match (f request).2 with Ok _ => Ok tt | Err s => Err s end.
Proof.
  cbv zeta. intros Hc Hs Hds Hdc Hlq Hlr Hfw Hff Hcode.
  unfold write_control in Hds |- *. rewrite (write_control_stream_ok send_c request Hc) in Hds |- *.
  pose proof (read_control_stream_quiet (P := ControlResponse) recv_c) as (Hq1 & Hq2 & Hq3).
  destruct (read_control_stream recv_c) as [ev_c res_c] eqn:Ec. cbn [fst snd app] in *.
  unfold read_control in Hdc |- *.
  rewrite (delivered_message recv_s ev_c request Hlq Hq1 Hq2 Hq3 Hds) in Hdc |- *.
  destruct (f request) as [ev r] eqn:Ef. cbn [fst snd] in *.
  change (match r with Ok _ => ControlResponse_default | Err status => status_to_control status end)
    with (response_of r) in Hdc |- *.
  destruct (closes ev) eqn:Ecl.
  - destruct (write_control_stream_closed send_s (response_of r) Hs) as (ev3 & e & Ew & Hno).
    rewrite Ew in Hdc |- *. cbn [fst snd] in *. unfold delivers in Hdc.
    rewrite !closes_app, Ecl in Hdc. simpl in Hdc.
    destruct (read_control_stream_lost (P := ControlResponse) recv_c Hdc) as [e' He].
    rewrite Ec in He. split; [by exists e|]. split; [by exists e'|]. by exists ev3.
  - rewrite (write_control_stream_ok send_s (response_of r) Hs) in Hdc |- *. cbn [fst snd] in *.
    assert (delivers [Wrote (msg_encode (response_of r)); Finished] recv_c) as Hd.
    { revert Hdc. unfold delivers. rewrite !closes_app, Ecl, !written_app, Hfw. simpl.
      intros Hd _ _. apply Hd; set_solver. }
    rewrite (delivered_message recv_c [] (response_of r) Hlr eq_refl ltac:(set_solver) eq_refl Hd) in Ec.
    injection Ec as <- <-. split; [done|]. eexists. split; [done|].
    destruct r as [r|st]; [done|]. by apply control_to_status_err, Hcode.
Qed.

(** C27: a whole exchange over streams that deliver what is written to them, of a
    request and a response that fit the limit. If the handler leaves the
    connection open, the serving side runs it on the request that was sent and
    returns its outcome, and the requesting side reads the same outcome back as a
    status. If the handler closes the connection, its response is never written:
    the serving side returns [Aborted] whatever the handler said, and the
    requesting side gets an error. *)
Theorem control_exchange {R} (request : ControlRequest)
    (f : ControlRequest → list wire_event * result R ThinStatus)
    (send_c send_s : SendStream) (recv_c recv_s : RecvStream) :
  let client := write_control (Ok (send_c, recv_c)) request in
  let server := read_control (Ok (send_s, recv_s)) f in
  sends send_c → sends send_s →
  delivers client.1 recv_s → delivers server.1 recv_c →
  (length (msg_encode request) < MAX_MESSAGE_SIZE)%nat →
  (length (msg_encode (response_of (f request).2)) < MAX_MESSAGE_SIZE)%nat →
  written (f request).1 = [] → WriteFailed ∉ (f request).1 →
  (∀ s, (f request).2 = Err s → code_raw s ≠ 0) →
  if closes (f request).1 then
    (∃ e, server.2 = Err (error_code e ErrorCode.Aborted)) ∧ (∃ e, client.2 = Err e) ∧
    ∃ ev, server.1 = Stopped 0 :: (f request).1 ++ ev ∧ ∀ bytes, Wrote bytes ∉ ev
  else
    server.2 = (f request).2 ∧
    ∃ response, client.2 = Ok response ∧
      control_to_status response = match (f request).2 with Ok _ => Ok tt | Err s => Err s end.
Proof. apply exchange_outcome. Qed.

(** A request that does not decode, or is too long, never reaches the
    handler: nothing is written back and the caller gets [DataLoss]. *)
Theorem read_control_malformed {R} (send : SendStream) (recv : RecvStream)
    (chunks : list (list byte)) (f : ControlRequest → list wire_event * result R ThinStatus) :
  stream_chunks recv = Some chunks →
  (MAX_MESSAGE_SIZE ≤ length (concat chunks))%nat ∨
    msg_decode (P := ControlRequest) (concat chunks) = None →
  ∃ events cause,
    read_control (Ok (send, recv)) f = (events, Err (error_code cause ErrorCode.DataLoss)) ∧
    ∀ bytes, Wrote bytes ∉ events.
Proof.
  intros Hc Hbad. unfold read_control, read_control_stream.
  rewrite (read_to_end_chunks _ chunks) by (done || unfold MAX_MESSAGE_SIZE; lia).
  destruct (Nat.ltb_spec (length (concat chunks)) MAX_MESSAGE_SIZE) as [Hl|Hl].
  - destruct Hbad as [? | ->]; [lia|]. eexists _, _. split; [done|].
    by intros bytes [=]%list_elem_of_singleton.
  - eexists _, _. split; [done|]. by intros bytes ?%not_elem_of_nil.
Qed.
End ExchangeFacts.

(** ** A reference encoding

    The messages are countable; a message is written as the little-endian bytes
    of its number. *)
Module MessageRef.

#[export] Instance byte_countable : Countable byte.
Proof.
  refine (inj_countable Byte.to_N Byte.of_N _). intros. apply Byte.of_to_N.
Defined.

#[export] Instance HostAddress_eq_dec : EqDecision HostAddress.
Proof. solve_decision. Defined.
#[export] Instance HostAddress_countable : Countable HostAddress.
Proof.
  refine (inj_countable' (λ h, (peer_network h, peer_network_signature h))
    (λ '(n, s), {| peer_network := n; peer_network_signature := s |}) _). by intros [].
Defined.
#[export] Instance Advertise_eq_dec : EqDecision Advertise.
Proof. solve_decision. Defined.
#[export] Instance Command_eq_dec : EqDecision Command.
Proof. solve_decision. Defined.
#[export] Instance ControlRequest_eq_dec : EqDecision ControlRequest.
Proof. solve_decision. Defined.
#[export] Instance ControlRequest_countable : Countable ControlRequest.
Proof.
  refine (inj_countable'
    (λ r, (λ '(Command_Advertise a), own_addresses a) <$> command r)
    (λ o, {| command := (λ l, Command_Advertise {| own_addresses := l |}) <$> o |}) _).
  by intros [[[[]]|]].
Defined.
#[export] Instance Status_eq_dec : EqDecision Status.
Proof. solve_decision. Defined.
#[export] Instance ControlResponse_eq_dec : EqDecision ControlResponse.
Proof. solve_decision. Defined.
#[export] Instance ControlResponse_countable : Countable ControlResponse.
Proof.
  refine (inj_countable'
    (λ r, (λ st, (code st, status_message st)) <$> status r)
    (λ o, {| status := (λ '(c, m), {| code := c; status_message := m |}) <$> o |}) _).
  by intros [[[]|]].
Defined.

Lemma size_nat_bound n : Z.pos n < 2 ^ Z.of_nat (Pos.size_nat n).
Proof.
  induction n as [n IH|n IH|]; cbn [Pos.size_nat];
    rewrite ?Nat2Z.inj_succ, ?Z.pow_succ_r by lia; lia.
Qed.

Section Codec.
Context `{Countable P}.

Definition encode_bytes (p : P) : list byte :=
  to_le_bytes (S (Pos.size_nat (encode p) / 8)) (Z.pos (encode p)).

Definition decode_bytes (l : list byte) : option P :=
  match from_le_bytes l with Z.pos n => decode n | _ => None end.

Lemma decode_encode_bytes p : decode_bytes (encode_bytes p) = Some p.
Proof.
  unfold decode_bytes, encode_bytes. rewrite from_to_le_bytes, Z.mod_small.
  { apply decode_encode. }
  set (n := encode p). split; [lia|].
  pose proof (Nat.div_mod_eq (Pos.size_nat n) 8).
  pose proof (Nat.mod_upper_bound (Pos.size_nat n) 8 ltac:(lia)).
  eapply Z.lt_le_trans; [exact (size_nat_bound n)|]. apply Z.pow_le_mono_r; lia.
Qed.

#[export] Instance message_ref : Message P := {
  msg_encode := encode_bytes;
  msg_decode := decode_bytes;
}.
#[export] Instance message_ref_laws : MessageLaws P.
Proof. constructor. apply decode_encode_bytes. Qed.
End Codec.

#[export] Instance error_code_ref : ErrorCodeExt := {
  error_code _ c := {| code_raw := ErrorCode.as_i32 c; message := "" |};
}.
End MessageRef.

(** ** Witnesses *)
Import MessageRef.

(** A stream of [n] one-byte chunks, two per batch. *)
Definition example_stream (n : nat) : RecvStream :=
  replicate n (Chunks [[x41]; [x42]]).

Lemma read_to_end_spec_witness :
  read_to_end (example_stream 4) 9 = Ok (concat (replicate 4 [[x41]; [x42]])) ∧
  read_to_end (example_stream 4) 8 = Err out_of_range.
Proof.
  split.
  - by rewrite (read_to_end_spec (example_stream 4) (concat (replicate 4 [[x41]; [x42]])) 9)
      by (done || lia).
  - by rewrite (read_to_end_spec (example_stream 4) (concat (replicate 4 [[x41]; [x42]])) 8)
      by (done || lia).
Defined.

Definition example_status : ThinStatus :=
  {| code_raw := ErrorCode.as_i32 ErrorCode.DataLoss; message := "half gone" |}.

Lemma status_roundtrip_witness :
  control_to_status (status_to_control example_status) = Err example_status.
Proof. by apply (status_roundtrip example_status None). Defined.

(** A handler that refuses every request. *)
Definition example_handler (r : ControlRequest) : list wire_event * result unit ThinStatus :=
  ([], Err example_status).
Definition example_request : ControlRequest :=
  {| command := Some (Command_Advertise {| own_addresses := [] |}) |}.
Definition example_send : SendStream :=
  let answer (closed : bool) := if closed then Err anyhow_msg else Ok tt in
  {| write_all closed _ := answer closed; finish _ := Ok tt; stopped := answer |}.

Lemma example_sends : sends example_send.
Proof. split_and!; try done. intros b. by exists anyhow_msg. Qed.

Lemma one_chunk bytes : carries [Chunks [bytes]] bytes.
Proof. exists [bytes]. split; [done|apply app_nil_r]. Qed.

(** A handler that closes the connection instead. *)
Definition closing_handler (r : ControlRequest) : list wire_event * result unit ThinStatus :=
  (close_connection example_status, Err example_status).

Lemma control_exchange_witness :
  (let server := read_control (Ok (example_send, [Chunks [msg_encode example_request]]))
     example_handler in
   let client := write_control
     (Ok (example_send, [Chunks [msg_encode (status_to_control example_status)]])) example_request in
   server.2 = Err example_status ∧
   ∃ response, client.2 = Ok response ∧ control_to_status response = Err example_status) ∧
  (let server := read_control (Ok (example_send, [Chunks [msg_encode example_request]]))
     closing_handler in
   let client := write_control (Ok (example_send, [ReadError anyhow_msg])) example_request in
   (∃ e, server.2 = Err (error_code e ErrorCode.Aborted)) ∧ (∃ e, client.2 = Err e) ∧
   ∃ ev, server.1 = Stopped 0 :: close_connection example_status ++ ev ∧
     ∀ bytes, Wrote bytes ∉ ev).
Proof.
  split.
  - apply (control_exchange example_request example_handler example_send example_send);
      [exact example_sends..| | |by_decide|by_decide|done|set_solver|by intros s [= <-]].
    + intros _ _. exact (one_chunk (msg_encode example_request)).
    + intros _ _. exact (one_chunk (msg_encode (status_to_control example_status))).
  - apply (control_exchange example_request closing_handler example_send example_send);
      [exact example_sends..| |done|by_decide|by_decide|done|set_solver|by intros s [= <-]].
    intros _ _. exact (one_chunk (msg_encode example_request)).
Defined.

Lemma read_control_malformed_witness :
  ∃ events cause,
    read_control (Ok (example_send, example_stream 1024)) example_handler
      = (events, Err (error_code cause ErrorCode.DataLoss)) ∧
    ∀ bytes, Wrote bytes ∉ events.
Proof.
  apply (read_control_malformed example_send (example_stream 1024)
    (concat (replicate 1024 [[x41]; [x42]]))).
  - by vm_compute.
  - left. by_decide.
Defined.
