(* ===== verification/Validate.v ===== *)
(** * Validation of advertised addresses

    Models [src/src/peer/validate_addr.rs] and the [Advertise] message
    [src/src/main.rs] builds for the node itself. *)

From S2P Require Import Prelude ErrorCode Net Keys Addr Proto.
From stdpp Require Import prelude strings.
From Stdlib Require Import Strings.Byte.

Local Open Scope Z_scope.

Section Validate.
Context `{Ipnet, IrohKeys}.

Definition is_subnet_of_any (net : IpNet) (allowed : list IpNet) : bool :=
  existsb (λ a, IpNet_contains a net) allowed.

(** Parse errors and signature errors carry neither an I/O error nor a status. *)
Definition parse_ipnet (s : string) : result IpNet AnyhowError :=
  match IpNet_from_str s with Some n => Ok n | None => Err anyhow_msg end.

Definition validate_address (host : HostAddress) (key : PublicKey) :
    result IpNet AnyhowError :=
  let? net := parse_ipnet (peer_network host) in
  let? signature :=
    match Signature_try_from (peer_network_signature host) with
    | Some s => Ok s
    | None => Err anyhow_msg
    end in
  let? again := parse_ipnet (peer_network host) in
  let? _ := verify_signed_ipnet again key signature in
  Ok net.

Fixpoint validate_loop (allowed_nets : list IpNet) (hosts : list HostAddress)
    (key : PublicKey) (valid : list IpNet) (errors : list AnyhowError) :
    list IpNet * list AnyhowError :=
  match hosts with
  | [] => (valid, errors)
  | host :: hosts =>
      match validate_address host key with
      | Ok net =>
          if is_subnet_of_any net allowed_nets
          then validate_loop allowed_nets hosts key (valid ++ [net]) errors
          else validate_loop allowed_nets hosts key valid errors
      | Err e => validate_loop allowed_nets hosts key valid (errors ++ [e])
      end
  end.

Definition validate_addresses (allowed_nets : list IpNet) (advertise : Advertise)
    (key : PublicKey) : list IpNet * list AnyhowError :=
  validate_loop allowed_nets (own_addresses advertise) key [] [].

(** The node's own advertisement ([main]). *)
Definition own_advertise (own_net : IpNet) (own_net_sig : Signature) : Advertise :=
  {| own_addresses :=
       [{| peer_network := IpNet_to_string own_net;
           peer_network_signature := Signature_to_bytes own_net_sig |}] |}.
End Validate.

(** ** The loop as a filter *)

Section Filter.
Context `{Ipnet, IrohKeys} (allowed : list IpNet) (key : PublicKey).

Definition accepted (host : HostAddress) : option IpNet :=
  match validate_address host key with
  | Ok net => if is_subnet_of_any net allowed then Some net else None
  | Err _ => None
  end.

Definition rejected (host : HostAddress) : option AnyhowError :=
  match validate_address host key with Ok _ => None | Err e => Some e end.

Definition skipped (host : HostAddress) : bool :=
  match validate_address host key with
  | Ok net => negb (is_subnet_of_any net allowed)
  | Err _ => false
  end.

Lemma validate_loop_omap hosts valid errors :
  validate_loop allowed hosts key valid errors =
    (valid ++ omap accepted hosts, errors ++ omap rejected hosts).
Proof.
  revert valid errors. induction hosts as [|h hosts IH]; intros valid errors; simpl.
  { by rewrite !app_nil_r. }
  unfold accepted at 1, rejected at 1.
  destruct (validate_address h key) as [net|e]; [destruct (is_subnet_of_any net allowed)|];
    by rewrite IH, <- ?app_assoc.
Qed.

Lemma validate_addresses_omap adv :
  validate_addresses allowed adv key =
    (omap accepted (own_addresses adv), omap rejected (own_addresses adv)).
Proof. apply validate_loop_omap. Qed.
End Filter.

Section Facts.
Context `{IpnetLaws, IrohLaws}.

Lemma validate_address_ok host key net :
  validate_address host key = Ok net →
  ∃ sig, IpNet_from_str (peer_network host) = Some net ∧
    Signature_try_from (peer_network_signature host) = Some sig ∧
    verify_signed_ipnet net key sig = Ok tt.
Proof.
  unfold validate_address, parse_ipnet.
  destruct (IpNet_from_str _) as [n|]; [|done].
  destruct (Signature_try_from _) as [sig|]; [|done].
  destruct (verify_signed_ipnet n key sig) as [[]|] eqn:E; [|done].
  intros [= ->]. eauto.
Qed.

Lemma is_subnet_of_any_in_network net allowed :
  IpNet_wf net → Forall IpNet_wf allowed → is_subnet_of_any net allowed = true →
  ∃ a, a ∈ allowed ∧ in_network a (IpNet_addr net).
Proof.
  intros Hn Ha (a & Hin & Hc)%existsb_exists. apply list_elem_of_In in Hin.
  exists a. split; [done|]. apply contains_in_network; [|done..].
  rewrite Forall_forall in Ha. auto.
Qed.

Lemma validate_addresses_entitled (allowed : list IpNet) (adv : Advertise)
    (key : PublicKey) (net : IpNet) :
  Forall IpNet_wf allowed →
  net ∈ fst (validate_addresses allowed adv key) →
  ∃ host sig,
    host ∈ own_addresses adv ∧
    IpNet_from_str (peer_network host) = Some net ∧
    Signature_try_from (peer_network_signature host) = Some sig ∧
    length (peer_network_signature host) = 64%nat ∧
    PublicKey_verify key (serialize_network (IpNet_trunc net)) sig = true ∧
    IpNet_addr net = generate_signed_ip_with_signature net sig ∧
    ∃ a, a ∈ allowed ∧ in_network a (IpNet_addr net).
Proof.
  intros Hwf Hin. rewrite validate_addresses_omap in Hin.
  apply list_elem_of_omap in Hin as (host & Hh & Ha). unfold accepted in Ha.
  destruct (validate_address host key) as [n|] eqn:Ev; [|done].
  destruct (is_subnet_of_any n allowed) eqn:Es; [|done]. injection Ha as ->.
  destruct (validate_address_ok host key net Ev) as (sig & Hp & Hs & Hv).
  pose proof (from_str_wf _ _ Hp) as Hn. apply verify_unfold in Hv as [Hv Hg].
  rewrite generate_trunc in Hg by done.
  exists host, sig. split_and!; eauto using try_from_length, is_subnet_of_any_in_network.
Qed.

(** C4: every address a peer gets accepted was advertised by it as that
    network, with a 64-byte signature that verifies under the peer's key over
    the network and derives exactly that address, and lies in one of the allowed
    networks. *)
Theorem validate_addresses_sound (allowed : list IpNet) (adv : Advertise)
    (key : PublicKey) (net : IpNet) :
  Forall IpNet_wf allowed →
  net ∈ fst (validate_addresses allowed adv key) →
  ∃ host sig,
    host ∈ own_addresses adv ∧
    IpNet_from_str (peer_network host) = Some net ∧
    Signature_try_from (peer_network_signature host) = Some sig ∧
    length (peer_network_signature host) = 64%nat ∧
    PublicKey_verify key (serialize_network (IpNet_trunc net)) sig = true ∧
    IpNet_addr net = generate_signed_ip_with_signature net sig ∧
    ∃ a, a ∈ allowed ∧ in_network a (IpNet_addr net).
Proof. apply validate_addresses_entitled. Qed.

(** No advertised address is lost: each is accepted, refused with an
    error, or valid but outside the allowed networks, and nothing else is
    returned. *)
Theorem validate_addresses_complete (allowed : list IpNet) (adv : Advertise)
    (key : PublicKey) :
  let '(valid, errors) := validate_addresses allowed adv key in
  (∀ net, net ∈ valid ↔ ∃ host, host ∈ own_addresses adv ∧
     validate_address host key = Ok net ∧ is_subnet_of_any net allowed = true) ∧
  (∀ e, e ∈ errors ↔ ∃ host, host ∈ own_addresses adv ∧
     validate_address host key = Err e) ∧
  (length valid + length errors +
   length (List.filter (skipped allowed key) (own_addresses adv))
   = length (own_addresses adv))%nat.
Proof.
  rewrite validate_addresses_omap. split_and!.
  - intros net. rewrite list_elem_of_omap. unfold accepted. split.
    + intros (h & Hh & E). destruct (validate_address h key) as [n|] eqn:Ev; [|done].
      destruct (is_subnet_of_any n allowed) eqn:Es; [|done]. injection E as ->. eauto.
    + intros (h & Hh & Ev & Es). exists h. by rewrite Ev, Es.
  - intros e. rewrite list_elem_of_omap. unfold rejected. split.
    + intros (h & Hh & E). destruct (validate_address h key) eqn:Ev; [done|].
      injection E as ->. eauto.
    + intros (h & Hh & Ev). exists h. by rewrite Ev.
  - induction (own_addresses adv) as [|h hosts IH]; [done|]. simpl. unfold omap in IH.
    unfold accepted at 1, rejected at 1, skipped at 1.
    destruct (validate_address h key) as [n|]; [destruct (is_subnet_of_any n allowed)|];
      simpl in *; lia.
Qed.

(** A printed network with a signature that verifies passes [validate_address]. *)
Lemma validate_address_printed net sig key :
  IpNet_wf net → verify_signed_ipnet net key sig = Ok tt →
  validate_address {| peer_network := IpNet_to_string net;
                      peer_network_signature := Signature_to_bytes sig |} key = Ok net.
Proof.
  intros Hn Hv. unfold validate_address, parse_ipnet. simpl.
  by rewrite from_to_str, try_from_to_bytes, Hv.
Qed.

Lemma validate_own_advertise allowed net sig key :
  IpNet_wf net → verify_signed_ipnet net key sig = Ok tt →
  validate_addresses allowed (own_advertise net sig) key =
    (if is_subnet_of_any net allowed then [net] else [], []).
Proof.
  intros Hn Hv. rewrite validate_addresses_omap. simpl. unfold accepted, rejected.
  rewrite validate_address_printed by done. by destruct (is_subnet_of_any _ _).
Qed.

(** Containment looks at the network part of the inner network only. *)
Lemma contains_same_network (a : IpNet) (n m : Ipv6Net) :
  IpNet_wf a → IpNet_wf (Net6 n) → IpNet_wf (Net6 m) → prefix6 n = prefix6 m →
  in_network (Net6 n) (V6 (addr6 m)) →
  IpNet_contains a (Net6 m) = IpNet_contains a (Net6 n).
Proof.
  intros Ha [Hn Hpn] [Hm Hpm] Hp Hin. rewrite !contains_law by done. simpl in Hin.
  destruct a as [|a]; [done|].
  rewrite <- (broadcast_network 128 (addr6 m)), <- (broadcast_network 128 (addr6 n)) by done.
  rewrite <- Hp in *. by rewrite Hin.
Qed.

Lemma default_allowed_wf : IpNet_wf (Net6 VPN_IPV6_DEFAULT_ALLOWED).
Proof. by_decide. Qed.

(** The advertisement a node builds for itself is accepted by a peer with the
    default configuration, with no error, exactly when its subnet is legal;
    otherwise the peer is left with no address. *)
Lemma own_advertise_validated (subnet : Z) (secret_key : SecretKey) :
  unsigned 16 subnet →
  ∃ own sig,
    generate_signed_ipnet (Net6 (vpn_subnet subnet)) secret_key = Ret (own, sig) ∧
    validate_addresses [Net6 VPN_IPV6_DEFAULT_ALLOWED] (own_advertise own sig)
      (SecretKey_public secret_key) =
    (if subnet <=? MAX_SUBNET then [own] else [], []).
Proof.
  intros Hs. destruct (vpn_subnet_contained subnet Hs) as [Hwf Hc].
  destruct (generate_verify _ secret_key Hwf I) as (own & sig & Hg & How & Hv & Hin & Hp).
  exists own, sig. split; [done|]. rewrite validate_own_advertise by done.
  destruct own as [|own]; [done|]. simpl in Hin, Hp.
  unfold is_subnet_of_any, existsb.
  rewrite (contains_same_network _ (vpn_subnet subnet) own)
    by (done || apply default_allowed_wf).
  rewrite orb_false_r.
  destruct (Z.leb_spec subnet MAX_SUBNET) as [Hle|Hlt].
  - by rewrite (proj2 Hc Hle).
  - destruct (IpNet_contains _ _); [|done]. pose proof (proj1 Hc eq_refl). lia.
Qed.

(** C31: any peer can have any address of the allowed network accepted as its
    own, whoever it belongs to, by signing the host route (/128) of it. *)
Theorem any_allowed_address_claimable (addr : Z) (secret_key : SecretKey) :
  unsigned 128 addr →
  in_network (Net6 VPN_IPV6_DEFAULT_ALLOWED) (V6 addr) →
  let net := Net6 (mkIpv6Net addr 128) in
  validate_addresses [Net6 VPN_IPV6_DEFAULT_ALLOWED]
    (own_advertise net (SecretKey_sign secret_key (serialize_network net)))
    (SecretKey_public secret_key) = ([net], []).
Proof.
  intros Ha Hin net. assert (IpNet_wf net) as Hn by (split; [done|simpl; lia]).
  rewrite validate_own_advertise by (done || by apply host_route_verifies).
  unfold is_subnet_of_any, existsb. rewrite orb_false_r.
  rewrite contains_law by (done || apply default_allowed_wf). simpl in Hin. unfold net.
  change (addr6 (mkIpv6Net addr 128)) with addr.
  change (prefix6 (mkIpv6Net addr 128)) with 128.
  rewrite (broadcast_host_route addr), (network_host_route addr) by done.
  pose proof (proj2 (network_range 128 49 ltac:(lia) (addr6 VPN_IPV6_DEFAULT_ALLOWED) addr
    ltac:(by_decide) Ha) Hin) as [Hlo Hhi].
  change (prefix6 VPN_IPV6_DEFAULT_ALLOWED) with 49.
  by rewrite (proj2 (Z.leb_le _ _) Hlo), (proj2 (Z.leb_le _ _) Hhi).
Qed.
End Facts.

(** ** Witnesses *)
Import IpnetRef KeysRef.

Definition example_advertise : Advertise := own_advertise example_own example_sig.

Lemma validate_addresses_sound_witness :
  ∃ host sig,
    host ∈ own_addresses example_advertise ∧
    IpNet_from_str (peer_network host) = Some example_own ∧
    Signature_try_from (peer_network_signature host) = Some sig ∧
    length (peer_network_signature host) = 64%nat ∧
    PublicKey_verify (pk "alice") (serialize_network (IpNet_trunc example_own)) sig = true ∧
    IpNet_addr example_own = generate_signed_ip_with_signature example_own sig ∧
    ∃ a, a ∈ [Net6 VPN_IPV6_DEFAULT_ALLOWED] ∧ in_network a (IpNet_addr example_own).
Proof.
  apply (validate_addresses_sound [Net6 VPN_IPV6_DEFAULT_ALLOWED] example_advertise
    (pk "alice")); by_decide.
Defined.

(** Mallory claims the address of Alice. *)
Lemma any_allowed_address_claimable_witness :
  let net := Net6 (mkIpv6Net match example_own with Net6 n => addr6 n | _ => 0 end 128) in
  validate_addresses [Net6 VPN_IPV6_DEFAULT_ALLOWED]
    (own_advertise net (SecretKey_sign (sk "mallory") (serialize_network net)))
    (pk "mallory") = ([net], []).
Proof.
  apply (any_allowed_address_claimable _ (sk "mallory")); by_decide.
Defined.
