(* ===== verification/Packet.v ===== *)
(** * IP packets and ICMP replies

    Models [src/src/tun/packet.rs] and [icmp_reply] of [src/src/main.rs]: the
    destination of a packet, and the ICMP errors the node answers with. Parsing
    and building packets is done by the [etherparse] crate, whose interface is a
    class with laws; the reference implementation at the end reproduces the
    packets of the unit tests. *)

From S2P Require Import Prelude ErrorCode Net.
From stdpp Require Import prelude strings.
From Stdlib Require Import Strings.Byte.

Local Open Scope Z_scope.

(** ** [etherparse]: data *)

(** [InternetSlice]: the network layer of a packet, with its addresses. *)
Inductive InternetSlice : Type :=
  | InternetSlice_Ipv4 (source destination : Z)
  | InternetSlice_Ipv6 (source destination : Z)
  | InternetSlice_Arp.

Inductive DestUnreachableHeader : Type :=
  | NetworkUnknown
  | Host
  | FragmentationNeeded (next_hop_mtu : Z).

Inductive DestUnreachableCode : Type :=
  | NoRoute
  | Address.

Inductive Icmpv4Type : Type :=
  | Icmpv4_DestinationUnreachable (h : DestUnreachableHeader).

Inductive Icmpv6Type : Type :=
  | Icmpv6_DestinationUnreachable (c : DestUnreachableCode)
  | Icmpv6_PacketTooBig (mtu : Z).

(** The fields of [Ipv4Header] the program sets; the others are defaults. *)
Record Ipv4HeaderInit := {
  dont_fragment : bool;
  time_to_live : Z;
  source : Z;
  destination : Z;
}.

Class Etherparse := {
  (** [SlicedPacket::from_ip], then its [net] field. *)
  from_ip : list byte → option (option InternetSlice);
  (** [PacketBuilder::ip(..).icmpv4(..).write(..)] *)
  build_icmpv4 : Ipv4HeaderInit → Icmpv4Type → list byte → result (list byte) AnyhowError;
  (** [PacketBuilder::ipv6(..).icmpv6(..).write(..)] *)
  build_icmpv6 : Z → Z → Z → Icmpv6Type → list byte → result (list byte) AnyhowError;
}.

(** What the program relies on: a slice has addresses of its family; a reply
    with a short payload can be built, is read back with the addresses it was
    built with, and ends with the payload after the fixed-size headers. *)
Class EtherparseLaws (eth : Etherparse) : Prop := {
  from_ip_wf p s : from_ip p = Some (Some s) →
    match s with
    | InternetSlice_Ipv4 a b => unsigned 32 a ∧ unsigned 32 b
    | InternetSlice_Ipv6 a b => unsigned 128 a ∧ unsigned 128 b
    | InternetSlice_Arp => True
    end;
  build_icmpv4_law h t payload :
    unsigned 32 (source h) → unsigned 32 (destination h) → (length payload ≤ 64)%nat →
    ∃ headers, length headers = 28%nat ∧
      build_icmpv4 h t payload = Ok (headers ++ payload) ∧
      from_ip (headers ++ payload) =
        Some (Some (InternetSlice_Ipv4 (source h) (destination h)));
  build_icmpv6_law src dst hop t payload :
    unsigned 128 src → unsigned 128 dst → (length payload ≤ 64)%nat →
    ∃ headers, length headers = 48%nat ∧
      build_icmpv6 src dst hop t payload = Ok (headers ++ payload) ∧
      from_ip (headers ++ payload) = Some (Some (InternetSlice_Ipv6 src dst));
}.

(** ** Packets *)

(** [TxPacket] and [RxPacket], without their time stamps. *)
Record TxPacket := mkTxPacket { tx_data : list byte }.

Section Packet.
Context `{Etherparse}.

Definition inet_slice (slice : list byte) : result InternetSlice AnyhowError :=
  match from_ip slice with
  | None => Err anyhow_msg
  | Some None => Err anyhow_msg
  | Some (Some net) => Ok net
  end.

Definition destination_ip (internet_slice : InternetSlice) : option IpAddr :=
  match internet_slice with
  | InternetSlice_Ipv4 _ dst => Some (V4 dst)
  | InternetSlice_Ipv6 _ dst => Some (V6 dst)
  | InternetSlice_Arp => None
  end.

(** ** The ICMP gateway *)

Record IcmpGateway := {
  own_ipv4 : option Z;
  own_ipv6 : option Z;
}.

Definition IcmpGateway_default : IcmpGateway := {| own_ipv4 := None; own_ipv6 := None |}.

Definition from_addr (addr : IpAddr) : IcmpGateway :=
  match addr with
  | V4 ip => {| own_ipv4 := Some ip; own_ipv6 := own_ipv6 IcmpGateway_default |}
  | V6 ip => {| own_ipv4 := own_ipv4 IcmpGateway_default; own_ipv6 := Some ip |}
  end.

Record IcmpType := { v4 : Icmpv4Type; v6 : Icmpv6Type }.

Definition unreachable_net : IcmpType :=
  {| v4 := Icmpv4_DestinationUnreachable NetworkUnknown;
     v6 := Icmpv6_DestinationUnreachable NoRoute |}.

Definition unreachable_host : IcmpType :=
  {| v4 := Icmpv4_DestinationUnreachable Host;
     v6 := Icmpv6_DestinationUnreachable Address |}.

Definition packet_too_big (mtu : Z) : IcmpType :=
  {| v4 := Icmpv4_DestinationUnreachable (FragmentationNeeded mtu);
     v6 := Icmpv6_PacketTooBig mtu |}.

(** Returns the address to reply to and what was written to the buffer. *)
Definition generate_reply (self : IcmpGateway) (original_packet : list byte)
    (icmp_type : IcmpType) : result (IpAddr * list byte) AnyhowError :=
  let? _ := if bool_decide (original_packet = []) then Err anyhow_msg else Ok tt in
  let icmp_payload := take (min (length original_packet) 64) original_packet in
  let? ip := inet_slice original_packet in
  match ip, own_ipv4 self, own_ipv6 self with
  | InternetSlice_Ipv4 src _, Some gateway, _ =>
      let ip_header := {| dont_fragment := false; time_to_live := 64;
                          source := gateway; destination := src |} in
      let? buffer := build_icmpv4 ip_header (v4 icmp_type) icmp_payload in
      Ok (V4 src, buffer)
  | InternetSlice_Ipv6 src _, _, Some gateway =>
      let? buffer := build_icmpv6 gateway src 64 (v6 icmp_type) icmp_payload in
      Ok (V6 src, buffer)
  | _, _, _ => Err anyhow_msg
  end.

(** [main.rs] *)
Definition icmp_reply (gateway : IcmpGateway) (packet : list byte)
    (icmp_type : IcmpType) : option TxPacket :=
  (λ '(_, buf), mkTxPacket buf) <$> ok (generate_reply gateway packet icmp_type).
End Packet.

(** ** Properties *)

Definition IcmpGateway_wf (g : IcmpGateway) : Prop :=
  (∀ a, own_ipv4 g = Some a → unsigned 32 a) ∧
  (∀ a, own_ipv6 g = Some a → unsigned 128 a).

(** The gateway's own address in the family of a packet. *)
Definition gateway_for (g : IcmpGateway) (s : InternetSlice) : option IpAddr :=
  match s with
  | InternetSlice_Ipv4 _ _ => V4 <$> own_ipv4 g
  | InternetSlice_Ipv6 _ _ => V6 <$> own_ipv6 g
  | InternetSlice_Arp => None
  end.

Definition source_ip (s : InternetSlice) : option IpAddr :=
  match s with
  | InternetSlice_Ipv4 src _ => Some (V4 src)
  | InternetSlice_Ipv6 src _ => Some (V6 src)
  | InternetSlice_Arp => None
  end.

Section Facts.
Context `{EtherparseLaws}.

Lemma from_ip_nonempty_slice p s : inet_slice p = Ok s ↔ from_ip p = Some (Some s).
Proof.
  unfold inet_slice. destruct (from_ip p) as [[s'|]|]; split; intros; by simplify_eq.
Qed.

(** What a generated reply is, for a packet that parses. *)
Lemma generate_reply_ok g packet t s gw :
  IcmpGateway_wf g → packet ≠ [] → inet_slice packet = Ok s →
  gateway_for g s = Some gw →
  ∃ src reply,
    source_ip s = Some src ∧
    generate_reply g packet t = Ok (src, reply) ∧
    (∃ r, inet_slice reply = Ok r ∧ source_ip r = Some gw ∧ destination_ip r = Some src) ∧
    (∃ headers, reply = headers ++ take 64 packet ∧
       length headers = if is_ipv6 src then 48%nat else 28%nat).
Proof.
  intros [Hg4 Hg6] Hne Hs Hgw. pose proof Hs as Hwf. apply from_ip_nonempty_slice in Hwf.
  apply from_ip_wf in Hwf. unfold generate_reply.
  rewrite bool_decide_eq_false_2, Hs by done.
  replace (take (min (length packet) 64) packet) with (take 64 packet).
  2:{ destruct (le_lt_dec 64 (length packet)).
      - by rewrite Nat.min_r by lia.
      - rewrite Nat.min_l by lia. rewrite !take_ge; [done|lia..]. }
  assert (length (take 64 packet) ≤ 64)%nat by (rewrite length_take; lia).
  destruct s as [a b|a b|]; simpl in Hgw; [| |done].
  - destruct (own_ipv4 g) as [o|] eqn:Eo; [|done]. injection Hgw as <-. destruct Hwf.
    destruct (build_icmpv4_law {| dont_fragment := false; time_to_live := 64;
      source := o; destination := a |} (v4 t) (take 64 packet)) as (hd & Hl & Hb & Hp); eauto.
    exists (V4 a). eexists. rewrite Hb. split_and!; [done..| |eauto].
    eexists. split; [by apply from_ip_nonempty_slice|done].
  - destruct (own_ipv6 g) as [o|] eqn:Eo; [|done]. injection Hgw as <-. destruct Hwf.
    destruct (build_icmpv6_law o a 64 (v6 t) (take 64 packet)) as (hd & Hl & Hb & Hp); eauto.
    exists (V6 a). eexists. rewrite Hb. split_and!; [done..| |eauto].
    eexists. split; [by apply from_ip_nonempty_slice|done].
Qed.

(** C36: a reply is produced exactly for a non-empty packet that parses, in a
    family the gateway has an address of; it is returned with the packet's
    source, is itself a packet from the gateway to that source, and echoes the
    first 64 bytes of the packet after its headers. *)
Theorem generate_reply_spec (g : IcmpGateway) (packet : list byte) (t : IcmpType) :
  IcmpGateway_wf g →
  match inet_slice packet with
  | Ok s =>
      match gateway_for g s with
      | Some gw =>
          packet ≠ [] →
          ∃ src reply,
            source_ip s = Some src ∧
            generate_reply g packet t = Ok (src, reply) ∧
            (∃ r, inet_slice reply = Ok r ∧ source_ip r = Some gw ∧
                  destination_ip r = Some src) ∧
            (∃ headers, reply = headers ++ take 64 packet ∧
               length headers = if is_ipv6 src then 48%nat else 28%nat)
      | None => ∃ e, generate_reply g packet t = Err e
      end
  | Err _ => ∃ e, generate_reply g packet t = Err e
  end ∧
  generate_reply g [] t = Err anyhow_msg.
Proof.
  intros Hg. split; [|done].
  destruct (inet_slice packet) as [s|e] eqn:Es.
  - destruct (gateway_for g s) as [gw|] eqn:Egw.
    + intros Hne. by apply generate_reply_ok.
    + unfold generate_reply. rewrite Es.
      case_bool_decide; [eauto|].
      destruct s as [a b|a b|]; simpl in Egw |- *; [destruct (own_ipv4 g)|destruct (own_ipv6 g)|];
        try done; eauto.
  - unfold generate_reply. rewrite Es. case_bool_decide; eauto.
Qed.

(** The reply for a gateway of one address: none for the other family. *)
Lemma icmp_reply_ok g packet t s gw :
  IcmpGateway_wf g → packet ≠ [] → inet_slice packet = Ok s →
  gateway_for g s = Some gw →
  ∃ reply r, icmp_reply g packet t = Some (mkTxPacket reply) ∧
    inet_slice reply = Ok r ∧ source_ip r = Some gw ∧ destination_ip r = source_ip s.
Proof.
  intros Hg Hne Hs Hgw.
  destruct (generate_reply_ok g packet t s gw Hg Hne Hs Hgw)
    as (src & reply & Hsrc & Hr & (r & Hi & Hrs & Hrd) & _).
  exists reply, r. unfold icmp_reply. rewrite Hr, Hrd, Hsrc. done.
Qed.
End Facts.

(** ** A reference implementation

    Headers as RFC 791, 792, 8200 and 4443 lay them out, with their checksums.
    It builds the packets the unit tests expect. *)
Module EtherparseRef.

(** Sum of big-endian 16-bit words, a trailing byte padded with zero. *)
Fixpoint sum16 (l : list byte) : Z :=
  match l with
  | [] => 0
  | [a] => 256 * byte_val a
  | a :: b :: l => 256 * byte_val a + byte_val b + sum16 l
  end.

(** The Internet checksum. *)
Definition checksum (l : list byte) : Z :=
  let s := sum16 l in
  let s := s mod 65536 + s / 65536 in
  let s := s mod 65536 + s / 65536 in
  0xffff - s.

Definition u16 (z : Z) : list byte := to_be_bytes 2 z.
Definition u32 (z : Z) : list byte := to_be_bytes 4 z.

Definition icmpv4_header (t : Icmpv4Type) (sum : Z) : list byte :=
  match t with
  | Icmpv4_DestinationUnreachable NetworkUnknown => [x03; x06] ++ u16 sum ++ u32 0
  | Icmpv4_DestinationUnreachable Host => [x03; x01] ++ u16 sum ++ u32 0
  | Icmpv4_DestinationUnreachable (FragmentationNeeded mtu) =>
      [x03; x04] ++ u16 sum ++ u32 mtu
  end.

Definition icmpv6_header (t : Icmpv6Type) (sum : Z) : list byte :=
  match t with
  | Icmpv6_DestinationUnreachable NoRoute => [x01; x00] ++ u16 sum ++ u32 0
  | Icmpv6_DestinationUnreachable Address => [x01; x03] ++ u16 sum ++ u32 0
  | Icmpv6_PacketTooBig mtu => [x02; x00] ++ u16 sum ++ u32 mtu
  end.

Definition ipv4_header (h : Ipv4HeaderInit) (len sum : Z) : list byte :=
  [x45; x00] ++ u16 len ++ u16 0 ++ u16 (if dont_fragment h then 0x4000 else 0) ++
  [byte_of (time_to_live h); x01] ++ u16 sum ++ u32 (source h) ++ u32 (destination h).

Definition ipv6_header (src dst hop len : Z) : list byte :=
  [x60; x00; x00; x00] ++ u16 len ++ [x3a; byte_of hop] ++
  to_be_bytes 16 src ++ to_be_bytes 16 dst.

Definition ref_build_icmpv4 (h : Ipv4HeaderInit) (t : Icmpv4Type) (payload : list byte) :
    result (list byte) AnyhowError :=
  let len := 28 + Z.of_nat (length payload) in
  let ip_sum := checksum (ipv4_header h len 0) in
  let icmp_sum := checksum (icmpv4_header t 0 ++ payload) in
  Ok ((ipv4_header h len ip_sum ++ icmpv4_header t icmp_sum) ++ payload).

Definition ref_build_icmpv6 (src dst hop : Z) (t : Icmpv6Type) (payload : list byte) :
    result (list byte) AnyhowError :=
  let len := 8 + Z.of_nat (length payload) in
  let pseudo := to_be_bytes 16 src ++ to_be_bytes 16 dst ++ u32 len ++ u32 58 in
  let icmp_sum := checksum (pseudo ++ icmpv6_header t 0 ++ payload) in
  Ok ((ipv6_header src dst hop len ++ icmpv6_header t icmp_sum) ++ payload).

Definition ref_from_ip (p : list byte) : option (option InternetSlice) :=
  match p with
  | b :: _ =>
      if (byte_val b / 16 =? 4) && (20 <=? length p)%nat then
        Some (Some (InternetSlice_Ipv4 (from_be_bytes (take 4 (drop 12 p)))
                                       (from_be_bytes (take 4 (drop 16 p)))))
      else if (byte_val b / 16 =? 6) && (40 <=? length p)%nat then
        Some (Some (InternetSlice_Ipv6 (from_be_bytes (take 16 (drop 8 p)))
                                       (from_be_bytes (take 16 (drop 24 p)))))
      else None
  | [] => None
  end.

#[export] Instance etherparse : Etherparse := {
  from_ip := ref_from_ip;
  build_icmpv4 := ref_build_icmpv4;
  build_icmpv6 := ref_build_icmpv6;
}.

Lemma from_be_bytes_take n k p :
  (k + n ≤ length p)%nat →
  unsigned (8 * Z.of_nat n) (from_be_bytes (take n (drop k p))).
Proof.
  intros. apply from_be_bytes_unsigned. rewrite length_take, length_drop. lia.
Qed.

Lemma take_be_bytes n z rest :
  unsigned (8 * Z.of_nat n) z → from_be_bytes (take n (to_be_bytes n z ++ rest)) = z.
Proof.
  intros Hz. rewrite take_app_length' by (by rewrite length_to_be_bytes).
  rewrite from_to_be_bytes. by apply Z.mod_small.
Qed.

Lemma drop_be_bytes n z rest : drop n (to_be_bytes n z ++ rest) = rest.
Proof. by rewrite drop_app_length' by (by rewrite length_to_be_bytes). Qed.

Lemma length_icmpv4_header t sum : length (icmpv4_header t sum) = 8%nat.
Proof. by destruct t as [[]]. Qed.

Lemma length_icmpv6_header t sum : length (icmpv6_header t sum) = 8%nat.
Proof. by destruct t as [[]|]. Qed.

Lemma ref_from_ip_v4 pre src dst rest :
  length pre = 12%nat → head pre = Some x45 → unsigned 32 src → unsigned 32 dst →
  ref_from_ip (pre ++ u32 src ++ u32 dst ++ rest) =
    Some (Some (InternetSlice_Ipv4 src dst)).
Proof.
  intros Hl Hh Hs Hd. unfold ref_from_ip.
  set (p := pre ++ _). replace (drop 16 p) with (drop 4 (drop 12 p)) by apply drop_drop.
  unfold p. clear p.
  rewrite (drop_app_length' pre) by done. unfold u32.
  rewrite drop_be_bytes, !take_be_bytes by done.
  assert (20 ≤ length (pre ++ to_be_bytes 4 src ++ to_be_bytes 4 dst ++ rest))%nat as Hlen
    by (rewrite !length_app, !length_to_be_bytes; lia).
  destruct pre as [|b pre]; [done|]. injection Hh as ->. cbn [app] in *.
  by rewrite (proj2 (Nat.leb_le _ _) Hlen).
Qed.

Lemma ref_from_ip_v6 pre src dst rest :
  length pre = 8%nat → head pre = Some x60 → unsigned 128 src → unsigned 128 dst →
  ref_from_ip (pre ++ to_be_bytes 16 src ++ to_be_bytes 16 dst ++ rest) =
    Some (Some (InternetSlice_Ipv6 src dst)).
Proof.
  intros Hl Hh Hs Hd. unfold ref_from_ip.
  set (p := pre ++ _). replace (drop 24 p) with (drop 16 (drop 8 p)) by apply drop_drop.
  unfold p. clear p.
  rewrite (drop_app_length' pre _ 8) by done.
  rewrite drop_be_bytes, !take_be_bytes by done.
  assert (40 ≤ length (pre ++ to_be_bytes 16 src ++ to_be_bytes 16 dst ++ rest))%nat as Hlen
    by (rewrite !length_app, !length_to_be_bytes; lia).
  destruct pre as [|b pre]; [done|]. injection Hh as ->. cbn [app] in *.
  by rewrite (proj2 (Nat.leb_le _ _) Hlen).
Qed.

#[export] Instance etherparse_laws : EtherparseLaws etherparse.
Proof.
  constructor.
  - intros p s E. simpl in E. unfold ref_from_ip in E. destruct p as [|b p]; [done|].
    case_match; bool_to_prop; simplify_eq.
    { split; apply (from_be_bytes_take 4); lia. }
    case_match; bool_to_prop; simplify_eq.
    split; apply (from_be_bytes_take 16); lia.
  - intros h t payload Hs Hd Hl. eexists. split_and!; [|done|].
    + by rewrite length_app, length_icmpv4_header.
    + unfold ipv4_header. rewrite <- !app_assoc, (app_assoc [x45; x00]),
        !(app_assoc (_ ++ _) (u16 _)), (app_assoc (_ ++ _) [_; _]), (app_assoc (_ ++ _) (u16 _)).
      by apply ref_from_ip_v4.
  - intros src dst hop t payload Hs Hd Hl. eexists. split_and!; [|done|].
    + by rewrite length_app, length_icmpv6_header.
    + unfold ipv6_header. rewrite <- !app_assoc, (app_assoc [x60; x00; x00; x00]),
        (app_assoc (_ ++ _) [_; _]). by apply ref_from_ip_v6.
Qed.
End EtherparseRef.

(** ** Examples and witnesses *)
Import EtherparseRef.

(** The packets of the unit tests: 192.168.1.10 to 8.8.8.8 and 2001:db8::fe1 to
    2001:db8::fe2, with an empty UDP datagram. *)
Definition MOCK_IPV4_PACKET : list byte := map byte_of [
    0x45; 0x00; 0x00; 0x1c; 0x00; 0x00; 0x40; 0x00; 0x40; 0x11; 0xb8; 0x2d; 0xc0;
    0xa8; 0x01; 0x0a; 0x08; 0x08; 0x08; 0x08; 0x0b; 0xb8; 0x0b; 0xb8; 0x00; 0x08;
    0x00; 0x00].
Definition MOCK_IPV6_PACKET : list byte := map byte_of [
    0x60; 0x00; 0x00; 0x00; 0x00; 0x08; 0x11; 0x40; 0x20; 0x01; 0x0d; 0xb8; 0x00;
    0x00; 0x00; 0x00; 0x00; 0x00; 0x00; 0x00; 0x00; 0x00; 0x0f; 0xe1; 0x20; 0x01;
    0x0d; 0xb8; 0x00; 0x00; 0x00; 0x00; 0x00; 0x00; 0x00; 0x00; 0x00; 0x00; 0x0f;
    0xe2; 0x0b; 0xb8; 0x0b; 0xb8; 0x00; 0x08; 0x00; 0x00].

Definition gateway4 : IcmpGateway := from_addr (V4 0x08080404).
Definition gateway6 : IcmpGateway :=
  from_addr (V6 (Ipv6Addr_new [0x2001; 0xdb8; 0; 0; 0; 0; 0; 1])).

Lemma gateway4_wf : IcmpGateway_wf gateway4.
Proof. by split; intros a; simpl; intros; simplify_eq; by_decide. Qed.

Lemma generate_reply_spec_witness :
  (∃ src reply,
    source_ip (InternetSlice_Ipv4 0xc0a8010a 0x08080808) = Some src ∧
    generate_reply gateway4 MOCK_IPV4_PACKET unreachable_host = Ok (src, reply) ∧
    (∃ r, inet_slice reply = Ok r ∧ source_ip r = Some (V4 0x08080404) ∧
          destination_ip r = Some src) ∧
    (∃ headers, reply = headers ++ take 64 MOCK_IPV4_PACKET ∧
       length headers = if is_ipv6 src then 48%nat else 28%nat)) ∧
  (∃ e, generate_reply gateway4 MOCK_IPV6_PACKET unreachable_host = Err e).
Proof.
  destruct (generate_reply_spec gateway4 MOCK_IPV4_PACKET unreachable_host gateway4_wf)
    as [H4 _].
  destruct (generate_reply_spec gateway4 MOCK_IPV6_PACKET unreachable_host gateway4_wf)
    as [H6 _].
  split; [by apply H4|exact H6].
Defined.
