(* ===== verification/Handshake.v ===== *)
(** * The handshake between two peers

    Models the control plane of [src/src/peer.rs]: the peer configuration, the
    handler of control requests, the two halves of the handshake and the control
    loop. What the connection delivers is an input. *)

From S2P Require Import Prelude ErrorCode Net Keys Addr Proto Validate Packet.
From stdpp Require Import prelude strings.
From Stdlib Require Import Strings.Byte.

Local Open Scope Z_scope.

Record CommonPeerConfig := {
  allowed_networks : list IpNet;
  handshake_timeout : Z; (* milliseconds *)
  icmp_gateway : IcmpGateway;
}.

Definition CommonPeerConfig_new (icmp_gateway : IcmpGateway) : CommonPeerConfig :=
  {| allowed_networks := [Net6 VPN_IPV6_DEFAULT_ALLOWED];
     handshake_timeout := 60000;
     icmp_gateway := icmp_gateway |}.

(** [remote_addr]: the selected network path, else the first one. *)
Definition remote_addr {A} (paths : list (bool * A)) : option A :=
  match find fst paths with
  | Some p => Some (snd p)
  | None => snd <$> head paths
  end.

Definition RoutesChanged : Type := list IpAddr.

(** The [Debug] text of validation errors, put in a status message. *)
Class DebugFmt := { debug_errors : list AnyhowError → string }.

Section Handshake.
Context `{Ipnet, IrohKeys, Message ControlRequest, Message ControlResponse}.
Context `{ErrorCodeExt, DebugFmt}.

(** [PeerConfig], with the identity of the remote end of the connection. *)
Record PeerConfig := {
  common : CommonPeerConfig;
  remote_id : PublicKey;
  advertise : Advertise;
}.

(** [Peer::public_key]: of the remote end of the connection. *)
Definition Peer_public_key (self : PeerConfig) : PublicKey := remote_id self.

(** Returns an error iff the connection should be disconnected; the connection
    is then closed with the status. *)
Definition handle_control_request (self : PeerConfig) (request : ControlRequest) :
    list wire_event * result (option RoutesChanged) ThinStatus :=
  match command request with
  | None => ([], Ok None)
  | Some (Command_Advertise adv) =>
      let '(addrs, addr_errors) :=
        validate_addresses (allowed_networks (common self)) adv (remote_id self) in
      let new_routes := IpNet_addr <$> addrs in
      match new_routes with
      | [] =>
          let status :=
            {| code_raw := ErrorCode.as_i32 ErrorCode.FailedPrecondition;
               message := "No available routes to the peer; " +:+ debug_errors addr_errors |} in
          (close_connection status, Err status)
      | _ => ([], Ok (Some new_routes))
      end
  end.

Definition recv_control (self : PeerConfig)
    (accepted : result (SendStream * RecvStream) AnyhowError) :
    list wire_event * result (option RoutesChanged) AnyhowError :=
  let '(events, routes) := read_control accepted (handle_control_request self) in
  (events, map_err anyhow_status routes).

Definition send_advertise (self : PeerConfig)
    (opened : result (SendStream * RecvStream) AnyhowError) :
    list wire_event * result unit AnyhowError :=
  let control := {| command := Some (Command_Advertise (advertise self)) |} in
  let '(events, response) := write_control opened control in
  (events,
   let? response := response in
   map_err anyhow_status (control_to_status response)).

(** What the connection does during a handshake: whether a direct path comes up,
    whether both halves finish before the deadline, and the streams. *)
Record HandshakeEnv := {
  direct : result unit AnyhowError;
  in_time : bool;
  opened : result (SendStream * RecvStream) AnyhowError;
  accepted_bi : result (SendStream * RecvStream) AnyhowError;
}.

Definition handshake (self : PeerConfig) (env : HandshakeEnv) :
    result RoutesChanged AnyhowError :=
  let? _ := direct env in
  let? handshake :=
    if in_time env then
      let send := snd (send_advertise self (opened env)) in
      let receive := snd (recv_control self (accepted_bi env)) in
      let? _ := send in
      receive
    else Err anyhow_msg in
  match handshake with
  | Some routes => Ok routes
  | None => Err anyhow_msg
  end.

(** [None]: still waiting after the streams accepted so far. *)
Fixpoint recv_control_loop (self : PeerConfig)
    (accepts : list (result (SendStream * RecvStream) AnyhowError)) :
    option (result RoutesChanged AnyhowError) :=
  match accepts with
  | [] => None
  | accepted :: accepts =>
      match snd (recv_control self accepted) with
      | Err e => Some (Err e)
      | Ok (Some routes) => Some (Ok routes)
      | Ok None => recv_control_loop self accepts
      end
  end.
End Handshake.

(** ** Properties *)

Section Facts.
Context `{IpnetLaws, IrohLaws, MessageLaws ControlRequest, MessageLaws ControlResponse}.
Context `{ErrorCodeExt, DebugFmt}.

(** A route a peer is entitled to: an address that its key signed for, in an
    allowed network. *)
Definition entitled (self : PeerConfig) (ip : IpAddr) : Prop :=
  ∃ net sig allowed,
    ip = IpNet_addr net ∧ IpNet_wf net ∧
    PublicKey_verify (remote_id self) (serialize_network (IpNet_trunc net)) sig = true ∧
    ip = generate_signed_ip_with_signature net sig ∧
    allowed ∈ allowed_networks (common self) ∧ in_network allowed ip.

Lemma validated_entitled self adv net :
  Forall IpNet_wf (allowed_networks (common self)) →
  net ∈ fst (validate_addresses (allowed_networks (common self)) adv (remote_id self)) →
  entitled self (IpNet_addr net).
Proof.
  intros Hwf Hin.
  destruct (validate_addresses_entitled _ _ _ _ Hwf Hin)
    as (host & sig & _ & Hp & _ & _ & Hv & Hg & a & Ha & Hia).
  exists net, sig, a. split_and!; eauto using from_str_wf.
Qed.

Lemma handle_control_request_routes self request events routes :
  Forall IpNet_wf (allowed_networks (common self)) →
  handle_control_request self request = (events, Ok (Some routes)) →
  routes ≠ [] ∧ Forall (entitled self) routes.
Proof.
  intros Hwf E. unfold handle_control_request in E.
  destruct (command request) as [[adv]|]; [|done].
  pose proof (validated_entitled self adv) as Hent.
  destruct (validate_addresses _ adv _) as [addrs errs]. simpl in Hent.
  destruct (IpNet_addr <$> addrs) as [|ip ips] eqn:Er; [done|]. simplify_eq.
  split; [done|]. rewrite <- Er. apply Forall_fmap, Forall_forall. intros net Hin.
  by apply Hent.
Qed.

Lemma recv_control_routes self accepted routes :
  Forall IpNet_wf (allowed_networks (common self)) →
  snd (recv_control self accepted) = Ok (Some routes) →
  routes ≠ [] ∧ Forall (entitled self) routes.
Proof.
  intros Hwf E. unfold recv_control, read_control in E.
  destruct accepted as [[send recv]|]; [|done].
  destruct (read_control_stream recv) as [ev1 [r|]]; [|done].
  destruct (handle_control_request self r) as [ev2 resp] eqn:Eh.
  destruct (write_control_stream _ _) as [ev3 w]. simpl in E.
  destruct w; [|done]. destruct resp as [o|]; [|done]. simpl in E. simplify_eq.
  by apply (handle_control_request_routes self r ev2).
Qed.

Lemma handshake_entitled (self : PeerConfig) (env : HandshakeEnv)
    (routes : RoutesChanged) :
  Forall IpNet_wf (allowed_networks (common self)) →
  handshake self env = Ok routes →
  routes ≠ [] ∧ Forall (entitled self) routes.
Proof.
  intros Hwf E. unfold handshake in E.
  destruct (direct env); [|done]. destruct (in_time env); [|done].
  destruct (snd (send_advertise _ _)); [|done].
  destruct (snd (recv_control _ _)) as [[r|]|] eqn:Er; [|done..]. simplify_eq.
  by apply (recv_control_routes self (accepted_bi env)).
Qed.

(** C5: a handshake that succeeds yields at least one route, and every route is
    an address the remote key signed for, derived from that signature, in an
    allowed network. *)
Theorem handshake_routes_entitled (self : PeerConfig) (env : HandshakeEnv)
    (routes : RoutesChanged) :
  Forall IpNet_wf (allowed_networks (common self)) →
  handshake self env = Ok routes →
  routes ≠ [] ∧ Forall (entitled self) routes.
Proof. apply handshake_entitled. Qed.

(** ** Two nodes *)

(** The request a node sends in its handshake. *)
Definition advertise_request (self : PeerConfig) : ControlRequest :=
  {| command := Some (Command_Advertise (advertise self)) |}.

(** The response a node gives to a request. *)
Definition answer (self : PeerConfig) (request : ControlRequest) : ControlResponse :=
  response_of (snd (handle_control_request self request)).

(** The stream pair [client] opens is the one [server] accepts: it delivers to
    each of them what the other writes, and both messages fit the limit. *)
Definition linked (client server : PeerConfig)
    (op ac : result (SendStream * RecvStream) AnyhowError) : Prop :=
  ∃ send_c recv_c send_s recv_s,
    op = Ok (send_c, recv_c) ∧ ac = Ok (send_s, recv_s) ∧
    sends send_c ∧ sends send_s ∧
    delivers (fst (send_advertise client op)) recv_s ∧
    delivers (fst (recv_control server ac)) recv_c ∧
    (length (msg_encode (advertise_request client)) < MAX_MESSAGE_SIZE)%nat ∧
    (length (msg_encode (answer server (advertise_request client))) < MAX_MESSAGE_SIZE)%nat.

(** The handler closes the connection exactly when it refuses the request. *)
Lemma handle_control_request_events self request :
  match handle_control_request self request with
  | (events, Ok _) => events = []
  | (events, Err s) => events = close_connection s ∧ code_raw s ≠ 0
  end.
Proof.
  unfold handle_control_request. destruct (command request) as [[adv]|]; [|done].
  destruct (validate_addresses _ _ _) as [addrs errs]. by destruct (IpNet_addr <$> addrs).
Qed.

(** Over a linked stream pair the client learns that the server has accepted its
    advertisement; if the server refuses it, both halves fail, and the status goes
    out with the end of the connection but never as a response. *)
Lemma linked_exchange client server op ac :
  linked client server op ac →
  match snd (handle_control_request server (advertise_request client)) with
  | Ok routes =>
      snd (recv_control server ac) = Ok routes ∧ snd (send_advertise client op) = Ok tt
  | Err s =>
      (∃ e, snd (recv_control server ac) = Err e) ∧
      (∃ e, snd (send_advertise client op) = Err e) ∧
      Closed (close_code s) (message s) ∈ fst (recv_control server ac) ∧
      ∀ bytes, Wrote bytes ∉ fst (recv_control server ac)
  end.
Proof.
  intros (sc & rc & ss & rs & -> & -> & Hsc & Hss & Hq & Ha & Hql & Hal).
  unfold recv_control, send_advertise in *. fold (advertise_request client) in *.
  pose proof (handle_control_request_events server (advertise_request client)) as He.
  pose proof (exchange_outcome (advertise_request client) (handle_control_request server)
    sc ss rc rs Hsc Hss) as Hx. cbv zeta in Hx. unfold answer in Hal.
  destruct (handle_control_request server (advertise_request client)) as [ev verdict].
  destruct (read_control _ _) as [ev_s r]. destruct (write_control _ _) as [ev_c w].
  cbn [fst snd] in *. specialize (Hx Hq Ha Hql Hal).
  destruct verdict as [routes|st]; cbn [fst snd] in *.
  - subst ev. destruct Hx as (-> & rsp & -> & Hrsp); [done|set_solver|done|].
    split; [done|]. simpl. by rewrite Hrsp.
  - destruct He as [-> Hcode]. destruct Hx as ([e ->] & [e' ->] & ev & -> & Hno);
      [done|set_solver|by intros ? [= <-]|].
    split; [by eexists|]. split; [by eexists|]. split; [set_solver|].
    intros bytes. specialize (Hno bytes). unfold close_connection. set_solver.
Qed.

(** Both directions of a handshake between two nodes. *)
Definition connected (a b : PeerConfig) (env_a env_b : HandshakeEnv) : Prop :=
  direct env_a = Ok tt ∧ direct env_b = Ok tt ∧
  in_time env_a = true ∧ in_time env_b = true ∧
  linked a b (opened env_a) (accepted_bi env_b) ∧
  linked b a (opened env_b) (accepted_bi env_a).

Lemma handshake_connected a b env_a env_b o routes :
  connected a b env_a env_b →
  snd (handle_control_request b (advertise_request a)) = Ok o →
  snd (handle_control_request a (advertise_request b)) = Ok (Some routes) →
  handshake a env_a = Ok routes.
Proof.
  intros (Hd & _ & Ht & _ & Hab & Hba) Hb Ha.
  pose proof (linked_exchange a b _ _ Hab) as Hsend. rewrite Hb in Hsend.
  pose proof (linked_exchange b a _ _ Hba) as Hrecv. rewrite Ha in Hrecv.
  unfold handshake. by rewrite Hd, Ht, (proj2 Hsend), (proj1 Hrecv).
Qed.

(** A half that fails is enough. *)
Lemma handshake_half_failed self env :
  (∃ e, snd (send_advertise self (opened env)) = Err e) ∨
  (∃ e, snd (recv_control self (accepted_bi env)) = Err e) →
  ∃ e, handshake self env = Err e.
Proof.
  unfold handshake. intros Hf. destruct (direct env); [|by eexists].
  destruct (in_time env); [|by eexists]. simpl.
  destruct (snd (send_advertise _ _)); [|by eexists]. destruct Hf as [[e ?]|[e ->]]; [done|].
  by eexists.
Qed.

Lemma connected_sym a b env_a env_b :
  connected a b env_a env_b → connected b a env_b env_a.
Proof. unfold connected. tauto. Qed.

(** The configuration of a node with the default networks, towards a peer. *)
Definition node_config (gw : IcmpGateway) (own : IpNet) (sig : Signature)
    (peer : PublicKey) : PeerConfig :=
  {| common := CommonPeerConfig_new gw; remote_id := peer;
     advertise := own_advertise own sig |}.

(** What a node with the default networks makes of another's advertisement. *)
Lemma handle_own_advertise gw gw' own sig own' sig' key subnet key' :
  unsigned 16 subnet →
  generate_signed_ipnet (Net6 (vpn_subnet subnet)) key = Ret (own, sig) →
  snd (handle_control_request (node_config gw' own' sig' (SecretKey_public key))
        (advertise_request (node_config gw own sig key'))) =
    if subnet <=? MAX_SUBNET then Ok (Some [IpNet_addr own])
    else Err {| code_raw := ErrorCode.as_i32 ErrorCode.FailedPrecondition;
                message := "No available routes to the peer; " +:+ debug_errors [] |}.
Proof.
  intros Hs Hg. destruct (own_advertise_validated subnet key Hs) as (o & s & Hg' & Hv).
  rewrite Hg in Hg'. injection Hg' as <- <-.
  unfold handle_control_request. simpl. rewrite Hv.
  by destruct (subnet <=? MAX_SUBNET).
Qed.

(** C9: two nodes with legal subnets that shake hands over a working connection
    each end up with exactly the address the other derives from its own key. *)
Theorem handshake_exchanges_routes (key_a key_b : SecretKey) (sub_a sub_b : Z)
    (own_a own_b : IpNet) (sig_a sig_b : Signature) (gw_a gw_b : IcmpGateway)
    (env_a env_b : HandshakeEnv) :
  0 ≤ sub_a ≤ MAX_SUBNET → 0 ≤ sub_b ≤ MAX_SUBNET →
  generate_signed_ipnet (Net6 (vpn_subnet sub_a)) key_a = Ret (own_a, sig_a) →
  generate_signed_ipnet (Net6 (vpn_subnet sub_b)) key_b = Ret (own_b, sig_b) →
  let a := node_config gw_a own_a sig_a (SecretKey_public key_b) in
  let b := node_config gw_b own_b sig_b (SecretKey_public key_a) in
  connected a b env_a env_b →
  handshake a env_a = Ok [IpNet_addr own_b] ∧ handshake b env_b = Ok [IpNet_addr own_a].
Proof.
  intros Ha Hb Ga Gb a b Hc. change MAX_SUBNET with 0x7fff in *.
  assert (∀ s, 0 ≤ s ≤ 0x7fff → unsigned 16 s) as Hu by (unfold unsigned; lia).
  pose proof (handle_own_advertise gw_a gw_b own_a sig_a own_b sig_b key_a sub_a
    (SecretKey_public key_b) (Hu _ Ha) Ga) as Va.
  pose proof (handle_own_advertise gw_b gw_a own_b sig_b own_a sig_a key_b sub_b
    (SecretKey_public key_a) (Hu _ Hb) Gb) as Vb.
  change MAX_SUBNET with 0x7fff in Va, Vb.
  rewrite (proj2 (Z.leb_le _ _)) in Va by lia. rewrite (proj2 (Z.leb_le _ _)) in Vb by lia.
  split; [eapply (handshake_connected a b)|eapply (handshake_connected b a)]; eauto using connected_sym.
Qed.

(** C30: if one node refuses what the other advertises, over a stream pair that
    delivers what is written to it, the handshake fails on both sides, whatever
    else happens on the connection; the reason goes out in the closing of the
    connection, and never as a response. *)
Theorem handshake_rejection_is_mutual (a b : PeerConfig) (env_a env_b : HandshakeEnv)
    (s : ThinStatus) :
  linked a b (opened env_a) (accepted_bi env_b) →
  snd (handle_control_request b (advertise_request a)) = Err s →
  (∃ e, handshake a env_a = Err e) ∧ (∃ e, handshake b env_b = Err e) ∧
  Closed (close_code s) (message s) ∈ fst (recv_control b (accepted_bi env_b)) ∧
  ∀ bytes, Wrote bytes ∉ fst (recv_control b (accepted_bi env_b)).
Proof.
  intros Hl Hs. pose proof (linked_exchange a b _ _ Hl) as Hx. rewrite Hs in Hx.
  destruct Hx as (Hr & Hc & Hcl & Hw). split_and!; [..|done|done].
  - apply handshake_half_failed. by left.
  - apply handshake_half_failed. by right.
Qed.
End Facts.

(** ** Witnesses *)
Import IpnetRef KeysRef MessageRef EtherparseRef.

#[export] Instance debug_fmt_ref : DebugFmt := { debug_errors _ := "" }.

(** Alice and Bob in the default subnet; [example_own] is Alice's address. *)
Definition bob_sig : Signature :=
  SecretKey_sign (sk "bob") (serialize_network (Net6 (vpn_subnet 0))).
Definition bob_own : IpNet :=
  with_addr (Net6 (vpn_subnet 0))
    (generate_signed_ip_with_signature (Net6 (vpn_subnet 0)) bob_sig).

Definition alice_config : PeerConfig :=
  node_config IcmpGateway_default example_own example_sig (pk "bob").
Definition bob_config : PeerConfig :=
  node_config IcmpGateway_default bob_own bob_sig (pk "alice").

(** Streams that deliver [client]'s advertisement and [server]'s answer whole, or
    the end of the connection if [server] refuses. *)
Definition example_opened (client server : PeerConfig) :
    result (SendStream * RecvStream) AnyhowError :=
  Ok (example_send,
    match snd (handle_control_request server (advertise_request client)) with
    | Ok _ => [Chunks [msg_encode (answer server (advertise_request client))]]
    | Err _ => [ReadError anyhow_msg]
    end).
Definition example_accepted (client : PeerConfig) :
    result (SendStream * RecvStream) AnyhowError :=
  Ok (example_send, [Chunks [msg_encode (advertise_request client)]]).
Definition example_env (self peer : PeerConfig) : HandshakeEnv :=
  {| direct := Ok tt; in_time := true;
     opened := example_opened self peer; accepted_bi := example_accepted peer |}.

Definition fits (client server : PeerConfig) : bool :=
  (length (msg_encode (advertise_request client)) <? MAX_MESSAGE_SIZE)%nat &&
  (length (msg_encode (answer server (advertise_request client))) <? MAX_MESSAGE_SIZE)%nat.

Lemma example_linked client server :
  fits client server = true →
  linked client server (example_opened client server) (example_accepted client).
Proof.
  unfold fits. intros Hf. bool_to_prop. eexists _, _, _, _.
  split_and!; [done..|exact example_sends|exact example_sends| | |done|done].
  - unfold send_advertise, example_opened, write_control.
    rewrite write_control_stream_ok by exact example_sends.
    pose proof (read_control_stream_quiet (P := ControlResponse)
      (match snd (handle_control_request server (advertise_request client)) with
       | Ok _ => [Chunks [msg_encode (answer server (advertise_request client))]]
       | Err _ => [ReadError anyhow_msg]
       end)) as (Hq1 & Hq2 & Hq3).
    destruct (read_control_stream _) as [ev res]. cbn [fst snd app] in *.
    unfold delivers. change (closes _) with (closes ev). rewrite Hq1. intros _ _.
    rewrite written_message, Hq3, app_nil_r. apply one_chunk.
  - unfold recv_control, example_accepted, read_control.
    rewrite (read_control_stream_ok _ (advertise_request client)) by (apply one_chunk || done).
    pose proof (handle_control_request_events server (advertise_request client)) as He.
    unfold answer. destruct (handle_control_request server _) as [ev [o|st]]; cbn [fst snd].
    + subst ev. change (closes []) with false.
      rewrite write_control_stream_ok by exact example_sends. intros _ _. apply one_chunk.
    + destruct He as [-> _]. by destruct (write_control_stream _ _ _).
Qed.

Lemma example_connected a b :
  fits a b = true → fits b a = true → connected a b (example_env a b) (example_env b a).
Proof. intros. split_and!; try done; by apply example_linked. Qed.

Lemma handshake_exchanges_routes_witness :
  handshake alice_config (example_env alice_config bob_config) = Ok [IpNet_addr bob_own] ∧
  handshake bob_config (example_env bob_config alice_config) = Ok [IpNet_addr example_own].
Proof.
  apply (handshake_exchanges_routes (sk "alice") (sk "bob") 0 0 example_own bob_own
    example_sig bob_sig).
  - by_decide.
  - by_decide.
  - by vm_compute.
  - by vm_compute.
  - apply example_connected; by vm_compute.
Defined.

Lemma handshake_routes_entitled_witness :
  [IpNet_addr bob_own] ≠ [] ∧ Forall (entitled alice_config) [IpNet_addr bob_own].
Proof.
  apply (handshake_routes_entitled alice_config (example_env alice_config bob_config)).
  - by_decide.
  - by vm_compute.
Defined.

(** Charlie's subnet is reserved, so Alice refuses it. *)
Definition charlie_config : PeerConfig :=
  node_config IcmpGateway_default
    (with_addr (Net6 (vpn_subnet 0x8000))
      (generate_signed_ip_with_signature (Net6 (vpn_subnet 0x8000))
        (SecretKey_sign (sk "bob") (serialize_network (Net6 (vpn_subnet 0x8000))))))
    (SecretKey_sign (sk "bob") (serialize_network (Net6 (vpn_subnet 0x8000))))
    (pk "alice").

Lemma handshake_rejection_is_mutual_witness :
  ∃ s, code_raw s = ErrorCode.as_i32 ErrorCode.FailedPrecondition ∧
  (∃ e, handshake charlie_config (example_env charlie_config alice_config) = Err e) ∧
  (∃ e, handshake alice_config (example_env alice_config charlie_config) = Err e) ∧
  Closed (close_code s) (message s) ∈ fst (recv_control alice_config (example_accepted charlie_config)) ∧
  ∀ bytes, Wrote bytes ∉ fst (recv_control alice_config (example_accepted charlie_config)).
Proof.
  eexists. split; [|apply (handshake_rejection_is_mutual charlie_config alice_config
    (example_env charlie_config alice_config) (example_env alice_config charlie_config))].
  2: apply example_linked; by vm_compute.
  2: by vm_compute.
  done.
Defined.
