(* ===== verification/HandshakeTime.v ===== *)
(** * How long a handshake takes

    [Peer::handshake] of [src/src/peer.rs] again, with the time at which the
    parts of it finish: the wait for a direct path, which has no deadline, and
    then both halves of the exchange under one. *)

From S2P Require Import Prelude ErrorCode Net Keys Addr Proto Validate Packet Handshake.
From stdpp Require Import prelude.

Local Open Scope Z_scope.

(** When the parts finish, in milliseconds: the wait for a direct path after the
    start, the halves of the exchange after that. [None]: never. *)
Record Timing := {
  direct_done : option Z;
  send_done : option Z;
  recv_done : option Z;
}.

(** What [tokio] makes of these times: [join!] of two futures is done at some
    time or never, and [timeout] returns at some time, with whether the future was
    done. *)
Class TokioTime := {
  join_done : option Z → option Z → option Z;
  timeout : Z → option Z → Z * bool;
}.

(** As documented: [join!] waits for both, [timeout] for the future but not beyond
    the limit. Which of the two wins at the same instant is left open. *)
Class TokioTimeLaws `{TokioTime} : Prop := {
  join_done_some a b t :
    join_done a b = Some t ↔ ∃ x y, a = Some x ∧ b = Some y ∧ t = Z.max x y;
  timeout_before limit t : t < limit → timeout limit (Some t) = (t, true);
  timeout_at limit : ∃ b, timeout limit (Some limit) = (limit, b);
  timeout_late limit done :
    (∀ t, done = Some t → limit < t) → timeout limit done = (limit, false);
}.

Definition with_in_time (env : HandshakeEnv) (b : bool) : HandshakeEnv :=
  {| direct := direct env; in_time := b; opened := opened env; accepted_bi := accepted_bi env |}.

Section Timed.
Context `{Ipnet, IrohKeys, Message ControlRequest, Message ControlResponse}.
Context `{ErrorCodeExt, DebugFmt, TokioTime}.

(** [None]: it never returns. *)
Definition handshake_timed (self : PeerConfig) (env : HandshakeEnv) (tm : Timing) :
    option (Z * result RoutesChanged AnyhowError) :=
  t0 ← direct_done tm;
  match direct env with
  | Err e => Some (t0, Err e)
  | Ok _ =>
      let '(t, in_time) :=
        timeout (handshake_timeout (common self)) (join_done (send_done tm) (recv_done tm)) in
      Some (t0 + t, handshake self (with_in_time env in_time))
  end.

Lemma timeout_spec `{!TokioTimeLaws} limit done t b :
  timeout limit done = (t, b) →
  t ≤ limit ∧ (b = true → done = Some t) ∧ (b = false → t = limit ∧ ∀ d, done = Some d → limit ≤ d).
Proof.
  intros E. destruct done as [d|]; [destruct (Ztrichotomy d limit) as [Hd|[->|Hd]]|].
  - rewrite timeout_before in E by done. simplify_eq. split; [lia|done].
  - destruct (timeout_at limit) as [b' Eb]. rewrite Eb in E. simplify_eq.
    split; [lia|]. split; [done|]. intros _. split; [done|]. intros d [= <-]. lia.
  - rewrite timeout_late in E by (intros ? [= <-]; lia). simplify_eq.
    split; [lia|]. split; [done|]. intros _. split; [done|]. intros ? [= <-]. lia.
  - rewrite timeout_late in E by done. simplify_eq. by split; [lia|].
Qed.

Lemma handshake_late self env : direct env = Ok tt → ∃ e, handshake self (with_in_time env false) = Err e.
Proof. intros Hd. unfold handshake. simpl. rewrite Hd. by eexists. Qed.

(** A handshake comes to an end exactly when the wait for a direct path
    does, and then within the deadline. It succeeds only if both halves are done
    by then, as soon as the slower of them is, with what the halves say; if
    either half is not, it fails at the deadline, neither before nor after, also
    when the other half had failed long before. *)
Theorem handshake_deadline `{!TokioTimeLaws} (self : PeerConfig) (env : HandshakeEnv) (tm : Timing) :
  (handshake_timed self env tm = None ↔ direct_done tm = None) ∧
  ∀ t0, direct_done tm = Some t0 → direct env = Ok tt →
    let limit := handshake_timeout (common self) in
    ∃ t r, handshake_timed self env tm = Some (t0 + t, r) ∧ t ≤ limit ∧
      ((∃ a b, send_done tm = Some a ∧ recv_done tm = Some b ∧ t = Z.max a b ∧
          r = handshake self (with_in_time env true)) ∨
       (t = limit ∧ (∃ e, r = Err e) ∧
          ∀ a b, send_done tm = Some a → recv_done tm = Some b → limit ≤ Z.max a b)).
Proof.
  unfold handshake_timed. split.
  - destruct (direct_done tm) as [t0|]; simpl; [|done]. destruct (direct env); [|done].
    by destruct (timeout _ _).
  - intros t0 -> Hd. cbv zeta. simpl. rewrite Hd.
    destruct (timeout _ _) as [t b] eqn:Et. apply timeout_spec in Et as (Hle & Htrue & Hfalse).
    exists t, (handshake self (with_in_time env b)). split; [done|]. split; [done|]. destruct b.
    + left. destruct (proj1 (join_done_some _ _ _) (Htrue eq_refl)) as (x & y & Hx & Hy & ->).
      by exists x, y.
    + right. destruct (Hfalse eq_refl) as [-> Hlate]. split; [done|].
      split; [by apply handshake_late|]. intros a b' Ha Hb. apply Hlate, join_done_some. by exists a, b'.
Qed.
End Timed.

(** ** A clock for which the future comes first *)
Module TokioRef.
#[export] Instance tokio_time : TokioTime := {
  join_done a b := match a, b with Some a, Some b => Some (Z.max a b) | _, _ => None end;
  timeout limit done :=
    match done with
    | Some t => if t <=? limit then (t, true) else (limit, false)
    | None => (limit, false)
    end;
}.

#[export] Instance tokio_time_laws : TokioTimeLaws.
Proof.
  constructor; simpl.
  - intros a b t. destruct a, b; naive_solver.
  - intros limit t Ht. by rewrite (proj2 (Z.leb_le _ _)) by lia.
  - intros limit. by rewrite Z.leb_refl; exists true.
  - intros limit [t|] Ht; [|done]. by rewrite (proj2 (Z.leb_gt _ _)) by (by apply Ht).
Qed.
End TokioRef.

(** ** Witness: Bob's half of the exchange takes longer than Alice's *)
Import IpnetRef KeysRef MessageRef EtherparseRef TokioRef.

Lemma handshake_deadline_witness :
  ∃ t r, handshake_timed alice_config (example_env alice_config bob_config)
      {| direct_done := Some 20; send_done := Some 35; recv_done := Some 90 |} = Some (20 + t, r) ∧
    t ≤ 60000.
Proof.
  destruct (proj2 (handshake_deadline alice_config (example_env alice_config bob_config)
    {| direct_done := Some 20; send_done := Some 35; recv_done := Some 90 |}) 20 eq_refl eq_refl)
    as (t & r & E & Ht & _).
  exact (ex_intro _ t (ex_intro _ r (conj E Ht))).
Defined.
