(* ===== verification/Retry.v ===== *)
(** * Retrying on the transient Windows error

    Models [src/src/osal/retry.rs]. The operation acts on a state of the
    operating system; the exponential backoff of the [backoff] crate is a
    parameter that either grants another delay or gives up. *)

From S2P Require Import Prelude ErrorCode.
From stdpp Require Import prelude.

Local Open Scope Z_scope.

Definition WINDOWS_ERROR_NOT_FOUND : Z := 1168.

(** [backoff::ExponentialBackoff]: [next_backoff] is [None] once the elapsed
    time exceeds [max_elapsed_time]; otherwise it is a delay and the new state.
    [backoff_init] takes the initial and the maximal interval and the maximal
    elapsed time, in milliseconds. *)
Class Backoff := {
  backoff_state : Type;
  backoff_init : Z → Z → Z → backoff_state;
  next_backoff : backoff_state → option (Z * backoff_state);
}.

(** A backoff that gives up after at most [n] delays. *)
Inductive gives_up_within `{Backoff} : nat → backoff_state → Prop :=
  | gives_up_now n b : next_backoff b = None → gives_up_within n b
  | gives_up_later n b delay b' :
      next_backoff b = Some (delay, b') → gives_up_within n b' →
      gives_up_within (S n) b.

(** The state after [k] delays were granted. *)
Fixpoint backoff_after `{Backoff} (k : nat) (b : backoff_state) : option backoff_state :=
  match k with
  | O => Some b
  | S k => next_backoff b ≫= λ '(_, b'), backoff_after k b'
  end.

(** The delays of the configured backoff are bounded in number, since each adds
    at least a fixed fraction of the initial interval to the elapsed time. *)
Class BackoffLaws (bk : Backoff) : Prop := {
  backoff_bounded i m e : 0 < i → 0 ≤ e → ∃ n, gives_up_within n (backoff_init i m e);
}.

Definition is_not_found (e : IoError) : bool :=
  match raw_os_error e with
  | Some n => n =? WINDOWS_ERROR_NOT_FOUND
  | None => false
  end.

Section Retry.
Context `{Backoff} {T W : Type}.

(** An operation on the state of the system. *)
Definition sys_op : Type := W → result T IoError * W.

(** The loop, with fuel for its iterations; also counts the calls of [op]. *)
Fixpoint retry_loop (fuel : nat) (op : sys_op) (bk : backoff_state) (w : W) :
    option (result T IoError * W * nat) :=
  match fuel with
  | O => None
  | S fuel =>
      let '(result, w) := op w in
      match result with
      | Ok _ => Some (result, w, 1%nat)
      | Err err =>
          if is_not_found err then
            match next_backoff bk with
            | None => Some (result, w, 1%nat)
            | Some (_delay, bk) =>
                (λ '(r, w, n), (r, w, S n)) <$> retry_loop fuel op bk w
            end
          else Some (result, w, 1%nat)
      end
  end.

Definition retry_on_windows_not_found (fuel : nat) (op : sys_op) (w : W) :
    option (result T IoError * W * nat) :=
  retry_loop fuel op (backoff_init 50 500 2000) w.

(** ** Properties *)

(** [op] is called [n] more times after the first, from state [w]: every call
    but the last fails with the transient error. *)
Inductive calls (op : sys_op) : nat → W → result T IoError → W → Prop :=
  | calls_last w r w' : op w = (r, w') → calls op 0 w r w'
  | calls_again n w e w' r w'' :
      op w = (Err e, w') → is_not_found e = true → calls op n w' r w'' →
      calls op (S n) w r w''.

Lemma retry_loop_terminates op n bk :
  gives_up_within n bk → ∀ w, ∃ r w' k,
    retry_loop (S n) op bk w = Some (r, w', S k) ∧ (k ≤ n)%nat ∧
    calls op k w r w' ∧
    ∃ bk', backoff_after k bk = Some bk' ∧
      (∀ e, r = Err e → is_not_found e = true → next_backoff bk' = None).
Proof.
  induction 1 as [n bk Hn|n bk d bk' Hn _ IH]; intros w.
  - destruct (op w) as [r w'] eqn:Eo. exists r, w', 0%nat.
    simpl. rewrite Eo. split_and!; [|lia|by constructor|by exists bk].
    destruct r as [a|e]; [done|]. by destruct (is_not_found e); rewrite ?Hn.
  - destruct (op w) as [r w'] eqn:Eo.
    destruct (match r with Err e => is_not_found e | Ok _ => false end) eqn:Et.
    + destruct r as [|e]; [done|]. destruct (IH w') as (r & w'' & k & Hr & Hk & Hc & bk'' & Hb & Hg).
      exists r, w'', (S k). split_and!; [|lia|by econstructor|exists bk''; simpl; by rewrite Hn].
      remember (S n) as m eqn:Em. simpl. by rewrite Eo, Et, Hn, Hr.
    + exists r, w', 0%nat. split_and!; [|lia|by constructor|].
      * simpl. rewrite Eo. destruct r as [|e]; [done|]. by rewrite Et.
      * exists bk. split; [done|]. intros e -> E. by rewrite E in Et.
Qed.
End Retry.
Arguments sys_op : clear implicits.

(** C24: the retry loop ends, whatever the operation does: with enough fuel it
    returns the result of its last call, every earlier call having failed with
    the transient error, and it returns the transient error only when the
    backoff has given up. *)
Theorem retry_terminates `{BackoffLaws} {T W : Type} (op : sys_op T W) (w : W) :
  ∃ fuel r w' k,
    retry_on_windows_not_found fuel op w = Some (r, w', S k) ∧
    calls op k w r w' ∧
    ∃ bk', backoff_after k (backoff_init 50 500 2000) = Some bk' ∧
      (∀ e, r = Err e → is_not_found e = true → next_backoff bk' = None).
Proof.
  destruct (backoff_bounded 50 500 2000) as [n Hn]; [lia..|].
  destruct (retry_loop_terminates op n _ Hn w) as (r & w' & k & ? & _ & ? & ?).
  by exists (S n), r, w', k.
Qed.

(** ** A reference backoff: the elapsed time after the minimal delays *)
Module BackoffRef.
Record state := { interval : Z; max_interval : Z; elapsed : Z; max_elapsed : Z }.

Definition next (s : state) : option (Z * state) :=
  if max_elapsed s <? elapsed s then None
  else Some (interval s,
    {| interval := Z.min (interval s * 3 / 2) (max_interval s);
       max_interval := max_interval s;
       elapsed := elapsed s + Z.max 1 (interval s / 2);
       max_elapsed := max_elapsed s |}).

#[export] Instance backoff : Backoff := {
  backoff_state := state;
  backoff_init i m e :=
    {| interval := i; max_interval := m; elapsed := 0; max_elapsed := e |};
  next_backoff := next;
}.

Lemma bounded n s : max_elapsed s - elapsed s < Z.of_nat n → gives_up_within n s.
Proof.
  revert s. induction n as [|n IH]; intros s Hs.
  - constructor. simpl. unfold next. by rewrite (proj2 (Z.ltb_lt _ _)) by lia.
  - destruct (next s) as [[d s']|] eqn:E; [|by constructor].
    econstructor; [exact E|]. apply IH. unfold next in E. case_match; [done|].
    simplify_eq/=. lia.
Qed.

#[export] Instance backoff_laws : BackoffLaws backoff.
Proof.
  constructor. intros i m e ??. exists (S (Z.to_nat e)). apply bounded. simpl. lia.
Qed.
End BackoffRef.
Import BackoffRef.

(** An operation that fails twice with the transient error and then succeeds. *)
Definition example_op : sys_op unit nat :=
  λ n, if (n <? 2)%nat
       then (Err {| kind := ErrorKind.Other; raw_os_error := Some 1168 |}, S n)
       else (Ok tt, n).

Example retries_until_it_succeeds :
  retry_on_windows_not_found 50 example_op 0%nat = Some (Ok tt, 2%nat, 3%nat).
Proof. by vm_compute. Qed.

Lemma retry_terminates_witness :
  ∃ fuel r w' k,
    retry_on_windows_not_found fuel example_op 0%nat = Some (r, w', S k) ∧
    calls example_op k 0%nat r w' ∧
    ∃ bk', backoff_after k (backoff_init 50 500 2000) = Some bk' ∧
      (∀ e, r = Err e → is_not_found e = true → next_backoff bk' = None).
Proof. apply (retry_terminates example_op 0%nat). Defined.
