(* ===== verification/Route.v ===== *)
(** * The routing table and scoped routes

    Models [src/src/route.rs]: the [RoutingTable] trait as a class over the state
    of the system, its implementation by the [net_route] crate with the retry
    loop and the gauges of active routes, and [ScopedRoute], the guard that
    panics when a route is forgotten. *)

From S2P Require Import Prelude ErrorCode Net Retry.
From stdpp Require Import prelude gmap.

Local Open Scope Z_scope.

(** [trait RoutingTable]: [insert] and [remove] on the state [W] of the system.
    Both are futures: [rt_ready] says whether that of [insert] is done when it is
    first polled; else whoever polls it goes on with something else meanwhile. *)
Class RoutingTable (W : Type) := {
  rt_insert : IpAddr → W → result unit IoError * W;
  rt_remove : IpAddr → W → result unit IoError * W;
  rt_ready : IpAddr → W → bool;
}.

(** The contract the relay relies on, in terms of the routes installed in a
    state: a success has the effect asked for; a failure may have had it or not,
    and neither touches any other route. *)
Class RoutingTableLaws (W : Type) `{RoutingTable W} (routes : W → gset IpAddr) : Prop := {
  rt_insert_ok ip w w' : rt_insert ip w = (Ok tt, w') → routes w' = {[ip]} ∪ routes w;
  rt_insert_err ip w e w' : rt_insert ip w = (Err e, w') →
    routes w ⊆ routes w' ⊆ {[ip]} ∪ routes w;
  rt_remove_ok ip w w' : rt_remove ip w = (Ok tt, w') → routes w' = routes w ∖ {[ip]};
  rt_remove_err ip w e w' : rt_remove ip w = (Err e, w') →
    routes w ∖ {[ip]} ⊆ routes w' ⊆ routes w;
}.

Section LawFacts.
Context `{RoutingTableLaws W routes}.

Lemma rt_insert_subset ip w r w' :
  rt_insert ip w = (r, w') → routes w ⊆ routes w' ⊆ {[ip]} ∪ routes w.
Proof.
  destruct r as [[]|e]; intros E.
  - apply rt_insert_ok in E. set_solver.
  - by apply rt_insert_err in E.
Qed.

Lemma rt_remove_subset ip w r w' :
  rt_remove ip w = (r, w') → routes w ∖ {[ip]} ⊆ routes w' ⊆ routes w.
Proof.
  destruct r as [[]|e]; intros E.
  - apply rt_remove_ok in E. set_solver.
  - by apply rt_remove_err in E.
Qed.
End LawFacts.

(** ** Scoped routes *)

Record ScopedRoute := { dest_ip : IpAddr }.

Section Scoped.
Context `{RoutingTable W}.

Definition ScopedRoute_new (ip : IpAddr) (w : W) : result ScopedRoute IoError * W :=
  let '(r, w) := rt_insert ip w in
  (let? _ := r in Ok {| dest_ip := ip |}, w).

(** [Drop]: panics unless the guard was released. *)
Definition ScopedRoute_drop (self : ScopedRoute) : outcome unit :=
  if negb (is_unspecified (dest_ip self)) then Panic else Ret tt.

(** The guard is released (its address replaced by [::]) before the removal, and
    dropped at the end. *)
Definition drop_async (self : ScopedRoute) (w : W) : outcome (result IpAddr IoError * W) :=
  let ip := dest_ip self in
  let self := {| dest_ip := V6 0 |} in
  let '(r, w) := rt_remove ip w in
  let! _ := ScopedRoute_drop self in
  Ret (let? _ := r in Ok ip, w).

Lemma drop_async_returns self w :
  drop_async self w =
    let '(r, w') := rt_remove (dest_ip self) w in
    Ret (match r with Ok _ => Ok (dest_ip self) | Err e => Err e end, w').
Proof. unfold drop_async. by destruct (rt_remove _ _). Qed.
End Scoped.

(** ** The system routing table *)

(** [net_route::Route]. *)
Record NetRoute := { r_destination : IpAddr; r_prefix : Z; r_ifindex : Z }.

#[export] Instance NetRoute_eq_dec : EqDecision NetRoute.
Proof. solve_decision. Defined.
#[export] Instance NetRoute_countable : Countable NetRoute.
Proof.
  refine (inj_countable' (λ r, (r_destination r, r_prefix r, r_ifindex r))
    (λ '(d, p, i), {| r_destination := d; r_prefix := p; r_ifindex := i |}) _). by intros [].
Defined.

(** [net_route::Handle]: adding and deleting a route of the kernel, and whether
    adding it is done at once. *)
Class NetRouteOps (K : Type) := {
  net_add : NetRoute → K → result unit IoError * K;
  net_delete : NetRoute → K → result unit IoError * K;
  net_add_ready : NetRoute → K → bool;
}.

(** ** What the kernel does with a route

    It adds and deletes the route it is given, and nothing else; a call that
    fails may have had its effect. *)
Class NetRouteLaws (K : Type) `{NetRouteOps K} (kernel_routes : K → gset NetRoute) : Prop := {
  net_add_ok r k k' : net_add r k = (Ok tt, k') → kernel_routes k' = {[r]} ∪ kernel_routes k;
  net_add_err r k e k' : net_add r k = (Err e, k') →
    kernel_routes k ⊆ kernel_routes k' ⊆ {[r]} ∪ kernel_routes k;
  net_delete_ok r k k' : net_delete r k = (Ok tt, k') →
    kernel_routes k' = kernel_routes k ∖ {[r]};
  net_delete_err r k e k' : net_delete r k = (Err e, k') →
    kernel_routes k ∖ {[r]} ⊆ kernel_routes k' ⊆ kernel_routes k;
}.

(** The route of a single address: all bits of the address are significant. *)
Definition address_bits (ip : IpAddr) : Z := match ip with V4 _ => 32 | V6 _ => 128 end.
Definition host_route (if_index : Z) (ip : IpAddr) : NetRoute :=
  {| r_destination := ip; r_prefix := address_bits ip; r_ifindex := if_index |}.

(** The single addresses that are routed through an interface. *)
Definition host_routes (if_index : Z) (rs : gset NetRoute) : gset IpAddr :=
  set_map r_destination
    (filter (λ r, r_prefix r = address_bits (r_destination r) ∧ r_ifindex r = if_index) rs).

Lemma elem_of_host_routes i ip rs : ip ∈ host_routes i rs ↔ host_route i ip ∈ rs.
Proof.
  unfold host_routes. rewrite elem_of_map. split.
  - intros (r & -> & [[Hp Hi] Hr]%elem_of_filter). destruct r. simpl in *. by subst.
  - intros Hr. exists (host_route i ip). split; [done|]. by apply elem_of_filter.
Qed.

Lemma host_route_inj i ip ip' : host_route i ip = host_route i ip' → ip = ip'.
Proof. by intros [=]. Qed.

Lemma host_routes_add i ip rs :
  host_routes i ({[host_route i ip]} ∪ rs) = {[ip]} ∪ host_routes i rs.
Proof.
  apply set_eq. intros ip'. rewrite elem_of_union, !elem_of_host_routes, elem_of_union,
    !elem_of_singleton. split; [intros [?%host_route_inj|?]|intros [->|?]]; auto.
Qed.

Lemma host_routes_delete i ip rs :
  host_routes i (rs ∖ {[host_route i ip]}) = host_routes i rs ∖ {[ip]}.
Proof.
  apply set_eq. intros ip'. rewrite elem_of_difference, !elem_of_host_routes, elem_of_difference,
    !elem_of_singleton. split; intros [? Hne]; (split; [done|]); [by intros ->|].
  by intros ?%host_route_inj.
Qed.

Lemma host_routes_mono i rs rs' : rs ⊆ rs' → host_routes i rs ⊆ host_routes i rs'.
Proof. intros Hs ip. rewrite !elem_of_host_routes. apply Hs. Qed.

(** The kernel with the counter [p2p_vpn_route_add_total] and the gauge
    [p2p_vpn_route_active], per address family. *)
Record RouteState (K : Type) := {
  kernel : K;
  add_total : bool → Z;
  active : bool → Z;
}.
Arguments kernel {K} _.
Arguments add_total {K} _ _.
Arguments active {K} _ _.

Definition bump (v6 : bool) (d : Z) (g : bool → Z) : bool → Z :=
  λ b, if Bool.eqb b v6 then g b + d else g b.

Section NetRouteHandle.
Context `{NetRouteOps K, Backoff} (if_index : Z).

Definition route_entry (dest_ip : IpAddr) : NetRoute :=
  let prefix := match dest_ip with V4 _ => 32 | V6 _ => 128 end in
  {| r_destination := dest_ip; r_prefix := prefix; r_ifindex := if_index |}.

(** [fuel] bounds the retries; the backoff gives up well before it. *)
Definition NetRouteHandle_insert (fuel : nat) (ip : IpAddr) (s : RouteState K) :
    option (result unit IoError * RouteState K) :=
  let route := route_entry ip in
  '(r, k, _) ← retry_on_windows_not_found fuel (net_add route) (kernel s);
  Some match r with
  | Err e => (Err e, {| kernel := k; add_total := add_total s; active := active s |})
  | Ok _ =>
      (Ok tt, {| kernel := k;
                 add_total := bump (is_ipv6 ip) 1 (add_total s);
                 active := bump (is_ipv6 ip) 1 (active s) |})
  end.

Definition NetRouteHandle_remove (fuel : nat) (ip : IpAddr) (s : RouteState K) :
    option (result unit IoError * RouteState K) :=
  let route := route_entry ip in
  '(r, k, _) ← retry_on_windows_not_found fuel (net_delete route) (kernel s);
  Some match r with
  | Err e => (Err e, {| kernel := k; add_total := add_total s; active := active s |})
  | Ok _ =>
      (Ok tt, {| kernel := k; add_total := add_total s;
                 active := bump (is_ipv6 ip) (-1) (active s) |})
  end.
End NetRouteHandle.

(** The handle: where the [Arc] of the [net_route] handle points, and the
    interface. *)
Record NetRouteHandle := { nr_handle : nat; nr_if_index : Z }.

Definition from_handle (h : nat) (if_index : Z) : NetRouteHandle :=
  {| nr_handle := h; nr_if_index := if_index |}.

(** [opened]: the answer of [net_route::Handle::new], in its [Arc]. *)
Definition NetRouteHandle_new (opened : result nat IoError) (if_index : Z) :
    result NetRouteHandle IoError :=
  let? h := opened in Ok (from_handle h if_index).

Definition NetRouteHandle_eq (self other : NetRouteHandle) : bool :=
  (nr_handle self =? nr_handle other)%nat.

(** [hasher]: what the hasher becomes when it is given a pointer. *)
Definition NetRouteHandle_hash {H} (self : NetRouteHandle) (hasher : nat → H → H) : H → H :=
  hasher (nr_handle self).

Definition handle_equiv (a b : NetRouteHandle) : Prop := NetRouteHandle_eq a b = true.

(** [Eq]: the equality is an equivalence, and equal handles hash alike. *)
#[export] Instance handle_equiv_equivalence : Equivalence handle_equiv.
Proof.
  unfold handle_equiv, NetRouteHandle_eq. split; [intros a|intros a b|intros a b c]; rewrite ?Nat.eqb_eq; congruence.
Qed.

#[export] Instance handle_hash_proper {H} :
  Proper (handle_equiv ==> eq ==> eq) (@NetRouteHandle_hash H).
Proof.
  intros a b Hab f g ->. unfold NetRouteHandle_hash. by rewrite (proj1 (Nat.eqb_eq _ _) Hab).
Qed.

(** Equal handles need not route through the same interface. *)
Lemma equal_handles_other_interface (a : NetRouteHandle) (ip : IpAddr) :
  ∃ b, handle_equiv a b ∧ route_entry (nr_if_index a) ip ≠ route_entry (nr_if_index b) ip.
Proof.
  exists (from_handle (nr_handle a) (nr_if_index a + 1)). split; [apply Nat.eqb_refl|].
  unfold route_entry. simpl. intros [=]. lia.
Qed.

(** The program asks for the route of the address through its own interface. *)
Lemma route_entry_host i ip : route_entry i ip = host_route i ip.
Proof. by destruct ip. Qed.

Section Calls.
Context `{NetRouteLaws K kernel_routes}.

Lemma add_calls route j k r k' :
  calls (net_add route) j k r k' →
  (r = Ok tt → kernel_routes k' = {[route]} ∪ kernel_routes k) ∧
  kernel_routes k ⊆ kernel_routes k' ⊆ {[route]} ∪ kernel_routes k.
Proof.
  induction 1 as [k r k' E|j k e k1 r k2 E _ _ [IHok IH]].
  - destruct r as [[]|e].
    + apply net_add_ok in E. rewrite E. set_solver.
    + apply net_add_err in E. done.
  - apply net_add_err in E. split; [|set_solver].
    intros Hr. rewrite (IHok Hr). set_solver.
Qed.

Lemma delete_calls route j k r k' :
  calls (net_delete route) j k r k' →
  (r = Ok tt → kernel_routes k' = kernel_routes k ∖ {[route]}) ∧
  kernel_routes k ∖ {[route]} ⊆ kernel_routes k' ⊆ kernel_routes k.
Proof.
  induction 1 as [k r k' E|j k e k1 r k2 E _ _ [IHok IH]].
  - destruct r as [[]|e].
    + apply net_delete_ok in E. rewrite E. set_solver.
    + apply net_delete_err in E. done.
  - apply net_delete_err in E. split; [|set_solver].
    intros Hr. rewrite (IHok Hr). set_solver.
Qed.
End Calls.

Section Refinement.
Context `{NetRouteLaws K kernel_routes, Backoff} (if_index : Z) (n : nat).
Context (Hn : gives_up_within n (backoff_init 50 500 2000)).

(** What an operation does to the gauge of its address family. *)
Definition gauge_moved (ip : IpAddr) (d : Z) (s s' : RouteState K) : Prop :=
  active s' (is_ipv6 ip) = active s (is_ipv6 ip) + d ∧
  active s' (negb (is_ipv6 ip)) = active s (negb (is_ipv6 ip)).

Lemma net_route_handle_facts (ip : IpAddr) (s : RouteState K) :
  (∃ r s', NetRouteHandle_insert if_index (S n) ip s = Some (r, s') ∧
    (r = Ok tt → kernel_routes (kernel s') = {[host_route if_index ip]} ∪ kernel_routes (kernel s)) ∧
    kernel_routes (kernel s) ⊆ kernel_routes (kernel s')
      ⊆ {[host_route if_index ip]} ∪ kernel_routes (kernel s) ∧
    gauge_moved ip (if is_ok r then 1 else 0) s s') ∧
  (∃ r s', NetRouteHandle_remove if_index (S n) ip s = Some (r, s') ∧
    (r = Ok tt → kernel_routes (kernel s') = kernel_routes (kernel s) ∖ {[host_route if_index ip]}) ∧
    kernel_routes (kernel s) ∖ {[host_route if_index ip]} ⊆ kernel_routes (kernel s')
      ⊆ kernel_routes (kernel s) ∧
    gauge_moved ip (if is_ok r then -1 else 0) s s').
Proof.
  unfold NetRouteHandle_insert, NetRouteHandle_remove, retry_on_windows_not_found, gauge_moved.
  rewrite route_entry_host. split.
  - destruct (retry_loop_terminates (net_add (host_route if_index ip)) n _ Hn (kernel s))
      as (r & k & j & -> & _ & Hc & _). apply add_calls in Hc as [Hok Hs].
    destruct r as [[]|e]; eexists _, _; (split; [reflexivity|]); simpl; split_and!;
      try apply Hs; try (by intros; apply Hok); unfold bump;
      destruct (is_ipv6 ip); simpl; lia.
  - destruct (retry_loop_terminates (net_delete (host_route if_index ip)) n _ Hn (kernel s))
      as (r & k & j & -> & _ & Hc & _). apply delete_calls in Hc as [Hok Hs].
    destruct r as [[]|e]; eexists _, _; (split; [reflexivity|]); simpl; split_and!;
      try apply Hs; try (by intros; apply Hok); unfold bump;
      destruct (is_ipv6 ip); simpl; lia.
Qed.

(** C40: with fuel for the retries both operations of the system routing table
    return. [insert] adds exactly one route to the kernel, to the single address
    through the interface of the handle, and [remove] takes exactly that route
    away; on an error nothing but that route can have changed; and the gauge of
    active routes of the address's family moves by one exactly on success. *)
Theorem net_route_handle_contract (ip : IpAddr) (s : RouteState K) :
  (∃ r s', NetRouteHandle_insert if_index (S n) ip s = Some (r, s') ∧
    (r = Ok tt → kernel_routes (kernel s') = {[host_route if_index ip]} ∪ kernel_routes (kernel s)) ∧
    kernel_routes (kernel s) ⊆ kernel_routes (kernel s')
      ⊆ {[host_route if_index ip]} ∪ kernel_routes (kernel s) ∧
    gauge_moved ip (if is_ok r then 1 else 0) s s') ∧
  (∃ r s', NetRouteHandle_remove if_index (S n) ip s = Some (r, s') ∧
    (r = Ok tt → kernel_routes (kernel s') = kernel_routes (kernel s) ∖ {[host_route if_index ip]}) ∧
    kernel_routes (kernel s) ∖ {[host_route if_index ip]} ⊆ kernel_routes (kernel s')
      ⊆ kernel_routes (kernel s) ∧
    gauge_moved ip (if is_ok r then -1 else 0) s s').
Proof. apply net_route_handle_facts. Qed.

(** So it is an instance of [RoutingTable], which the relay can run on. *)
Definition net_table (fuel : nat) : RoutingTable (RouteState K) :=
  {| rt_insert ip s := default (Err {| kind := ErrorKind.TimedOut; raw_os_error := None |}, s)
       (NetRouteHandle_insert if_index fuel ip s);
     rt_remove ip s := default (Err {| kind := ErrorKind.TimedOut; raw_os_error := None |}, s)
       (NetRouteHandle_remove if_index fuel ip s);
     rt_ready ip s := net_add_ready (route_entry if_index ip) (kernel s) |}.

Lemma net_table_laws :
  RoutingTableLaws (RouteState K) (H := net_table (S n))
    (λ s, host_routes if_index (kernel_routes (kernel s))).
Proof.
  constructor; intros ip s; simpl; destruct (net_route_handle_facts ip s)
    as [(r & s' & E & Hok & [Hlo Hhi] & _) (r' & s'' & E' & Hok' & [Hlo' Hhi'] & _)];
    rewrite ?E, ?E'; simpl; intros; simplify_eq.
  - by rewrite Hok, host_routes_add.
  - rewrite <- host_routes_add. split; by apply host_routes_mono.
  - by rewrite Hok', host_routes_delete.
  - rewrite <- host_routes_delete. split; by apply host_routes_mono.
Qed.
End Refinement.

(** ** A routing table in memory

    The mock table of the unit tests of [relay.rs]: it holds a set of routes and
    fails to insert when told to. [reject_existing] makes it answer like a
    kernel that refuses a route it already has, and [waits] like one that answers
    only later. *)
Module MockRoutes.
Record world := {
  mock_routes : gset IpAddr;
  should_fail : bool;
  reject_existing : bool;
  waits : bool;
}.

Definition denied : IoError := {| kind := ErrorKind.PermissionDenied; raw_os_error := None |}.
Definition exists_already : IoError :=
  {| kind := ErrorKind.AlreadyExists; raw_os_error := Some 17 |}.

Definition with_routes (w : world) (r : gset IpAddr) : world :=
  {| mock_routes := r; should_fail := should_fail w; reject_existing := reject_existing w;
     waits := waits w |}.

#[export] Instance mock_table : RoutingTable world := {
  rt_insert ip w :=
    if should_fail w then (Err denied, w)
    else if reject_existing w && bool_decide (ip ∈ mock_routes w)
    then (Err exists_already, w)
    else (Ok tt, with_routes w ({[ip]} ∪ mock_routes w));
  rt_remove ip w := (Ok tt, with_routes w (mock_routes w ∖ {[ip]}));
  rt_ready _ w := negb (waits w);
}.

#[export] Instance mock_table_laws : RoutingTableLaws world mock_routes.
Proof.
  constructor; simpl; intros.
  - repeat case_match; by simplify_eq.
  - repeat case_match; simplify_eq; set_solver.
  - by simplify_eq.
  - done.
Qed.

Definition empty : world :=
  {| mock_routes := ∅; should_fail := false; reject_existing := false; waits := false |}.
Definition set_fail (b : bool) (w : world) : world :=
  {| mock_routes := mock_routes w; should_fail := b; reject_existing := reject_existing w;
     waits := waits w |}.
End MockRoutes.

(** ** Witness: a kernel with a set of routes that fails transiently once *)
Module KernelRef.
Import BackoffRef.

Record kern := { kern_routes : gset NetRoute; not_ready : bool }.

Definition transient : IoError := {| kind := ErrorKind.Other; raw_os_error := Some 1168 |}.

#[export] Instance kern_ops : NetRouteOps kern := {
  net_add r k :=
    if not_ready k then (Err transient, {| kern_routes := kern_routes k; not_ready := false |})
    else (Ok tt, {| kern_routes := {[r]} ∪ kern_routes k; not_ready := false |});
  net_delete r k :=
    if not_ready k then (Err transient, {| kern_routes := kern_routes k; not_ready := false |})
    else (Ok tt, {| kern_routes := kern_routes k ∖ {[r]}; not_ready := false |});
  net_add_ready _ _ := false;
}.

#[export] Instance kern_laws : NetRouteLaws kern kern_routes.
Proof.
  constructor; simpl; intros r k *; destruct (not_ready k); intros; simplify_eq/=; set_solver.
Qed.

Definition fresh : RouteState kern :=
  {| kernel := {| kern_routes := ∅; not_ready := true |};
     add_total _ := 0; active _ := 0 |}.

Lemma budget : gives_up_within 2001 (backoff_init 50 500 2000).
Proof. apply bounded. simpl. lia. Qed.
End KernelRef.

Import BackoffRef KernelRef.
Lemma net_route_handle_contract_witness :
  ∃ r s', NetRouteHandle_insert (K := KernelRef.kern) 3 2002 (V6 1) KernelRef.fresh = Some (r, s') ∧
    (r = Ok tt → KernelRef.kern_routes (kernel s') =
       {[{| r_destination := V6 1; r_prefix := 128; r_ifindex := 3 |}]} ∪ ∅) ∧
    active s' true = 0 + (if is_ok r then 1 else 0).
Proof.
  destruct (net_route_handle_contract (K := KernelRef.kern) 3 2001 KernelRef.budget (V6 1)
    KernelRef.fresh) as [(r & s' & E & Hok & _ & [Ha _]) _].
  by exists r, s'.
Defined.
