(* ===== verification/Relay.v ===== *)
(** * The relay: destination addresses, peers and their routes

    Models [src/src/relay.rs]. The relay keeps, per destination address, the
    value of the connected peer (or nothing, when the peer is parked) and the
    guard of the route installed for it. [Relay_insert] polls the futures of a
    batch as [try_join_all] does, once around and then again those that had to
    wait for the routing table; [RelayJoin] gives the semantics of every other
    interleaving, of which this is one. *)

From S2P Require Import Prelude ErrorCode Net Route.
From stdpp Require Import prelude gmap.

Record PeerValue (T : Type) := { value : option T; route : ScopedRoute }.
Arguments value {T} _.
Arguments route {T} _.

Inductive Dispatch (T : Type) : Type :=
  | Connected (v : T)
  | Parked.
Arguments Connected {T} v.
Arguments Parked {T}.

(** [Relay], with the state of the routing table behind its lock and the error
    counters it has incremented, latest first. *)
Record Relay (W T : Type) := {
  handle : W;
  peer_map : gmap IpAddr (PeerValue T);
  counters : list (string * list Label);
}.
Arguments handle {W T} _.
Arguments peer_map {W T} _.
Arguments counters {W T} _.

Definition with_handle {W T} (r : Relay W T) (w : W) : Relay W T :=
  {| handle := w; peer_map := peer_map r; counters := counters r |}.
Definition with_peers {W T} (r : Relay W T) (m : gmap IpAddr (PeerValue T)) : Relay W T :=
  {| handle := handle r; peer_map := m; counters := counters r |}.
Definition count {W T} (name : string) (labels : list Label) (r : Relay W T) : Relay W T :=
  {| handle := handle r; peer_map := peer_map r; counters := (name, labels) :: counters r |}.

Section Relay.
Context `{RoutingTable W, ThinStatusOps} {T : Type}.

Abbreviation relay := (Relay W T).

Definition Relay_new (handle : W) : relay :=
  {| handle := handle; peer_map := ∅; counters := [] |}.

Definition Relay_get (self : relay) (dest_ip : IpAddr) : option (Dispatch T) :=
  (λ e, match value e with Some v => Connected v | None => Parked end)
    <$> peer_map self !! dest_ip.

(** [entry.value = v] on the entry of [ip], if there is one. *)
Definition set_value (ip : IpAddr) (v : option T) (self : relay) : relay :=
  with_peers self (alter (λ e, {| value := v; route := route e |}) ip (peer_map self)).

(** [DashMap::insert]: the entry it replaces is dropped, with its guard. *)
Definition peer_map_insert (ip : IpAddr) (e : PeerValue T) (self : relay) : outcome relay :=
  let old := peer_map self !! ip in
  let self := with_peers self (<[ip := e]> (peer_map self)) in
  match old with
  | Some old => let! _ := ScopedRoute_drop (route old) in Ret self
  | None => Ret self
  end.

(** *** The future of one address of [insert], cut at its await

    It either ends at once, swapping the value of an existing entry, or awaits
    [ScopedRoute::new] and goes on with its result. *)
Definition insert_start (ip : IpAddr) (v : T) (self : relay) : option relay :=
  match peer_map self !! ip with
  | Some _ => Some (set_value ip (Some v) self)
  | None => None
  end.

Definition insert_resume (ip : IpAddr) (v : T) (scoped : result ScopedRoute IoError)
    (self : relay) : outcome (result unit IoError * relay) :=
  match scoped with
  | Err err => Ret (Err err, self)
  | Ok scoped =>
      let! self := peer_map_insert ip {| value := Some v; route := scoped |} self in
      Ret (Ok tt, self)
  end.

(** [try_join_all] polls every future in turn. One whose call of the table is not
    ready waits, and the next is polled; the first error ends the join, and drops
    the futures that wait where they are. Returns the futures that wait, with what
    their calls will answer. *)
Fixpoint poll_all (dest_ips : list IpAddr) (v : T) (self : relay) :
    outcome (result (list (IpAddr * result ScopedRoute IoError)) IoError * relay) :=
  match dest_ips with
  | [] => Ret (Ok [], self)
  | ip :: dest_ips =>
      match insert_start ip v self with
      | Some self => poll_all dest_ips v self
      | None =>
          let ready := rt_ready ip (handle self) in
          let '(scoped, w) := ScopedRoute_new ip (handle self) in
          let self := with_handle self w in
          if ready then
            let! (r, self) := insert_resume ip v scoped self in
            match r with
            | Err err => Ret (Err err, self)
            | Ok _ => poll_all dest_ips v self
            end
          else
            let! (r, self) := poll_all dest_ips v self in
            Ret (let? waiting := r in Ok ((ip, scoped) :: waiting), self)
      end
  end.

(** The futures that waited, polled again. *)
Fixpoint resume_all (waiting : list (IpAddr * result ScopedRoute IoError)) (v : T)
    (self : relay) : outcome (result unit IoError * relay) :=
  match waiting with
  | [] => Ret (Ok tt, self)
  | (ip, scoped) :: waiting =>
      let! (r, self) := insert_resume ip v scoped self in
      match r with
      | Err err => Ret (Err err, self)
      | Ok _ => resume_all waiting v self
      end
  end.

Definition try_join_all (dest_ips : list IpAddr) (v : T) (self : relay) :
    outcome (result unit IoError * relay) :=
  let! (r, self) := poll_all dest_ips v self in
  match r with
  | Err err => Ret (Err err, self)
  | Ok waiting => resume_all waiting v self
  end.

(** The future of one address of [remove_locked]. *)
Definition remove_one (ip : IpAddr) (self : relay) : outcome relay :=
  let old := peer_map self !! ip in
  let self := with_peers self (delete ip (peer_map self)) in
  let! (result, w) :=
    match old with
    | Some old =>
        let! (r, w) := drop_async (route old) (handle self) in
        Ret (let? _ip := r in Ok tt, w)
    | None => Ret (rt_remove ip (handle self))
    end in
  let self := with_handle self w in
  Ret match result with
      | Err err => count "p2p_vpn_relay_remove_errors" (into_labels (from_io err)) self
      | Ok _ => self
      end.

Fixpoint remove_locked (dest_ips : list IpAddr) (self : relay) : outcome relay :=
  match dest_ips with
  | [] => Ret self
  | ip :: dest_ips => let! self := remove_one ip self in remove_locked dest_ips self
  end.

(** The end of [insert], once the futures are joined. *)
Definition insert_finish (dest_ips : list IpAddr) (result : result unit IoError) (self : relay) :
    outcome (Prelude.result unit ThinStatus * relay) :=
  match result with
  | Ok _ => Ret (Ok tt, self)
  | Err err =>
      let! self := remove_locked dest_ips self in
      let self := count "p2p_vpn_relay_insert_errors" (into_labels (from_io err)) self in
      Ret (Err (status_from_io err), self)
  end.

Definition Relay_insert (dest_ips : list IpAddr) (v : T) (self : relay) :
    outcome (result unit ThinStatus * relay) :=
  let! (result, self) := try_join_all dest_ips v self in
  insert_finish dest_ips result self.

Definition Relay_remove (dest_ips : list IpAddr) (self : relay) : outcome relay :=
  remove_locked dest_ips self.

Definition stale_of (current previous : list IpAddr) : list IpAddr :=
  let keep : gset IpAddr := list_to_set current in
  filter (λ ip, ip ∉ keep) previous.

Definition Relay_reconcile (current previous : list IpAddr) (v : T) (self : relay) :
    outcome (result unit ThinStatus * relay) :=
  let stale := stale_of current previous in
  let! self :=
    if negb (bool_decide (stale = [])) then Relay_remove stale self else Ret self in
  Relay_insert current v self.

Fixpoint Relay_park (dest_ips : list IpAddr) (self : relay) : relay :=
  match dest_ips with
  | [] => self
  | ip :: dest_ips => Relay_park dest_ips (set_value ip None self)
  end.
End Relay.

(** ** Invariant and frame of the operations *)
Section RelayFacts.
Context `{RoutingTableLaws W routes, ThinStatusOps} {T : Type}.
Implicit Types (r : Relay W T) (v : T).

(** Every entry guards the route of its own address, and that route is
    installed. *)
Record relay_inv r : Prop := {
  inv_guard : map_Forall (λ ip e, dest_ip (route e) = ip) (peer_map r);
  inv_installed : ∀ ip, is_Some (peer_map r !! ip) → ip ∈ routes (handle r);
}.

Lemma Relay_new_inv w : relay_inv (Relay_new (T := T) w).
Proof. split; simpl; [apply map_Forall_empty|intros ip [? E]; done]. Qed.

Lemma get_some_iff r ip : is_Some (Relay_get r ip) ↔ is_Some (peer_map r !! ip).
Proof. unfold Relay_get. apply fmap_is_Some. Qed.

Lemma get_none_iff r ip : Relay_get r ip = None ↔ peer_map r !! ip = None.
Proof. unfold Relay_get. apply fmap_None. Qed.

Lemma get_installed r ip : relay_inv r → is_Some (Relay_get r ip) → ip ∈ routes (handle r).
Proof. intros Hr Hs. by apply (inv_installed _ Hr), get_some_iff. Qed.

(** *** [set_value] *)
Lemma get_set_value r ip ip' x :
  Relay_get (set_value ip x r) ip' =
  if decide (ip = ip') then
    (λ _, match x with Some v => Connected v | None => Parked end) <$> Relay_get r ip'
  else Relay_get r ip'.
Proof.
  unfold Relay_get, set_value. simpl. case_decide as Hip.
  - subst ip'. rewrite lookup_alter_eq, <- !option_fmap_compose. by destruct (peer_map r !! ip).
  - by rewrite lookup_alter_ne.
Qed.

Lemma set_value_inv r ip x : relay_inv r → relay_inv (set_value ip x r).
Proof.
  intros [Hg Hi]. split; simpl.
  - intros ip' e. destruct (decide (ip = ip')) as [->|].
    + rewrite lookup_alter_eq. intros (e0 & He & ->)%fmap_Some. by apply (Hg _ _ He).
    + rewrite lookup_alter_ne by done. apply Hg.
  - intros ip'. destruct (decide (ip = ip')) as [->|].
    + rewrite lookup_alter_eq, fmap_is_Some. apply Hi.
    + rewrite lookup_alter_ne by done. apply Hi.
Qed.

(** *** The futures of [insert] *)

(** The entry of an address whose route was installed and that had none. *)
Lemma insert_entry_inv r ip v :
  relay_inv r → ip ∈ routes (handle r) →
  relay_inv (with_peers r (<[ip := {| value := Some v; route := {| dest_ip := ip |} |}]>
                             (peer_map r))).
Proof.
  intros [Hg Hi] Hip. split; simpl.
  - by apply map_Forall_insert_2.
  - intros ip'. destruct (decide (ip = ip')) as [->|]; [done|].
    rewrite lookup_insert_ne by done. apply Hi.
Qed.

Lemma get_insert_entry r ip ip' v sr :
  Relay_get (with_peers r (<[ip := {| value := Some v; route := sr |}]> (peer_map r))) ip' =
  if decide (ip = ip') then Some (Connected v) else Relay_get r ip'.
Proof.
  unfold Relay_get. simpl. rewrite lookup_insert. by case_decide.
Qed.

Lemma with_handle_inv r w :
  relay_inv r → routes (handle r) ⊆ routes w → relay_inv (with_handle r w).
Proof. intros [Hg Hi] Hw. split; [done|]. simpl. intros ip Hip. by apply Hw, Hi. Qed.

(** What a future that waits will go on with: the route it asked for. *)
Definition waiting_ok r (x : IpAddr * result ScopedRoute IoError) : Prop :=
  ∀ sr, x.2 = Ok sr → dest_ip sr = x.1 ∧ x.1 ∈ routes (handle r).

(** What every part of the join keeps: the invariant, other addresses, and that
    routes of the batch are only added. *)
Record joins (ips : list IpAddr) r r' : Prop := {
  jo_inv : relay_inv r';
  jo_routes : routes (handle r) ⊆ routes (handle r') ⊆ list_to_set ips ∪ routes (handle r);
  jo_others ip : ip ∉ ips → Relay_get r' ip = Relay_get r ip;
}.

Lemma joins_refl ips r : relay_inv r → joins ips r r.
Proof. by split; [|set_solver|]. Qed.

Lemma joins_trans ips ips' r r1 r2 : joins ips r r1 → joins ips' r1 r2 → joins (ips ++ ips') r r2.
Proof.
  intros [_ Hr Ho] [Hi Hr' Ho']. split; [done|set_solver|].
  intros ip Hip. rewrite Ho', Ho; set_solver.
Qed.

Lemma joins_mono ips ips' r r' : ips ⊆ ips' → joins ips r r' → joins ips' r r'.
Proof. intros Hs [Hi Hr Ho]. split; [done|set_solver|]. intros ip Hip. apply Ho. set_solver. Qed.

Lemma joins_resume ips r r1 r2 ip :
  joins [ip] r r1 → joins ips r1 r2 → joins (ip :: ips) r r2.
Proof. apply (joins_trans [ip]). Qed.

(** The end of a future. It only panics where it finds an entry, which dropping
    the guard of that entry may do. *)
Lemma insert_resume_spec ip v scoped r :
  relay_inv r → waiting_ok r (ip, scoped) →
  match insert_resume ip v scoped r with
  | Panic => is_Some (Relay_get r ip)
  | Ret (res, r') => joins [ip] r r' ∧ handle r' = handle r ∧
      (is_ok res → Relay_get r' ip = Some (Connected v))
  end.
Proof.
  intros Hr Hw. unfold insert_resume. destruct scoped as [sr|err].
  2: { split; [by apply joins_refl|done]. }
  destruct (Hw sr eq_refl) as [Hd Hin]. simpl in Hd, Hin. unfold peer_map_insert.
  set (r' := with_peers _ _). destruct sr as [d]. simpl in Hd. subst d.
  assert (joins [ip] r r' ∧ handle r' = handle r ∧ Relay_get r' ip = Some (Connected v)) as Hj.
  { split_and!; [|done|by unfold r'; rewrite get_insert_entry, decide_True]. split; simpl; [|set_solver|].
    - by apply insert_entry_inv.
    - intros ip' Hip. unfold r'. rewrite get_insert_entry, decide_False; [done|set_solver]. }
  destruct (peer_map r !! ip) as [e|] eqn:Ee; simpl; [|naive_solver].
  destruct (ScopedRoute_drop (route e)); simpl; [naive_solver|]. apply get_some_iff. by eexists.
Qed.

Lemma insert_start_spec ip v r r' :
  relay_inv r → insert_start ip v r = Some r' →
  joins [ip] r r' ∧ handle r' = handle r ∧ Relay_get r' ip = Some (Connected v).
Proof.
  unfold insert_start. destruct (peer_map r !! ip) as [e|] eqn:Ee; [|done]. intros Hr [= <-].
  split_and!; [|done|].
  - split; [by apply set_value_inv|set_solver|]. intros ip' Hip.
    rewrite get_set_value, decide_False; [done|set_solver].
  - rewrite get_set_value, decide_True by done. unfold Relay_get. by rewrite Ee.
Qed.

Lemma ScopedRoute_new_spec ip r :
  relay_inv r →
  let '(scoped, w) := ScopedRoute_new ip (handle r) in
  joins [ip] r (with_handle r w) ∧ waiting_ok (with_handle r w) (ip, scoped).
Proof.
  intros Hr. unfold ScopedRoute_new. destruct (rt_insert ip (handle r)) as [res w] eqn:E.
  pose proof (rt_insert_subset _ _ _ _ E) as Hw. split.
  - split; [apply with_handle_inv; [done|set_solver]|simpl; set_solver|done].
  - intros sr. destruct res as [[]|err]; [|done]. simpl. intros [= <-].
    apply rt_insert_ok in E. rewrite E. set_solver.
Qed.

Lemma waiting_ok_mono r r' x :
  routes (handle r) ⊆ routes (handle r') → waiting_ok r x → waiting_ok r' x.
Proof. intros Hs Hw sr E. destruct (Hw sr E). set_solver. Qed.

(** After the first round: an address of the batch is connected, or its future
    waits, and with distinct addresses it then has no entry. *)
Lemma poll_all_spec ips v r :
  relay_inv r → ∃ res r', poll_all ips v r = Ret (res, r') ∧ joins ips r r' ∧
    ∀ waiting, res = Ok waiting →
      waiting.*1 `sublist_of` ips ∧ Forall (waiting_ok r') waiting ∧
      (∀ ip, ip ∈ ips → ip ∉ waiting.*1 → Relay_get r' ip = Some (Connected v)) ∧
      (NoDup ips → ∀ ip, ip ∈ waiting.*1 → Relay_get r' ip = None).
Proof.
  revert r. induction ips as [|ip ips IH]; intros r Hr.
  { exists (Ok []), r. split; [done|]. split; [by apply joins_refl|].
    intros ? [= <-]. split_and!; [done|constructor|set_solver|set_solver]. }
  (* what is left to do once the future of [ip] is done *)
  assert (∀ r1, joins [ip] r r1 → Relay_get r1 ip = Some (Connected v) →
    ∃ res r', poll_all ips v r1 = Ret (res, r') ∧ joins (ip :: ips) r r' ∧
    ∀ waiting, res = Ok waiting →
      waiting.*1 `sublist_of` ip :: ips ∧ Forall (waiting_ok r') waiting ∧
      (∀ ip', ip' ∈ ip :: ips → ip' ∉ waiting.*1 → Relay_get r' ip' = Some (Connected v)) ∧
      (NoDup (ip :: ips) → ∀ ip', ip' ∈ waiting.*1 → Relay_get r' ip' = None)) as Hdone.
  { intros r1 Hj1 Hc. destruct (IH r1 (jo_inv _ _ _ Hj1)) as (res & r' & E & Hj & Hw).
    exists res, r'. split; [done|]. split; [by apply (joins_resume _ _ r1)|].
    intros waiting Hres. destruct (Hw waiting Hres) as (Hs & Hok & Hconn & Hnone).
    split_and!; [by constructor|done| |].
    - intros ip' Hip Hn. destruct (decide (ip' ∈ ips)) as [Hin|Hin]; [by apply Hconn|].
      rewrite (jo_others _ _ _ Hj) by done. assert (ip' = ip) as -> by set_solver. done.
    - intros [_ Hnd]%NoDup_cons. by apply Hnone. }
  cbn [poll_all]. destruct (insert_start ip v r) as [r1|] eqn:Es.
  { destruct (insert_start_spec ip v r r1 Hr Es) as (Hj1 & _ & Hc). by apply Hdone. }
  assert (Relay_get r ip = None) as Hg.
  { apply get_none_iff. unfold insert_start in Es. by destruct (peer_map r !! ip). }
  pose proof (ScopedRoute_new_spec ip r Hr) as Hsr. cbv zeta.
  destruct (ScopedRoute_new ip (handle r)) as [scoped w]. destruct Hsr as [Hj1 Hwok].
  destruct (rt_ready ip (handle r)).
  - pose proof (insert_resume_spec ip v scoped _ (jo_inv _ _ _ Hj1) Hwok) as Hres.
    destruct (insert_resume _ _ _ _) as [[res r2]|].
    2: { destruct Hres as [x Hx]. assert (Relay_get (with_handle r w) ip = None) by done. congruence. }
    destruct Hres as (Hj2 & Hh & Hc).
    assert (joins [ip] r r2) as Hj by (apply (joins_mono ([ip] ++ [ip])); [set_solver|];
      by apply (joins_trans _ _ _ (with_handle r w))).
    destruct res as [[]|err]; [by apply Hdone, Hc|].
    eexists _, _. split; [done|]. split; [|done]. apply (joins_mono [ip]); [set_solver|done].
  - destruct (IH _ (jo_inv _ _ _ Hj1)) as (res & r' & -> & Hj & Hw).
    eexists _, _. split; [done|]. split; [by apply (joins_resume _ _ (with_handle r w))|].
    intros waiting Hres. destruct res as [waiting'|]; [|done]. injection Hres as <-.
    destruct (Hw waiting' eq_refl) as (Hs & Hok & Hconn & Hnone). csimpl. split_and!.
    + by constructor.
    + constructor; [|done]. eapply waiting_ok_mono; [|exact Hwok]. apply (jo_routes _ _ _ Hj).
    + intros ip' Hip Hn. apply Hconn; set_solver.
    + intros [Hni Hnd]%NoDup_cons ip' [->|Hin]%elem_of_cons; [|by apply Hnone].
      by rewrite (jo_others _ _ _ Hj).
Qed.

(** The second round: it panics only where an entry has come up meanwhile. *)
Lemma resume_all_spec waiting v r :
  relay_inv r → Forall (waiting_ok r) waiting →
  match resume_all waiting v r with
  | Panic => ¬ (NoDup waiting.*1 ∧ ∀ ip, ip ∈ waiting.*1 → Relay_get r ip = None)
  | Ret (res, r') => joins waiting.*1 r r' ∧
      (is_ok res → ∀ ip, ip ∈ waiting.*1 → Relay_get r' ip = Some (Connected v))
  end.
Proof.
  revert r. induction waiting as [|[ip scoped] waiting IH]; intros r Hr Hok; csimpl.
  { split; [by apply joins_refl|set_solver]. }
  apply Forall_cons in Hok as [Hx Hok].
  pose proof (insert_resume_spec ip v scoped r Hr Hx) as Hres.
  destruct (insert_resume ip v scoped r) as [[[[]|err] r1]|]; simpl.
  - destruct Hres as (Hj1 & Hh & Hc). specialize (Hc I).
    assert (Forall (waiting_ok r1) waiting) as Hok1
      by (eapply Forall_impl; [exact Hok|]; intros x; apply waiting_ok_mono; by rewrite Hh).
    pose proof (IH r1 (jo_inv _ _ _ Hj1) Hok1) as Hrest.
    destruct (resume_all waiting v r1) as [[res r2]|].
    + destruct Hrest as [Hj2 Hc2]. split; [by apply (joins_resume _ _ r1)|].
      intros Hr2 ip' [->|Hin]%elem_of_cons; [|by apply Hc2].
      destruct (decide (ip ∈ waiting.*1)) as [Hin|Hin]; [by apply Hc2|].
      by rewrite (jo_others _ _ _ Hj2).
    + intros [[Hni Hnd]%NoDup_cons Hnone]. apply Hrest. split; [done|]. intros ip' Hip.
      rewrite (jo_others _ _ _ Hj1); [apply Hnone; by right|]. set_solver.
  - destruct Hres as (Hj & _ & _). split; [|done]. apply (joins_mono [ip]); [set_solver|done].
  - intros [_ Hnone]. rewrite Hnone in Hres by left. by destruct Hres.
Qed.

Lemma try_join_all_spec ips v r :
  relay_inv r →
  match try_join_all ips v r with
  | Panic => ¬ NoDup ips
  | Ret (res, r') => joins ips r r' ∧
      (is_ok res → ∀ ip, ip ∈ ips → Relay_get r' ip = Some (Connected v))
  end.
Proof.
  intros Hr. unfold try_join_all.
  destruct (poll_all_spec ips v r Hr) as (res & r1 & -> & Hj & Hw). simpl.
  destruct res as [waiting|err]; [|done]. destruct (Hw waiting eq_refl) as (Hs & Hok & Hconn & Hnone).
  pose proof (resume_all_spec waiting v r1 (jo_inv _ _ _ Hj) Hok) as Hres.
  destruct (resume_all waiting v r1) as [[res r2]|].
  - destruct Hres as [Hj2 Hc]. split.
    + apply (joins_mono (ips ++ waiting.*1)); [|by apply (joins_trans _ _ _ r1)].
      intros ip. rewrite elem_of_app. intros [?|?]; [done|by eapply elem_of_sublist].
    + intros Hres ip Hip. destruct (decide (ip ∈ waiting.*1)) as [Hin|Hin]; [by apply Hc|].
      rewrite (jo_others _ _ _ Hj2) by done. by apply Hconn.
  - intros Hnd. apply Hres. split; [by eapply sublist_NoDup|]. by apply Hnone.
Qed.

(** *** [remove_locked] *)
Lemma remove_one_spec r ip :
  relay_inv r → ∃ r', remove_one ip r = Ret r' ∧ relay_inv r' ∧
    routes (handle r) ∖ {[ip]} ⊆ routes (handle r') ⊆ routes (handle r) ∧
    (counters r' = counters r → routes (handle r') = routes (handle r) ∖ {[ip]}) ∧
    (∃ l, counters r' = l ++ counters r) ∧
    ∀ ip', Relay_get r' ip' = if decide (ip = ip') then None else Relay_get r ip'.
Proof.
  intros [Hg Hi].
  assert (∃ res w, rt_remove ip (handle r) = (res, w) ∧
    remove_one ip r = Ret (let self := with_handle (with_peers r (delete ip (peer_map r))) w in
      match res with
      | Err err => count "p2p_vpn_relay_remove_errors" (into_labels (from_io err)) self
      | Ok _ => self
      end)) as (res & w & Ew & ->).
  { unfold remove_one. destruct (peer_map r !! ip) as [e|] eqn:Ee.
    - rewrite drop_async_returns, (Hg ip e Ee). simpl.
      destruct (rt_remove ip (handle r)) as [[[]|err] w]; by eexists _, _.
    - simpl. destruct (rt_remove ip (handle r)) as [[[]|err] w]; by eexists _, _. }
  eexists. split; [done|]. pose proof (rt_remove_subset _ _ _ _ Ew) as Hw. split_and!.
  - split.
    + destruct res; simpl; by apply map_Forall_delete.
    + intros ip'. assert (is_Some (delete ip (peer_map r) !! ip') → ip' ∈ routes w) as Hd.
      { destruct (decide (ip = ip')) as [->|].
        - rewrite lookup_delete_eq. by intros [].
        - rewrite lookup_delete_ne by done. intros ?%Hi. set_solver. }
      by destruct res.
  - destruct res; apply Hw.
  - destruct res; apply Hw.
  - destruct res as [[]|err]; simpl; intros Hc; [by apply rt_remove_ok in Ew|].
    apply (f_equal length) in Hc. simpl in Hc. lia.
  - destruct res; simpl; [by exists []|by eexists [_]].
  - intros ip'. transitivity (Relay_get (with_peers r (delete ip (peer_map r))) ip');
      [by destruct res|].
    unfold Relay_get. simpl. rewrite lookup_delete. by case_decide.
Qed.

Lemma remove_locked_spec ips r :
  relay_inv r → ∃ r', remove_locked ips r = Ret r' ∧ relay_inv r' ∧
    routes (handle r) ∖ list_to_set ips ⊆ routes (handle r') ⊆ routes (handle r) ∧
    (counters r' = counters r →
       routes (handle r') = routes (handle r) ∖ list_to_set ips) ∧
    (∃ l, counters r' = l ++ counters r) ∧
    ∀ ip', Relay_get r' ip' = if decide (ip' ∈ ips) then None else Relay_get r ip'.
Proof.
  revert r. induction ips as [|ip ips IH]; intros r Hr; simpl.
  - exists r. split_and!; [done..|set_solver|set_solver|set_solver|by exists []|].
    done.
  - destruct (remove_one_spec r ip Hr) as (r1 & -> & Hr1 & Hw1 & Hc1 & [l1 El1] & Hg1).
    destruct (IH r1 Hr1) as (r2 & -> & Hr2 & Hw2 & Hc2 & [l2 El2] & Hg2).
    exists r2. split_and!; [done..|set_solver|set_solver| | |].
    + rewrite El2, El1, app_assoc. intros Hl%app_inv_tail_nil.
      apply app_eq_nil in Hl as [-> ->]. rewrite Hc2, Hc1 by done. set_solver.
    + exists (l2 ++ l1). by rewrite El2, El1, app_assoc.
    + intros ip'. rewrite Hg2, Hg1. repeat case_decide; set_solver.
Qed.

(** *** The operations *)
Lemma get_park ips r ip' :
  Relay_get (Relay_park ips r) ip' =
  if decide (ip' ∈ ips) then (λ _, Parked) <$> Relay_get r ip' else Relay_get r ip'.
Proof.
  revert r. induction ips as [|ip ips IH]; intros r; simpl.
  { done. }
  rewrite IH, get_set_value. repeat case_decide; try set_solver.
  by destruct (Relay_get r ip').
Qed.

Lemma park_inv ips r : relay_inv r → relay_inv (Relay_park ips r).
Proof. revert r. induction ips; intros; simpl; auto using set_value_inv. Qed.

Lemma park_handle ips r :
  handle (Relay_park ips r) = handle r ∧ counters (Relay_park ips r) = counters r.
Proof. revert r. induction ips as [|ip ips IH]; intros; simpl; [done|]. by rewrite !(proj1 (IH _)), !(proj2 (IH _)). Qed.

Lemma Relay_remove_spec ips r :
  relay_inv r → ∃ r', Relay_remove ips r = Ret r' ∧ relay_inv r' ∧
    routes (handle r) ∖ list_to_set ips ⊆ routes (handle r') ⊆ routes (handle r) ∧
    (counters r' = counters r →
       routes (handle r') = routes (handle r) ∖ list_to_set ips) ∧
    ∀ ip', Relay_get r' ip' = if decide (ip' ∈ ips) then None else Relay_get r ip'.
Proof.
  intros Hr. destruct (remove_locked_spec ips r Hr) as (r' & ? & ? & ? & ? & _ & ?).
  by exists r'.
Qed.

(** What [insert] leaves behind, on success and on failure. *)
Definition insert_post (ips : list IpAddr) (v : T) r (res : result unit ThinStatus) r' : Prop :=
  match res with
  | Ok _ =>
      routes (handle r') = list_to_set ips ∪ routes (handle r) ∧
      ∀ ip, Relay_get r' ip = if decide (ip ∈ ips) then Some (Connected v) else Relay_get r ip
  | Err _ =>
      routes (handle r) ∖ list_to_set ips ⊆ routes (handle r')
        ⊆ list_to_set ips ∪ routes (handle r) ∧
      ∀ ip, Relay_get r' ip = if decide (ip ∈ ips) then None else Relay_get r ip
  end.

(** The end of [insert] after any joining of its futures that kept the
    invariant, grew the table by addresses of the batch only and touched no
    other entry. *)
Lemma insert_finish_spec ips v r res r1 :
  relay_inv r1 →
  routes (handle r) ⊆ routes (handle r1) ⊆ list_to_set ips ∪ routes (handle r) →
  (∀ ip, ip ∉ ips → Relay_get r1 ip = Relay_get r ip) →
  (is_ok res → ∀ ip, ip ∈ ips → Relay_get r1 ip = Some (Connected v)) →
  ∃ res' r', insert_finish ips res r1 = Ret (res', r') ∧ relay_inv r' ∧
    is_ok res' = is_ok res ∧ insert_post ips v r res' r'.
Proof.
  intros Hr1 Hw Hout Hin. destruct res as [[]|err]; simpl.
  - exists (Ok tt), r1. split; [done|]. split; [done|]. split; [done|]. split.
    + apply set_eq. intros ip. split; [set_solver|]. rewrite elem_of_union, elem_of_list_to_set.
      intros [Hip|Hip]; [|set_solver]. apply get_installed; [done|]. by rewrite Hin.
    + intros ip. case_decide; auto.
  - destruct (remove_locked_spec ips r1 Hr1) as (r2 & -> & [Hg2 Hi2] & Hw2 & _ & _ & Hget).
    eexists _, _. split; [done|]. split; [by split|]. split; [done|]. split; [simpl; set_solver|].
    intros ip. transitivity (Relay_get r2 ip); [done|]. rewrite Hget. case_decide; auto.
Qed.

(** [insert] panics at most on a batch that names an address twice. *)
Lemma Relay_insert_outcome ips v r :
  relay_inv r →
  match Relay_insert ips v r with
  | Panic => ¬ NoDup ips
  | Ret (res, r') => relay_inv r' ∧ insert_post ips v r res r'
  end.
Proof.
  intros Hr. unfold Relay_insert. pose proof (try_join_all_spec ips v r Hr) as Hj.
  destruct (try_join_all ips v r) as [[res r1]|]; [|done]. destruct Hj as [[Hr1 Hw Ho] Hc].
  by destruct (insert_finish_spec ips v r res r1 Hr1 Hw Ho Hc) as (res' & r' & -> & ? & _ & ?).
Qed.

Lemma Relay_insert_spec ips v r :
  NoDup ips → relay_inv r → ∃ res r', Relay_insert ips v r = Ret (res, r') ∧ relay_inv r' ∧
    insert_post ips v r res r'.
Proof.
  intros Hnd Hr. pose proof (Relay_insert_outcome ips v r Hr) as Ho.
  destruct (Relay_insert ips v r) as [[res r']|]; [by exists res, r'|by destruct Ho].
Qed.

Lemma stale_of_spec cur prev ip : ip ∈ stale_of cur prev ↔ ip ∈ prev ∧ ip ∉ cur.
Proof. unfold stale_of. rewrite list_elem_of_filter, elem_of_list_to_set. tauto. Qed.

(** [reconcile] is the removal of the stale addresses followed by [insert]. *)
Lemma Relay_reconcile_outcome cur prev v r :
  relay_inv r → ∃ r1,
    match Relay_reconcile cur prev v r with
    | Panic => ¬ NoDup cur
    | Ret (res, r') => relay_inv r' ∧ insert_post cur v r1 res r'
    end ∧
    routes (handle r) ∖ list_to_set (stale_of cur prev) ⊆ routes (handle r1)
      ⊆ routes (handle r) ∧
    (counters r1 = counters r →
       routes (handle r1) = routes (handle r) ∖ list_to_set (stale_of cur prev)) ∧
    ∀ ip, Relay_get r1 ip = if decide (ip ∈ stale_of cur prev) then None else Relay_get r ip.
Proof.
  intros Hr. unfold Relay_reconcile. case_bool_decide as Hs; simpl.
  - exists r. split; [by apply Relay_insert_outcome|]. rewrite Hs.
    split_and!; [set_solver|set_solver|set_solver|done].
  - destruct (Relay_remove_spec (stale_of cur prev) r Hr) as (r1 & -> & Hr1 & ? & ? & ?).
    exists r1. split; [by apply Relay_insert_outcome|done].
Qed.
End RelayFacts.

Arguments relay_inv {W} routes {T} r.
Arguments insert_post {W} routes {T} ips v r res r'.

(** ** Abstract specification: a map from addresses to peers *)
Section Spec.
Context {T : Type}.
Implicit Types (m : gmap IpAddr (Dispatch T)) (v : T).

Definition connect (ips : list IpAddr) v m : gmap IpAddr (Dispatch T) :=
  list_to_map ((λ ip, (ip, Connected v)) <$> ips) ∪ m.
Definition withdraw (ips : list IpAddr) m : gmap IpAddr (Dispatch T) :=
  filter (λ kd, kd.1 ∉ ips) m.
Definition offline (ips : list IpAddr) m : gmap IpAddr (Dispatch T) :=
  map_imap (λ ip d, Some (if decide (ip ∈ ips) then Parked else d)) m.

Lemma lookup_connect ips v m ip :
  connect ips v m !! ip = if decide (ip ∈ ips) then Some (Connected v) else m !! ip.
Proof.
  unfold connect. induction ips as [|ip' ips IH]; csimpl.
  - by rewrite left_id by apply _.
  - rewrite <- insert_union_l, lookup_insert, IH. repeat case_decide; set_solver.
Qed.

Lemma lookup_withdraw ips m ip :
  withdraw ips m !! ip = if decide (ip ∈ ips) then None else m !! ip.
Proof.
  unfold withdraw. rewrite map_lookup_filter. destruct (m !! ip); simpl; repeat case_guard;
    repeat case_decide; done.
Qed.

Lemma lookup_offline ips m ip :
  offline ips m !! ip = if decide (ip ∈ ips) then (λ _, Parked) <$> m !! ip else m !! ip.
Proof.
  unfold offline. rewrite map_lookup_imap. destruct (m !! ip); simpl; by case_decide.
Qed.

Inductive relay_op : Type :=
  | OpInsert (ips : list IpAddr) (v : T)
  | OpReconcile (current previous : list IpAddr) (v : T)
  | OpPark (ips : list IpAddr)
  | OpRemove (ips : list IpAddr).

(** What a client may see of an operation: its answer ([true] for success) and
    the new map. The failure of an insertion withdraws the whole batch. *)
Inductive spec_op : relay_op → gmap IpAddr (Dispatch T) → bool →
    gmap IpAddr (Dispatch T) → Prop :=
  | spec_insert ips v m : spec_op (OpInsert ips v) m true (connect ips v m)
  | spec_insert_fails ips v m : spec_op (OpInsert ips v) m false (withdraw ips m)
  | spec_reconcile cur prev v m :
      spec_op (OpReconcile cur prev v) m true (connect cur v (withdraw prev m))
  | spec_reconcile_fails cur prev v m :
      spec_op (OpReconcile cur prev v) m false (withdraw cur (withdraw prev m))
  | spec_park ips m : spec_op (OpPark ips) m true (offline ips m)
  | spec_remove ips m : spec_op (OpRemove ips) m true (withdraw ips m).

Inductive spec_ops : list relay_op → gmap IpAddr (Dispatch T) → list bool →
    gmap IpAddr (Dispatch T) → Prop :=
  | spec_nil m : spec_ops [] m [] m
  | spec_cons o os m b m1 bs m2 :
      spec_op o m b m1 → spec_ops os m1 bs m2 → spec_ops (o :: os) m (b :: bs) m2.

Section Run.
Context `{RoutingTable W, ThinStatusOps}.

Definition run_op (o : relay_op) (r : Relay W T) : outcome (bool * Relay W T) :=
  match o with
  | OpInsert ips v => let! (res, r) := Relay_insert ips v r in Ret (is_ok res, r)
  | OpReconcile cur prev v =>
      let! (res, r) := Relay_reconcile cur prev v r in Ret (is_ok res, r)
  | OpPark ips => Ret (true, Relay_park ips r)
  | OpRemove ips => let! r := Relay_remove ips r in Ret (true, r)
  end.

Fixpoint run_ops (os : list relay_op) (r : Relay W T) : outcome (list bool * Relay W T) :=
  match os with
  | [] => Ret ([], r)
  | o :: os =>
      let! (b, r) := run_op o r in
      let! (bs, r) := run_ops os r in
      Ret (b :: bs, r)
  end.
End Run.
End Spec.
Arguments relay_op : clear implicits.

(** The abstraction: what [get] answers for every address. *)
Definition dispatch_map {W T} (r : Relay W T) : gmap IpAddr (Dispatch T) :=
  (λ e, match value e with Some v => Connected v | None => Parked end) <$> peer_map r.

Lemma lookup_dispatch_map {W T} (r : Relay W T) ip : dispatch_map r !! ip = Relay_get r ip.
Proof. unfold dispatch_map, Relay_get. by rewrite lookup_fmap. Qed.

Section Refinement.
Context `{RoutingTableLaws W routes, ThinStatusOps} {T : Type}.
Implicit Types (r : Relay W T) (v : T).

(** Two maps related by lookups are equal. *)
Ltac by_lookups :=
  apply map_eq; intros ip';
  rewrite ?lookup_connect, ?lookup_withdraw, ?lookup_offline, ?lookup_withdraw,
    ?lookup_dispatch_map.

Lemma insert_post_spec cur v r res r' :
  insert_post routes cur v r res r' →
  dispatch_map r' =
    if is_ok res then connect cur v (dispatch_map r) else withdraw cur (dispatch_map r).
Proof.
  destruct res; intros [_ Hg]; simpl; by_lookups; by rewrite Hg.
Qed.

(** The batch an operation inserts. *)
Definition batch (o : relay_op T) : list IpAddr :=
  match o with OpInsert ips _ | OpReconcile ips _ _ => ips | OpPark _ | OpRemove _ => [] end.

Lemma run_op_refines o r :
  relay_inv routes r →
  match run_op o r with
  | Panic => ¬ NoDup (batch o)
  | Ret (b, r') => relay_inv routes r' ∧ spec_op o (dispatch_map r) b (dispatch_map r')
  end.
Proof.
  intros Hr. destruct o as [ips v|cur prev v|ips|ips]; simpl.
  - pose proof (Relay_insert_outcome ips v r Hr) as Ho.
    destruct (Relay_insert ips v r) as [[res r']|]; [|done]. destruct Ho as [Hr' Hp]. split; [done|].
    rewrite (insert_post_spec _ _ _ _ _ Hp). destruct res; constructor.
  - destruct (Relay_reconcile_outcome cur prev v r Hr) as (r1 & Ho & _ & _ & Hg).
    destruct (Relay_reconcile cur prev v r) as [[res r']|]; [|done]. destruct Ho as [Hr' Hp].
    split; [done|]. rewrite (insert_post_spec _ _ _ _ _ Hp).
    assert (∀ ip, ip ∉ cur → Relay_get r1 ip = withdraw prev (dispatch_map r) !! ip) as Hr1.
    { intros ip Hip. rewrite Hg, lookup_withdraw, lookup_dispatch_map.
      repeat case_decide; try done; rewrite stale_of_spec in *; tauto. }
    destruct res; simpl.
    + assert (connect cur v (dispatch_map r1) = connect cur v (withdraw prev (dispatch_map r)))
        as -> by (apply map_eq; intros ip; rewrite !lookup_connect, lookup_dispatch_map;
          case_decide; auto). constructor.
    + assert (withdraw cur (dispatch_map r1) = withdraw cur (withdraw prev (dispatch_map r)))
        as -> by (apply map_eq; intros ip; rewrite !(lookup_withdraw cur), lookup_dispatch_map;
          case_decide; auto). constructor.
  - split; [by apply park_inv|].
    replace (dispatch_map (Relay_park ips r)) with (offline ips (dispatch_map r)); [constructor|].
    by_lookups. by rewrite get_park.
  - destruct (Relay_remove_spec ips r Hr) as (r' & -> & Hr' & _ & _ & Hg). split; [done|].
    replace (dispatch_map r') with (withdraw ips (dispatch_map r)); [constructor|].
    by_lookups. by rewrite Hg.
Qed.

(** C2: the relay refines the map of its specification over every sequence of
    operations, from the empty relay and whatever the routing table answers, at
    once or later: every answer and every lookup is one the specification allows,
    and every address the relay dispatches has its route installed. It panics
    (forgets a route guard) at most when a batch names an address twice. *)
Theorem relay_refines (w : W) (os : list (relay_op T)) :
  match run_ops os (Relay_new w) with
  | Panic => Exists (λ o, ¬ NoDup (batch o)) os
  | Ret (bs, r) =>
      spec_ops os ∅ bs (dispatch_map r) ∧
      ∀ ip, is_Some (Relay_get r ip) → ip ∈ routes (handle r)
  end.
Proof.
  assert (∀ r, relay_inv routes r →
    match run_ops os r with
    | Panic => Exists (λ o, ¬ NoDup (batch o)) os
    | Ret (bs, r') => relay_inv routes r' ∧ spec_ops os (dispatch_map r) bs (dispatch_map r')
    end) as Hrun.
  { induction os as [|o os IH]; intros r Hr; simpl.
    - split; [done|constructor].
    - pose proof (run_op_refines o r Hr) as Ho.
      destruct (run_op o r) as [[b r1]|]; [|by left]. destruct Ho as [Hr1 Hs].
      specialize (IH r1 Hr1). destruct (run_ops os r1) as [[bs r2]|]; simpl; [|by right].
      destruct IH as [Hr2 Hss]. split; [done|by econstructor]. }
  specialize (Hrun _ (Relay_new_inv w)).
  destruct (run_ops os (Relay_new w)) as [[bs r]|]; [|done]. destruct Hrun as [Hr Hs].
  split; [exact Hs|]. intros ip. by apply get_installed.
Qed.

(** [insert] leaves either the whole batch connected to its value, with
    every route of it installed, or no address of the batch at all; other
    addresses keep what they had. When every address is known already (a parked
    peer coming back), it succeeds without touching the routing table. *)
Theorem relay_insert_all_or_nothing (ips : list IpAddr) (v : T) (r : Relay W T)
    (Hnd : NoDup ips) (Hr : relay_inv routes r) :
  ∃ res r', Relay_insert ips v r = Ret (res, r') ∧
    relay_inv routes r' ∧ insert_post routes ips v r res r' ∧
    (Forall (λ ip, is_Some (Relay_get r ip)) ips → res = Ok tt ∧ handle r' = handle r).
Proof.
  destruct (Relay_insert_spec ips v r Hnd Hr) as (res & r' & E & Hr' & Hp).
  exists res, r'. split_and!; [done..|]. intros Hall. unfold Relay_insert, try_join_all in E.
  assert (∃ r1, poll_all ips v r = Ret (Ok [], r1) ∧ handle r1 = handle r) as (r1 & Et & Eh).
  { clear E Hp Hr Hr' Hnd. revert r Hall. induction ips as [|ip ips IH]; intros r Hall; simpl.
    { by exists r. }
    apply Forall_cons in Hall as [[e He]%get_some_iff Hall].
    unfold insert_start. rewrite He.
    destruct (IH (set_value ip (Some v) r)) as (r1 & -> & Eh).
    - eapply Forall_impl; [done|]. intros ip' Hs. rewrite get_set_value.
      case_decide; by rewrite ?fmap_is_Some.
    - by exists r1. }
  rewrite Et in E. by simplify_eq/=.
Qed.
End Refinement.

Section Rollback.
Context `{RoutingTableLaws W routes, ThinStatusOps} {T : Type}.

(** The rollback of a failed [insert] takes away a route the relay did not
    install: when the table refuses an address because the route exists already
    (the one of the local resolver, say), the insertion fails and the direct
    removal that follows deletes that route. *)
Theorem rollback_removes_foreign_route (ip : IpAddr) (v : T) (r : Relay W T) (e : IoError)
    (w : W) :
  Relay_get r ip = None → ip ∈ routes (handle r) →
  rt_insert ip (handle r) = (Err e, handle r) → rt_remove ip (handle r) = (Ok tt, w) →
  ∃ r', Relay_insert [ip] v r = Ret (Err (status_from_io e), r') ∧ ip ∉ routes (handle r').
Proof.
  intros Hg%get_none_iff Hin Hi Hr.
  unfold Relay_insert, try_join_all, poll_all, insert_start, ScopedRoute_new.
  rewrite Hg, Hi. destruct (rt_ready ip (handle r)); simpl; unfold remove_one; simpl;
    rewrite Hg, Hr; (eexists; split; [done|]); simpl; apply rt_remove_ok in Hr; set_solver.
Qed.
End Rollback.

(** ** Witnesses: the in-memory table *)
Module RelayRef.
Import MockRoutes.

#[export] Instance thin_status : ThinStatusOps := {
  from_error_kind k :=
    match k with
    | ErrorKind.NotFound => ErrorCode.NotFound
    | ErrorKind.PermissionDenied => ErrorCode.PermissionDenied
    | ErrorKind.AlreadyExists => ErrorCode.AlreadyExists
    | _ => ErrorCode.Unknown
    end;
  code_str c :=
    match c with
    | ErrorCode.NotFound => "NOT_FOUND"
    | ErrorCode.PermissionDenied => "PERMISSION_DENIED"
    | ErrorCode.AlreadyExists => "ALREADY_EXISTS"
    | _ => "UNKNOWN"
    end%string;
  status_from_io e := {| code_raw := 2; message := error_kind_str (kind e) |};
}.

Definition ips : list IpAddr := [V4 1; V6 2].

(** Insert a batch, park it, insert it again, move the peer to another set of
    addresses and remove one of them. *)
Definition session : list (relay_op nat) :=
  [OpInsert ips 1%nat; OpPark ips; OpInsert ips 2%nat; OpReconcile [V6 2; V6 3] ips 3%nat;
   OpRemove [V6 2]].

(** A table that answers later. *)
Definition slow : world :=
  {| mock_routes := ∅; should_fail := false; reject_existing := false; waits := true |}.

Definition session_view (w : world) :=
  let! (oks, r) := run_ops session (Relay_new w) in
  Ret (oks, Relay_get r <$> [V4 1; V6 2; V6 3], bool_decide (mock_routes (handle r) = {[V6 3]})).

Example session_runs w :
  w ∈ [empty; slow] →
  session_view w =
    Ret ([true; true; true; true; true], [None; None; Some (Connected 3%nat)], true).
Proof. by intros [->| ->%list_elem_of_singleton]%elem_of_cons; vm_compute. Qed.

(** An address twice in a batch: with a table that answers at once the second
    future finds the entry of the first; with one that answers later both install
    the route, and the second drops the guard of the first. *)
Example repeated_address :
  (let! (res, _) := Relay_insert [V6 1; V6 1] 1%nat (Relay_new empty) in Ret (is_ok res)) = Ret true ∧
  Relay_insert [V6 1; V6 1] 1%nat (Relay_new slow) = Panic.
Proof. by vm_compute. Qed.

(** A table that refuses every route: the batch is rolled back and counted. *)
Example refused_batch_is_counted :
  match Relay_insert ips 1%nat (Relay_new (set_fail true empty)) with
  | Ret (Err s, r) =>
      code_raw s = 2%Z ∧ Relay_get r (V4 1) = None ∧
      counters r = [("p2p_vpn_relay_insert_errors",
        [("ERROR_CODE", "PERMISSION_DENIED"); ("ERROR_KIND", "PermissionDenied")])]%string
  | _ => False
  end.
Proof. vm_compute. done. Qed.
End RelayRef.
Import MockRoutes RelayRef.

Lemma relay_refines_witness :
  ∃ bs r, run_ops session (Relay_new slow) = Ret (bs, r) ∧
    spec_ops session ∅ bs (dispatch_map r) ∧
    ∀ ip, is_Some (Relay_get r ip) → ip ∈ mock_routes (handle r).
Proof.
  pose proof (relay_refines (routes := mock_routes) slow session) as Hr.
  destruct (run_ops session (Relay_new slow)) as [[bs r]|] eqn:E; [|by vm_compute in E].
  exists bs, r. split; [done|exact Hr].
Defined.

Lemma relay_insert_all_or_nothing_witness :
  ∃ res r', Relay_insert ips 1%nat (Relay_new empty) = Ret (res, r') ∧
    relay_inv mock_routes r' ∧ insert_post mock_routes ips 1%nat (Relay_new empty) res r'.
Proof.
  destruct (relay_insert_all_or_nothing (routes := mock_routes) ips 1%nat (Relay_new empty)
    ltac:(by_decide) (Relay_new_inv empty)) as (res & r' & ? & ? & ? & _). by exists res, r'.
Defined.

(** A table like a kernel's, which refuses a route it has. *)
Definition kernel_like : world :=
  {| mock_routes := {[V6 9]}; should_fail := false; reject_existing := true; waits := true |}.

Lemma rollback_removes_foreign_route_witness :
  ∃ r', Relay_insert [V6 9] 1%nat (Relay_new kernel_like) =
      Ret (Err (status_from_io exists_already), r') ∧ V6 9 ∉ mock_routes (handle r').
Proof.
  eapply (rollback_removes_foreign_route (routes := mock_routes) (V6 9) 1%nat
    (Relay_new kernel_like) exists_already); [done|by_decide|by vm_compute|reflexivity].
Defined.
