(* ===== verification/RelayJoin.v ===== *)
(** * The futures of the relay

    [Relay::insert] and [Relay::remove] of [src/src/relay.rs] run one future per
    address of a batch, whose calls of the routing table overlap. This file gives
    their steps as relations ([Join] for insertions, [Removal] for removals), and
    shows that every interleaving is safe and comes to an end. *)

From S2P Require Import Prelude ErrorCode Net Route Relay.
From stdpp Require Import prelude gmap.

(** ** Interleavings of the futures of [insert]

    [try_join_all] polls the futures of a batch in turn, so their calls of the
    routing table overlap. The lock keeps every other [insert] and [remove] out,
    but not [park], which another session may call between any two steps. *)
Module Join.
Inductive future : Type :=
  | Start
  | Waiting                            (* polled: the table is being called *)
  | Resolved (res : result unit IoError) (* the call is done, not yet polled *)
  | Finished (res : result unit IoError).

Record joining (W T : Type) := {
  jrelay : Relay W T;
  futures : list (IpAddr * future);
  parked : list IpAddr; (* parked by other sessions meanwhile *)
}.
Arguments jrelay {W T} _.
Arguments futures {W T} _.
Arguments parked {W T} _.

Section Steps.
Context `{RoutingTable W} {T : Type}.
Context (ips : list IpAddr) (v : T).

Definition init (r : Relay W T) : joining W T :=
  {| jrelay := r; futures := (λ ip, (ip, Start)) <$> ips; parked := [] |}.

Definition update (c : joining W T) (i : nat) (ip : IpAddr) (f : future) (r : Relay W T) :
    joining W T :=
  {| jrelay := r; futures := <[i := (ip, f)]> (futures c); parked := parked c |}.

(** A step of one of the futures; it may panic. *)
Inductive fut_step (c : joining W T) : outcome (joining W T) → Prop :=
  | step_rearm i ip r' :
      futures c !! i = Some (ip, Start) → insert_start ip v (jrelay c) = Some r' →
      fut_step c (Ret (update c i ip (Finished (Ok tt)) r'))
  | step_call i ip :
      futures c !! i = Some (ip, Start) → insert_start ip v (jrelay c) = None →
      fut_step c (Ret (update c i ip Waiting (jrelay c)))
  | step_table i ip res w :
      futures c !! i = Some (ip, Waiting) → rt_insert ip (handle (jrelay c)) = (res, w) →
      fut_step c (Ret (update c i ip (Resolved res) (with_handle (jrelay c) w)))
  | step_resume i ip res :
      futures c !! i = Some (ip, Resolved res) →
      fut_step c
        (let scoped := let? _ := res in Ok {| dest_ip := ip |} in
         let! (res, r') := insert_resume ip v scoped (jrelay c) in
         Ret (update c i ip (Finished res) r')).

Inductive step (c : joining W T) : outcome (joining W T) → Prop :=
  | step_fut o : fut_step c o → step c o
  | step_park others :
      others ## ips →
      step c (Ret {| jrelay := Relay_park others (jrelay c); futures := futures c;
                     parked := others ++ parked c |}).

Inductive steps (c : joining W T) : outcome (joining W T) → Prop :=
  | steps_refl : steps c (Ret c)
  | steps_more c' o : step c (Ret c') → steps c' o → steps c o
  | steps_panic : step c Panic → steps c Panic.

(** [try_join_all] returns: every future succeeded, or one failed (and the
    others are dropped where they are). *)
Inductive joined (c : joining W T) : result unit IoError → Prop :=
  | joined_ok : Forall (λ f, f.2 = Finished (Ok tt)) (futures c) → joined c (Ok tt)
  | joined_err i ip err :
      futures c !! i = Some (ip, Finished (Err err)) → joined c (Err err).

Lemma step_resume_to c i ip res o :
  futures c !! i = Some (ip, Resolved res) →
  insert_resume ip v (let? _ := res in Ok {| dest_ip := ip |}) (jrelay c) = o →
  fut_step c (let! (res, r') := o in Ret (update c i ip (Finished res) r')).
Proof. intros Hi <-. by apply (step_resume c i ip res). Qed.

Lemma steps_trans c c' o : steps c (Ret c') → steps c' o → steps c o.
Proof.
  intros Hc. remember (Ret c') as o' eqn:Eo. revert Eo.
  induction Hc; intros; simplify_eq; eauto using steps.
Qed.

Lemma steps_fut c c' o : fut_step c (Ret c') → steps c' o → steps c o.
Proof. intros. eapply steps_more; [by apply step_fut|done]. Qed.
End Steps.

Section Safety.
Context `{RoutingTableLaws W routes, ThinStatusOps} {T : Type}.
Context (ips : list IpAddr) (v : T) (r0 : Relay W T).
Context (Hdup : NoDup ips) (Hr0 : relay_inv routes r0).

(** What is known of a future when it has not been polled last. *)
Definition fut_ok (r : Relay W T) (f : IpAddr * future) : Prop :=
  match f.2 with
  | Start => True
  | Waiting => Relay_get r f.1 = None
  | Resolved res => Relay_get r f.1 = None ∧ (is_ok res → f.1 ∈ routes (handle r))
  | Finished res => is_ok res → Relay_get r f.1 = Some (Connected v)
  end.

Record joining_inv (c : joining W T) : Prop := {
  ji_relay : relay_inv routes (jrelay c);
  ji_ips : (futures c).*1 = ips;
  ji_routes : routes (handle r0) ⊆ routes (handle (jrelay c))
                ⊆ list_to_set ips ∪ routes (handle r0);
  ji_others ip : ip ∉ ips → Relay_get (jrelay c) ip = Relay_get (Relay_park (parked c) r0) ip;
  ji_parked : parked c ## ips;
  ji_futures : Forall (fut_ok (jrelay c)) (futures c);
}.

Lemma fut_ok_frame r r' f :
  routes (handle r) ⊆ routes (handle r') → Relay_get r' f.1 = Relay_get r f.1 →
  fut_ok r f → fut_ok r' f.
Proof. intros Hw Hg. unfold fut_ok. rewrite Hg. case_match; naive_solver. Qed.

(** A step of the future of [ip] that changes no other entry. *)
Lemma update_inv c i ip f f' r' :
  joining_inv c → futures c !! i = Some (ip, f) →
  relay_inv routes r' →
  routes (handle (jrelay c)) ⊆ routes (handle r') ⊆ {[ip]} ∪ routes (handle (jrelay c)) →
  (∀ ip', ip' ≠ ip → Relay_get r' ip' = Relay_get (jrelay c) ip') →
  fut_ok r' (ip, f') → joining_inv (update c i ip f' r').
Proof.
  intros [Hr Hips Hw Ho Hp Hf] Hi Hr' Hw' Hg Hf'.
  assert (ip ∈ ips) as Hin.
  { rewrite <- Hips. apply list_elem_of_fmap. exists (ip, f). split; [done|].
    by eapply list_elem_of_lookup_2. }
  constructor; simpl; [done| |set_solver| |done|].
  - rewrite list_fmap_insert. simpl. rewrite Hips. apply list_insert_id.
    by rewrite <- Hips, list_lookup_fmap, Hi.
  - intros ip' Hip'. rewrite Hg by set_solver. by apply Ho.
  - apply Forall_lookup. intros j [ip' g] Hj.
    destruct (decide (i = j)) as [<-|Hne].
    { rewrite list_lookup_insert_eq in Hj by (by eapply lookup_lt_Some). by simplify_eq. }
    rewrite list_lookup_insert_ne in Hj by done.
    apply (fut_ok_frame (jrelay c)); [by apply Hw'| |by eapply Forall_lookup_1 in Hf].
    apply Hg. simpl. intros ->. apply Hne. apply (NoDup_lookup ips i j ip); [done| |];
      by rewrite <- Hips, list_lookup_fmap, ?Hi, ?Hj.
Qed.

Lemma init_inv : joining_inv (init ips r0).
Proof.
  constructor; simpl; [done| |set_solver|done|set_solver|].
  - rewrite <- list_fmap_compose. by apply list_fmap_id.
  - by apply Forall_fmap, Forall_true.
Qed.

Lemma lookup_fut_ok c i f : joining_inv c → futures c !! i = Some f → fut_ok (jrelay c) f.
Proof. intros Hc Hi. by eapply Forall_lookup_1 in Hi; [|apply (ji_futures _ Hc)]. Qed.

Lemma insert_start_some ip (r r' : Relay W T) :
  insert_start ip v r = Some r' → is_Some (Relay_get r ip) ∧ r' = set_value ip (Some v) r.
Proof.
  unfold insert_start. rewrite get_some_iff. destruct (peer_map r !! ip); naive_solver.
Qed.

Lemma insert_start_none ip (r : Relay W T) : insert_start ip v r = None ↔ Relay_get r ip = None.
Proof.
  unfold insert_start. rewrite get_none_iff. destruct (peer_map r !! ip); naive_solver.
Qed.

(** Resuming with an installed route and no entry inserts one. *)
Lemma insert_resume_absent ip res (r : Relay W T) :
  Relay_get r ip = None →
  insert_resume ip v (let? _ := res in Ok {| dest_ip := ip |}) r =
    Ret (res, match res with
              | Ok _ => with_peers r
                  (<[ip := {| value := Some v; route := {| dest_ip := ip |} |}]> (peer_map r))
              | Err _ => r
              end).
Proof.
  intros Hg%get_none_iff. destruct res as [[]|]; simpl; [|done].
  unfold peer_map_insert. by rewrite Hg.
Qed.

Lemma fut_step_inv c o :
  joining_inv c → fut_step v c o → ∃ c', o = Ret c' ∧ joining_inv c'.
Proof.
  intros Hc [i ip r' Hi Hs|i ip Hi Hs|i ip res w Hi Hw|i ip res Hi].
  - apply insert_start_some in Hs as [Hs ->]. eexists. split; [done|].
    eapply update_inv; [done..| |simpl; set_solver| |].
    + by apply set_value_inv, Hc.
    + intros ip' Hip'. by rewrite get_set_value, decide_False.
    + intros _. simpl. rewrite get_set_value, decide_True by done.
      by destruct Hs as [d ->].
  - apply insert_start_none in Hs. eexists. split; [done|].
    by eapply update_inv; [done..|apply Hc|set_solver|done|].
  - pose proof (lookup_fut_ok _ _ _ Hc Hi) as Hf.
    eexists. split; [done|]. pose proof (rt_insert_subset _ _ _ _ Hw).
    eapply update_inv; [done..| |done|done|].
    + apply with_handle_inv; [apply Hc|set_solver].
    + split; [done|]. simpl. destruct res as [[]|]; [|done]. intros _.
      apply rt_insert_ok in Hw. set_solver.
  - destruct (lookup_fut_ok _ _ _ Hc Hi) as [Hg Hin]. simpl in Hg, Hin.
    cbv zeta. rewrite insert_resume_absent by done. eexists. split; [done|].
    destruct res as [[]|err].
    + eapply update_inv; [done..| |simpl; set_solver| |].
      * apply insert_entry_inv; [apply Hc|by apply Hin].
      * intros ip' Hip'. by rewrite get_insert_entry, decide_False.
      * intros _. simpl. by rewrite get_insert_entry, decide_True.
    + eapply update_inv; [done..|apply Hc|set_solver|done|]. by intros ?.
Qed.

Lemma step_inv c o : joining_inv c → step ips v c o → ∃ c', o = Ret c' ∧ joining_inv c'.
Proof.
  intros Hc [o' Hs|others Hd]; [by apply fut_step_inv in Hs|].
  eexists. split; [done|]. destruct Hc as [Hr Hips Hw Ho Hp Hf].
  constructor; simpl; [by apply park_inv|done| | |set_solver|].
  - by rewrite (proj1 (park_handle others _)).
  - intros ip Hip. rewrite get_park, Ho, !get_park by done.
    destruct (Relay_get r0 ip); repeat case_decide; set_solver.
  - apply Forall_lookup. intros i f Hi.
    apply (fut_ok_frame (jrelay c)); [by rewrite (proj1 (park_handle others _))| |
      by eapply Forall_lookup_1 in Hf].
    rewrite get_park, decide_False; [done|]. intros Hin. apply (Hd f.1); [done|].
    rewrite <- Hips. apply list_elem_of_fmap. exists f. split; [done|].
    by eapply list_elem_of_lookup_2.
Qed.

Lemma steps_inv c o : joining_inv c → steps ips v c o → ∃ c', o = Ret c' ∧ joining_inv c'.
Proof.
  intros Hc Hs. induction Hs as [c|c c' o Hs _ IH|c Hs].
  - by exists c.
  - apply step_inv in Hs as (c1 & [= <-] & Hc1); auto.
  - by apply step_inv in Hs as (c1 & ? & _).
Qed.

(** A future that is not finished can step. *)
Lemma fut_progress c i ip f :
  futures c !! i = Some (ip, f) → (∀ res, f ≠ Finished res) → ∃ o, fut_step v c o.
Proof.
  intros Hi Hf. destruct f as [| |res|res].
  - destruct (insert_start ip v (jrelay c)) eqn:Hs; eexists; [by eapply step_rearm|by eapply step_call].
  - destruct (rt_insert ip (handle (jrelay c))) eqn:Hw. eexists. by eapply step_table.
  - eexists. by eapply step_resume.
  - by destruct (Hf res).
Qed.

Lemma joined_or_step c : (∃ res, joined c res) ∨ ∃ o, fut_step v c o.
Proof.
  destruct (decide (Forall (λ f, Is_true match f.2 with Finished (Ok _) => true | _ => false end)
    (futures c))) as [Hf|Hf].
  { left. exists (Ok tt). constructor. eapply Forall_impl; [done|].
    intros [ip f]; simpl. destruct f as [| |?|[[]|]]; naive_solver. }
  apply not_Forall_Exists in Hf; [|apply _]. apply Exists_exists in Hf as ([ip f] & Hin & Hn).
  apply list_elem_of_lookup_1 in Hin as [i Hi].
  destruct f as [| |?|[[]|err]]; simpl in Hn.
  1-3: right; by eapply fut_progress.
  - by destruct Hn.
  - left. eexists. by eapply joined_err.
Qed.

Lemma joined_insert_post c res :
  joining_inv c → joined c res →
  ∃ res' r', insert_finish ips res (jrelay c) = Ret (res', r') ∧ relay_inv routes r' ∧
    is_ok res' = is_ok res ∧ insert_post routes ips v (Relay_park (parked c) r0) res' r'.
Proof.
  intros Hc Hj. apply insert_finish_spec; [apply Hc| |apply Hc|].
  - rewrite (proj1 (park_handle _ _)). apply Hc.
  - intros Hok ip Hip. destruct Hj as [Hall|]; [|done].
    rewrite <- (ji_ips _ Hc) in Hip. apply list_elem_of_fmap in Hip as (f & -> & Hin).
    apply list_elem_of_lookup_1 in Hin as [i Hi].
    pose proof (lookup_fut_ok _ _ _ Hc Hi) as Hf. eapply Forall_lookup_1 in Hall; [|done].
    unfold fut_ok in Hf. simpl in Hall. rewrite Hall in Hf. by apply Hf.
Qed.
End Safety.

(** *** The rounds of [try_join_all] are an interleaving *)
Section Rounds.
Context `{RoutingTable W} {T : Type} (ips : list IpAddr) (v : T).

(** A future after the first round, and those of them that wait. *)
Definition polled (f : IpAddr * future) : Prop :=
  match f.2 with Finished (Ok _) | Resolved _ => True | _ => False end.
Definition scoped_of (ip : IpAddr) (res : result unit IoError) : result ScopedRoute IoError :=
  let? _ := res in Ok {| dest_ip := ip |}.
Definition waiting_of (fs : list (IpAddr * future)) : list (IpAddr * result ScopedRoute IoError) :=
  omap (λ f, match f.2 with Resolved res => Some (f.1, scoped_of f.1 res) | _ => None end) fs.

Lemma futures_update (c : joining W T) pre x post ip f r :
  futures c = pre ++ x :: post →
  futures (update c (length pre) ip f r) = pre ++ (ip, f) :: post.
Proof.
  intros Hc. simpl. rewrite Hc. by rewrite <- (Nat.add_0_r (length pre)), insert_app_r.
Qed.

(** The call of the table. *)
Lemma call_steps (c : joining W T) i ip res w :
  futures c !! i = Some (ip, Start) → insert_start ip v (jrelay c) = None →
  rt_insert ip (handle (jrelay c)) = (res, w) →
  steps ips v c (Ret (update c i ip (Resolved res) (with_handle (jrelay c) w))).
Proof.
  intros Hi Hs Hw. pose proof (lookup_lt_Some _ _ _ Hi) as Hlt.
  set (c1 := update c i ip Waiting (jrelay c)).
  eapply steps_fut; [by eapply step_call|].
  eapply steps_fut; [eapply (step_table v c1 i); [|done]; by apply list_lookup_insert_eq|].
  unfold c1, update. simpl. rewrite list_insert_insert_eq. constructor.
Qed.

(** The end of a future, from a state where its call is done. *)
Lemma resume_steps (c : joining W T) i ip res :
  futures c !! i = Some (ip, Resolved res) →
  match insert_resume ip v (scoped_of ip res) (jrelay c) with
  | Ret (res', r') => steps ips v c (Ret (update c i ip (Finished res') r'))
  | Panic => steps ips v c Panic
  end.
Proof.
  intros Hi. pose proof (step_resume v c i ip res Hi) as Hs. cbv zeta in Hs.
  fold (scoped_of ip res) in Hs.
  destruct (insert_resume ip v (scoped_of ip res) (jrelay c)) as [[res' r']|].
  - eapply steps_fut; [exact Hs|constructor].
  - by apply steps_panic, step_fut.
Qed.

Lemma poll_all_steps rest pre (c : joining W T) :
  futures c = pre ++ ((λ ip, (ip, Start)) <$> rest) →
  match poll_all rest v (jrelay c) with
  | Ret (Ok waiting, r') => ∃ c' fs, steps ips v c (Ret c') ∧ jrelay c' = r' ∧
      futures c' = pre ++ fs ∧ Forall polled fs ∧ waiting_of fs = waiting
  | Ret (Err err, r') => ∃ c', steps ips v c (Ret c') ∧ jrelay c' = r' ∧ joined c' (Err err)
  | Panic => steps ips v c Panic
  end.
Proof.
  revert pre c. induction rest as [|ip rest IH]; intros pre c Hc; csimpl.
  { exists c, []. split; [constructor|]. split; [done|]. split; [exact Hc|]. by split; [constructor|]. }
  assert (futures c !! length pre = Some (ip, Start)) as Hi
    by (rewrite Hc; by apply list_lookup_middle).
  (* the other futures, once that of [ip] is at [f] *)
  assert (∀ f r1, steps ips v c (Ret (update c (length pre) ip f r1)) → polled (ip, f) →
    match poll_all rest v r1 with
    | Ret (Ok waiting, r') => ∃ c' fs, steps ips v c (Ret c') ∧ jrelay c' = r' ∧
        futures c' = pre ++ fs ∧ Forall polled fs ∧ waiting_of fs = waiting_of [(ip, f)] ++ waiting
    | Ret (Err err, r') => ∃ c', steps ips v c (Ret c') ∧ jrelay c' = r' ∧ joined c' (Err err)
    | Panic => steps ips v c Panic
    end) as Hnext.
  { intros f r1 Hs Hp. set (c1 := update c (length pre) ip f r1) in *.
    assert (futures c1 = (pre ++ [(ip, f)]) ++ ((λ ip, (ip, Start)) <$> rest)) as Ec1
      by (unfold c1; by rewrite (futures_update c _ _ _ ip f r1 Hc), <- app_assoc).
    specialize (IH _ c1 Ec1). simpl in IH. destruct (poll_all rest v r1) as [[[waiting|err] r']|].
    - destruct IH as (c' & fs & Hs' & Hr & Hf & Hall & Hw). exists c', ((ip, f) :: fs).
      rewrite <- app_assoc in Hf. split_and!; [by eapply steps_trans|done|done|by constructor|].
      rewrite <- Hw. apply (omap_app _ [(ip, f)]).
    - destruct IH as (c' & Hs' & Hr & Hj). exists c'. split; [by eapply steps_trans|done].
    - by eapply steps_trans. }
  destruct (insert_start ip v (jrelay c)) as [r1|] eqn:Es.
  { apply (Hnext (Finished (Ok tt)) r1); [|done]. eapply steps_fut; [by eapply step_rearm|constructor]. }
  unfold ScopedRoute_new. destruct (rt_insert ip (handle (jrelay c))) as [res w] eqn:Hw.
  fold (scoped_of ip res). set (r1 := with_handle (jrelay c) w).
  set (c1 := update c (length pre) ip (Resolved res) r1).
  assert (steps ips v c (Ret c1)) as H1 by (by apply call_steps).
  destruct (rt_ready ip (handle (jrelay c))).
  - assert (futures c1 !! length pre = Some (ip, Resolved res)) as Hi1
      by (apply list_lookup_insert_eq; by eapply lookup_lt_Some).
    pose proof (resume_steps c1 (length pre) ip res Hi1) as H2. simpl in H2.
    destruct (insert_resume ip v (scoped_of ip res) r1) as [[res' r2]|]; simpl.
    2: { by eapply steps_trans. }
    assert (update c1 (length pre) ip (Finished res') r2 =
      update c (length pre) ip (Finished res') r2) as Eu
      by (unfold c1, update; simpl; by rewrite list_insert_insert_eq).
    rewrite Eu in H2. assert (steps ips v c (Ret (update c (length pre) ip (Finished res') r2))) as H3
      by (by eapply steps_trans).
    destruct res' as [[]|err]; [by apply (Hnext (Finished (Ok tt)) r2)|].
    eexists. split; [exact H3|]. split; [done|]. eapply (joined_err _ (length pre)).
    simpl. by rewrite list_lookup_insert_eq by (by eapply lookup_lt_Some).
  - specialize (Hnext (Resolved res) r1 H1 I). destruct (poll_all rest v r1) as [[[waiting|err] r']|];
      simpl; exact Hnext.
Qed.

Lemma resume_all_steps fs pre (c : joining W T) :
  futures c = pre ++ fs → Forall (λ f, f.2 = Finished (Ok tt)) pre → Forall polled fs →
  match resume_all (waiting_of fs) v (jrelay c) with
  | Ret (res, r') => ∃ c', steps ips v c (Ret c') ∧ jrelay c' = r' ∧ joined c' res
  | Panic => steps ips v c Panic
  end.
Proof.
  revert pre c. induction fs as [|[ip f] fs IH]; intros pre c Hc Hpre Hfs.
  { exists c. split; [constructor|]. split; [done|]. constructor. by rewrite Hc, app_nil_r. }
  apply Forall_cons in Hfs as [Hf Hfs].
  assert (∀ l, Forall (λ f, f.2 = Finished (Ok tt)) (l ++ [(ip, Finished (Ok tt))]) ↔
    Forall (λ f, f.2 = Finished (Ok tt)) l) as Hsnoc.
  { intros l. rewrite Forall_app, Forall_singleton. naive_solver. }
  destruct f as [| |res|[[]|]]; try done.
  - assert (futures c !! length pre = Some (ip, Resolved res)) as Hi
      by (rewrite Hc; by apply list_lookup_middle).
    pose proof (resume_steps c (length pre) ip res Hi) as H1. simpl.
    destruct (insert_resume ip v (scoped_of ip res) (jrelay c)) as [[[[]|err] r1]|]; simpl; [| |done].
    + set (c1 := update c (length pre) ip (Finished (Ok tt)) r1) in *.
      assert (futures c1 = (pre ++ [(ip, Finished (Ok tt))]) ++ fs) as Ec1
        by (unfold c1; by rewrite (futures_update c _ _ _ ip _ r1 Hc), <- app_assoc).
      specialize (IH _ c1 Ec1 (proj2 (Hsnoc pre) Hpre) Hfs). simpl in IH.
      destruct (resume_all (waiting_of fs) v r1) as [[res' r']|]; [|by eapply steps_trans].
      destruct IH as (c' & ? & ? & ?). exists c'. split; [by eapply steps_trans|done].
    + eexists. split; [exact H1|]. split; [done|]. eapply (joined_err _ (length pre)).
      simpl. by rewrite list_lookup_insert_eq by (by eapply lookup_lt_Some).
  - apply (IH (pre ++ [(ip, Finished (Ok tt))])); [by rewrite <- app_assoc|by apply Hsnoc|done].
Qed.

Lemma try_join_all_steps (r : Relay W T) :
  match try_join_all ips v r with
  | Ret (res, r') => ∃ c', steps ips v (init ips r) (Ret c') ∧ jrelay c' = r' ∧ joined c' res
  | Panic => steps ips v (init ips r) Panic
  end.
Proof.
  pose proof (poll_all_steps ips [] (init ips r) eq_refl) as Hp. simpl in Hp. unfold try_join_all.
  destruct (poll_all ips v r) as [[[waiting|err] r1]|]; [|done..].
  destruct Hp as (c & fs & Hs & <- & Hf & Hall & <-).
  pose proof (resume_all_steps fs [] c Hf (Forall_nil_2 _) Hall) as Hr. simpl.
  destruct (resume_all (waiting_of fs) v (jrelay c)) as [[res r']|]; [|by eapply steps_trans].
  destruct Hr as (c' & ? & ? & ?). exists c'. split; [by eapply steps_trans|done].
Qed.
End Rounds.

(** *** Every schedule comes to an end *)
Section Liveness.
Context `{RoutingTable W} {T : Type} (ips : list IpAddr) (v : T).

(** The steps a future has still to take, and those of the whole batch. *)
Definition steps_left (f : future) : nat :=
  match f with Start => 3 | Waiting => 2 | Resolved _ => 1 | Finished _ => 0 end.
Definition remaining (c : joining W T) : nat := sum_list ((λ f, steps_left f.2) <$> futures c).

(** A run with [k] steps of the futures, and any parks in between. *)
Inductive runs : nat → joining W T → joining W T → Prop :=
  | runs_refl c : runs 0 c c
  | runs_fut k c c' c'' : fut_step v c (Ret c') → runs k c' c'' → runs (S k) c c''
  | runs_park k c others c'' :
      others ## ips →
      runs k {| jrelay := Relay_park others (jrelay c); futures := futures c;
                parked := others ++ parked c |} c'' → runs k c c''.

Lemma runs_steps k c c' : runs k c c' → steps ips v c (Ret c').
Proof.
  induction 1 as [c|k c c1 c' Hs _ IH|k c others c' Hd _ IH]; [constructor|by eapply steps_fut|].
  eapply steps_more; [by apply step_park|done].
Qed.

Lemma fut_step_decreases c c' : fut_step v c (Ret c') → remaining c' < remaining c.
Proof.
  intros Hs. remember (Ret c') as o eqn:Eo. revert Eo. unfold remaining.
  destruct Hs as [i ip r' Hi _|i ip Hi _|i ip res w Hi _|i ip res Hi]; cbv zeta;
    [..|destruct (insert_resume _ _ _ _) as [[res' r']|]; [|done]]; intros [= <-]; simpl.
  - pose proof (sum_list_insert (λ f, steps_left f.2) _ _ _ (ip, Finished (Ok tt)) Hi). simpl in *. lia.
  - pose proof (sum_list_insert (λ f, steps_left f.2) _ _ _ (ip, Waiting) Hi). simpl in *. lia.
  - pose proof (sum_list_insert (λ f, steps_left f.2) _ _ _ (ip, Resolved res) Hi). simpl in *. lia.
  - pose proof (sum_list_insert (λ f, steps_left f.2) _ _ _ (ip, Finished res') Hi). simpl in *. lia.
Qed.

Lemma runs_bound k c c' : runs k c c' → k + remaining c' ≤ remaining c.
Proof.
  induction 1 as [c|k c c1 c' Hs _ IH|k c others c' _ _ IH]; [done| |done].
  apply fut_step_decreases in Hs. lia.
Qed.

Lemma remaining_init r : remaining (init ips r) = 3 * length ips.
Proof.
  unfold remaining, init. cbn [futures]. rewrite <- list_fmap_compose.
  by apply (sum_list_const (A := IpAddr)).
Qed.
End Liveness.
End Join.

Section Interleaving.
Context `{RoutingTableLaws W routes, ThinStatusOps} {T : Type}.

(** C6: whatever the interleaving of the insertions of a batch of distinct
    addresses, with parks of other addresses in between: nothing panics; the
    join is reached or some insertion can go on; and once joined, [insert] ends
    with the whole batch connected or withdrawn, exactly as if the insertions
    had run one after the other. *)
Theorem insert_interleavings_safe (ips : list IpAddr) (v : T) (r : Relay W T)
    (Hdup : NoDup ips) (Hr : relay_inv routes r) (o : outcome (Join.joining W T))
    (Hs : Join.steps ips v (Join.init ips r) o) :
  ∃ c, o = Ret c ∧
    ((∃ res, Join.joined c res) ∨ (∃ o', Join.fut_step v c o')) ∧
    ∀ res, Join.joined c res →
      ∃ res' r', insert_finish ips res (Join.jrelay c) = Ret (res', r') ∧
        relay_inv routes r' ∧ is_ok res' = is_ok res ∧
        insert_post routes ips v (Relay_park (Join.parked c) r) res' r'.
Proof.
  pose proof (Join.init_inv ips v r Hdup Hr) as Hi.
  destruct (Join.steps_inv ips v r Hdup Hr _ _ Hi Hs) as (c & -> & Hc).
  exists c. split; [done|]. split; [apply Join.joined_or_step|].
  intros res. by apply Join.joined_insert_post.
Qed.

(** An insertion always comes to an end: no schedule has more than three
    steps of the futures per address of the batch, whatever other sessions park
    in between, and until the join is reached some future of a batch of distinct
    addresses can take its next step without a panic. *)
Theorem insert_always_joins (ips : list IpAddr) (v : T) (r : Relay W T) (k : nat)
    (c : Join.joining W T) :
  NoDup ips → relay_inv routes r → Join.runs ips v k (Join.init ips r) c →
  k ≤ 3 * length ips ∧
  ((∃ res, Join.joined c res) ∨ (k < 3 * length ips ∧ ∃ c', Join.fut_step v c (Ret c'))).
Proof.
  intros Hdup Hr Hrun. pose proof (Join.runs_bound ips v k _ _ Hrun) as Hk.
  rewrite Join.remaining_init in Hk. split; [lia|].
  destruct (Join.steps_inv ips v r Hdup Hr _ _ (Join.init_inv ips v r Hdup Hr)
    (Join.runs_steps ips v k _ _ Hrun)) as (c0 & [= <-] & Hc).
  destruct (Join.joined_or_step v c) as [Hj|[o Ho]]; [by left|]. right.
  destruct (Join.fut_step_inv ips v r Hdup Hr c o Hc Ho) as (c' & -> & _).
  apply Join.fut_step_decreases in Ho as Hlt. split; [lia|by exists c'].
Qed.

End Interleaving.

(** ** Interleavings of the futures of [remove_locked]

    [join_all] polls the removals of a batch in turn; each takes its entry out of
    the map, calls the routing table with its guard (or directly, without an
    entry), and counts an error. A batch may name an address twice. *)
Module Removal.
Inductive future : Type :=
  | Start
  | Waiting (guard : option ScopedRoute) (* the table is being called *)
  | Resolved (res : result unit IoError) (* the call is done, not yet polled *)
  | Done.

Record removing (W T : Type) := {
  mrelay : Relay W T;
  mfutures : list (IpAddr * future);
  mparked : list IpAddr; (* parked by other sessions meanwhile *)
}.
Arguments mrelay {W T} _.
Arguments mfutures {W T} _.
Arguments mparked {W T} _.

Section Steps.
Context `{RoutingTable W, ThinStatusOps} {T : Type} (ips : list IpAddr).

Definition init (r : Relay W T) : removing W T :=
  {| mrelay := r; mfutures := (λ ip, (ip, Start)) <$> ips; mparked := [] |}.

Definition update (c : removing W T) (i : nat) (ip : IpAddr) (f : future) (r : Relay W T) :
    removing W T :=
  {| mrelay := r; mfutures := <[i := (ip, f)]> (mfutures c); mparked := mparked c |}.

(** [peer_map.remove(ip)]. *)
Definition take_entry (ip : IpAddr) (r : Relay W T) : option ScopedRoute * Relay W T :=
  (route <$> peer_map r !! ip, with_peers r (delete ip (peer_map r))).

(** The call of the table, through the guard if there was an entry. *)
Definition call_table (ip : IpAddr) (guard : option ScopedRoute) (r : Relay W T) :
    outcome (result unit IoError * Relay W T) :=
  let! (result, w) :=
    match guard with
    | Some old => let! (res, w) := drop_async old (handle r) in Ret (let? _ip := res in Ok tt, w)
    | None => Ret (rt_remove ip (handle r))
    end in
  Ret (result, with_handle r w).

Definition count_result (result : result unit IoError) (r : Relay W T) : Relay W T :=
  match result with
  | Err err => count "p2p_vpn_relay_remove_errors" (into_labels (from_io err)) r
  | Ok _ => r
  end.

(** The cut future, run without interruption, is the future of the code. *)
Lemma remove_one_cut ip (r : Relay W T) :
  remove_one ip r =
    let '(guard, r) := take_entry ip r in
    let! (result, r) := call_table ip guard r in
    Ret (count_result result r).
Proof.
  unfold remove_one, take_entry, call_table. simpl.
  destruct (peer_map r !! ip) as [e|]; simpl.
  - by destruct (drop_async _ _) as [[res w]|].
  - by destruct (rt_remove ip (handle r)).
Qed.

Inductive step (c : removing W T) : outcome (removing W T) → Prop :=
  | step_take i ip guard r' :
      mfutures c !! i = Some (ip, Start) → take_entry ip (mrelay c) = (guard, r') →
      step c (Ret (update c i ip (Waiting guard) r'))
  | step_table i ip guard :
      mfutures c !! i = Some (ip, Waiting guard) →
      step c (let! (result, r') := call_table ip guard (mrelay c) in
              Ret (update c i ip (Resolved result) r'))
  | step_count i ip result :
      mfutures c !! i = Some (ip, Resolved result) →
      step c (Ret (update c i ip Done (count_result result (mrelay c)))).

(** A run with [k] steps of the futures, and any parks in between. *)
Inductive runs : nat → removing W T → outcome (removing W T) → Prop :=
  | runs_refl c : runs 0 c (Ret c)
  | runs_step k c c' o : step c (Ret c') → runs k c' o → runs (S k) c o
  | runs_panic c : step c Panic → runs 1 c Panic
  | runs_park k c others o :
      runs k {| mrelay := Relay_park others (mrelay c); mfutures := mfutures c;
                mparked := others ++ mparked c |} o → runs k c o.

Definition all_done (c : removing W T) : Prop := Forall (λ f, f.2 = Done) (mfutures c).

Definition steps_left (f : future) : nat :=
  match f with Start => 3 | Waiting _ => 2 | Resolved _ => 1 | Done => 0 end.
Definition remaining (c : removing W T) : nat := sum_list ((λ f, steps_left f.2) <$> mfutures c).
End Steps.

Section Safety.
Context `{RoutingTableLaws W routes, ThinStatusOps} {T : Type}.
Context (ips : list IpAddr) (r0 : Relay W T).

(** A future that has started has taken its entry, and holds the guard of its own
    address; one that succeeded has taken away the route, one that failed is
    counted. *)
Definition fut_ok (r : Relay W T) (f : IpAddr * future) : Prop :=
  match f.2 with
  | Start => True
  | Waiting guard => Relay_get r f.1 = None ∧ (∀ g, guard = Some g → dest_ip g = f.1)
  | Resolved res => Relay_get r f.1 = None ∧ (is_ok res → f.1 ∉ routes (handle r))
  | Done => Relay_get r f.1 = None ∧
      (f.1 ∉ routes (handle r) ∨ length (counters r0) < length (counters r))
  end.

Record removing_inv (c : removing W T) : Prop := {
  mi_relay : relay_inv routes (mrelay c);
  mi_ips : (mfutures c).*1 = ips;
  mi_routes : routes (handle r0) ∖ list_to_set ips ⊆ routes (handle (mrelay c))
                ⊆ routes (handle r0);
  mi_others ip : ip ∉ ips → Relay_get (mrelay c) ip = Relay_get (Relay_park (mparked c) r0) ip;
  mi_counters : length (counters r0) ≤ length (counters (mrelay c));
  mi_futures : Forall (fut_ok (mrelay c)) (mfutures c);
}.

Lemma fut_ok_mono r r' f :
  (Relay_get r f.1 = None → Relay_get r' f.1 = None) → routes (handle r') ⊆ routes (handle r) →
  length (counters r) ≤ length (counters r') → fut_ok r f → fut_ok r' f.
Proof.
  unfold fut_ok. intros Hg Hw Hc. case_match; [done|naive_solver|set_solver|].
  intros [Hn [Hr|Hl]]; (split; [by apply Hg|]); [left; set_solver|right; lia].
Qed.

Lemma removal_init_inv : relay_inv routes r0 → removing_inv (init ips r0).
Proof.
  intros Hr0. constructor; simpl; [done| |set_solver|done|done|].
  - rewrite <- list_fmap_compose. by apply list_fmap_id.
  - by apply Forall_fmap, Forall_true.
Qed.

(** A step of the future of [ip] that adds no entry. *)
Lemma removal_update_inv c i ip f f' r' :
  removing_inv c → mfutures c !! i = Some (ip, f) → relay_inv routes r' →
  routes (handle (mrelay c)) ∖ {[ip]} ⊆ routes (handle r') ⊆ routes (handle (mrelay c)) →
  (∀ ip', Relay_get r' ip' = Relay_get (mrelay c) ip' ∨ ip' = ip ∧ Relay_get r' ip' = None) →
  length (counters (mrelay c)) ≤ length (counters r') →
  fut_ok r' (ip, f') → removing_inv (update c i ip f' r').
Proof.
  intros [Hr Hips Hw Ho Hc Hf] Hi Hr' Hw' Hg Hcn Hf'.
  assert (ip ∈ ips) as Hin.
  { rewrite <- Hips. apply list_elem_of_fmap. exists (ip, f). split; [done|].
    by eapply list_elem_of_lookup_2. }
  constructor; simpl; [done| |set_solver| |lia|].
  - rewrite list_fmap_insert. simpl. rewrite Hips. apply list_insert_id.
    by rewrite <- Hips, list_lookup_fmap, Hi.
  - intros ip' Hip'. destruct (Hg ip') as [->|[-> _]]; [by apply Ho|done].
  - apply Forall_insert; [|done]. eapply Forall_impl; [exact Hf|]. intros [ip' g].
    apply fut_ok_mono; [|set_solver|done]. simpl. destruct (Hg ip') as [->|[_ ->]]; done.
Qed.

Lemma take_entry_spec ip (r : Relay W T) guard r' :
  relay_inv routes r → take_entry ip r = (guard, r') →
  relay_inv routes r' ∧ handle r' = handle r ∧ counters r' = counters r ∧
  (∀ g, guard = Some g → dest_ip g = ip) ∧
  ∀ ip', Relay_get r' ip' = if decide (ip = ip') then None else Relay_get r ip'.
Proof.
  intros [Hg Hi] [= <- <-]. split_and!; try done.
  - split; simpl; [by apply map_Forall_delete|]. intros ip' Hs. apply Hi.
    rewrite lookup_delete in Hs. case_decide; [by destruct Hs|done].
  - intros g (e & He & ->)%fmap_Some. by apply (Hg ip e).
  - intros ip'. unfold Relay_get. simpl. rewrite lookup_delete. by case_decide.
Qed.

Lemma call_table_spec ip guard (r : Relay W T) :
  relay_inv routes r → Relay_get r ip = None → (∀ g, guard = Some g → dest_ip g = ip) →
  ∃ res r', call_table ip guard r = Ret (res, r') ∧ relay_inv routes r' ∧
    routes (handle r) ∖ {[ip]} ⊆ routes (handle r') ⊆ routes (handle r) ∧
    (is_ok res → ip ∉ routes (handle r')) ∧ counters r' = counters r ∧
    ∀ ip', Relay_get r' ip' = Relay_get r ip'.
Proof.
  intros [Hg Hi] Hn Hd.
  assert (∃ res w, rt_remove ip (handle r) = (res, w) ∧
    call_table ip guard r = Ret (res, with_handle r w)) as (res & w & Ew & ->).
  { unfold call_table. destruct guard as [g|].
    - rewrite drop_async_returns, (Hd g eq_refl).
      destruct (rt_remove ip (handle r)) as [[[]|err] w]; by eexists _, _.
    - destruct (rt_remove ip (handle r)) as [res w]. by eexists _, _. }
  pose proof (rt_remove_subset _ _ _ _ Ew) as Hw. apply get_none_iff in Hn.
  eexists _, _. split; [done|]. split_and!; simpl; try done.
  - split; [done|]. simpl. intros ip' Hs. assert (ip' ≠ ip) by (intros ->; rewrite Hn in Hs; by destruct Hs).
    apply Hi in Hs. set_solver.
  - apply Hw.
  - apply Hw.
  - destruct res as [[]|]; [|done]. intros _. apply rt_remove_ok in Ew. set_solver.
Qed.

Lemma removal_lookup_fut_ok c i f : removing_inv c → mfutures c !! i = Some f → fut_ok (mrelay c) f.
Proof. intros Hc Hi. by eapply Forall_lookup_1 in Hi; [|apply (mi_futures _ Hc)]. Qed.

Lemma removal_step_inv c o :
  removing_inv c → step c o →
  ∃ c', o = Ret c' ∧ removing_inv c' ∧ remaining c' < remaining c.
Proof.
  intros Hc [i ip guard r' Hi Ht|i ip guard Hi|i ip res Hi];
    pose proof (removal_lookup_fut_ok _ _ _ Hc Hi) as Hf.
  - destruct (take_entry_spec ip _ _ _ (mi_relay _ Hc) Ht) as (Hr' & Hh & Hcn & Hd & Hg).
    eexists. split; [done|]. split.
    + eapply removal_update_inv; [done..|by rewrite Hh; set_solver| |by rewrite Hcn|].
      * intros ip'. rewrite Hg. case_decide; [by right|by left].
      * split; [simpl; by rewrite Hg, decide_True|done].
    + pose proof (sum_list_insert (λ f, steps_left f.2) _ _ _ (ip, Waiting guard) Hi).
      unfold remaining. simpl in *. lia.
  - destruct Hf as [Hn Hd]. simpl in Hn, Hd.
    destruct (call_table_spec ip guard _ (mi_relay _ Hc) Hn Hd)
      as (res & r' & -> & Hr' & Hw & Hok & Hcn & Hg).
    eexists. split; [done|]. split.
    + eapply removal_update_inv; [done..|intros ip'; left; apply Hg|by rewrite Hcn|].
      split; [simpl; by rewrite Hg|done].
    + pose proof (sum_list_insert (λ f, steps_left f.2) _ _ _ (ip, Resolved res) Hi).
      unfold remaining. simpl in *. lia.
  - destruct Hf as [Hn Hok]. simpl in Hn, Hok. eexists. split; [done|]. split.
    + assert (handle (count_result res (mrelay c)) = handle (mrelay c) ∧
        peer_map (count_result res (mrelay c)) = peer_map (mrelay c)) as [Eh Ep] by by destruct res.
      assert (∀ ip', Relay_get (count_result res (mrelay c)) ip' = Relay_get (mrelay c) ip') as Eg
        by (intros; unfold Relay_get; by rewrite Ep).
      eapply removal_update_inv; [done..| |by rewrite Eh; set_solver|by left| |].
      * destruct (mi_relay _ Hc). split; by rewrite ?Ep, ?Eh.
      * destruct res; simpl; lia.
      * split; simpl; [by rewrite Eg|]. rewrite Eh. destruct res as [[]|err]; [left; by apply Hok|].
        right. simpl. pose proof (mi_counters _ Hc). lia.
    + pose proof (sum_list_insert (λ f, steps_left f.2) _ _ _ (ip, Done) Hi).
      unfold remaining. simpl in *. lia.
Qed.

Lemma park_step_inv c others :
  removing_inv c →
  removing_inv {| mrelay := Relay_park others (mrelay c); mfutures := mfutures c;
                  mparked := others ++ mparked c |}.
Proof.
  intros [Hr Hips Hw Ho Hcn Hf]. destruct (park_handle others (mrelay c)) as [Eh Ec].
  constructor; simpl; [by apply park_inv|done| | | |].
  - by rewrite Eh.
  - intros ip Hip. rewrite get_park, Ho, !get_park by done.
    destruct (Relay_get r0 ip); repeat case_decide; set_solver.
  - by rewrite Ec.
  - eapply Forall_impl; [exact Hf|]. intros f. apply fut_ok_mono; [|by rewrite Eh|by rewrite Ec].
    intros Hn. rewrite get_park, Hn. by case_decide.
Qed.

Lemma runs_inv k c o :
  removing_inv c → runs k c o →
  ∃ c', o = Ret c' ∧ removing_inv c' ∧ k + remaining c' ≤ remaining c.
Proof.
  intros Hc Hrun. induction Hrun as [c|k c c1 o Hs _ IH|c Hs|k c others o _ IH].
  - by exists c.
  - destruct (removal_step_inv c _ Hc Hs) as (c2 & [= <-] & Hc2 & Hlt).
    destruct (IH Hc2) as (c' & -> & Hc' & Hk). exists c'. split_and!; [done..|lia].
  - by destruct (removal_step_inv c _ Hc Hs) as (? & ? & _).
  - destruct (IH (park_step_inv c others Hc)) as (c' & -> & Hc' & Hk). by exists c'.
Qed.

Lemma done_or_step (c : removing W T) : all_done c ∨ ∃ o, step c o.
Proof.
  unfold all_done. destruct (decide (Forall (λ f, steps_left f.2 = 0) (mfutures c))) as [Hf|Hf].
  { left. eapply Forall_impl; [done|]. intros [ip f]. by destruct f. }
  right. apply not_Forall_Exists in Hf; [|apply _].
  apply Exists_exists in Hf as ([ip f] & [i Hi]%list_elem_of_lookup_1 & Hn).
  destruct f as [|guard|res|]; [..|by destruct Hn].
  - destruct (take_entry ip (mrelay c)) eqn:E. eexists. by eapply step_take.
  - eexists. by eapply step_table.
  - eexists. by eapply step_count.
Qed.

Lemma all_done_spec c :
  removing_inv c → all_done c →
  (∀ ip, Relay_get (mrelay c) ip =
     if decide (ip ∈ ips) then None else Relay_get (Relay_park (mparked c) r0) ip) ∧
  (counters (mrelay c) = counters r0 →
     routes (handle (mrelay c)) = routes (handle r0) ∖ list_to_set ips).
Proof.
  intros Hc Hd.
  assert (∀ ip, ip ∈ ips → Relay_get (mrelay c) ip = None ∧
    (ip ∉ routes (handle (mrelay c)) ∨ length (counters r0) < length (counters (mrelay c)))) as Hall.
  { intros ip Hip. rewrite <- (mi_ips _ Hc) in Hip.
    apply list_elem_of_fmap in Hip as ([ip' f] & -> & [i Hi]%list_elem_of_lookup_1).
    pose proof (removal_lookup_fut_ok _ _ _ Hc Hi) as Hf. eapply Forall_lookup_1 in Hd; [|done].
    simpl in Hd. subst f. exact Hf. }
  split.
  - intros ip. case_decide as Hip; [by apply Hall|by apply (mi_others _ Hc)].
  - intros Ec. rewrite Ec in Hall. pose proof (mi_routes _ Hc) as [Hlo Hhi].
    apply set_eq. intros ip. split; [|set_solver]. intros Hip.
    apply elem_of_difference. split; [set_solver|]. intros Hin%elem_of_list_to_set.
    destruct (Hall ip Hin) as [_ [?|?]]; [done|lia].
Qed.
End Safety.

(** *** The run of the futures one after the other is an interleaving *)
Section Sequential.
Context `{RoutingTable W, ThinStatusOps} {T : Type}.

Lemma runs_step_to k c c' o c1 :
  step c o → o = Ret c1 → runs k c1 (Ret c') → runs (T := T) (W := W) (S k) c (Ret c').
Proof. intros Hs ->. by apply runs_step. Qed.

Lemma remove_one_runs k (c c' : removing W T) i ip r1 :
  mfutures c !! i = Some (ip, Start) → remove_one ip (mrelay c) = Ret r1 →
  runs k (update c i ip Done r1) (Ret c') → runs (S (S (S k))) c (Ret c').
Proof.
  intros Hi E Hrest. rewrite remove_one_cut in E.
  destruct (take_entry ip (mrelay c)) as [guard r2] eqn:Et.
  destruct (call_table ip guard r2) as [[res r3]|] eqn:Ec; [|done]. injection E as <-.
  pose proof (lookup_lt_Some _ _ _ Hi) as Hlt.
  eapply runs_step_to; [by eapply step_take|done|].
  set (c1 := update c i ip (Waiting guard) r2).
  assert (mfutures c1 !! i = Some (ip, Waiting guard)) as H1 by (by apply list_lookup_insert_eq).
  eapply runs_step_to; [by eapply (step_table c1)|simpl; by rewrite Ec|].
  set (c2 := update c1 i ip (Resolved res) r3).
  assert (mfutures c2 !! i = Some (ip, Resolved res)) as H2
    by (apply list_lookup_insert_eq; simpl; by rewrite length_insert).
  eapply runs_step_to; [by eapply (step_count c2)|done|].
  unfold c2, c1, update in *. simpl in *. by rewrite !list_insert_insert_eq.
Qed.

Lemma remove_locked_runs rest done_ (c : removing W T) r' :
  mfutures c = done_ ++ ((λ ip, (ip, Start)) <$> rest) → Forall (λ f, f.2 = Done) done_ →
  remove_locked rest (mrelay c) = Ret r' →
  ∃ c', runs (3 * length rest) c (Ret c') ∧ mrelay c' = r' ∧ mparked c' = mparked c ∧ all_done c'.
Proof.
  revert done_ c. induction rest as [|ip rest IH]; intros done_ c Hc Hd E.
  { injection E as <-. exists c. split; [constructor|]. split; [done|]. split; [done|].
    unfold all_done. by rewrite Hc, app_nil_r. }
  simpl in E. destruct (remove_one ip (mrelay c)) as [r1|] eqn:E1; [|done].
  assert (mfutures c !! length done_ = Some (ip, Start)) as Hi
    by (rewrite Hc; by apply list_lookup_middle).
  set (c1 := update c (length done_) ip Done r1).
  destruct (IH (done_ ++ [(ip, Done)]) c1) as (c' & Hrun & Hr & Hp & Hall); [| |done|].
  - simpl. rewrite Hc, <- (app_assoc done_). csimpl.
    by rewrite <- (Nat.add_0_r (length done_)), insert_app_r.
  - apply Forall_app_2; [done|by repeat constructor].
  - exists c'. split; [|done]. replace (3 * length (ip :: rest)) with (S (S (S (3 * length rest))))
      by (simpl; lia).
    by eapply remove_one_runs.
Qed.
End Sequential.
End Removal.

Section RemovalInterleaving.
Context `{RoutingTableLaws W routes, ThinStatusOps} {T : Type}.

(** C21: whatever the interleaving of the removals of a batch, with parks of any
    addresses in between: nothing panics; after at most three steps per address
    all removals are done, and until then one of them can go on; in the end no
    address of the batch is dispatched, every other address is as it was but for
    the parks, at most the routes of the batch are gone, and all of them are if
    no error was counted. The removals run one after the other are one of the
    interleavings. *)
Theorem remove_interleavings_safe (ips : list IpAddr) (r : Relay W T) :
  relay_inv routes r →
  (∀ k o, Removal.runs k (Removal.init ips r) o →
    ∃ c, o = Ret c ∧ k ≤ 3 * length ips ∧ relay_inv routes (Removal.mrelay c) ∧
      routes (handle r) ∖ list_to_set ips ⊆ routes (handle (Removal.mrelay c))
        ⊆ routes (handle r) ∧
      (Removal.all_done c ∨ ∃ c', Removal.step c (Ret c')) ∧
      (Removal.all_done c →
         (∀ ip, Relay_get (Removal.mrelay c) ip =
            if decide (ip ∈ ips) then None
            else Relay_get (Relay_park (Removal.mparked c) r) ip) ∧
         (counters (Removal.mrelay c) = counters r →
            routes (handle (Removal.mrelay c)) = routes (handle r) ∖ list_to_set ips))) ∧
  (∃ r' c, remove_locked ips r = Ret r' ∧
    Removal.runs (3 * length ips) (Removal.init ips r) (Ret c) ∧ Removal.all_done c ∧
    Removal.mrelay c = r').
Proof.
  intros Hr. split.
  - intros k o Hrun.
    destruct (Removal.runs_inv ips r k _ o (Removal.removal_init_inv ips r Hr) Hrun) as (c & -> & Hc & Hk).
    exists c. split; [done|].
    assert (Removal.remaining (Removal.init ips r) = 3 * length ips) as E.
    { unfold Removal.remaining, Removal.init. cbn [Removal.mfutures].
      rewrite <- list_fmap_compose. by apply (sum_list_const (A := IpAddr)). }
    rewrite E in Hk. split; [lia|]. split; [apply Hc|]. split; [apply Hc|].
    split; [|by apply Removal.all_done_spec].
    destruct (Removal.done_or_step c) as [?|[o Ho]]; [by left|]. right.
    destruct (Removal.removal_step_inv ips r c o Hc Ho) as (c' & -> & _). by exists c'.
  - destruct (remove_locked_spec ips r Hr) as (r' & E & _).
    destruct (Removal.remove_locked_runs ips [] (Removal.init ips r) r' eq_refl
      (Forall_nil_2 _) E) as (c & ? & ? & _ & ?). by exists r', c.
Qed.
End RemovalInterleaving.

(** *** An address twice in a batch

    Nothing upstream drops a repeated address from an advertisement. With a
    table that accepts a route twice, as the in-memory table does, the second
    insertion replaces the entry of the first and drops its guard. *)
Module Duplicate.
Import MockRoutes.

Definition a : IpAddr := V6 1.
Definition r0 : Relay world nat := Relay_new empty.

(** A batch that names an address twice has an interleaving in which the
    relay panics: both insertions find no entry and install the route, and the
    second then overwrites the guard of the first. *)
Theorem duplicate_address_panics :
  Join.steps [a; a] 7%nat (Join.init [a; a] r0) Panic.
Proof.
  eapply Join.steps_fut; [by apply (Join.step_call _ _ 0 a)|].
  eapply Join.steps_fut; [by apply (Join.step_call _ _ 1 a)|].
  eapply Join.steps_fut; [by apply (Join.step_table _ _ 0 a)|].
  eapply Join.steps_fut; [by apply (Join.step_table _ _ 1 a)|].
  eapply Join.steps_fut.
  { by eapply (Join.step_resume_to _ _ 0 a (Ok tt) (Ret (_, _))). }
  apply Join.steps_panic, Join.step_fut.
  by eapply (Join.step_resume_to _ _ 1 a (Ok tt) Panic).
Qed.
End Duplicate.

(** ** Witnesses: the in-memory table *)
Import MockRoutes RelayRef.

(** The interleaving of a table that answers later. *)
Lemma insert_interleavings_safe_witness :
  ∃ (c : Join.joining world nat) res res' r', Join.joined c res ∧
    insert_finish ips res (Join.jrelay c) = Ret (res', r') ∧
    insert_post mock_routes ips 1%nat (Relay_park (Join.parked c) (Relay_new slow)) res' r'.
Proof.
  destruct (Join.try_join_all_steps ips 1%nat (Relay_new slow)) as (c & Hs & _ & Hj).
  destruct (insert_interleavings_safe (routes := mock_routes) ips 1%nat (Relay_new slow)
    ltac:(by_decide) (Relay_new_inv slow) _ Hs) as (c' & [= <-] & _ & Hpost).
  destruct (Hpost _ Hj) as (res' & r' & E & _ & _ & Hp).
  exact (ex_intro _ c (ex_intro _ _ (ex_intro _ res' (ex_intro _ r' (conj Hj (conj E Hp)))))).
Defined.


(** Both insertions have been polled, and one call of the table is done. *)
Lemma insert_always_joins_witness :
  ∃ c : Join.joining world nat, Join.runs ips 1%nat 3 (Join.init ips (Relay_new empty)) c ∧
    3 ≤ 3 * length ips ∧
    ((∃ res, Join.joined c res) ∨
     (3 < 3 * length ips ∧ ∃ c', Join.fut_step 1%nat c (Ret c'))).
Proof.
  assert (∃ c : Join.joining world nat, Join.runs ips 1%nat 3 (Join.init ips (Relay_new empty)) c)
    as [c Hrun].
  { eexists. eapply Join.runs_fut; [by apply (Join.step_call _ _ 0 (V4 1))|].
    eapply Join.runs_fut; [by apply (Join.step_call _ _ 1 (V6 2))|].
    eapply Join.runs_fut; [by eapply (Join.step_table _ _ 0 (V4 1))|].
    apply Join.runs_refl. }
  exists c. split; [exact Hrun|].
  apply (insert_always_joins (routes := mock_routes) ips 1%nat (Relay_new empty) 3 c
    ltac:(by_decide) (Relay_new_inv empty) Hrun).
Defined.

Lemma remove_interleavings_safe_witness :
  ∃ r' (c : Removal.removing world nat), remove_locked ips (Relay_new empty) = Ret r' ∧
    Removal.runs (3 * length ips) (Removal.init ips (Relay_new empty)) (Ret c) ∧
    Removal.all_done c ∧ Removal.mrelay c = r'.
Proof.
  exact (proj2 (remove_interleavings_safe (routes := mock_routes) ips (Relay_new empty)
    (Relay_new_inv empty))).
Defined.
