(* ===== verification/RelayTests.v ===== *)
(** * The unit tests of the relay, of routes and of retries

    The tests of [src/src/relay.rs], [src/src/route.rs] and
    [src/src/osal/retry.rs], translated to programs over the model that evaluate
    to [Ret true] when all their assertions hold. The relay is dropped at the end
    of each test, which panics if a route is still guarded. *)

From S2P Require Import Prelude ErrorCode Net Retry Route Relay.
From stdpp Require Import prelude gmap strings.

Import MockRoutes RelayRef.
Local Open Scope Z_scope.

#[local] Instance Dispatch_eq_dec {T} `{EqDecision T} : EqDecision (Dispatch T).
Proof. solve_decision. Defined.

(** ** [relay.rs] *)
Module relay_tests.

Definition has_route {T} (r : Relay world T) (ip : IpAddr) : bool :=
  bool_decide (ip ∈ mock_routes (handle r)).

Definition mock_set_fail {T} (fail : bool) (r : Relay world T) : Relay world T :=
  with_handle r (set_fail fail (handle r)).

Definition connected {T} (v : T) : option (Dispatch T) := Some (Connected v).
Definition parked {T} : option (Dispatch T) := Some Parked.

Definition ip4 (a b c d : Z) : IpAddr := V4 (((a * 256 + b) * 256 + c) * 256 + d).
Definition ip6 (a b : Z) : IpAddr := V6 (Ipv6Addr_new [a; b; 0; 0; 0; 0; 0; 1]).

(** Dropping the relay drops every entry with its guard. *)
Definition drop_relay {T} (r : Relay world T) : outcome unit :=
  map_fold (λ _ e acc, let! _ := acc in ScopedRoute_drop (route e)) (Ret tt) (peer_map r).

Definition finish {T} (r : Relay world T) (ok : bool) : outcome bool :=
  let! _ := drop_relay r in Ret ok.

(** [result.unwrap()]. *)
Definition unwrap {A E} (r : result A E) : outcome A :=
  match r with Ok a => Ret a | Err _ => Panic end.

Notation "a == b" := (bool_decide (a = b)) (at level 70).

Definition test_insert_and_get_single_ip : outcome bool :=
  let relay := Relay_new empty in
  let ip := ip4 192 168 1 10 in
  let ips := [ip] in
  let! (result, relay) := Relay_insert ips "peer_1"%string relay in
  let ok := is_ok result && has_route relay ip
            && (Relay_get relay ip == connected "peer_1"%string) in
  let! relay := Relay_remove ips relay in
  finish relay ok.

Definition test_insert_and_get_multiple_ips : outcome bool :=
  let relay := Relay_new empty in
  let ip1 := ip4 10 0 0 1 in
  let ip2 := ip4 10 0 0 2 in
  let ip3 := ip6 0x2001 0xdb8 in
  let ips := [ip1; ip2; ip3] in
  let! (result, relay) := Relay_insert ips 42%nat relay in
  let ok := is_ok result && has_route relay ip1 && has_route relay ip2 && has_route relay ip3
            && (Relay_get relay ip1 == connected 42%nat) && (Relay_get relay ip2 == connected 42%nat)
            && (Relay_get relay ip3 == connected 42%nat) in
  let! relay := Relay_remove ips relay in
  finish relay ok.

Definition test_get_non_existent_ip : outcome bool :=
  let relay := Relay_new (T := string) empty in
  let ip := ip4 172 16 0 1 in
  finish relay (Relay_get relay ip == None).

Definition test_remove_ips : outcome bool :=
  let relay := Relay_new empty in
  let ip1 := ip4 192 168 10 1 in
  let ip2 := ip4 192 168 10 2 in
  let! (r, relay) := Relay_insert [ip1; ip2] "node_alpha"%string relay in
  let! _ := unwrap r in
  let ok := (Relay_get relay ip1 == connected "node_alpha"%string) && has_route relay ip1 in
  let! relay := Relay_remove [ip1] relay in
  let ok := ok && (Relay_get relay ip1 == None) && negb (has_route relay ip1)
            && (Relay_get relay ip2 == connected "node_alpha"%string) && has_route relay ip2 in
  let! relay := Relay_remove [ip2] relay in
  finish relay ok.

Definition test_overwrite_existing_ip : outcome bool :=
  let relay := Relay_new empty in
  let ip := ip4 192 168 100 5 in
  let ips := [ip] in
  let! (r, relay) := Relay_insert ips "initial_peer"%string relay in
  let! _ := unwrap r in
  let ok := Relay_get relay ip == connected "initial_peer"%string in
  let! (r, relay) := Relay_insert ips "updated_peer"%string relay in
  let! _ := unwrap r in
  let ok := ok && (Relay_get relay ip == connected "updated_peer"%string) && has_route relay ip in
  let! relay := Relay_remove ips relay in
  finish relay ok.

Definition test_insert_failure_rollback : outcome bool :=
  let relay := Relay_new empty in
  let ip1 := ip4 10 0 0 1 in
  let ip2 := ip4 10 0 0 2 in
  let relay := mock_set_fail true relay in
  let! (result, relay) := Relay_insert [ip1; ip2] "fail_node"%string relay in
  finish relay (negb (is_ok result) && (Relay_get relay ip1 == None) && (Relay_get relay ip2 == None)).

Definition park_marks_the_entry_offline_and_keeps_the_route : outcome bool :=
  let relay := Relay_new empty in
  let ip := ip4 10 9 0 1 in
  let! (r, relay) := Relay_insert [ip] "peer"%string relay in
  let! _ := unwrap r in
  let relay := Relay_park [ip] relay in
  let ok := (Relay_get relay ip == parked) && has_route relay ip in
  let! relay := Relay_remove [ip] relay in
  finish relay ok.

Definition insert_rearms_a_parked_entry_without_recreating_the_route : outcome bool :=
  let relay := Relay_new empty in
  let ip := ip4 10 9 0 2 in
  let! (r, relay) := Relay_insert [ip] "old"%string relay in
  let! _ := unwrap r in
  let relay := Relay_park [ip] relay in
  let relay := mock_set_fail true relay in
  let! (r, relay) := Relay_insert [ip] "new"%string relay in
  let! _ := unwrap r in
  let ok := (Relay_get relay ip == connected "new"%string) && has_route relay ip in
  let relay := mock_set_fail false relay in
  let! relay := Relay_remove [ip] relay in
  finish relay ok.

Definition park_ignores_unknown_ips : outcome bool :=
  let relay := Relay_new (T := string) empty in
  let ip := ip4 203 0 113 7 in
  let relay := Relay_park [ip] relay in
  finish relay (Relay_get relay ip == None).

Definition remove_tears_down_a_parked_entry : outcome bool :=
  let relay := Relay_new empty in
  let ip := ip4 10 9 0 4 in
  let! (r, relay) := Relay_insert [ip] "peer"%string relay in
  let! _ := unwrap r in
  let relay := Relay_park [ip] relay in
  let! relay := Relay_remove [ip] relay in
  finish relay ((Relay_get relay ip == None) && negb (has_route relay ip)).

Definition reconcile_drops_addresses_the_peer_no_longer_advertises : outcome bool :=
  let relay := Relay_new empty in
  let ip1 := ip4 10 8 0 1 in
  let ip2 := ip4 10 8 0 2 in
  let ip3 := ip4 10 8 0 3 in
  let previous := [ip1; ip2] in
  let! (r, relay) := Relay_insert previous "v1"%string relay in
  let! _ := unwrap r in
  let relay := Relay_park previous relay in
  let current := [ip2; ip3] in
  let! (r, relay) := Relay_reconcile current previous "v2"%string relay in
  let! _ := unwrap r in
  let ok := (Relay_get relay ip1 == None) && negb (has_route relay ip1)
            && (Relay_get relay ip2 == connected "v2"%string) && has_route relay ip2
            && (Relay_get relay ip3 == connected "v2"%string) && has_route relay ip3 in
  let! relay := Relay_remove current relay in
  finish relay ok.

Definition reconcile_rolls_back_the_new_batch_on_route_failure : outcome bool :=
  let relay := Relay_new empty in
  let ip1 := ip4 10 7 0 1 in
  let ip2 := ip4 10 7 0 2 in
  let ip3 := ip4 10 7 0 3 in
  let previous := [ip1; ip2] in
  let! (r, relay) := Relay_insert previous "v1"%string relay in
  let! _ := unwrap r in
  let relay := Relay_park previous relay in
  let relay := mock_set_fail true relay in
  let current := [ip2; ip3] in
  let! (result, relay) := Relay_reconcile current previous "v2"%string relay in
  finish relay (negb (is_ok result) && (Relay_get relay ip1 == None)
    && (Relay_get relay ip2 == None) && (Relay_get relay ip3 == None)
    && negb (has_route relay ip1)).

Example relay_tests_pass :
  Forall (λ t, t = Ret true)
    [test_insert_and_get_single_ip; test_insert_and_get_multiple_ips; test_get_non_existent_ip;
     test_remove_ips; test_overwrite_existing_ip; test_insert_failure_rollback;
     park_marks_the_entry_offline_and_keeps_the_route;
     insert_rearms_a_parked_entry_without_recreating_the_route; park_ignores_unknown_ips;
     remove_tears_down_a_parked_entry; reconcile_drops_addresses_the_peer_no_longer_advertises;
     reconcile_rolls_back_the_new_batch_on_route_failure].
Proof. repeat constructor; vm_compute; reflexivity. Qed.

(** A relay that is dropped with a route still guarded panics. *)
Example forgotten_route_panics :
  (let! (_, relay) := Relay_insert [ip4 10 0 0 1] 1%nat (Relay_new empty) in finish relay true)
    = Panic.
Proof. vm_compute. reflexivity. Qed.
End relay_tests.

(** ** [route.rs] *)
Module route_tests.
(** A table that always succeeds, and one whose [remove] fails. *)
Inductive FakeRoutingTable : Type := Fake.
Inductive FailingRemoveRoutingTable : Type := FailingRemove.

#[local] Instance fake_table : RoutingTable FakeRoutingTable := {
  rt_insert _ w := (Ok tt, w);
  rt_remove _ w := (Ok tt, w);
  rt_ready _ _ := true;
}.
#[local] Instance failing_table : RoutingTable FailingRemoveRoutingTable := {
  rt_insert _ w := (Ok tt, w);
  rt_remove _ w := (Err {| kind := ErrorKind.Other; raw_os_error := None |}, w);
  rt_ready _ _ := true;
}.

Definition ip4 := relay_tests.ip4.

Definition drop_async_returns_the_ip_and_lets_the_route_drop_without_panicking : outcome bool :=
  let dest_ip := ip4 10 0 0 1 in
  let! route := relay_tests.unwrap (ScopedRoute_new dest_ip Fake).1 in
  let! (r, _) := drop_async route Fake in
  let! ip := relay_tests.unwrap r in
  Ret (bool_decide (ip = dest_ip)).

Definition drop_async_marks_the_route_released_even_if_removal_fails : outcome bool :=
  let dest_ip := ip4 10 0 0 3 in
  let! route := relay_tests.unwrap (ScopedRoute_new dest_ip Fake).1 in
  let! (r, _) := drop_async route FailingRemove in
  Ret (negb (is_ok r)).

Definition dropping_without_drop_async_panics : outcome unit :=
  let! _route := relay_tests.unwrap (ScopedRoute_new (ip4 10 0 0 2) Fake).1 in
  ScopedRoute_drop _route.

Example route_tests_pass :
  drop_async_returns_the_ip_and_lets_the_route_drop_without_panicking = Ret true ∧
  drop_async_marks_the_route_released_even_if_removal_fails = Ret true ∧
  dropping_without_drop_async_panics = Panic.
Proof. by vm_compute. Qed.
End route_tests.

(** ** [osal/retry.rs]: the state is the number of calls *)
Module retry_tests.
Import BackoffRef.

Definition calls_of {T} (r : option (result T IoError * nat * nat)) : option (bool * nat) :=
  (λ '(res, calls, _), (is_ok res, calls)) <$> r.

Definition succeeds_immediately_without_retrying : option (bool * nat) :=
  calls_of (retry_on_windows_not_found 50 (λ calls, (Ok tt, S calls)) 0%nat).

Definition retries_only_on_the_transient_error_until_it_succeeds : option (bool * nat) :=
  calls_of (retry_on_windows_not_found 50 (λ calls,
    let attempt := calls in
    (if (attempt <? 2)%nat
     then Err {| kind := ErrorKind.Other; raw_os_error := Some WINDOWS_ERROR_NOT_FOUND |}
     else Ok tt, S calls)) 0%nat).

Definition returns_other_errors_immediately : option (bool * nat) :=
  calls_of (retry_on_windows_not_found (T := unit) 50 (λ calls,
    (Err {| kind := ErrorKind.Other; raw_os_error := None |}, S calls)) 0%nat).

Example retry_tests_pass :
  succeeds_immediately_without_retrying = Some (true, 1%nat) ∧
  retries_only_on_the_transient_error_until_it_succeeds = Some (true, 3%nat) ∧
  returns_other_errors_immediately = Some (false, 1%nat).
Proof. by vm_compute. Qed.
End retry_tests.
