(* ===== verification/Dns.v ===== *)
(** * Peer names over DNS

    Models [src/src/dns.rs]: the live map from peer names to their negotiated
    addresses and the resolver over it. Names are byte strings; the suffix test
    is a function of the [dns_stack] crate and so a parameter. *)

From S2P Require Import Prelude Net.
From Stdlib Require Import Ascii.
From stdpp Require Import prelude gmap strings.

(** ** Strings *)

(** [u8::to_ascii_lowercase] and [str::to_ascii_lowercase]. *)
Definition ascii_lower (c : ascii) : ascii :=
  let n := N_of_ascii c in
  if (65 <=? n)%N && (n <=? 90)%N then ascii_of_N (n + 32) else c.

Fixpoint to_ascii_lowercase (s : string) : string :=
  match s with
  | EmptyString => EmptyString
  | String c s => String (ascii_lower c) (to_ascii_lowercase s)
  end.

(** [s.trim_end_matches('.')]: drop every trailing dot. *)
Fixpoint trim_end_dots (s : string) : string :=
  match s with
  | EmptyString => EmptyString
  | String c s =>
      match trim_end_dots s with
      | EmptyString => if decide (c = "."%char) then EmptyString else String c EmptyString
      | s' => String c s'
      end
  end.

(** [&s[..n]], which panics when [n] is beyond the end. (It also panics inside
    a character; the code only cuts off a suffix that is a string itself.) *)
Definition slice_to (s : string) (n : nat) : outcome string :=
  if (n <=? String.length s)%nat then Ret (String.substring 0 n s) else Panic.

(** ** [dns_stack::dns] *)
Inductive Reply : Type :=
  | NotMine
  | NxDomain
  | Answer_Addrs (addrs : list IpAddr).

Class DnsStack := { matches_suffix : string → string → bool }.

(** A name under the suffix, and the suffix itself, match; a name that matches
    is at least as long as the suffix. *)
Class DnsStackLaws (d : DnsStack) : Prop := {
  matches_suffix_under l s : matches_suffix (l +:+ "." +:+ s) s = true;
  matches_suffix_self s : matches_suffix s s = true;
  matches_suffix_length n s :
    matches_suffix n s = true → String.length s ≤ String.length n;
}.

(** ** [PeerNames] *)
Record PeerNames := { suffix : string; addresses : gmap string (list IpAddr) }.

Definition PeerNames_new (suffix : string) : PeerNames :=
  {| suffix := suffix; addresses := ∅ |}.

Definition PeerNames_set (self : PeerNames) (name : string) (addrs : list IpAddr) : PeerNames :=
  {| suffix := suffix self;
     addresses := <[to_ascii_lowercase name := addrs]> (addresses self) |}.

Definition PeerNames_remove (self : PeerNames) (name : string) : PeerNames :=
  {| suffix := suffix self;
     addresses := delete (to_ascii_lowercase name) (addresses self) |}.

(** The subtraction of lengths is on [usize]: it panics (or the slice does) when
    the name is shorter than the suffix. *)
Definition PeerNames_resolve `{DnsStack} (self : PeerNames) (name : string) : outcome Reply :=
  if negb (matches_suffix name (suffix self)) then Ret NotMine
  else
    let! label :=
      if (String.length (suffix self) <=? String.length name)%nat
      then slice_to name (String.length name - String.length (suffix self))
      else Panic in
    let label := trim_end_dots label in
    if decide (label = EmptyString) then Ret NxDomain
    else
      match addresses self !! label with
      | Some addrs => Ret (Answer_Addrs addrs)
      | None => Ret NxDomain
      end.

(** The calls a session makes. *)
Inductive names_op : Type :=
  | Set_ (name : string) (addrs : list IpAddr)
  | Remove (name : string).

Definition run_names_op (self : PeerNames) (o : names_op) : PeerNames :=
  match o with
  | Set_ name addrs => PeerNames_set self name addrs
  | Remove name => PeerNames_remove self name
  end.

(** ** Properties *)

(** What the last operation on [key] recorded, the latest operation first. *)
Fixpoint latest (key : string) (ops : list names_op) : option (list IpAddr) :=
  match ops with
  | [] => None
  | Set_ name addrs :: ops =>
      if decide (to_ascii_lowercase name = key) then Some addrs else latest key ops
  | Remove name :: ops =>
      if decide (to_ascii_lowercase name = key) then None else latest key ops
  end.

Lemma length_string_app s t : String.length (s +:+ t) = String.length s + String.length t.
Proof. induction s; simpl; auto. Qed.

Lemma substring_app s t : String.substring 0 (String.length s) (s +:+ t) = s.
Proof. induction s as [|c s IH]; simpl; [by destruct t|by rewrite IH]. Qed.

Lemma slice_to_app s t : slice_to (s +:+ t) (String.length s) = Ret s.
Proof.
  unfold slice_to. rewrite length_string_app, (proj2 (Nat.leb_le _ _)) by lia.
  by rewrite substring_app.
Qed.

Lemma trim_dot s : trim_end_dots (s +:+ ".") = trim_end_dots s.
Proof. induction s as [|c s IH]; [done|]. simpl. by rewrite IH. Qed.

Section Resolve.
Context `{DnsStackLaws}.

(** A query for a label under the suffix looks up the label. *)
Lemma resolve_under self label :
  trim_end_dots label = label → label ≠ EmptyString →
  PeerNames_resolve self (label +:+ "." +:+ suffix self) =
    Ret match addresses self !! label with
        | Some addrs => Answer_Addrs addrs
        | None => NxDomain
        end.
Proof.
  intros Ht Hl. unfold PeerNames_resolve. rewrite matches_suffix_under. cbv [negb].
  rewrite <- string_app_assoc, length_string_app, (proj2 (Nat.leb_le _ _)), Nat.add_sub by lia.
  rewrite slice_to_app, trim_dot, Ht, decide_False by done. by case_match.
Qed.

Lemma addresses_latest sfx ops key :
  addresses (foldr (λ o n, run_names_op n o) (PeerNames_new sfx) ops) !! key = latest key ops.
Proof.
  induction ops as [|[name addrs|name] ops IH]; simpl; [done| |].
  - rewrite lookup_insert, IH. by case_decide.
  - rewrite lookup_delete, IH. by case_decide.
Qed.

Lemma suffix_run sfx ops :
  suffix (foldr (λ o n, run_names_op n o) (PeerNames_new sfx) ops) = sfx.
Proof. by induction ops as [|[] ops IH]. Qed.
End Resolve.

(** C37: after any history of [set] and [remove] (latest first), a query for a
    label under the suffix is answered with the addresses of the last [set] of
    that name, in whatever case, or with [NxDomain] when it was removed or never
    set; the bare suffix is [NxDomain]; no query at all makes the resolver
    panic. *)
Theorem resolve_latest `{DnsStackLaws} (sfx : string) (ops : list names_op) :
  let names := foldr (λ o n, run_names_op n o) (PeerNames_new sfx) ops in
  (∀ label, trim_end_dots label = label → label ≠ EmptyString →
     PeerNames_resolve names (label +:+ "." +:+ sfx) =
       Ret match latest label ops with
           | Some addrs => Answer_Addrs addrs
           | None => NxDomain
           end) ∧
  PeerNames_resolve names sfx = Ret NxDomain ∧
  (∀ query, PeerNames_resolve names query ≠ Panic).
Proof.
  intros names. pose proof (suffix_run sfx ops) as Hs. fold names in Hs. split_and!.
  - intros label Ht Hl. rewrite <- Hs at 1. rewrite resolve_under by done.
    unfold names. by rewrite addresses_latest.
  - unfold PeerNames_resolve. rewrite Hs, matches_suffix_self. simpl.
    rewrite Nat.leb_refl, Nat.sub_diag. by destruct sfx.
  - intros query. unfold PeerNames_resolve. rewrite Hs.
    destruct (matches_suffix query sfx) eqn:Em; simpl; [|done].
    apply matches_suffix_length in Em. rewrite (proj2 (Nat.leb_le _ _)) by lia.
    unfold slice_to. rewrite (proj2 (Nat.leb_le _ _)) by lia.
    repeat case_match; done.
Qed.

(** ** A reference suffix test *)
Module DnsRef.
Definition ends_with (s n : string) : bool :=
  (String.length s <=? String.length n)%nat &&
  bool_decide (String.substring (String.length n - String.length s) (String.length s) n = s).

Definition matches (n s : string) : bool :=
  bool_decide (n = s) || ends_with ("." +:+ s) n.

#[export] Instance dns_stack : DnsStack := {| matches_suffix := matches |}.

Lemma substring_skip l s :
  String.substring (String.length l) (String.length s) (l +:+ s) = s.
Proof.
  induction l; simpl; [|done]. rewrite <- (substring_app s "") at 2.
  f_equal. induction s; simpl; by f_equal.
Qed.

#[export] Instance dns_stack_laws : DnsStackLaws dns_stack.
Proof.
  split; simpl; unfold matches, ends_with.
  - intros l s. apply orb_true_iff. right. rewrite (length_string_app l ("." +:+ s)).
    rewrite (proj2 (Nat.leb_le _ _)) by apply Nat.le_add_l.
    rewrite Nat.add_sub, substring_skip. by apply bool_decide_eq_true.
  - intros s. by rewrite bool_decide_true.
  - intros n s [Hb|Hb]%orb_true_iff; bool_to_prop; [by subst|].
    rewrite length_string_app in *. simpl in *. lia.
Qed.

Definition history : list names_op :=
  [Set_ "Alice" [V6 2]; Remove "bob"; Set_ "bob" [V6 3]; Set_ "alice" [V6 1]].
End DnsRef.
Import DnsRef.

Lemma resolve_latest_witness :
  let names := foldr (λ o n, run_names_op n o) (PeerNames_new "p2p") history in
  PeerNames_resolve names ("alice" +:+ "." +:+ "p2p") = Ret (Answer_Addrs [V6 2]) ∧
  PeerNames_resolve names ("bob" +:+ "." +:+ "p2p") = Ret NxDomain ∧
  PeerNames_resolve names "p2p" = Ret NxDomain.
Proof.
  destruct (resolve_latest "p2p" history) as (Hl & Hs & _). split_and!; [| |exact Hs].
  - apply (Hl "alice"); by vm_compute.
  - apply (Hl "bob"); by vm_compute.
Defined.

(** Peer names that differ only in case share their entry: the end of the
    session of one removes the addresses of the other. *)
Theorem names_differing_in_case_collide :
  ∃ n1 n2 addrs, n1 ≠ n2 ∧
    PeerNames_resolve
      (PeerNames_remove (PeerNames_set (PeerNames_new "p2p") n1 addrs) n2)
      (n1 +:+ ".p2p") = Ret NxDomain ∧
    PeerNames_resolve (PeerNames_set (PeerNames_new "p2p") n1 addrs) (n1 +:+ ".p2p") =
      Ret (Answer_Addrs addrs).
Proof. exists "alice"%string, "Alice"%string, [V6 1]. by vm_compute. Qed.
