(* ===== verification/UnitTests.v ===== *)
(** * The unit tests of errors, messages, names and addresses

    The tests of [src/src/error.rs], [src/src/osal/tun/error.rs],
    [src/src/proto.rs], [src/src/dns.rs], [src/src/addr.rs] and
    [src/src/peer/validate_addr.rs], translated to programs over the model. A
    test is [true], under [Some] or [Ret] when it can fail otherwise, when all its
    assertions hold. Keys are those of the toy scheme. The tests that read an
    error message, or the text of a code of [thin_status], are left out. *)

From S2P Require Import Prelude ErrorCode Net IpText Keys Addr Proto Validate Dns.
From stdpp Require Import prelude gmap strings.
From Stdlib Require Import Strings.Byte.

Local Open Scope Z_scope.

Local Notation "a == b" := (bool_decide (a = b)) (at level 70).

(** [result.unwrap_err()]. *)
Definition unwrap_err {A E} (r : result A E) : option E :=
  match r with Ok _ => None | Err e => Some e end.

(** ** [error.rs], for any conversions of [thin_status] *)
Module error_tests.
Section Tests.
Context `{ThinStatusOps}.

Definition from_anyhow_prefers_a_thin_status_code_over_the_io_kind : bool :=
  let err := anyhow_status {| code_raw := ErrorCode.as_i32 ErrorCode.Aborted; message := "" |} in
  let extracted := from_anyhow err in
  (ext_code extracted == ErrorCode.Aborted) && (ext_kind extracted == ErrorKind.Other).

Definition from_anyhow_falls_back_to_unknown_and_other_when_nothing_matches : bool :=
  let extracted := from_anyhow anyhow_msg in
  (ext_code extracted == ErrorCode.Unknown) && (ext_kind extracted == ErrorKind.Other).

Definition from_anyhow_falls_back_to_unknown_for_a_thin_status_with_an_unrecognized_code : bool :=
  let weird := {| code_raw := 9999; message := "" |} in
  let extracted := from_anyhow (anyhow_status weird) in
  (ext_code extracted == ErrorCode.Unknown) && (ext_kind extracted == ErrorKind.Other).

Definition error_kind_str_covers_named_kinds_and_falls_back_to_other : bool :=
  (error_kind_str ErrorKind.NotFound == "NotFound"%string)
  && (error_kind_str ErrorKind.ConnectionReset == "ConnectionReset"%string)
  && (error_kind_str ErrorKind.WouldBlock == "WouldBlock"%string)
  && (error_kind_str ErrorKind.UnexpectedEof == "UnexpectedEof"%string)
  && (error_kind_str ErrorKind.Other == "Other"%string).

Definition check_eq_macro_reports_the_stringified_mismatch_as_internal : bool :=
  let ok := check_eq (2 + 2) 4 "2 + 2" "4" in
  let err := check_eq (2 + 2) 5 "2 + 2" "5" in
  (match ok with Ok _ => true | Err _ => false end)
  && match unwrap_err err with
     | Some status => (ThinStatus_code status == Some ErrorCode.Internal)
                      && (message status == "2 + 2 != 5"%string)
     | None => false
     end.

Example error_tests_pass :
  Forall (λ t, t = true)
    [from_anyhow_prefers_a_thin_status_code_over_the_io_kind;
     from_anyhow_falls_back_to_unknown_and_other_when_nothing_matches;
     from_anyhow_falls_back_to_unknown_for_a_thin_status_with_an_unrecognized_code;
     error_kind_str_covers_named_kinds_and_falls_back_to_other;
     check_eq_macro_reports_the_stringified_mismatch_as_internal].
Proof. repeat constructor; vm_compute; reflexivity. Qed.
End Tests.
End error_tests.

(** ** [osal/tun/error.rs], with the error numbers of Linux *)
Module tun_error_tests.
#[local] Instance linux : Libc :=
  {| EAGAIN := 11; EINTR := 4; EINVAL := 22; EMSGSIZE := 90; ENOBUFS := 105 |}.
Definition EPERM : Z := 1.
Definition ENOENT : Z := 2.
Definition EACCES : Z := 13.
Definition EPIPE : Z := 32.

(** [Error::from_raw_os_error]; the kind does not matter here. *)
Definition from_raw_os_error (errno : Z) : IoError :=
  {| kind := ErrorKind.Other; raw_os_error := Some errno |}.

Definition transient_errnos_are_retryable : bool :=
  forallb (λ errno, is_tun_transient (from_raw_os_error errno))
    [EAGAIN; EINTR; EINVAL; EMSGSIZE; ENOBUFS].

Definition unlisted_errnos_are_not_retryable : bool :=
  forallb (λ errno, negb (is_tun_transient (from_raw_os_error errno)))
    [EPERM; EACCES; EPIPE; ENOENT].

Definition errors_without_an_os_code_are_not_retryable : bool :=
  negb (is_tun_transient {| kind := ErrorKind.Other; raw_os_error := None |}).

Example tun_error_tests_pass :
  Forall (λ t, t = true)
    [transient_errnos_are_retryable; unlisted_errnos_are_not_retryable;
     errors_without_an_os_code_are_not_retryable].
Proof. repeat constructor; vm_compute; reflexivity. Qed.
End tun_error_tests.

(** ** [proto.rs] *)
Module proto_tests.
#[local] Instance unit_result_eq_dec : EqDecision (result unit ThinStatus).
Proof. solve_decision. Defined.

Definition status (code : Z) (message : option string) : ControlResponse :=
  {| Proto.status := Some {| code := code; status_message := message |} |}.

(** [ThinStatus::builder(code).message(..).build()]. *)
Definition built (code : ErrorCode.t) (message : string) : ThinStatus :=
  {| code_raw := ErrorCode.as_i32 code; message := message |}.

Definition control_to_status_is_ok_when_no_status_is_present : option bool :=
  Some (control_to_status {| Proto.status := None |} == Ok tt).

Definition default_control_response_maps_to_ok : option bool :=
  Some (control_to_status ControlResponse_default == Ok tt).

Definition control_to_status_treats_zero_code_as_ok_even_with_a_message : option bool :=
  Some ((control_to_status (status 0 None) == Ok tt)
        && (control_to_status (status 0 (Some "ignored"%string)) == Ok tt)).

Definition control_to_status_maps_a_known_nonzero_code_and_message_to_err : option bool :=
  err ← unwrap_err (control_to_status
    (status (ErrorCode.as_i32 ErrorCode.Internal) (Some "boom"%string)));
  Some ((ThinStatus_code err == Some ErrorCode.Internal) && (message err == "boom"%string)).

Definition control_to_status_uses_an_empty_message_when_none_is_given : option bool :=
  err ← unwrap_err (control_to_status (status (ErrorCode.as_i32 ErrorCode.Aborted) None));
  Some ((ThinStatus_code err == Some ErrorCode.Aborted) && (message err == ""%string)).

Definition control_to_status_passes_through_codes_that_are_not_known_error_codes : option bool :=
  err ← unwrap_err (control_to_status (status 9999 (Some "weird"%string)));
  negative ← unwrap_err (control_to_status (status (-7) None));
  Some ((code_raw err == 9999) && (ThinStatus_code err == None)
        && (message err == "weird"%string)
        && (code_raw negative == -7) && (ThinStatus_code negative == None)).

Definition status_to_control_serializes_code_and_message : option bool :=
  let response := status_to_control (built ErrorCode.InvalidArgument "nope") in
  status ← Proto.status response;
  Some ((code status == ErrorCode.as_i32 ErrorCode.InvalidArgument)
        && (status_message status == Some "nope"%string)).

Definition status_to_control_emits_an_empty_message_when_the_status_has_none : option bool :=
  let response := status_to_control (built ErrorCode.Aborted "") in
  status ← Proto.status response;
  Some ((code status == ErrorCode.as_i32 ErrorCode.Aborted)
        && (status_message status == Some ""%string)).

Definition status_survives_a_control_round_trip : option bool :=
  let original := built ErrorCode.DataLoss "half gone" in
  restored ← unwrap_err (control_to_status (status_to_control original));
  Some ((ThinStatus_code restored == Some ErrorCode.DataLoss)
        && (message restored == "half gone"%string) && (restored == original)).

Example proto_tests_pass :
  Forall (λ t, t = Some true)
    [control_to_status_is_ok_when_no_status_is_present; default_control_response_maps_to_ok;
     control_to_status_treats_zero_code_as_ok_even_with_a_message;
     control_to_status_maps_a_known_nonzero_code_and_message_to_err;
     control_to_status_uses_an_empty_message_when_none_is_given;
     control_to_status_passes_through_codes_that_are_not_known_error_codes;
     status_to_control_serializes_code_and_message;
     status_to_control_emits_an_empty_message_when_the_status_has_none;
     status_survives_a_control_round_trip].
Proof. repeat constructor; vm_compute; reflexivity. Qed.
End proto_tests.

(** ** [dns.rs] *)
Module dns_tests.
Import DnsRef.

#[local] Instance Reply_eq_dec : EqDecision Reply.
Proof. solve_decision. Defined.

Definition addr : option IpAddr := IpAddr_from_str "fdbd:a6ce:654d::1".

(** Whether the reply to a query is the expected one. *)
Definition replies (names : PeerNames) (query : string) (expected : Reply) : outcome bool :=
  let! r := PeerNames_resolve names query in Ret (r == expected).

Definition refuses_names_outside_the_suffix : outcome bool :=
  let names := PeerNames_new "p2p" in
  replies names "example.com" NotMine.

Definition answers_a_known_peer_name : outcome bool :=
  match addr with
  | None => Panic
  | Some addr =>
      let names := PeerNames_new "p2p" in
      let names := PeerNames_set names "alice" [addr] in
      replies names "alice.p2p" (Answer_Addrs [addr])
  end.

Definition nxdomain_for_unknown_or_removed_peer_names : outcome bool :=
  match addr with
  | None => Panic
  | Some addr =>
      let names := PeerNames_new "p2p" in
      let names := PeerNames_set names "alice" [addr] in
      let names := PeerNames_remove names "alice" in
      let! removed := replies names "alice.p2p" NxDomain in
      let! unknown := replies names "bob.p2p" NxDomain in
      Ret (removed && unknown)
  end.

Definition nxdomain_for_the_bare_suffix : outcome bool :=
  let names := PeerNames_new "p2p" in
  replies names "p2p" NxDomain.

Definition peer_names_are_stored_case_insensitively : outcome bool :=
  match addr with
  | None => Panic
  | Some addr =>
      let names := PeerNames_new "p2p" in
      let names := PeerNames_set names "Alice" [addr] in
      replies names "alice.p2p" (Answer_Addrs [addr])
  end.

Example dns_tests_pass :
  Forall (λ t, t = Ret true)
    [refuses_names_outside_the_suffix; answers_a_known_peer_name;
     nxdomain_for_unknown_or_removed_peer_names; nxdomain_for_the_bare_suffix;
     peer_names_are_stored_case_insensitively].
Proof. repeat constructor; vm_compute; reflexivity. Qed.
End dns_tests.

(** ** [addr.rs] *)
Module addr_tests.
Import IpnetRef KeysRef.

(** [IpNet::from_str] of an address and a prefix length. *)
Definition net (addr : string) (prefix : Z) : outcome IpNet :=
  match IpAddr_from_str addr with
  | Some a => IpNet_new_assert a prefix
  | None => Panic
  end.

Definition test_vpn_subnet_zero_matches_default_subnet0 : outcome bool :=
  Ret ((addr6 (vpn_subnet 0) == addr6 VPN_IPV6_PREFIX) && (prefix6 (vpn_subnet 0) == 64)).

Definition test_vpn_subnet_sets_the_subnet_id_bits : outcome bool :=
  let net := vpn_subnet 0x1234 in
  Ret ((prefix6 net == 64)
       && (addr6 net == Ipv6Addr_new [0xfdbd; 0xa6ce; 0x654d; 0x1234; 0; 0; 0; 0])).

Definition test_ipv4_workflow_happy_path : outcome bool :=
  let secret_key := sk "alice" in
  let public_key := SecretKey_public secret_key in
  let! net := net "192.168.1.0" 24 in
  let! (alice_net, signature) := generate_signed_ipnet net secret_key in
  Ret (IpNet_contains net alice_net
       && is_ok (verify_signed_ipnet alice_net public_key signature)).

Definition test_ipv6_workflow_happy_path : outcome bool :=
  let secret_key := sk "alice" in
  let public_key := SecretKey_public secret_key in
  let! net := net "2001:db8::" 64 in
  let! (alice_net, signature) := generate_signed_ipnet net secret_key in
  Ret (IpNet_contains net alice_net
       && is_ok (verify_signed_ipnet alice_net public_key signature)).

Definition test_verification_fails_with_wrong_public_key : outcome bool :=
  let alice_key := sk "alice" in
  let charlie_key := sk "charlie" in
  let! net := net "10.0.0.0" 8 in
  let! (alice_net, signature) := generate_signed_ipnet net alice_key in
  let result := verify_signed_ipnet alice_net (SecretKey_public charlie_key) signature in
  Ret (negb (is_ok result)).

Definition test_verification_fails_if_alice_spoofs_ip : outcome bool :=
  let secret_key := sk "alice" in
  let! net := net "172.16.0.0" 16 in
  let! (real_net, signature) := generate_signed_ipnet net secret_key in
  match IpNet_addr real_net with
  | V6 _ => Panic
  | V4 real_ip =>
      let! spoofed_net := IpNet_new_assert (V4 (Z.lxor real_ip 1)) (IpNet_prefix_len net) in
      let result := verify_signed_ipnet spoofed_net (SecretKey_public secret_key) signature in
      Ret match result with
          | Err e => (kind <$> downcast_io e) == Some ErrorKind.PermissionDenied
          | Ok _ => false
          end
  end.

Fixpoint never_broadcast (n : nat) (net : IpNet) (secret_key : SecretKey) (broadcast_ip : IpAddr) :
    outcome bool :=
  match n with
  | O => Ret true
  | S n =>
      let! (ip, _) := generate_signed_ipnet net secret_key in
      let! rest := never_broadcast n net secret_key broadcast_ip in
      Ret (negb (IpNet_addr ip == broadcast_ip) && rest)
  end.

Definition test_ipv4_broadcast_collision_handling : outcome bool :=
  let secret_key := sk "alice" in
  let! net := net "192.168.42.0" 31 in
  match net with
  | Net6 _ => Panic
  | Net4 net4 => never_broadcast 100 net secret_key (V4 (Ipv4Net_broadcast net4))
  end.

Example addr_tests_pass :
  Forall (λ t, t = Ret true)
    [test_vpn_subnet_zero_matches_default_subnet0; test_vpn_subnet_sets_the_subnet_id_bits;
     test_ipv4_workflow_happy_path; test_ipv6_workflow_happy_path;
     test_verification_fails_with_wrong_public_key; test_verification_fails_if_alice_spoofs_ip;
     test_ipv4_broadcast_collision_handling].
Proof. repeat constructor; vm_compute; reflexivity. Qed.
End addr_tests.

(** ** [peer/validate_addr.rs] *)
Module validate_addr_tests.
Import IpnetRef KeysRef addr_tests.

Definition make_host_address (net : IpNet) (secret_key : SecretKey) : outcome HostAddress :=
  let! (ipnet, signature) := generate_signed_ipnet net secret_key in
  Ret {| peer_network := IpNet_to_string ipnet;
         peer_network_signature := Signature_to_bytes signature |}.

Definition test_validate_addresses_all_valid : outcome bool :=
  let secret_key := sk "alice" in
  let public_key := SecretKey_public secret_key in
  let! allowed0 := net "10.0.0.0" 8 in
  let! allowed1 := net "2001:db8::" 32 in
  let allowed_nets := [allowed0; allowed1] in
  let! net0 := net "10.1.2.3" 24 in
  let! net1 := net "2001:db8:cafe::42" 48 in
  let! host0 := make_host_address net0 secret_key in
  let! host1 := make_host_address net1 secret_key in
  let advertise := {| own_addresses := [host0; host1] |} in
  let '(valid, errors) := validate_addresses allowed_nets advertise public_key in
  Ret ((length valid == 2%nat) && (length errors == 0%nat)
       && existsb (IpNet_contains allowed0) valid && existsb (IpNet_contains allowed1) valid).

Definition test_validate_addresses_silently_skips_outside_allowed : outcome bool :=
  let secret_key := sk "alice" in
  let public_key := SecretKey_public secret_key in
  let! allowed := net "10.0.0.0" 8 in
  let allowed_nets := [allowed] in
  let! outside := net "192.168.1.0" 24 in
  let! host := make_host_address outside secret_key in
  let advertise := {| own_addresses := [host] |} in
  let '(valid, errors) := validate_addresses allowed_nets advertise public_key in
  Ret ((length valid == 0%nat) && (length errors == 0%nat)).

Example validate_addr_tests_pass :
  Forall (λ t, t = Ret true)
    [test_validate_addresses_all_valid; test_validate_addresses_silently_skips_outside_allowed].
Proof. repeat constructor; vm_compute; reflexivity. Qed.
End validate_addr_tests.
