(* ===== verification/Session.v ===== *)
(** * Peer sessions

    Models [src/src/session.rs]: the supervision loop of one peer, which runs
    the handshake of every connection its link yields, registers the negotiated
    routes in the relay and the DNS names, pumps datagrams until the connection
    drops, and parks or withdraws the routes. [System] runs the sessions of all
    peers on the shared relay, in any order of their steps. *)

From S2P Require Import Prelude ErrorCode Net Keys Addr Proto Validate Packet Handshake.
From S2P Require Import Route Relay Dns.
From stdpp Require Import prelude gmap strings.
From Stdlib Require Import Strings.Byte.

Section Session.
Context `{Ipnet, IrohKeys, Message ControlRequest, Message ControlResponse}.
Context `{ErrorCodeExt, DebugFmt, ThinStatusOps, RoutingTable W}.

Record PeerSessionConfig := {
  ps_name : string;
  ps_common : CommonPeerConfig;
  ps_advertise : Advertise;
}.

(** A connection: its identity, the key of its remote end, what it does during
    the handshake, the datagrams it delivers and the error that ends it. *)
Record Connection := {
  conn_id : nat;
  conn_remote : PublicKey;
  conn_handshake : HandshakeEnv;
  conn_datagrams : list (list byte);
  conn_error : AnyhowError;
}.

(** [ConnectedPeer]: the peer configuration and the connection behind it. *)
Record ConnectedPeer := { cp_config : PeerConfig; cp_conn : nat }.

Definition ConnectedPeer_public_key (self : ConnectedPeer) : PublicKey :=
  Peer_public_key (cp_config self).

(** What the sessions share: the relay, the DNS names if DNS is enabled, the
    queue of packets to the TUN device and whether its reader is alive, and the
    error counters of the sessions, latest first. *)
Record Node := {
  relay : Relay W ConnectedPeer;
  dns_names : option PeerNames;
  tun_tx : list TxPacket;
  tun_open : bool;
  session_counters : list (string * list Label);
}.

Definition with_relay (n : Node) (r : Relay W ConnectedPeer) : Node :=
  {| relay := r; dns_names := dns_names n; tun_tx := tun_tx n; tun_open := tun_open n;
     session_counters := session_counters n |}.
Definition with_names (n : Node) (names : option PeerNames) : Node :=
  {| relay := relay n; dns_names := names; tun_tx := tun_tx n; tun_open := tun_open n;
     session_counters := session_counters n |}.
Definition with_tun_tx (n : Node) (tx : list TxPacket) : Node :=
  {| relay := relay n; dns_names := dns_names n; tun_tx := tx; tun_open := tun_open n;
     session_counters := session_counters n |}.
Definition count_session (n : Node) (metric : string) (labels : list Label) : Node :=
  {| relay := relay n; dns_names := dns_names n; tun_tx := tun_tx n; tun_open := tun_open n;
     session_counters := (metric, labels) :: session_counters n |}.

(** [ConnectedPeer::recv_loop]: forwards every datagram; it only ends with an
    error, of the connection or of the closed channel. *)
Fixpoint recv_loop (datagrams : list (list byte)) (last : AnyhowError) (n : Node) :
    result unit AnyhowError * Node :=
  match datagrams with
  | [] => (Err last, n)
  | bytes :: datagrams =>
      if tun_open n
      then recv_loop datagrams last (with_tun_tx n (tun_tx n ++ [mkTxPacket bytes]))
      else (Err anyhow_msg, n)
  end.

Section PeerSession.
Context (self : PeerSessionConfig).

Definition count_error (metric : string) (err : AnyhowError) (n : Node) : Node :=
  let labels := into_labels (from_anyhow err) in
  let labels := labels ++ [("peer"%string, ps_name self)] in
  count_session n metric labels.

Definition park_routes (routes : list IpAddr) (n : Node) : Node :=
  if negb (bool_decide (routes = [])) then with_relay n (Relay_park routes (relay n)) else n.

Definition withdraw_routes (routes : list IpAddr) (n : Node) : outcome (list IpAddr * Node) :=
  let! (routes, n) :=
    if negb (bool_decide (routes = [])) then
      let! r := Relay_remove routes (relay n) in
      Ret ([], with_relay n r)
    else Ret (routes, n) in
  let n := match dns_names n with
           | Some names => with_names n (Some (PeerNames_remove names (ps_name self)))
           | None => n
           end in
  Ret (routes, n).

Definition peer_config (conn : Connection) : PeerConfig :=
  {| common := ps_common self; remote_id := conn_remote conn; advertise := ps_advertise self |}.

(** The first part of [run_connection]: handshake and registration. Returns the
    connected peer when the receive loop is to start. *)
Definition establish (conn : Connection) (routes : list IpAddr) (n : Node) :
    outcome (option ConnectedPeer * list IpAddr * Node) :=
  match handshake (peer_config conn) (conn_handshake conn) with
  | Err err =>
      Ret (None, routes, count_error "p2p_vpn_peer_session_handshake_errors" err n)
  | Ok changed =>
      let connected := {| cp_config := peer_config conn; cp_conn := conn_id conn |} in
      let! (result, r) := Relay_reconcile changed routes connected (relay n) in
      let n := with_relay n r in
      match result with
      | Err err =>
          Ret (None, [],
            count_error "p2p_vpn_peer_session_relay_insert_errors" (anyhow_status err) n)
      | Ok _ =>
          let routes := changed in
          let n := match dns_names n with
                   | Some names => with_names n (Some (PeerNames_set names (ps_name self) routes))
                   | None => n
                   end in
          Ret (Some connected, routes, n)
      end
  end.

(** The rest of it: the receive loop, and parking once it has ended. *)
Definition receive (conn : Connection) (routes : list IpAddr) (n : Node) : Node :=
  let '(result, n) := recv_loop (conn_datagrams conn) (conn_error conn) n in
  let n := match result with
           | Err err => count_error "p2p_vpn_peer_session_recv_loop_errors" err n
           | Ok _ => n
           end in
  park_routes routes n.

Definition run_connection (conn : Connection) (routes : list IpAddr) (n : Node) :
    outcome (list IpAddr * Node) :=
  let! (connected, routes, n) := establish conn routes n in
  match connected with
  | None => Ret (routes, n)
  | Some _ => Ret (routes, receive conn routes n)
  end.

(** What [link.changed()] yields. *)
Inductive link_event : Type :=
  | LinkUp (conn : Connection)
  | LinkDown
  | LinkEnded.

(** [run], over the events of the link so far. The flag is [false] while the
    session waits for more, [true] once it has returned. *)
Fixpoint session_loop (events : list link_event) (routes : list IpAddr) (n : Node) :
    outcome (bool * list IpAddr * Node) :=
  match events with
  | [] => Ret (false, routes, n)
  | LinkUp conn :: events =>
      let! (routes, n) := run_connection conn routes n in
      session_loop events routes n
  | LinkDown :: events => session_loop events routes (park_routes routes n)
  | LinkEnded :: _ =>
      let n := count_session n "p2p_vpn_peer_session_link_ended" [("peer"%string, ps_name self)] in
      let! (routes, n) := withdraw_routes routes n in
      Ret (true, routes, n)
  end.

Definition run (events : list link_event) (n : Node) : outcome (bool * list IpAddr * Node) :=
  session_loop events [] n.
End PeerSession.

(** ** The steps of a session

    [advance] cuts [session_loop] where it waits: for the link, for the lock of
    the relay between the removal of stale routes and the insertion, and for the
    end of the connection. *)
Inductive phase : Type :=
  | Idle (routes : list IpAddr)
  | Registering (conn : Connection) (changed previous : list IpAddr)
  | Receiving (conn : Connection) (cp : ConnectedPeer) (routes : list IpAddr)
  | Ended.

Inductive event : Type :=
  | EvLink (e : link_event)
  | EvInsert
  | EvClosed.

Definition connected_of (self : PeerSessionConfig) (conn : Connection) : ConnectedPeer :=
  {| cp_config := peer_config self conn; cp_conn := conn_id conn |}.

(** The peer advertises an address more than once, which nothing on the way from
    its advertisement to the relay notices. *)
Definition repeats (self : PeerSessionConfig) (conn : Connection) : Prop :=
  ∃ changed, handshake (peer_config self conn) (conn_handshake conn) = Ok changed ∧
    ¬ NoDup changed.

(** [None]: the event cannot happen in this phase. *)
Definition advance (self : PeerSessionConfig) (ev : event) (p : phase) (n : Node) :
    option (outcome (phase * Node)) :=
  match p, ev with
  | Idle routes, EvLink (LinkUp conn) =>
      Some match handshake (peer_config self conn) (conn_handshake conn) with
      | Err err =>
          Ret (Idle routes, count_error self "p2p_vpn_peer_session_handshake_errors" err n)
      | Ok changed =>
          let stale := stale_of changed routes in
          let! r := if negb (bool_decide (stale = [])) then Relay_remove stale (relay n)
                    else Ret (relay n) in
          Ret (Registering conn changed routes, with_relay n r)
      end
  | Idle routes, EvLink LinkDown => Some (Ret (Idle routes, park_routes routes n))
  | Idle routes, EvLink LinkEnded =>
      Some (
        let n := count_session n "p2p_vpn_peer_session_link_ended"
                   [("peer"%string, ps_name self)] in
        let! (_, n) := withdraw_routes self routes n in
        Ret (Ended, n))
  | Registering conn changed _, EvInsert =>
      Some (
        let! (result, r) := Relay_insert changed (connected_of self conn) (relay n) in
        let n := with_relay n r in
        match result with
        | Err err =>
            Ret (Idle [], count_error self "p2p_vpn_peer_session_relay_insert_errors"
                            (anyhow_status err) n)
        | Ok _ =>
            let n := match dns_names n with
                     | Some names =>
                         with_names n (Some (PeerNames_set names (ps_name self) changed))
                     | None => n
                     end in
            Ret (Receiving conn (connected_of self conn) changed, n)
        end)
  | Receiving conn _ routes, EvClosed => Some (Ret (Idle routes, receive self conn routes n))
  | _, _ => None
  end.

(** [run_connection] is the steps of a connection one after the other. *)
Lemma run_connection_steps self conn routes n :
  run_connection self conn routes n =
  match advance self (EvLink (LinkUp conn)) (Idle routes) n with
  | Some (Ret (Registering conn' changed prev, n1)) =>
      match advance self EvInsert (Registering conn' changed prev) n1 with
      | Some (Ret (Receiving conn' cp routes', n2)) =>
          match advance self EvClosed (Receiving conn' cp routes') n2 with
          | Some (Ret (Idle routes'', n3)) => Ret (routes'', n3)
          | _ => Panic
          end
      | Some (Ret (Idle routes', n2)) => Ret (routes', n2)
      | _ => Panic
      end
  | Some (Ret (Idle routes', n1)) => Ret (routes', n1)
  | _ => Panic
  end.
Proof.
  unfold run_connection, establish, advance, Relay_reconcile, connected_of.
  destruct (handshake _ _) as [changed|err]; [|done].
  destruct (if negb _ then _ else _) as [r1|]; [|done]. simpl.
  destruct (Relay_insert _ _ _) as [[[[]|err] r2]|]; [|done..]. simpl.
  by destruct (dns_names n).
Qed.
End Session.

(** [recv_loop] while the channel is open: every datagram is queued. *)
Lemma recv_loop_open `{IrohKeys} {W} ds last (n : Node (W := W)) :
  tun_open n = true →
  recv_loop ds last n = (Err last, with_tun_tx n (tun_tx n ++ (mkTxPacket <$> ds))).
Proof.
  revert n. induction ds as [|d ds IH]; intros n Ho; csimpl.
  - rewrite app_nil_r. by destruct n.
  - rewrite Ho, IH by done. unfold with_tun_tx. simpl. by rewrite <-app_assoc.
Qed.

(** ** What the parts of a session do to the relay *)
Section Parts.
Context `{Ipnet, IrohKeys, Message ControlRequest, Message ControlResponse}.
Context `{ErrorCodeExt, DebugFmt, ThinStatusOps, RoutingTableLaws W routes}.

Lemma get_park_routes rs (n : Node (W := W)) ip :
  Relay_get (relay (park_routes rs n)) ip =
  if decide (ip ∈ rs) then (λ _, Parked) <$> Relay_get (relay n) ip
  else Relay_get (relay n) ip.
Proof.
  unfold park_routes. case_bool_decide as Hrs; simpl.
  - by rewrite Hrs, decide_False by set_solver.
  - apply get_park.
Qed.

Lemma park_routes_inv rs (n : Node (W := W)) :
  relay_inv routes (relay n) → relay_inv routes (relay (park_routes rs n)).
Proof. unfold park_routes. case_bool_decide; simpl; auto using park_inv. Qed.

Lemma relay_recv_loop ds last (n : Node (W := W)) :
  relay (snd (recv_loop ds last n)) = relay n ∧
  dns_names (snd (recv_loop ds last n)) = dns_names n.
Proof.
  revert n. induction ds as [|d ds IH]; intros n; simpl; [done|].
  case_match; [|done]. destruct (IH (with_tun_tx n (tun_tx n ++ [mkTxPacket d]))) as [-> ->].
  done.
Qed.

Lemma relay_receive self conn rs (n : Node (W := W)) :
  relay (receive self conn rs n) = relay (park_routes rs n) ∧
  dns_names (receive self conn rs n) = dns_names n.
Proof.
  unfold receive.
  pose proof (relay_recv_loop (conn_datagrams conn) (conn_error conn) n) as [Hr Hd].
  destruct (recv_loop _ _ n) as [res n']. simpl in Hr, Hd. unfold park_routes.
  destruct res; simpl; rewrite <- Hr, <- Hd; by case_match.
Qed.

Lemma remove_nonempty_spec ips (r : Relay W ConnectedPeer) :
  relay_inv routes r →
  ∃ r', (if negb (bool_decide (ips = [])) then Relay_remove ips r else Ret r) = Ret r' ∧
    relay_inv routes r' ∧
    routes (handle r) ∖ list_to_set ips ⊆ routes (handle r') ⊆ routes (handle r) ∧
    ∀ ip, Relay_get r' ip = if decide (ip ∈ ips) then None else Relay_get r ip.
Proof.
  intros Hr. case_bool_decide as Hi; simpl.
  - exists r. split_and!; [done..|set_solver|set_solver|].
    intros ip. by rewrite Hi, decide_False by set_solver.
  - destruct (Relay_remove_spec ips r Hr) as (r' & -> & ? & ? & _ & ?). by exists r'.
Qed.

Lemma withdraw_routes_spec self rs (n : Node (W := W)) :
  relay_inv routes (relay n) →
  ∃ n', withdraw_routes self rs n = Ret ([], n') ∧ relay_inv routes (relay n') ∧
    dns_names n' = (λ names, PeerNames_remove names (ps_name self)) <$> dns_names n ∧
    routes (handle (relay n)) ∖ list_to_set rs ⊆ routes (handle (relay n'))
      ⊆ routes (handle (relay n)) ∧
    ∀ ip, Relay_get (relay n') ip = if decide (ip ∈ rs) then None else Relay_get (relay n) ip.
Proof.
  intros Hr. unfold withdraw_routes.
  destruct (remove_nonempty_spec rs (relay n) Hr) as (r' & E & Hr' & Hw & Hg).
  revert E. case_bool_decide as Hi; simpl; intros E.
  - simplify_eq. destruct (dns_names n) eqn:Ed; simpl; eexists;
      (split; [done|]); by rewrite ?Ed.
  - rewrite E. simpl. destruct (dns_names n) eqn:Ed; simpl; eexists;
      (split; [done|]); by rewrite ?Ed.
Qed.
End Parts.

(** ** Sessions on a shared relay *)
Section System.
Context `{Ipnet, IrohKeys, Message ControlRequest, Message ControlResponse}.
Context `{ErrorCodeExt, DebugFmt, ThinStatusOps, RoutingTableLaws W routes}.

Record System := { node : Node (W := W); phases : list phase }.

(** The configured peers, the connections the link of each may yield, and the
    addresses that belong to each; the peers advertise only their own. *)
Context (cfgs : list PeerSessionConfig).
Context (offered : nat → Connection → Prop) (owns : nat → IpAddr → Prop).
Context (Hdisj : ∀ i j ip, owns i ip → owns j ip → i = j).
Context (Hown : ∀ i self conn changed,
  cfgs !! i = Some self → offered i conn →
  handshake (peer_config self conn) (conn_handshake conn) = Ok changed →
  Forall (owns i) changed).

Definition ev_offered (i : nat) (ev : event) : Prop :=
  match ev with EvLink (LinkUp conn) => offered i conn | _ => True end.

Inductive sys_step (s : System) : outcome System → Prop :=
  | sys_session i self ev p o :
      cfgs !! i = Some self → phases s !! i = Some p → ev_offered i ev →
      advance self ev p (node s) = Some o →
      sys_step s
        (let! (p', n') := o in
         Ret {| node := n'; phases := <[i := p']> (phases s) |}).

Inductive reachable (s0 : System) : outcome System → Prop :=
  | reach_init : reachable s0 (Ret s0)
  | reach_step s o : reachable s0 (Ret s) → sys_step s o → reachable s0 o.

(** What the relay holds for an address of a session in a phase. *)
Definition expected (p : phase) (ip : IpAddr) : option (Dispatch ConnectedPeer) :=
  match p with
  | Idle rs => if decide (ip ∈ rs) then Some Parked else None
  | Registering _ changed previous =>
      if decide (ip ∈ previous ∧ ip ∈ changed) then Some Parked else None
  | Receiving _ cp rs => if decide (ip ∈ rs) then Some (Connected cp) else None
  | Ended => None
  end.

Definition phase_addrs (p : phase) : list IpAddr :=
  match p with
  | Idle rs | Receiving _ _ rs => rs
  | Registering _ changed previous => changed ++ previous
  | Ended => []
  end.

Lemma expected_none p ip : ip ∉ phase_addrs p → expected p ip = None.
Proof. destruct p; simpl; intros; [..|done]; rewrite decide_False; set_solver. Qed.

(** What a session that is about to register has from its handshake. *)
Definition agreed (i : nat) (self : PeerSessionConfig) (p : phase) : Prop :=
  match p with
  | Registering conn changed _ =>
      offered i conn ∧ handshake (peer_config self conn) (conn_handshake conn) = Ok changed
  | _ => True
  end.

Lemma advance_spec i self ev p (n : Node (W := W)) o :
  cfgs !! i = Some self → ev_offered i ev → advance self ev p n = Some o →
  relay_inv routes (relay n) → Forall (owns i) (phase_addrs p) → agreed i self p →
  (∀ ip, owns i ip → Relay_get (relay n) ip = expected p ip) →
  (o = Panic ∧ ∃ conn changed previous, p = Registering conn changed previous ∧ ¬ NoDup changed) ∨
  ∃ p' n', o = Ret (p', n') ∧ relay_inv routes (relay n') ∧
    Forall (owns i) (phase_addrs p') ∧ agreed i self p' ∧
    (∀ ip, owns i ip → Relay_get (relay n') ip = expected p' ip) ∧
    (∀ ip, ip ∉ phase_addrs p → ip ∉ phase_addrs p' →
       Relay_get (relay n') ip = Relay_get (relay n) ip).
Proof.
  intros Hi Hoff E Hr Ho Hag Hg. rewrite Forall_forall in Ho.
  destruct p as [rs|conn changed prev|conn cp rs|], ev as [[conn'| |]| |]; simplify_eq/=.
  - right. destruct (handshake _ _) as [changed|err] eqn:Eh; simplify_eq/=.
    + pose proof (Hown _ _ _ _ Hi Hoff Eh) as Hch. rewrite Forall_forall in Hch.
      destruct (remove_nonempty_spec (stale_of changed rs) (relay n) Hr) as (r' & -> & Hr' & _ & Hg').
      eexists _, _. split; [done|]. split_and!; simpl; [done| |done| |].
      * apply Forall_forall. set_solver.
      * intros ip Hip. rewrite Hg', Hg by done. simpl.
        repeat case_decide; rewrite stale_of_spec in *; naive_solver.
      * intros ip Hip _. rewrite Hg', decide_False; [done|]. rewrite stale_of_spec. naive_solver.
    + eexists _, _. split; [done|]. by rewrite Forall_forall.
  - right. eexists _, _. split; [done|]. split_and!; [by apply park_routes_inv|by apply Forall_forall|done| |].
    + intros ip Hip. rewrite get_park_routes, Hg by done. simpl. by case_decide.
    + intros ip Hip _. by rewrite get_park_routes, decide_False.
  - right. destruct (withdraw_routes_spec self rs (count_session n "p2p_vpn_peer_session_link_ended"
      [("peer"%string, ps_name self)]) Hr) as (n' & -> & Hr' & _ & _ & Hg').
    eexists _, _. split; [done|]. split_and!; [done|constructor|done| |].
    + intros ip Hip. rewrite Hg'. simpl. rewrite Hg by done. simpl. by case_decide.
    + intros ip Hip _. by rewrite Hg', decide_False.
  - pose proof (Relay_insert_outcome changed (connected_of self conn) (relay n) Hr) as Hout.
    destruct (Relay_insert changed (connected_of self conn) (relay n)) as [[res r']|].
    2: { left. split; [done|]. by exists conn, changed, prev. }
    right. destruct Hout as [Hr' Hp].
    destruct res as [[]|err]; destruct Hp as [_ Hg'].
    + eexists _, _. split; [done|]. rewrite Forall_forall.
      destruct (dns_names n); simpl; (split_and!; [done|set_solver|done| |]).
      1,3: intros ip Hip; rewrite Hg', Hg by done; simpl; repeat case_decide; naive_solver.
      1,2: intros ip _ Hip; by rewrite Hg', decide_False.
    + eexists _, _. split; [done|]. split_and!; [done|constructor|done| |]; simpl.
      * intros ip Hip. rewrite Hg', Hg by done. simpl. repeat case_decide; naive_solver.
      * intros ip Hip _. by rewrite Hg', decide_False by set_solver.
  - right. eexists _, _. split; [done|]. rewrite (proj1 (relay_receive _ _ _ _)).
    split_and!; [by apply park_routes_inv|by apply Forall_forall|done| |].
    + intros ip Hip. rewrite get_park_routes, Hg by done. simpl. by case_decide.
    + intros ip Hip _. by rewrite get_park_routes, decide_False.
Qed.

(** *** The invariant of the system *)
Record sys_inv (s : System) : Prop := {
  si_relay : relay_inv routes (relay (node s));
  si_addrs i p : phases s !! i = Some p → Forall (owns i) (phase_addrs p);
  si_agreed i self p : cfgs !! i = Some self → phases s !! i = Some p → agreed i self p;
  si_expected i p ip : phases s !! i = Some p → owns i ip →
    Relay_get (relay (node s)) ip = expected p ip;
  si_others ip : (∀ i p, phases s !! i = Some p → ip ∉ phase_addrs p) →
    Relay_get (relay (node s)) ip = None;
}.

(** A session is about to register routes among which an address is repeated. *)
Definition registers_repeat (s : System) : Prop :=
  ∃ i self conn changed previous,
    cfgs !! i = Some self ∧ offered i conn ∧
    phases s !! i = Some (Registering conn changed previous) ∧
    handshake (peer_config self conn) (conn_handshake conn) = Ok changed ∧ ¬ NoDup changed.

(** Sessions that have started in a state can get there. *)
Definition reaches_repeat (s0 : System) : Prop :=
  ∃ s, reachable s0 (Ret s) ∧ registers_repeat s.

Lemma sys_step_inv s o :
  sys_inv s → sys_step s o → (o = Panic ∧ registers_repeat s) ∨ ∃ s', o = Ret s' ∧ sys_inv s'.
Proof.
  intros Hs [i self ev p o' Hi Hp Hoff E]. destruct Hs as [Hr Ha Hag He Hn].
  destruct (advance_spec i self ev p (node s) o')
    as [[-> (conn & changed & prev & -> & Hnd)]|(p' & n' & -> & Hr' & Ha' & Hag' & Hg & Hf)]; eauto.
  { left. split; [done|]. destruct (Hag _ _ _ Hi Hp). by exists i, self, conn, changed, prev. }
  right.
  assert (∀ j q, j ≠ i → <[i:=p']> (phases s) !! j = Some q → phases s !! j = Some q) as Hj
    by (intros j q Hne; by rewrite list_lookup_insert_ne).
  assert (<[i:=p']> (phases s) !! i = Some p') as Hii
    by (by rewrite list_lookup_insert_eq by (by eapply lookup_lt_Some)).
  eexists. split; [done|]. constructor; simpl; [done|..].
  - intros j q Hq. destruct (decide (j = i)) as [->|Hne]; [|eauto]. by simplify_eq.
  - intros j self' q Hj' Hq. destruct (decide (j = i)) as [->|Hne]; [|eauto]. by simplify_eq.
  - intros j q ip Hq Hip. destruct (decide (j = i)) as [->|Hne]; [simplify_eq; eauto|].
    specialize (Ha _ _ Hp). rewrite Forall_forall in Ha, Ha'.
    rewrite Hf; [eauto| |]; intros Hin; apply Hne, (Hdisj j i ip); auto.
  - intros ip Hno. pose proof (Hno i p' Hii) as Hip'.
    destruct (decide (ip ∈ phase_addrs p)) as [Hip|Hip].
    + specialize (Ha _ _ Hp). rewrite Forall_forall in Ha. rewrite Hg by auto.
      by apply expected_none.
    + rewrite Hf by done. apply Hn. intros j q Hq.
      destruct (decide (j = i)) as [->|Hne]; [by simplify_eq|].
      apply (Hno j q). by rewrite list_lookup_insert_ne.
Qed.

Definition sys_init (n : Node (W := W)) : System :=
  {| node := n; phases := replicate (length cfgs) (Idle []) |}.

Lemma sys_init_inv n :
  relay_inv routes (relay n) → (∀ ip, Relay_get (relay n) ip = None) → sys_inv (sys_init n).
Proof.
  intros Hr Hn. constructor; simpl; [done| | | |by intros].
  - by intros i p [-> _]%lookup_replicate.
  - by intros i self p _ [-> _]%lookup_replicate.
  - intros i p ip [-> _]%lookup_replicate _. by rewrite Hn.
Qed.

Lemma reachable_inv s o :
  sys_inv s → reachable s o → (o = Panic ∧ reaches_repeat s) ∨ ∃ s', o = Ret s' ∧ sys_inv s'.
Proof.
  intros Hs Hr. induction Hr as [|s' o Hr IH Hstep]; [by right; exists s|].
  destruct IH as [[? _]|(s1 & [= <-] & Hs1)]; [done|].
  destruct (sys_step_inv s' o Hs1 Hstep) as [[-> Hrep]|?]; [|by right].
  left. split; [done|]. by exists s'.
Qed.

(** The session a dispatched address comes from. *)
Lemma sys_inv_owner s ip d :
  sys_inv s → Relay_get (relay (node s)) ip = Some d →
  ∃ i p, phases s !! i = Some p ∧ ip ∈ phase_addrs p ∧ expected p ip = Some d.
Proof.
  intros Hs Hd. destruct (decide (Exists (λ p, ip ∈ phase_addrs p) (phases s))) as [Hex|Hex].
  - apply Exists_exists in Hex as (p & Hin & Hip). apply list_elem_of_lookup_1 in Hin as [i Hi].
    exists i, p. split_and!; [done..|]. rewrite <- Hd. symmetry. apply (si_expected _ Hs i); [done|].
    pose proof (si_addrs _ Hs _ _ Hi) as Ha. rewrite Forall_forall in Ha. auto.
  - rewrite (si_others _ Hs) in Hd; [done|]. intros i p Hi Hip. apply Hex, Exists_exists.
    exists p. split; [|done]. by eapply list_elem_of_lookup_2.
Qed.

(** C1: with peers that advertise disjoint addresses, in every state that the
    sessions can reach in any order of their steps: an address is dispatched to a
    connection exactly when that connection is alive and its peer advertised the
    address; it is parked only for a peer that is between connections; and its
    route is installed in both cases. The sessions panic at most out of a state in
    which a peer has advertised one of its addresses twice and a session is about
    to register it. *)
Theorem sessions_dispatch (n : Node (W := W)) (o : outcome System) :
  relay_inv routes (relay n) → (∀ ip, Relay_get (relay n) ip = None) →
  reachable (sys_init n) o →
  (o = Panic ∧ reaches_repeat (sys_init n)) ∨
  ∃ s, o = Ret s ∧ ∀ ip,
    (∀ cp, Relay_get (relay (node s)) ip = Some (Connected cp) ↔
       ∃ i conn rs, phases s !! i = Some (Receiving conn cp rs) ∧ ip ∈ rs) ∧
    (Relay_get (relay (node s)) ip = Some Parked ↔
       ∃ i, (∃ rs, phases s !! i = Some (Idle rs) ∧ ip ∈ rs) ∨
            (∃ conn changed previous, phases s !! i = Some (Registering conn changed previous) ∧
               ip ∈ previous ∧ ip ∈ changed)) ∧
    (is_Some (Relay_get (relay (node s)) ip) → ip ∈ routes (handle (relay (node s)))).
Proof.
  intros Hr Hn Hreach.
  apply reachable_inv in Hreach as [?|(s & -> & Hs)]; [by left| |by apply sys_init_inv].
  right. exists s. split; [done|]. intros ip.
  assert (∀ i p, phases s !! i = Some p → ip ∈ phase_addrs p →
    Relay_get (relay (node s)) ip = expected p ip) as Hexp.
  { intros i p Hi Hip. apply (si_expected _ Hs i); [done|].
    pose proof (si_addrs _ Hs _ _ Hi) as Ha. rewrite Forall_forall in Ha. auto. }
  split_and!; [intros cp; split|split|apply get_installed, Hs].
  - intros (i & p & Hi & Hip & Hd)%sys_inv_owner; [|done].
    destruct p; simpl in Hd; case_decide || done; simplify_eq; eauto.
  - intros (i & conn & rs & Hi & Hip). rewrite (Hexp _ _ Hi) by done. simpl.
    by rewrite decide_True.
  - intros (i & p & Hi & Hip & Hd)%sys_inv_owner; [|done]. exists i.
    destruct p; simpl in Hd; case_decide || done; simplify_eq; naive_solver.
  - intros (i & [(rs & Hi & Hip)|(conn & ch & prev & Hi & Hip & Hip')]);
      rewrite (Hexp _ _ Hi) by set_solver; simpl; by rewrite decide_True.
Qed.
End System.

(** ** One session *)
Section OneSession.
Context `{Ipnet, IrohKeys, Message ControlRequest, Message ControlResponse}.
Context `{ErrorCodeExt, DebugFmt, ThinStatusOps, RoutingTableLaws W routes}.
Context (self : PeerSessionConfig).

(** Between connections the relay holds exactly [rs], parked. *)
Definition all_parked (rs : list IpAddr) (n : Node (W := W)) : Prop :=
  relay_inv routes (relay n) ∧
  ∀ ip, Relay_get (relay n) ip = if decide (ip ∈ rs) then Some Parked else None.

Lemma park_routes_parked rs n : all_parked rs n → all_parked rs (park_routes rs n).
Proof.
  intros [Hr Hg]. split; [by apply park_routes_inv|]. intros ip.
  rewrite get_park_routes, Hg. by case_decide.
Qed.

(** What [establish] leaves, whatever happens. *)
Lemma establish_spec conn rs n :
  relay_inv routes (relay n) →
  (∀ ip, ip ∉ rs → Relay_get (relay n) ip = None) →
  (establish self conn rs n = Panic ∧ repeats self conn) ∨
  ∃ cp rs' n', establish self conn rs n = Ret (cp, rs', n') ∧ relay_inv routes (relay n') ∧
    match cp with
    | Some cp => handshake (peer_config self conn) (conn_handshake conn) = Ok rs' ∧
        cp = connected_of self conn ∧
        dns_names n' = (λ names, PeerNames_set names (ps_name self) rs') <$> dns_names n ∧
        ∀ ip, Relay_get (relay n') ip = if decide (ip ∈ rs') then Some (Connected cp) else None
    | None => dns_names n' = dns_names n ∧
        (((∃ e, handshake (peer_config self conn) (conn_handshake conn) = Err e) ∧
          rs' = rs ∧ relay n' = relay n) ∨
         (rs' = [] ∧ ∀ ip, Relay_get (relay n') ip = None))
    end.
Proof.
  intros Hr Hg. unfold establish.
  destruct (handshake _ _) as [changed|err] eqn:Eh; [|by right; eexists _, _, _; naive_solver].
  destruct (Relay_reconcile_outcome changed rs (connected_of self conn) (relay n) Hr)
    as (r1 & Hout & _ & _ & Hg1).
  destruct (Relay_reconcile changed rs (connected_of self conn) (relay n)) as [[res r']|] eqn:Er.
  2: { left. unfold connected_of in Er. rewrite Er. split; [done|]. by exists changed. }
  right. destruct Hout as [Hr' Hp].
  assert (∀ ip, ip ∉ changed → Relay_get r1 ip = None) as Hnone.
  { intros ip Hip. rewrite Hg1. case_decide as Hs; [done|]. apply Hg.
    rewrite stale_of_spec in Hs. naive_solver. }
  unfold connected_of in Er. rewrite Er.
  destruct res as [[]|err]; destruct Hp as [_ Hg2].
  - eexists _, _, _. split; [done|].
    simpl. destruct (dns_names n) eqn:Ed; simpl;
      (split; [done|]; split; [done|]; split; [done|]; split; [by rewrite ?Ed|]);
      intros ip; rewrite Hg2; case_decide; auto.
  - eexists _, _, _. split; [done|]. split_and!; [done..|]. right. split; [done|].
    intros ip. transitivity (Relay_get r' ip); [done|]. rewrite Hg2. case_decide; auto.
Qed.

Lemma run_connection_parked conn rs n :
  all_parked rs n →
  (run_connection self conn rs n = Panic ∧ repeats self conn) ∨
  ∃ rs' n', run_connection self conn rs n = Ret (rs', n') ∧ all_parked rs' n'.
Proof.
  intros Hp. pose proof Hp as [Hr Hg]. unfold run_connection.
  destruct (establish_spec conn rs n Hr) as [[-> ?]|(cp & rs' & n' & -> & Hr' & Hcp)].
  { intros ip Hip. by rewrite Hg, decide_False. }
  { by left. }
  right.
  destruct cp as [cp|].
  - destruct Hcp as (_ & _ & _ & Hg'). eexists _, _. split; [done|].
    split; rewrite (proj1 (relay_receive _ _ _ _)); [by apply park_routes_inv|].
    intros ip. rewrite get_park_routes, Hg'. by case_decide.
  - eexists _, _. split; [done|]. destruct Hcp as [_ [(_ & -> & Hn)|[-> Hn]]].
    + split; [done|]. intros ip. by rewrite Hn, Hg.
    + split; [done|]. intros ip. by rewrite Hn.
Qed.

Lemma session_loop_clean events rs n :
  all_parked rs n →
  (session_loop self events rs n = Panic ∧ ∃ conn, LinkUp conn ∈ events ∧ repeats self conn) ∨
  ∃ ended rs' n', session_loop self events rs n = Ret (ended, rs', n') ∧
    (ended = true ↔ LinkEnded ∈ events) ∧
    relay_inv routes (relay n') ∧
    (∀ ip, Relay_get (relay n') ip = if decide (ip ∈ rs') then Some Parked else None) ∧
    (ended = true → rs' = [] ∧ ∀ names, dns_names n' = Some names →
       addresses names !! to_ascii_lowercase (ps_name self) = None).
Proof.
  revert rs n.
  induction events as [|ev events IH]; intros rs n Hp; simpl.
  - right. destruct Hp. eexists _, _, _. split; [done|]. split; [set_solver|].
    split; [done|]. split; [done|]. by intros.
  - destruct ev as [conn| |].
    + destruct (run_connection_parked conn rs n Hp) as [[-> Hrep]|(rs' & n' & -> & Hp')].
      { left. split; [done|]. exists conn. split; [by left|done]. }
      destruct (IH _ _ Hp') as [[-> (c & Hc & Hrep)]|(ended & rs2 & n2 & -> & Hend & Hrest)].
      { left. split; [done|]. exists c. split; [by right|done]. }
      right. exists ended, rs2, n2. split; [done|]. split; [|done]. rewrite Hend. set_solver.
    + destruct (IH _ _ (park_routes_parked _ _ Hp))
        as [[-> (c & Hc & Hrep)]|(ended & rs2 & n2 & -> & Hend & Hrest)].
      { left. split; [done|]. exists c. split; [by right|done]. }
      right. exists ended, rs2, n2. split; [done|]. split; [|done]. rewrite Hend. set_solver.
    + right. destruct Hp as [Hr Hg].
      destruct (withdraw_routes_spec self rs (count_session n "p2p_vpn_peer_session_link_ended"
        [("peer"%string, ps_name self)]) Hr) as (n' & -> & Hr' & Hd & _ & Hg').
      eexists _, _, _. split; [done|]. split; [set_solver|]. split; [done|]. split.
      * intros ip. rewrite Hg'. simpl. rewrite Hg. repeat case_decide; set_solver.
      * intros _. split; [done|]. intros names. rewrite Hd. simpl.
        destruct (dns_names n); simpl; [|done]. intros [= <-]. simpl. apply lookup_delete_eq.
Qed.

(** C8: a session that starts on an empty relay runs over every sequence of link
    events, whatever its handshakes and the routing table do; it panics at most
    when the peer advertises an address twice. While it waits, the relay holds
    exactly the addresses it remembers, all parked; once its link has ended, the
    relay holds nothing of it, it remembers nothing, and its DNS name is gone. *)
Theorem session_run_clean (events : list link_event) (n : Node (W := W)) :
  relay_inv routes (relay n) → (∀ ip, Relay_get (relay n) ip = None) →
  (run self events n = Panic ∧ ∃ conn, LinkUp conn ∈ events ∧ repeats self conn) ∨
  ∃ ended rs n', run self events n = Ret (ended, rs, n') ∧
    (ended = true ↔ LinkEnded ∈ events) ∧
    relay_inv routes (relay n') ∧
    (∀ ip, Relay_get (relay n') ip = if decide (ip ∈ rs) then Some Parked else None) ∧
    (ended = true → rs = [] ∧ ∀ names, dns_names n' = Some names →
       addresses names !! to_ascii_lowercase (ps_name self) = None).
Proof.
  intros Hr Hn. unfold run. by apply session_loop_clean.
Qed.

(** The DNS name of a peer outlives its connection: after a connection has
    closed, the name still maps to its addresses, all of which are parked; and
    when the routes of a new connection cannot be registered, the name keeps
    whatever it mapped to although the relay holds none of the peer's
    addresses any more. *)
Theorem names_outlive_connections (conn : Connection) (rs changed : list IpAddr)
    (n : Node (W := W)) (names : PeerNames) :
  all_parked rs n → dns_names n = Some names →
  handshake (peer_config self conn) (conn_handshake conn) = Ok changed → NoDup changed →
  ∃ rs' n' names', run_connection self conn rs n = Ret (rs', n') ∧
    dns_names n' = Some names' ∧
    ((rs' = changed ∧ Forall (λ ip, Relay_get (relay n') ip = Some Parked) changed ∧
      addresses names' !! to_ascii_lowercase (ps_name self) = Some changed) ∨
     (rs' = [] ∧ (∀ ip, Relay_get (relay n') ip = None) ∧ names' = names)).
Proof.
  intros [Hr Hg] Hd Hh Hnd. unfold run_connection.
  destruct (establish_spec conn rs n Hr) as [[_ (ch & Ech & Hch)]|(cp & rs' & n' & Ee & Hr' & Hcp)].
  { intros ip Hip. by rewrite Hg, decide_False. }
  { rewrite Hh in Ech. by injection Ech as <-. }
  rewrite Ee. destruct cp as [cp|].
  - destruct Hcp as (Hh' & _ & Hd' & Hg'). rewrite Hh in Hh'. simplify_eq.
    rewrite Hd in Hd'. eexists _, _, _. split; [done|]. split.
    { by rewrite (proj2 (relay_receive self conn rs' n')). }
    left. split; [done|]. split; [|simpl; apply lookup_insert_eq].
    apply Forall_forall. intros ip Hip.
    rewrite (proj1 (relay_receive self conn rs' n')), get_park_routes, Hg'.
    by rewrite !decide_True.
  - destruct Hcp as [Hd' [([e He] & _)|[-> Hn]]]; [by rewrite Hh in He|].
    eexists _, _, _. split; [done|]. rewrite Hd', Hd. split; [done|]. by right.
Qed.
End OneSession.

(** ** Witnesses: Alice's node and the peers Bob and Mallory *)
Import IpnetRef KeysRef MessageRef EtherparseRef DnsRef MockRoutes RelayRef.

Module Example_.
Definition alice_session (name : string) : PeerSessionConfig :=
  {| ps_name := name; ps_common := CommonPeerConfig_new IcmpGateway_default;
     ps_advertise := own_advertise example_own example_sig |}.

Definition bob_addr : IpAddr := IpNet_addr bob_own.

(** Mallory claims Bob's address as a host route of its own. *)
Definition mallory_own : IpNet :=
  Net6 (mkIpv6Net match bob_own with Net6 n => addr6 n | _ => 0%Z end 128).
Definition mallory_config : PeerConfig :=
  node_config IcmpGateway_default mallory_own
    (SecretKey_sign (sk "mallory") (serialize_network mallory_own)) (pk "alice").
Definition alice_to_mallory : PeerConfig :=
  node_config IcmpGateway_default example_own example_sig (pk "mallory").

Definition bob_conn : Connection :=
  {| conn_id := 1; conn_remote := pk "bob";
     conn_handshake := example_env alice_config bob_config;
     conn_datagrams := [[x01]; [x02]]; conn_error := anyhow_msg |}.
Definition mallory_conn : Connection :=
  {| conn_id := 2; conn_remote := pk "mallory";
     conn_handshake := example_env alice_to_mallory mallory_config;
     conn_datagrams := []; conn_error := anyhow_msg |}.

Definition node0 (w : world) : Node :=
  {| relay := Relay_new w; dns_names := Some (PeerNames_new "p2p"); tun_tx := [];
     tun_open := true; session_counters := [] |}.

(** Two connections of Bob and the end of his link. *)
Definition bob_events : list link_event := [LinkUp bob_conn; LinkDown; LinkUp bob_conn].

(** The connection an address is dispatched to, [Some None] when it is parked. *)
Definition conn_of (n : Node (W := world)) (ip : IpAddr) : option (option nat) :=
  match Relay_get (relay n) ip with
  | Some (Connected cp) => Some (Some (cp_conn cp))
  | Some Parked => Some None
  | None => None
  end.

Definition view (o : outcome (bool * list IpAddr * Node (W := world))) :=
  let! (ended, rs, n) := o in
  Ret (ended, rs, tx_data <$> tun_tx n, conn_of n bob_addr,
       elements (mock_routes (handle (relay n))),
       (λ names, PeerNames_resolve names "bob.p2p") <$> dns_names n).

Example bob_session_waits :
  view (run (alice_session "Bob") bob_events (node0 empty)) =
    Ret (false, [bob_addr], [[x01]; [x02]; [x01]; [x02]], Some None, [bob_addr],
         Some (Ret (Answer_Addrs [bob_addr]))).
Proof. by vm_compute. Qed.

Example bob_session_ends :
  view (run (alice_session "Bob") (bob_events ++ [LinkEnded]) (node0 empty)) =
    Ret (true, [], [[x01]; [x02]; [x01]; [x02]], None, [], Some (Ret NxDomain)).
Proof. by vm_compute. Qed.

Definition cfgs : list PeerSessionConfig := [alice_session "bob"].
Definition offered (i : nat) (conn : Connection) : Prop := i = 0 ∧ conn = bob_conn.
Definition owns (i : nat) (ip : IpAddr) : Prop := i = 0 ∧ ip = bob_addr.

Lemma owned i self conn changed :
  cfgs !! i = Some self → offered i conn →
  handshake (peer_config self conn) (conn_handshake conn) = Ok changed →
  Forall (owns i) changed.
Proof.
  intros Hi [-> ->] E. injection Hi as <-.
  assert (changed = [bob_addr]) as -> by (vm_compute in E; by injection E as <-).
  by repeat constructor.
Qed.

Lemma bob_distinct : ¬ repeats (alice_session "bob") bob_conn.
Proof.
  intros (changed & E & Hnd). apply Hnd.
  assert (changed = [bob_addr]) as -> by (vm_compute in E; by injection E as <-). by_decide.
Qed.

Lemma no_repeats s : ¬ reaches_repeat cfgs offered s.
Proof.
  intros (s' & _ & i & self & conn & changed & prev & Hi & [-> ->] & _ & Hh & Hnd).
  injection Hi as <-. exact (bob_distinct (ex_intro _ changed (conj Hh Hnd))).
Qed.
End Example_.
Import Example_.

(** The state after the handshake of Bob's connection. *)
Lemma sessions_dispatch_witness :
  ∃ o s,
    advance (alice_session "bob") (EvLink (LinkUp bob_conn)) (Idle []) (node0 empty) = Some o ∧
    (let! (p', n') := o in
     Ret {| node := n'; phases := <[0 := p']> (phases (sys_init cfgs (node0 empty))) |}) = Ret s ∧
    ∀ ip, is_Some (Relay_get (relay (node s)) ip) →
      ip ∈ mock_routes (handle (relay (node s))).
Proof.
  destruct (advance (alice_session "bob") (EvLink (LinkUp bob_conn)) (Idle []) (node0 empty))
    as [o|] eqn:Eo; [|cbn [advance] in Eo; discriminate Eo].
  assert (reachable cfgs offered (sys_init cfgs (node0 empty)) (let! (p', n') := o in
    Ret {| node := n'; phases := <[0 := p']> (phases (sys_init cfgs (node0 empty))) |})) as Hr.
  { eapply reach_step; [apply reach_init|].
    exact (sys_session cfgs offered (sys_init cfgs (node0 empty)) 0 (alice_session "bob")
      (EvLink (LinkUp bob_conn)) (Idle []) o eq_refl eq_refl (conj eq_refl eq_refl) Eo). }
  destruct (sessions_dispatch (routes := mock_routes) cfgs offered owns
    ltac:(by intros i j ip [-> _] [-> _]) owned (node0 empty) _
    (Relay_new_inv empty) (λ ip, eq_refl) Hr) as [[_ Hrep]|(s & E & Hs)].
  { by destruct (no_repeats _ Hrep). }
  exact (ex_intro _ o (ex_intro _ s (conj eq_refl (conj E (λ ip, proj2 (proj2 (Hs ip))))))).
Defined.

Lemma session_run_clean_witness :
  ∃ ended rs n', run (alice_session "bob") (bob_events ++ [LinkEnded]) (node0 empty) =
      Ret (ended, rs, n') ∧
    (ended = true ↔ LinkEnded ∈ bob_events ++ [LinkEnded]) ∧
    ∀ ip, Relay_get (relay n') ip = if decide (ip ∈ rs) then Some Parked else None.
Proof.
  destruct (session_run_clean (routes := mock_routes) (alice_session "bob")
    (bob_events ++ [LinkEnded]) (node0 empty) (Relay_new_inv empty) ltac:(done))
    as [[_ (conn & Hc & Hrep)]|(ended & rs & n' & E & He & _ & Hg & _)].
  { assert (conn = bob_conn) as -> by (unfold bob_events in Hc; set_solver). by destruct bob_distinct. }
  exact (ex_intro _ ended (ex_intro _ rs (ex_intro _ n' (conj E (conj He Hg))))).
Defined.

(** With a table that refuses routes, Bob's registration fails. *)
Lemma names_outlive_connections_witness :
  ∃ rs' n' names',
    run_connection (alice_session "bob") bob_conn [] (node0 (set_fail true empty)) =
      Ret (rs', n') ∧ dns_names n' = Some names'.
Proof.
  destruct (names_outlive_connections (routes := mock_routes) (alice_session "bob") bob_conn []
    [bob_addr] (node0 (set_fail true empty)) (PeerNames_new "p2p"))
    as (rs' & n' & names' & E & Hd & _).
  - split; [apply Relay_new_inv|done].
  - done.
  - by vm_compute.
  - by_decide.
  - exact (ex_intro _ rs' (ex_intro _ n' (ex_intro _ names' (conj E Hd)))).
Defined.

(** *** Peers that advertise the same address *)
Definition run_steps (evs : list (nat * event)) (s : System) : outcome System :=
  foldl (λ o '(i, ev),
    let! s := o in
    match phases s !! i with
    | Some p =>
        match advance (alice_session "peer") ev p (node s) with
        | Some (Ret (p', n')) => Ret {| node := n'; phases := <[i := p']> (phases s) |}
        | _ => Panic
        end
    | None => Panic
    end) (Ret s) evs.

(** The live connection of each session that advertised Bob's address, and the
    connection the address is dispatched to. *)
Definition claims_bob (o : outcome System) : outcome (list (option nat) * option (option nat)) :=
  let! s := o in
  Ret ((λ p, match p with
             | Receiving conn _ rs => if decide (bob_addr ∈ rs) then Some (conn_id conn) else None
             | _ => None
             end) <$> phases s, conn_of (node s) bob_addr).

(** A peer that advertises the address of a connected peer takes over its
    traffic, and when it leaves, the address is parked although the first peer
    is still connected. *)
Theorem overlapping_sessions_interfere :
  let s0 := {| node := node0 empty; phases := [Idle []; Idle []] |} in
  let bob := [(0, EvLink (LinkUp bob_conn)); (0, EvInsert)] in
  let mallory := [(1, EvLink (LinkUp mallory_conn)); (1, EvInsert)] in
  claims_bob (run_steps bob s0) = Ret ([Some 1; None], Some (Some 1)) ∧
  claims_bob (run_steps (bob ++ mallory) s0) = Ret ([Some 1; Some 2], Some (Some 2)) ∧
  claims_bob (run_steps (bob ++ mallory ++ [(1, EvClosed)]) s0) =
    Ret ([Some 1; None], Some None).
Proof. split_and!; by vm_compute. Qed.
