(* ===== verification/Floats.v ===== *)
(** * Floating-point numbers that are not rounded

    The source computes with [f32] and [f64], which are formats of the Standard
    Library's [SpecFloat]. The lemmas of this file say, for every format, when
    an operation on non-negative numbers is exact: a number with a mantissa of
    [prec] digits is the only result of every rounding of its value. *)

From S2P Require Import Prelude.
From stdpp Require Import prelude.
From Stdlib Require Import Floats.SpecFloat.

Local Open Scope Z_scope.

(** ** Digits and shifts *)
Lemma digits2_bounds p : 2 ^ (Z.pos (digits2_pos p) - 1) ≤ Z.pos p < 2 ^ Z.pos (digits2_pos p).
Proof.
  assert (∀ q, Z.pos (Pos.succ q) - 1 = Z.pos q) as Hs by lia.
  assert (∀ q, 2 ^ Z.pos q = 2 * 2 ^ (Z.pos q - 1)) as Hp
    by (intros q; rewrite <- Z.pow_succ_r by lia; f_equal; lia).
  induction p as [p IH|p IH|]; cbn [digits2_pos]; [..|done].
  - rewrite Hs, Pos2Z.inj_succ, Z.pow_succ_r, Pos2Z.inj_xI, Hp by lia. rewrite Hp in IH.
    generalize dependent (2 ^ (Z.pos (digits2_pos p) - 1)). lia.
  - rewrite Hs, Pos2Z.inj_succ, Z.pow_succ_r, Pos2Z.inj_xO, Hp by lia. rewrite Hp in IH.
    generalize dependent (2 ^ (Z.pos (digits2_pos p) - 1)). lia.
Qed.

Lemma digits2_le n p : 0 ≤ n → Z.pos p < 2 ^ n → Z.pos (digits2_pos p) ≤ n.
Proof.
  intros Hn Hp. destruct (digits2_bounds p) as [Hlo _].
  destruct (Z.le_gt_cases (Z.pos (digits2_pos p)) n); [done|].
  pose proof (Z.pow_le_mono_r 2 n (Z.pos (digits2_pos p) - 1)). lia.
Qed.

Lemma digits2_shift k p : Z.pos (digits2_pos (Pos.iter xO p k)) = Z.pos (digits2_pos p) + Z.pos k.
Proof.
  induction k as [|k IH] using Pos.peano_ind; [cbn; lia|].
  rewrite Pos.iter_succ. cbn [digits2_pos]. lia.
Qed.

Lemma shift_value k p : Z.pos (Pos.iter xO p k) = Z.pos p * 2 ^ Z.pos k.
Proof.
  induction k as [|k IH] using Pos.peano_ind; [cbn; lia|].
  rewrite Pos.iter_succ, Pos2Z.inj_xO, IH, Pos2Z.inj_succ, Z.pow_succ_r by lia. lia.
Qed.

(** A mantissa and its multiple by a power of two. *)
Lemma shift_inv p q n :
  0 ≤ n → Z.pos p = Z.pos q * 2 ^ n →
  p = match n with Z.pos k => Pos.iter xO q k | _ => q end.
Proof.
  intros Hn E. destruct n as [|k|k]; [lia| |lia].
  apply Pos2Z.inj. by rewrite shift_value.
Qed.

Lemma digits2_mul p q n :
  0 ≤ n → Z.pos p = Z.pos q * 2 ^ n → Z.pos (digits2_pos p) = Z.pos (digits2_pos q) + n.
Proof.
  intros Hn ->%shift_inv; [|done]. destruct n as [|k|k]; [lia| |lia]. apply digits2_shift.
Qed.

Lemma iter_pos_iter {A} (f : A → A) k x : iter_pos f k x = Pos.iter f x k.
Proof.
  revert x. induction k as [k IH|k IH|]; intros x; cbn; rewrite ?IH; [|done..].
  by rewrite Pos.iter_swap, Pos.iter_swap.
Qed.

(** Shifting right what was shifted left loses nothing. *)
Lemma shr_shift k q :
  iter_pos shr_1 k {| shr_m := Z.pos (Pos.iter xO q k); shr_r := false; shr_s := false |} =
    {| shr_m := Z.pos q; shr_r := false; shr_s := false |}.
Proof.
  rewrite iter_pos_iter. revert q. induction k as [|k IH] using Pos.peano_ind; intros q; [done|].
  rewrite (Pos.iter_succ_r k _ shr_1), (Pos.iter_succ k _ xO). apply IH.
Qed.

Lemma new_location_exact b : new_location b 0 = loc_Exact.
Proof. unfold new_location. by destruct (Z.even b). Qed.

Section Format.
Context (prec emax : Z).
Context (Hprec : 1 < prec) (Hemax : prec < emax).
Notation emin := (emin prec emax).
Notation fexp := (fexp prec emax).

(** A mantissa of full length with an exponent of the format. *)
Record normal (q : positive) (E : Z) : Prop := {
  normal_digits : Z.pos (digits2_pos q) = prec;
  normal_exp : emin ≤ E ≤ emax - prec;
}.

Lemma fexp_normal q E : normal q E → fexp (Z.pos (digits2_pos q) + E) = E.
Proof. intros [-> ?]. unfold fexp. lia. Qed.

Lemma shr_fexp_normal q E n :
  normal q E → 0 ≤ n →
  shr_fexp prec emax (Z.pos q * 2 ^ n) (E - n) loc_Exact =
    ({| shr_m := Z.pos q; shr_r := false; shr_s := false |}, E).
Proof.
  intros Hq Hn. assert (0 < 2 ^ n) by (by apply Z.pow_pos_nonneg).
  destruct (Z.pos q * 2 ^ n) as [|p|p] eqn:Ep; [lia| |lia]. symmetry in Ep.
  unfold shr_fexp. cbn [Zdigits2]. rewrite (digits2_mul p q n) by lia.
  replace (Z.pos (digits2_pos q) + n + (E - n)) with (Z.pos (digits2_pos q) + E) by lia.
  rewrite (fexp_normal q E Hq). replace (E - (E - n)) with n by lia.
  rewrite (shift_inv p q n) by lia. destruct n as [|k|k]; cbn [shr shr_record_of_loc]; [..|lia].
  - f_equal. lia.
  - rewrite shr_shift. f_equal. lia.
Qed.

(** Rounding the value of a normal number gives that number. *)
Lemma round_aux_normal q E p e :
  normal q E → e ≤ E → Z.pos p = Z.pos q * 2 ^ (E - e) →
  binary_round_aux prec emax false (Z.pos p) e loc_Exact = S754_finite false q E.
Proof.
  intros Hq He Hp. unfold binary_round_aux. rewrite Hp.
  replace e with (E - (E - e)) at 2 by lia. rewrite shr_fexp_normal by (done || lia).
  cbn [shr_m loc_of_shr_record round_nearest_even].
  replace (Z.pos q) with (Z.pos q * 2 ^ 0) at 1 by lia. replace E with (E - 0) at 1 by lia.
  rewrite shr_fexp_normal by done. cbn [shr_m].
  by rewrite (proj2 (Z.leb_le _ _) (proj2 (normal_exp _ _ Hq))).
Qed.

(** The same for [binary_round], on which addition and conversion rely: the
    values are compared at the least exponent of the format. *)
Lemma round_normal q E p e :
  normal q E → emin ≤ e → Z.pos p * 2 ^ (e - emin) = Z.pos q * 2 ^ (E - emin) →
  binary_round prec emax false p e = S754_finite false q E.
Proof.
  intros Hq He Hv. pose proof (normal_exp _ _ Hq) as HE.
  destruct (Z.le_gt_cases e E) as [Hle|Hgt].
  - assert (Z.pos p = Z.pos q * 2 ^ (E - e)) as Hp.
    { apply (Z.mul_reg_r _ _ (2 ^ (e - emin))); [by apply Z.pow_nonzero; lia|].
      rewrite Hv, <- Z.mul_assoc, <- Z.pow_add_r by lia. do 2 f_equal. lia. }
    unfold binary_round. rewrite (digits2_mul p q (E - e)) by (done || lia).
    replace (Z.pos (digits2_pos q) + (E - e) + e) with (Z.pos (digits2_pos q) + E) by lia.
    rewrite (fexp_normal q E Hq). unfold shl_align.
    destruct (E - e) as [|k|k] eqn:Ek; [..|lia]; apply round_aux_normal; by rewrite ?Ek.
  - assert (Z.pos q = Z.pos p * 2 ^ (e - E)) as Hp.
    { apply (Z.mul_reg_r _ _ (2 ^ (E - emin))); [by apply Z.pow_nonzero; lia|].
      rewrite <- Hv, <- Z.mul_assoc, <- Z.pow_add_r by lia. do 2 f_equal. lia. }
    unfold binary_round.
    replace (Z.pos (digits2_pos p) + e) with (Z.pos (digits2_pos q) + E)
      by (rewrite (digits2_mul q p (e - E)) by (done || lia); lia).
    rewrite (fexp_normal q E Hq). unfold shl_align.
    destruct (E - e) as [|k|k] eqn:Ek; [lia..|].
    rewrite (shift_inv q p (Z.pos k)) in Hq |- *; [|lia| |lia|].
    + apply round_aux_normal; [done|lia|]. rewrite Z.sub_diag. lia.
    + rewrite Hp. do 2 f_equal. lia.
    + rewrite Hp. do 2 f_equal. lia.
Qed.

(** [f] is the number [v * 2 ^ emin], held without loss. *)
Inductive exact (f : spec_float) (v : Z) : Prop :=
  | exact_zero : f = S754_zero false → v = 0 → exact f v
  | exact_normal q E :
      f = S754_finite false q E → normal q E → v = Z.pos q * 2 ^ (E - emin) → exact f v.

Lemma normal_pos q E : normal q E → 0 < Z.pos q * 2 ^ (E - emin).
Proof. intros [_ ?]. apply Z.mul_pos_pos; [done|]. apply Z.pow_pos_nonneg; lia. Qed.

Lemma normal_bounds q E :
  normal q E → 2 ^ (prec - 1 + (E - emin)) ≤ Z.pos q * 2 ^ (E - emin) < 2 ^ (prec + (E - emin)).
Proof.
  intros [Hd HE]. destruct (digits2_bounds q) as [Hlo Hhi]. rewrite Hd in Hlo, Hhi.
  rewrite !Z.pow_add_r by lia. assert (0 < 2 ^ (E - emin)) by (apply Z.pow_pos_nonneg; lia). nia.
Qed.

(** A normalisation of an exact value. *)
Lemma normalize_exact h y e :
  emin ≤ e → exact h (y * 2 ^ (e - emin)) → binary_normalize prec emax y e false = h.
Proof.
  intros He Hh. assert (0 < 2 ^ (e - emin)) by (apply Z.pow_pos_nonneg; lia).
  destruct Hh as [-> Hv|q E -> Hq Hv].
  - by assert (y = 0) as -> by nia.
  - pose proof (normal_pos q E Hq). destruct y as [|p|p]; [lia| |lia].
    by apply round_normal.
Qed.

(** Integers of at most [prec] digits, and [2 ^ prec], are held exactly. *)
Lemma integer_exact y e :
  0 ≤ y ≤ 2 ^ prec → emin + prec ≤ e ≤ emax - prec - 1 →
  exact (binary_normalize prec emax y e false) (y * 2 ^ (e - emin)).
Proof.
  intros Hy He.
  assert (∃ h, exact h (y * 2 ^ (e - emin))) as [h Hh]; [|by rewrite (normalize_exact h) by (done || lia)].
  destruct y as [|p|p]; [by exists (S754_zero false); left| |lia].
  destruct (Z.eq_dec (Z.pos p) (2 ^ prec)) as [->|Hne].
  - assert (0 < 2 ^ (prec - 1)) by (apply Z.pow_pos_nonneg; lia).
    destruct (2 ^ (prec - 1)) as [|q|q] eqn:Eq; [lia| |lia]. symmetry in Eq.
    exists (S754_finite false q (e + 1)). apply (exact_normal _ _ q (e + 1)); [done|split; [|lia]|].
    + rewrite (digits2_mul q 1 (prec - 1)) by lia. cbn. lia.
    + rewrite Eq, <- !Z.pow_add_r by lia. f_equal. lia.
  - pose proof (digits2_le prec p ltac:(lia) ltac:(lia)) as Hd.
    set (n := prec - Z.pos (digits2_pos p)). assert (0 < 2 ^ n) by (apply Z.pow_pos_nonneg; lia).
    destruct (Z.pos p * 2 ^ n) as [|q|q] eqn:Eq; [lia| |lia]. symmetry in Eq.
    exists (S754_finite false q (e - n)). apply (exact_normal _ _ q (e - n)); [done|split; [|lia]|].
    + rewrite (digits2_mul q p n) by (done || lia). lia.
    + rewrite Eq, <- Z.mul_assoc, <- Z.pow_add_r by lia. do 2 f_equal. lia.
Qed.

Lemma compare_exact f g v w : exact f v → exact g w → SFcompare f g = Some (v ?= w).
Proof.
  intros [-> ->|q E -> Hq ->] [-> ->|q' E' -> Hq' ->]; cbn [SFcompare].
  - done.
  - pose proof (normal_pos q' E' Hq'). by rewrite (proj2 (Z.compare_lt_iff _ _)).
  - pose proof (normal_pos q E Hq). by rewrite (proj2 (Z.compare_gt_iff _ _)) by lia.
  - pose proof (normal_bounds q E Hq). pose proof (normal_bounds q' E' Hq').
    pose proof (normal_exp _ _ Hq). pose proof (normal_exp _ _ Hq'). f_equal.
    destruct (Z.compare_spec E E') as [->|Hlt|Hgt]; symmetry.
    + change (Pos.compare_cont Eq q q') with (Z.pos q ?= Z.pos q').
      symmetry. apply Zmult_compare_compat_r. apply Z.lt_gt, Z.pow_pos_nonneg; lia.
    + apply Z.compare_lt_iff.
      pose proof (Z.pow_le_mono_r 2 (prec + (E - emin)) (prec - 1 + (E' - emin))). lia.
    + apply Z.compare_gt_iff.
      pose proof (Z.pow_le_mono_r 2 (prec + (E' - emin)) (prec - 1 + (E - emin))). lia.
Qed.

Lemma shl_align_value q E e :
  e ≤ E → Z.pos (fst (shl_align q E e)) = Z.pos q * 2 ^ (E - e).
Proof.
  intros He. unfold shl_align. destruct (e - E) as [|k|k] eqn:Ek; [|lia|].
  - replace (E - e) with 0 by lia. cbn [fst]. lia.
  - replace (E - e) with (Z.pos k) by lia. apply shift_value.
Qed.

Lemma sub_exact f g h v w :
  exact f v → exact g w → w ≤ v → exact h (v - w) → SFsub prec emax f g = h.
Proof.
  intros [-> ->|q E -> Hq ->] [-> ->|q' E' -> Hq' ->] Hle Hh; cbn [SFsub].
  - destruct Hh as [-> _|q E -> Hq Hv]; [done|]. pose proof (normal_pos q E Hq). lia.
  - pose proof (normal_pos q' E' Hq'). lia.
  - rewrite Z.sub_0_r in Hh. pose proof (normal_exp _ _ Hq).
    destruct Hh as [-> Hv|q2 E2 -> Hq2 Hv]; [pose proof (normal_pos q E Hq); lia|].
    transitivity (binary_round prec emax false q E); [symmetry|]; apply round_normal; auto; lia.
  - pose proof (normal_exp _ _ Hq). pose proof (normal_exp _ _ Hq').
    apply normalize_exact; [lia|]. cbn [cond_Zopp]. rewrite !shl_align_value by lia.
    rewrite Z.mul_sub_distr_r, <- !Z.mul_assoc, <- !Z.pow_add_r by lia.
    replace (E - _ + _) with (E - emin) by lia. by replace (E' - _ + _) with (E' - emin) by lia.
Qed.

(** A power of two, as a factor and as a divisor, only moves the exponent. *)
Lemma mul_pow2 q E h e :
  normal q E → Z.pos h = 2 ^ (prec - 1) → normal q (E + e + (prec - 1)) →
  SFmul prec emax (S754_finite false q E) (S754_finite false h e) =
    S754_finite false q (E + e + (prec - 1)).
Proof.
  intros Hq Hh Hr. cbn [SFmul xorb]. apply round_aux_normal; [done|lia|].
  rewrite Pos2Z.inj_mul, Hh. do 2 f_equal. lia.
Qed.

Lemma div_pow2 q E h e :
  normal q E → Z.pos h = 2 ^ (prec - 1) → normal q (E - e - (prec - 1)) → emin ≤ E - e - prec →
  SFdiv prec emax (S754_finite false q E) (S754_finite false h e) =
    S754_finite false q (E - e - (prec - 1)).
Proof.
  intros Hq Hh Hr He. cbn [SFdiv xorb]. unfold SFdiv_core_binary. cbn [Zdigits2].
  rewrite (normal_digits _ _ Hq), (digits2_mul h 1 (prec - 1)) by lia.
  change (Z.pos (digits2_pos 1)) with 1.
  assert (Z.min (fexp (prec + E - (1 + (prec - 1) + e))) (E - e) = E - e - prec) as ->
    by (unfold fexp; lia).
  replace (E - e - (E - e - prec)) with prec by lia.
  destruct prec as [|pr|pr] eqn:Epr; [lia| |lia].
  rewrite Z.shiftl_mul_pow2 by lia. rewrite <- Epr in *.
  replace (2 ^ prec) with (2 * 2 ^ (prec - 1)) by (rewrite <- Z.pow_succ_r by lia; f_equal; lia).
  rewrite Hh. assert (0 < 2 ^ (prec - 1)) by (apply Z.pow_pos_nonneg; lia).
  assert (Z.pos q * (2 * 2 ^ (prec - 1)) = Z.pos q * 2 * 2 ^ (prec - 1)) as -> by lia.
  set (a := Z.pos q * 2 * 2 ^ (prec - 1)). set (b := 2 ^ (prec - 1)) in *.
  replace (Z.div_eucl a b) with (a / b, a mod b)
    by (unfold Z.div, Z.modulo; by destruct (Z.div_eucl a b)).
  subst a. rewrite Z.div_mul, Z.mod_mul by lia. rewrite new_location_exact.
  apply (round_aux_normal q _ (q * 2)); [done|lia|].
  replace (_ - _ - _ - _) with 1 by lia. lia.
Qed.
End Format.
