(* ===== verification/Ecn.v ===== *)
(** * Congestion: ECN marking and the drop policy

    Models [src/src/route/ecn.rs]. The header types of the [etherparse] crate
    are a parameter; the single-precision arithmetic of the drop policy is that
    of the Standard Library's [SpecFloat] with the binary32 format. *)

From S2P Require Import Prelude Packet.
From stdpp Require Import prelude.
From Stdlib Require Import Strings.Byte.
From Stdlib Require Import Floats.SpecFloat.

Local Open Scope Z_scope.

(** ** [etherparse] IP headers *)
Inductive IpEcn : Type := NotEct | Ect1 | Ect0 | CongestionExperienced.

#[export] Instance IpEcn_eq_dec : EqDecision IpEcn.
Proof. solve_decision. Defined.

Class IpHeaderOps := {
  Ipv4Header : Type;
  Ipv6Header : Type;
  (** [IpHeaders::from_slice], without the extension headers and the remainder. *)
  headers_from_slice : list byte → option (Ipv4Header + Ipv6Header);
  ecn4 : Ipv4Header → IpEcn;
  set_ecn4 : IpEcn → Ipv4Header → Ipv4Header;
  header_checksum : Ipv4Header → Z;
  set_header_checksum : Z → Ipv4Header → Ipv4Header;
  calc_header_checksum : Ipv4Header → Z;
  header_len : Ipv4Header → nat;
  to_bytes4 : Ipv4Header → list byte;
  ecn6 : Ipv6Header → IpEcn;
  set_ecn6 : IpEcn → Ipv6Header → Ipv6Header;
  to_bytes6 : Ipv6Header → list byte;
}.

(** The documented behaviour of the fields and of serialization, on headers
    parsed from a packet: a field that was set is read back, the checksum does
    not cover its own field, a header is written in its own length, and what is
    written parses back. *)
Class IpHeaderLaws (ops : IpHeaderOps) : Prop := {
  length_to_bytes4 h : length (to_bytes4 h) = header_len h;
  header_fits4 p h : headers_from_slice p = Some (inl h) → (header_len h ≤ length p)%nat;
  header_len_set_ecn4 e h : header_len (set_ecn4 e h) = header_len h;
  header_len_set_checksum c h : header_len (set_header_checksum c h) = header_len h;
  ecn4_set e h : ecn4 (set_ecn4 e h) = e;
  ecn4_set_checksum c h : ecn4 (set_header_checksum c h) = ecn4 h;
  checksum_set h : header_checksum (set_header_checksum (calc_header_checksum h) h) =
    calc_header_checksum h;
  calc_checksum_set c h : calc_header_checksum (set_header_checksum c h) = calc_header_checksum h;
  reparse4 p h e c : headers_from_slice p = Some (inl h) →
    let h' := set_header_checksum c (set_ecn4 e h) in
    headers_from_slice (to_bytes4 h' ++ drop (header_len h) p) = Some (inl h');
  length_to_bytes6 p h e : headers_from_slice p = Some (inr h) →
    length (to_bytes6 (set_ecn6 e h)) = 40%nat;
  header_fits6 p h : headers_from_slice p = Some (inr h) → (40 ≤ length p)%nat;
  ecn6_set e h : ecn6 (set_ecn6 e h) = e;
  reparse6 p h e : headers_from_slice p = Some (inr h) →
    headers_from_slice (to_bytes6 (set_ecn6 e h) ++ drop 40 p) = Some (inr (set_ecn6 e h));
}.

(** ** Marking *)
Inductive PacketAction : Type := Forward | Drop.

(** [buf[..n].copy_from_slice(src)], which panics when the range is too long for
    the buffer or differs from the source in length. *)
Definition copy_prefix (buf : list byte) (n : nat) (src : list byte) : outcome (list byte) :=
  if (n <=? length buf)%nat && (length src =? n)%nat then Ret (src ++ drop n buf) else Panic.

Section Ecn.
Context `{IpHeaderOps}.

Definition process_packet_congestion (packet_buffer : list byte) :
    outcome (PacketAction * list byte) :=
  match headers_from_slice packet_buffer with
  | None => Ret (Drop, packet_buffer)
  | Some (inl ipv4_header) =>
      match ecn4 ipv4_header with
      | Ect0 | Ect1 =>
          let ipv4_header := set_ecn4 CongestionExperienced ipv4_header in
          let ipv4_header :=
            set_header_checksum (calc_header_checksum ipv4_header) ipv4_header in
          let! packet_buffer :=
            copy_prefix packet_buffer (header_len ipv4_header) (to_bytes4 ipv4_header) in
          Ret (Forward, packet_buffer)
      | CongestionExperienced => Ret (Forward, packet_buffer)
      | NotEct => Ret (Drop, packet_buffer)
      end
  | Some (inr ipv6_header) =>
      match ecn6 ipv6_header with
      | Ect0 | Ect1 =>
          let ipv6_header := set_ecn6 CongestionExperienced ipv6_header in
          let! packet_buffer := copy_prefix packet_buffer 40 (to_bytes6 ipv6_header) in
          Ret (Forward, packet_buffer)
      | CongestionExperienced => Ret (Forward, packet_buffer)
      | NotEct => Ret (Drop, packet_buffer)
      end
  end.

(** The ECN field and the header length of a packet. *)
Definition packet_ecn (p : list byte) : option IpEcn :=
  (λ h, match h with inl h => ecn4 h | inr h => ecn6 h end) <$> headers_from_slice p.
Definition packet_header_len (p : list byte) : nat :=
  match headers_from_slice p with
  | Some (inl h) => header_len h
  | Some (inr _) => 40
  | None => 0
  end.
Definition checksum_valid (p : list byte) : Prop :=
  match headers_from_slice p with
  | Some (inl h) => header_checksum h = calc_header_checksum h
  | _ => True
  end.
End Ecn.

(** ** The drop policy *)

(** Rust's [f32]: the operations of the binary32 format, rounding to nearest. *)
Module f32.
Definition prec : Z := 24.
Definition emax : Z := 128.

Definition of_Z (z : Z) : spec_float := binary_normalize prec emax z 0 false.
Definition sub := SFsub prec emax.
Definition mul := SFmul prec emax.
Definition div := SFdiv prec emax.
Definition lt := SFltb.
Definition le := SFleb.
Definition one : spec_float := of_Z 1.
End f32.

(** [rng.random::<f32>()] from the 32 random bits: the top 24, scaled by
    [2^-24]. *)
Definition random_f32 (bits : Z) : spec_float :=
  binary_normalize f32.prec f32.emax (Z.shiftr bits 8) (-24) false.

Definition linear_aqm_rng (bits : Z) (threshold fill_ratio : spec_float) : bool :=
  if f32.lt fill_ratio threshold then true
  else
    let r := random_f32 bits in
    f32.le (f32.sub fill_ratio threshold) (f32.mul r (f32.sub f32.one threshold)).

(** [Peer::ECN_THRESHOLD]. *)
Definition ECN_THRESHOLD : spec_float := binary_normalize f32.prec f32.emax 1 (-1) false.

(** ** Properties *)
Section Facts.
Context `{IpHeaderLaws}.

Lemma copy_prefix_fits buf n src :
  (n ≤ length buf)%nat → length src = n → copy_prefix buf n src = Ret (src ++ drop n buf).
Proof.
  intros. unfold copy_prefix. by rewrite (proj2 (Nat.leb_le _ _)), (proj2 (Nat.eqb_eq _ _)).
Qed.

Lemma congestion_marking_facts (p : list byte) :
  ∃ action p', process_packet_congestion p = Ret (action, p') ∧
    length p' = length p ∧ drop (packet_header_len p) p' = drop (packet_header_len p) p ∧
    match packet_ecn p with
    | Some (Ect0 | Ect1) =>
        action = Forward ∧ packet_ecn p' = Some CongestionExperienced ∧ checksum_valid p'
    | Some CongestionExperienced => action = Forward ∧ p' = p
    | Some NotEct | None => action = Drop ∧ p' = p
    end.
Proof.
  unfold process_packet_congestion, packet_ecn, packet_header_len, checksum_valid.
  destruct (headers_from_slice p) as [[h|h]|] eqn:Eh; simpl; [| |by eexists _, _].
  - pose proof (header_fits4 _ _ Eh) as Hfit.
    set (h1 := set_ecn4 CongestionExperienced h).
    pose proof (reparse4 p h CongestionExperienced (calc_header_checksum h1) Eh) as Hre.
    cbv zeta in Hre. fold h1 in Hre.
    set (h2 := set_header_checksum (calc_header_checksum h1) h1) in *.
    assert (header_len h2 = header_len h) as Hlen
      by (unfold h2, h1; by rewrite header_len_set_checksum, header_len_set_ecn4).
    pose proof (length_to_bytes4 h2) as Hb. rewrite Hlen in Hb.
    rewrite Hlen, copy_prefix_fits by done.
    assert (length (to_bytes4 h2 ++ drop (header_len h) p) = length p) as Hl
      by (rewrite length_app, length_drop; lia).
    assert (drop (header_len h) (to_bytes4 h2 ++ drop (header_len h) p) = drop (header_len h) p)
      as Hd by (by rewrite drop_app_length').
    destruct (ecn4 h); eexists _, _; (split; [done|]); (split; [done|]); (split; [done|]);
      rewrite ?Hre; simpl; try done.
    all: split; [done|]; unfold h2; rewrite ecn4_set_checksum, checksum_set, calc_checksum_set.
    all: unfold h1; by rewrite ecn4_set.
  - pose proof (header_fits6 _ _ Eh) as Hfit.
    pose proof (reparse6 p h CongestionExperienced Eh) as Hre.
    set (h2 := set_ecn6 CongestionExperienced h) in *.
    pose proof (length_to_bytes6 _ _ CongestionExperienced Eh) as Hb. fold h2 in Hb.
    rewrite copy_prefix_fits by done.
    assert (length (to_bytes6 h2 ++ drop 40 p) = length p) as Hl
      by (rewrite length_app, length_drop; lia).
    assert (drop 40 (to_bytes6 h2 ++ drop 40 p) = drop 40 p) as Hd
      by (by rewrite drop_app_length').
    destruct (ecn6 h); eexists _, _; (split; [done|]); (split; [done|]); (split; [done|]);
      rewrite ?Hre; simpl; try done.
    all: split; [done|]; unfold h2; by rewrite ecn6_set.
Qed.
(** C28: marking a packet under congestion never panics and keeps its length
    and everything after its IP header. A packet of an ECN-capable transport is
    forwarded, and then carries the congestion mark with a valid header
    checksum; one that cannot be parsed or is not ECN-capable is dropped,
    untouched. *)
Theorem congestion_marking (p : list byte) :
  ∃ action p', process_packet_congestion p = Ret (action, p') ∧
    length p' = length p ∧ drop (packet_header_len p) p' = drop (packet_header_len p) p ∧
    match packet_ecn p with
    | Some (Ect0 | Ect1) =>
        action = Forward ∧ packet_ecn p' = Some CongestionExperienced ∧ checksum_valid p'
    | Some CongestionExperienced => action = Forward ∧ p' = p
    | Some NotEct | None => action = Drop ∧ p' = p
    end.
Proof. apply congestion_marking_facts. Qed.
End Facts.

(** ** Reference headers

    An IPv4 header as its fields around the type of service and the checksum, an
    IPv6 header as its bytes around the second one, which holds the ECN bits. *)
Module HeaderRef.
Import EtherparseRef.

Record hdr4 := {
  h_vihl : byte; h_tos : byte; h_mid : list byte; h_sum : Z; h_tail : list byte;
}.
Record hdr6 := { h_first : byte; h_class : byte; h_rest : list byte }.

Definition ecn_of (z : Z) : IpEcn :=
  if z =? 0 then NotEct else if z =? 1 then Ect1 else if z =? 2 then Ect0
  else CongestionExperienced.
Definition ecn_val (e : IpEcn) : Z :=
  match e with NotEct => 0 | Ect1 => 1 | Ect0 => 2 | CongestionExperienced => 3 end.

Definition bytes4 (h : hdr4) : list byte :=
  h_vihl h :: h_tos h :: h_mid h ++ u16 (h_sum h) ++ h_tail h.
Definition bytes6 (h : hdr6) : list byte := h_first h :: h_class h :: h_rest h.

Definition ihl (b : byte) : nat := Z.to_nat (byte_val b mod 16 * 4).

Definition parse4 (b0 b1 : byte) (rest : list byte) : hdr4 :=
  {| h_vihl := b0; h_tos := b1; h_mid := take 8 rest;
     h_sum := from_be_bytes (take 2 (drop 8 rest));
     h_tail := take (ihl b0 - 12) (drop 10 rest) |}.

Definition parse (p : list byte) : option (hdr4 + hdr6) :=
  match p with
  | b0 :: b1 :: rest =>
      if byte_val b0 / 16 =? 4 then
        if (20 <=? ihl b0)%nat && (ihl b0 <=? 2 + length rest)%nat
        then Some (inl (parse4 b0 b1 rest)) else None
      else if byte_val b0 / 16 =? 6 then
        if (38 <=? length rest)%nat
        then Some (inr {| h_first := b0; h_class := b1; h_rest := take 38 rest |}) else None
      else None
  | _ => None
  end.

#[export] Instance header_ops : IpHeaderOps := {
  Ipv4Header := hdr4;
  Ipv6Header := hdr6;
  headers_from_slice := parse;
  ecn4 h := ecn_of (byte_val (h_tos h) mod 4);
  set_ecn4 e h :=
    {| h_vihl := h_vihl h; h_tos := byte_of (byte_val (h_tos h) / 4 * 4 + ecn_val e);
       h_mid := h_mid h; h_sum := h_sum h; h_tail := h_tail h |};
  header_checksum := h_sum;
  set_header_checksum c h :=
    {| h_vihl := h_vihl h; h_tos := h_tos h; h_mid := h_mid h; h_sum := c mod 2 ^ 16;
       h_tail := h_tail h |};
  calc_header_checksum h :=
    checksum (h_vihl h :: h_tos h :: h_mid h ++ h_tail h) mod 2 ^ 16;
  header_len h := length (bytes4 h);
  to_bytes4 := bytes4;
  ecn6 h := ecn_of (byte_val (h_class h) / 16 mod 4);
  set_ecn6 e h :=
    let c := byte_val (h_class h) in
    {| h_first := h_first h;
       h_class := byte_of (c / 64 * 64 + ecn_val e * 16 + c mod 16); h_rest := h_rest h |};
  to_bytes6 := bytes6;
}.

Lemma ecn_of_val e : ecn_of (ecn_val e) = e.
Proof. by destruct e. Qed.

Lemma ecn_val_range e : 0 ≤ ecn_val e < 4.
Proof. destruct e; simpl; lia. Qed.

Lemma length_bytes4 h : length (bytes4 h) = (length (h_mid h) + 4 + length (h_tail h))%nat.
Proof. unfold bytes4, u16. cbn [length]. rewrite !length_app, length_to_be_bytes. lia. Qed.

Lemma parse_v4 p h :
  parse p = Some (inl h) → ∃ b0 b1 rest, p = b0 :: b1 :: rest ∧ h = parse4 b0 b1 rest ∧
    byte_val b0 / 16 = 4 ∧ (20 ≤ ihl b0 ≤ 2 + length rest)%nat.
Proof.
  destruct p as [|b0 [|b1 rest]]; simpl; [done..|]. repeat case_match; try done.
  intros; simplify_eq. bool_to_prop. exists b0, b1, rest. split_and!; done || lia.
Qed.

Lemma parse_v6 p h :
  parse p = Some (inr h) → ∃ b0 b1 rest, p = b0 :: b1 :: rest ∧
    h = {| h_first := b0; h_class := b1; h_rest := take 38 rest |} ∧
    byte_val b0 / 16 = 6 ∧ (38 ≤ length rest)%nat.
Proof.
  destruct p as [|b0 [|b1 rest]]; simpl; [done..|]. repeat case_match; try done.
  intros; simplify_eq. bool_to_prop. exists b0, b1, rest. split_and!; done || lia.
Qed.

Lemma parse_v6_intro b0 b1 rest :
  byte_val b0 / 16 = 6 → (38 ≤ length rest)%nat →
  parse (b0 :: b1 :: rest) =
    Some (inr {| h_first := b0; h_class := b1; h_rest := take 38 rest |}).
Proof. intros Hv Hl. unfold parse. by rewrite Hv, (proj2 (Nat.leb_le _ _) Hl). Qed.

Lemma length_parse4 b0 b1 rest :
  (20 ≤ ihl b0 ≤ 2 + length rest)%nat → length (bytes4 (parse4 b0 b1 rest)) = ihl b0.
Proof.
  intros. rewrite length_bytes4. simpl. rewrite !length_take, length_drop. lia.
Qed.

(** A header written over the old one, with any type of service and checksum,
    parses back. *)
Lemma parse_rewrite b0 b1 rest t c :
  byte_val b0 / 16 = 4 → (20 ≤ ihl b0 ≤ 2 + length rest)%nat →
  let h := {| h_vihl := b0; h_tos := t; h_mid := take 8 rest; h_sum := c mod 2 ^ 16;
              h_tail := take (ihl b0 - 12) (drop 10 rest) |} in
  parse (bytes4 h ++ drop (ihl b0) (b0 :: b1 :: rest)) = Some (inl h).
Proof.
  intros Hv Hl h. unfold bytes4, h. simpl h_vihl. simpl h_tos. simpl h_mid. simpl h_sum.
  simpl h_tail. rewrite <- !app_comm_cons, <- !app_assoc.
  set (q := take 8 rest ++ _). unfold parse. rewrite Hv. simpl (4 =? 4).
  assert (length q = length rest) as Hq.
  { unfold q, u16. rewrite !length_app, length_to_be_bytes, !length_take, !length_drop.
    simpl length. lia. }
  cbv iota beta. rewrite Hq, !(proj2 (Nat.leb_le _ _)) by lia. simpl andb. cbv iota.
  f_equal. f_equal. unfold parse4.
  assert (length (take 8 rest) = 8%nat) as H8 by (rewrite length_take; lia).
  assert (take 8 q = take 8 rest) as -> by (unfold q; by apply take_app_length').
  assert (drop 8 q = u16 (c mod 2 ^ 16) ++ take (ihl b0 - 12) (drop 10 rest)
    ++ drop (ihl b0) (b0 :: b1 :: rest)) as Hd8 by (unfold q; by apply drop_app_length').
  rewrite Hd8, take_app_length' by (unfold u16; by rewrite length_to_be_bytes).
  assert (drop 10 q = take (ihl b0 - 12) (drop 10 rest) ++ drop (ihl b0) (b0 :: b1 :: rest))
    as ->.
  { change 10%nat with (8 + 2)%nat. rewrite <- drop_drop, Hd8. apply drop_app_length'.
    unfold u16. by rewrite length_to_be_bytes. }
  rewrite take_app_length' by (rewrite length_take, length_drop; lia).
  unfold u16. rewrite from_to_be_bytes. simpl (8 * _). by rewrite Z.mod_mod.
Qed.

Lemma tos_ecn b e :
  ecn_of (byte_val (byte_of (byte_val b / 4 * 4 + ecn_val e)) mod 4) = e.
Proof.
  rewrite byte_val_of. change 256 with (4 * 64).
  pose proof (byte_val_unsigned b) as [? ?]. pose proof (ecn_val_range e).
  change (2 ^ 8) with 256 in *.
  rewrite (Z.mod_small _ (4 * 64)) by (Z.to_euclidean_division_equations; lia).
  rewrite Z.add_comm, Z.mod_add, Z.mod_small by lia. apply ecn_of_val.
Qed.

Lemma class_ecn b e :
  let c := byte_val b in
  ecn_of (byte_val (byte_of (c / 64 * 64 + ecn_val e * 16 + c mod 16)) / 16 mod 4) = e.
Proof.
  intros c. rewrite byte_val_of. pose proof (byte_val_unsigned b) as [? ?].
  pose proof (ecn_val_range e). change (2 ^ 8) with 256 in *. fold c in H, H0.
  rewrite (Z.mod_small _ 256) by (Z.to_euclidean_division_equations; lia).
  assert ((c / 64 * 64 + ecn_val e * 16 + c mod 16) / 16 = ecn_val e + c / 64 * 4) as ->
    by (Z.to_euclidean_division_equations; lia).
  rewrite Z.mod_add, Z.mod_small by lia. apply ecn_of_val.
Qed.

#[export] Instance header_laws : IpHeaderLaws header_ops.
Proof.
  constructor; cbn -[bytes4 bytes6 parse Z.pow Z.div Z.modulo Z.add Z.mul].
  - done.
  - intros p h (b0 & b1 & rest & -> & -> & _ & Hl)%parse_v4.
    rewrite length_parse4 by done. simpl. lia.
  - intros e h. by rewrite !length_bytes4.
  - intros c h. by rewrite !length_bytes4.
  - intros e h. apply tos_ecn.
  - done.
  - intros h. rewrite Z.mod_mod; [done|lia].
  - done.
  - intros p h e c (b0 & b1 & rest & -> & -> & Hv & Hl)%parse_v4.
    rewrite length_parse4 by done. by apply parse_rewrite.
  - intros p h e (b0 & b1 & rest & -> & -> & _ & Hl)%parse_v6. unfold bytes6. cbn.
    rewrite length_take. lia.
  - intros p h (b0 & b1 & rest & -> & -> & _ & Hl)%parse_v6. simpl. lia.
  - intros e h. apply class_ecn.
  - intros p h e (b0 & b1 & rest & -> & -> & Hv & Hl)%parse_v6.
    etransitivity; [apply (parse_v6_intro b0 _ (take 38 rest ++ drop 38 rest)); [done|]|].
    + rewrite take_drop. lia.
    + do 2 f_equal. unfold set_ecn6. simpl. f_equal.
      rewrite take_app_length'; [done|]. rewrite length_take. lia.
Qed.
End HeaderRef.
Import HeaderRef.

(** The packets of the unit tests, with an ECN field. *)
Definition ipv4_packet (ecn : IpEcn) : list byte :=
  let h := {| h_vihl := x45; h_tos := byte_of (ecn_val ecn);
              h_mid := map byte_of [0; 24; 0; 0; 0; 0; 64; 17]; h_sum := 0;
              h_tail := map byte_of [10; 0; 0; 1; 10; 0; 0; 2] |} in
  bytes4 (set_header_checksum (calc_header_checksum h) h) ++ [xde; xad; xbe; xef].

Lemma congestion_marking_witness :
  ∃ action p', process_packet_congestion (ipv4_packet Ect1) = Ret (action, p') ∧
    action = Forward ∧ packet_ecn p' = Some CongestionExperienced ∧ checksum_valid p'.
Proof.
  destruct (congestion_marking (ipv4_packet Ect1)) as (action & p' & E & _ & _ & Hm).
  assert (packet_ecn (ipv4_packet Ect1) = Some Ect1) as Ee by (by vm_compute).
  rewrite Ee in Hm. exact (ex_intro _ action (ex_intro _ p' (conj E Hm))).
Defined.
