(* ===== verification/BufferPool.v ===== *)
(** * The pool of packet buffers

    Models [src/src/buffer_pool.rs]: a fixed number of preallocated buffers in a
    bounded channel of the [tokio] crate, which is a parameter; buffers handed
    out come back when they are dropped. *)

From S2P Require Import Prelude ErrorCode.
From stdpp Require Import prelude.
From Stdlib Require Import Strings.Byte.

Local Open Scope Z_scope.

(** ** [tokio::sync::mpsc], the bounded channel *)
Inductive TrySendError : Type := Full | Closed.

Class Mpsc (A : Type) := {
  channel : Type;
  channel_new : nat → channel;
  try_send : A → channel → result unit TrySendError * channel;
  (** [None]: the channel is empty and [recv] waits. *)
  try_recv : channel → option (A * channel);
  (** [capacity]: how many more messages fit. *)
  capacity : channel → nat;
  max_capacity : channel → nat;
}.

(** The messages in a channel, oldest first. *)
Class MpscLaws (A : Type) `{Mpsc A} (contents : channel → list A) : Prop := {
  contents_new n : contents (channel_new n) = [] ∧ max_capacity (channel_new n) = n;
  try_send_law a c :
    if decide (length (contents c) < max_capacity c)%nat
    then ∃ c', try_send a c = (Ok tt, c') ∧ contents c' = contents c ++ [a] ∧
           max_capacity c' = max_capacity c
    else try_send a c = (Err Full, c);
  try_recv_law c :
    match contents c with
    | [] => try_recv c = None
    | a :: l => ∃ c', try_recv c = Some (a, c') ∧ contents c' = l ∧
                  max_capacity c' = max_capacity c
    end;
  capacity_law c : capacity c = (max_capacity c - length (contents c))%nat;
}.

(** ** The pool *)
Record PooledBuffer := { buffer : list byte; filled_len : nat }.

Section Pool.
Context `{Mpsc (list byte)}.

(** [BufferPool] and its gauges: the available and the handed-out buffers.
    [pool_alive] is [false] once the pool has been dropped, when the weak
    references of the buffers can no longer be upgraded. *)
Record BufferPool := {
  pool : channel;
  pool_alive : bool;
  capacity_gauge : Z;
  active_gauge : Z;
}.

Fixpoint fill_pool (count buf_size : nat) (c : channel) : outcome channel :=
  match count with
  | O => Ret c
  | S count =>
      match try_send (replicate buf_size x00) c with
      | (Ok _, c) => fill_pool count buf_size c
      | (Err _, _) => Panic
      end
  end.

Definition BufferPool_new (count buf_size : nat) : outcome BufferPool :=
  let! c := fill_pool count buf_size (channel_new count) in
  Ret {| pool := c; pool_alive := true; capacity_gauge := Z.of_nat count; active_gauge := 0 |}.

Definition report_available (self : BufferPool) : BufferPool :=
  {| pool := pool self; pool_alive := pool_alive self;
     capacity_gauge := Z.of_nat (max_capacity (pool self) - capacity (pool self));
     active_gauge := active_gauge self |}.

(** [None]: no buffer is available and [pop] waits. *)
Definition pop (self : BufferPool) : option (PooledBuffer * BufferPool) :=
  '(b, c) ← try_recv (pool self);
  let result := {| buffer := b; filled_len := 0 |} in
  let self := {| pool := c; pool_alive := pool_alive self;
                 capacity_gauge := capacity_gauge self;
                 active_gauge := active_gauge self + 1 |} in
  Some (result, report_available self).

(** [Drop for PooledBuffer]: the gauges are updated before the buffer is back. *)
Definition PooledBuffer_drop (b : PooledBuffer) (self : BufferPool) : outcome BufferPool :=
  if pool_alive self then
    let self := {| pool := pool self; pool_alive := true;
                   capacity_gauge := capacity_gauge self;
                   active_gauge := active_gauge self - 1 |} in
    let self := report_available self in
    match try_send (buffer b) (pool self) with
    | (Ok _, c) | (Err Closed, c) =>
        Ret {| pool := c; pool_alive := true; capacity_gauge := capacity_gauge self;
               active_gauge := active_gauge self |}
    | (Err Full, _) => Panic
    end
  else Ret self.

Definition BufferPool_drop (self : BufferPool) : BufferPool :=
  {| pool := pool self; pool_alive := false; capacity_gauge := capacity_gauge self;
     active_gauge := active_gauge self |}.
End Pool.

(** ** A buffer *)

Definition remaining_mut (b : PooledBuffer) : nat := length (buffer b) - filled_len b.

Definition advance_mut (cnt : nat) (b : PooledBuffer) : outcome PooledBuffer :=
  if (remaining_mut b <? cnt)%nat then Panic
  else Ret {| buffer := buffer b; filled_len := filled_len b + cnt |}.

(** [&mut self.buffer[self.filled_len..]]. *)
Definition chunk_mut (b : PooledBuffer) : outcome (list byte) :=
  if (filled_len b <=? length (buffer b))%nat then Ret (drop (filled_len b) (buffer b)) else Panic.

(** [src] stored after the filled part, which is not advanced. *)
Definition store (src : list byte) (b : PooledBuffer) : PooledBuffer :=
  {| buffer := take (filled_len b) (buffer b) ++ src
                 ++ drop (filled_len b + length src) (buffer b);
     filled_len := filled_len b |}.

(** [BufMut::put_slice], the provided method: one chunk is all that remains. *)
Definition put_slice (src : list byte) (b : PooledBuffer) : outcome PooledBuffer :=
  if (remaining_mut b <? length src)%nat then Panic
  else let! _ := chunk_mut b in advance_mut (length src) (store src b).

(** [&self.buffer[..self.filled_len]]. *)
Definition deref (b : PooledBuffer) : outcome (list byte) :=
  if (filled_len b <=? length (buffer b))%nat then Ret (take (filled_len b) (buffer b)) else Panic.

(** [UpdatingReadBuf]: the length of the buffer it borrows, and what has been
    filled through it; dropping it advances the length. *)
Record UpdatingReadBuf := { rb_target : nat; rb_filled : list byte }.
Definition UpdatingReadBuf_drop (self : UpdatingReadBuf) : nat :=
  rb_target self + length (rb_filled self).

(** [read_buf], while [body] writes into the slice of [n] bytes it is given and
    returns what it filled. *)
Definition read_buf (b : PooledBuffer) (body : nat → outcome (list byte)) :
    outcome PooledBuffer :=
  let! chunk := chunk_mut b in
  let! filled := body (length chunk) in
  Ret {| buffer := buffer (store filled b);
         filled_len := UpdatingReadBuf_drop {| rb_target := filled_len b; rb_filled := filled |} |}.

(** [PooledSlice]: an owned, read-only view of a buffer. *)
Record PooledSlice := { owned : PooledBuffer }.
Definition PooledSlice_from (b : PooledBuffer) : PooledSlice := {| owned := b |}.
Definition to_buffer (s : PooledSlice) : PooledBuffer := owned s.
Definition slice_deref (s : PooledSlice) : outcome (list byte) := deref (owned s).

(** A device delivers a frame into a slice of [n] bytes, or fails. *)
Definition device_recv : Type := nat → result (list byte) IoError.

(** [read_frame]: the frame is written after the filled part, and the length is
    advanced by the [UpdatingReadBuf] when it is dropped; [ReadBuf::advance]
    panics beyond the slice. On an error the buffer is dropped as it is. *)
Definition read_frame (b : PooledBuffer) (dev : device_recv) :
    outcome (result PooledBuffer IoError) :=
  if (filled_len b <=? length (buffer b))%nat then
    let n := (length (buffer b) - filled_len b)%nat in
    match dev n with
    | Err err => Ret (Err err)
    | Ok frame =>
        let len := length frame in
        if (len <=? n)%nat then
          Ret (Ok {| buffer := take (filled_len b) (buffer b) ++ frame
                                 ++ drop (filled_len b + len) (buffer b);
                     filled_len := filled_len b + len |})
        else Panic
    end
  else Panic.

(** [write_frame]: [send] is what the device answers for a frame. *)
Definition write_frame (frame : list byte) (send : list byte → result nat IoError) :
    result unit IoError :=
  let? written_len := send frame in
  if negb (written_len =? length frame)%nat
  then Err {| kind := ErrorKind.Other; raw_os_error := None |}
  else Ok tt.

(** ** A pool in use *)
Section Use.
Context `{Mpsc (list byte)}.

(** The pool and the buffers that are handed out. *)
Record Usage := { the_pool : BufferPool; out : list PooledBuffer }.

Inductive pool_op : Type :=
  | Pop
  | Read (i : nat) (dev : device_recv)
  | Advance (i cnt : nat)
  | DropBuffer (i : nat)
  | DropPool.

(** The effect of an operation; one that cannot happen now (waiting, no such
    buffer) leaves everything as it is. A failed read drops its buffer. *)
Definition run_pool_op (o : pool_op) (u : Usage) : outcome Usage :=
  match o with
  | Pop =>
      if pool_alive (the_pool u) then
        match pop (the_pool u) with
        | Some (b, p) => Ret {| the_pool := p; out := out u ++ [b] |}
        | None => Ret u
        end
      else Ret u
  | Read i dev =>
      match out u !! i with
      | None => Ret u
      | Some b =>
          let! r := read_frame b dev in
          match r with
          | Ok b' => Ret {| the_pool := the_pool u; out := <[i := b']> (out u) |}
          | Err _ =>
              let! p := PooledBuffer_drop b (the_pool u) in
              Ret {| the_pool := p; out := delete i (out u) |}
          end
      end
  | Advance i cnt =>
      match out u !! i with
      | None => Ret u
      | Some b =>
          let! b' := advance_mut cnt b in
          Ret {| the_pool := the_pool u; out := <[i := b']> (out u) |}
      end
  | DropBuffer i =>
      match out u !! i with
      | None => Ret u
      | Some b =>
          let! p := PooledBuffer_drop b (the_pool u) in
          Ret {| the_pool := p; out := delete i (out u) |}
      end
  | DropPool => Ret {| the_pool := BufferPool_drop (the_pool u); out := out u |}
  end.

Fixpoint run_pool_ops (os : list pool_op) (u : Usage) : outcome Usage :=
  match os with
  | [] => Ret u
  | o :: os => let! u := run_pool_op o u in run_pool_ops os u
  end.
End Use.

(** ** Properties *)
Section Facts.
Context `{MpscLaws (list byte) contents}.

(** A device keeps to the slice it is given. *)
Definition device_ok (dev : device_recv) : Prop :=
  ∀ n frame, dev n = Ok frame → (length frame ≤ n)%nat.

Definition op_ok (o : pool_op) : Prop :=
  match o with Read _ dev => device_ok dev | _ => True end.

(** A buffer is to be advanced beyond its end. *)
Definition overruns (u : Usage) (o : pool_op) : Prop :=
  match o with
  | Advance i cnt => ∃ b, out u !! i = Some b ∧ (length (buffer b) < filled_len b + cnt)%nat
  | _ => False
  end.

(** One of the operations does that, when it is its turn. *)
Definition overrun_in (os : list pool_op) (u : Usage) : Prop :=
  ∃ os1 o os2 u1, os = os1 ++ o :: os2 ∧ run_pool_ops os1 u = Ret u1 ∧ overruns u1 o.

Lemma overrun_in_cons o os u u' :
  run_pool_op o u = Ret u' → ¬ overruns u o → overrun_in (o :: os) u ↔ overrun_in os u'.
Proof.
  intros E Hno. split.
  - intros ([|o1 os1] & o2 & os2 & u1 & [= <- ->] & E1 & Ho); simpl in E1; [by simplify_eq|].
    rewrite E in E1. by exists os1, o2, os2, u1.
  - intros (os1 & o2 & os2 & u1 & -> & E1 & Ho). exists (o :: os1), o2, os2, u1. simpl. by rewrite E.
Qed.

Section Sized.
Context (count size : nat).

Definition buffer_ok (b : PooledBuffer) : Prop :=
  length (buffer b) = size ∧ (filled_len b ≤ size)%nat.

Record usage_inv (u : Usage) : Prop := {
  ui_max : max_capacity (pool (the_pool u)) = count;
  ui_conserved : pool_alive (the_pool u) = true →
    (length (contents (pool (the_pool u))) + length (out u) = count)%nat ∧
    active_gauge (the_pool u) = Z.of_nat (length (out u));
  ui_free : Forall (λ b, length b = size) (contents (pool (the_pool u)));
  ui_out : Forall buffer_ok (out u);
}.

Lemma fill_pool_spec n c :
  (length (contents c) + n = max_capacity c)%nat → max_capacity c = count →
  Forall (λ b, length b = size) (contents c) →
  ∃ c', fill_pool n size c = Ret c' ∧ length (contents c') = count ∧ max_capacity c' = count ∧
    Forall (λ b, length b = size) (contents c').
Proof.
  revert c. induction n as [|n IH]; intros c Hlen Hmax Hf; simpl.
  { exists c. split_and!; [done|lia|done..]. }
  pose proof (try_send_law (replicate size x00) c) as Hs.
  rewrite decide_True in Hs by lia. destruct Hs as (c' & -> & Hc & Hm).
  apply IH; rewrite ?Hc, ?Hm, ?length_app; simpl; [lia|done|].
  apply Forall_app_2; [done|]. repeat constructor. apply length_replicate.
Qed.

Lemma new_inv : ∃ p, BufferPool_new count size = Ret p ∧
  pool_alive p = true ∧ usage_inv {| the_pool := p; out := [] |}.
Proof.
  destruct (contents_new count) as [Hc Hm].
  destruct (fill_pool_spec count (channel_new count)) as (c & Ec & Hl & Hm' & Hf).
  { rewrite Hc, Hm. done. }
  { done. }
  { by rewrite Hc. }
  unfold BufferPool_new. rewrite Ec. eexists. split; [done|]. split; [done|].
  split; simpl; [done|intros _; split; [lia|done]|done|constructor].
Qed.

Lemma drop_buffer_inv u i b :
  usage_inv u → out u !! i = Some b →
  ∃ p, PooledBuffer_drop b (the_pool u) = Ret p ∧
    pool_alive p = pool_alive (the_pool u) ∧
    usage_inv {| the_pool := p; out := delete i (out u) |}.
Proof.
  intros [Hm Hc Hf Ho] Hi. unfold PooledBuffer_drop.
  pose proof (lookup_lt_Some _ _ _ Hi) as Hlt.
  pose proof (length_delete (out u) i ltac:(by eexists)) as Hdel.
  assert (Forall buffer_ok (delete i (out u))) as Ho' by (by apply Forall_delete).
  destruct (pool_alive (the_pool u)) eqn:Ea.
  - destruct (Hc eq_refl) as [Hlen Hact]. simpl.
    pose proof (try_send_law (buffer b) (pool (the_pool u))) as Hs.
    rewrite decide_True in Hs by lia. destruct Hs as (c' & -> & Hc' & Hm').
    eexists. split; [done|]. split; [done|]. split; simpl; [by rewrite Hm'| | |done].
    + intros _. rewrite Hc', length_app, Hdel. simpl. lia.
    + rewrite Hc'. apply Forall_app_2; [done|]. repeat constructor.
      by eapply Forall_lookup_1 in Ho as [? _].
  - eexists. split; [done|]. split; [done|]. split; simpl; [done| |done..].
    by rewrite Ea.
Qed.

Lemma replace_buffer_inv u i b b' :
  usage_inv u → out u !! i = Some b → buffer_ok b' →
  usage_inv {| the_pool := the_pool u; out := <[i := b']> (out u) |}.
Proof.
  intros [Hm Hc Hf Ho] Hi Hb. split; simpl; [done| |done|].
  - by rewrite length_insert.
  - by apply Forall_insert.
Qed.

Lemma read_frame_spec b dev :
  buffer_ok b →
  (∀ frame, dev (remaining_mut b) = Ok frame → (length frame ≤ remaining_mut b)%nat) →
  ∃ r, read_frame b dev = Ret r ∧ ∀ b', r = Ok b' → buffer_ok b' ∧
    ∃ frame, dev (remaining_mut b) = Ok frame ∧
      deref b' = Ret (take (filled_len b) (buffer b) ++ frame).
Proof.
  intros [Hl Hfill] Hd. unfold read_frame. unfold remaining_mut in *.
  rewrite (proj2 (Nat.leb_le _ _)) by lia.
  destruct (dev _) as [frame|err] eqn:Ed; [|by eexists].
  pose proof (Hd frame eq_refl) as Hle. rewrite (proj2 (Nat.leb_le _ _)) by lia.
  eexists. split; [done|]. intros b' [= <-].
  assert (length (take (filled_len b) (buffer b)) = filled_len b) as Ht
    by (rewrite length_take; lia).
  split.
  - split; simpl; [|lia]. rewrite !length_app, Ht, length_drop. lia.
  - exists frame. split; [done|]. unfold deref. simpl.
    rewrite (proj2 (Nat.leb_le _ _)) by (rewrite !length_app, Ht, length_drop; lia).
    rewrite app_assoc, take_app_length'; [done|]. rewrite length_app. lia.
Qed.

(** Taking the oldest free buffer. *)
Lemma pop_inv u :
  usage_inv u → pool_alive (the_pool u) = true → contents (pool (the_pool u)) ≠ [] →
  ∃ b p, pop (the_pool u) = Some (b, p) ∧ pool_alive p = true ∧
    filled_len b = 0%nat ∧ length (buffer b) = size ∧
    length (contents (pool (the_pool u))) = S (length (contents (pool p))) ∧
    usage_inv {| the_pool := p; out := out u ++ [b] |}.
Proof.
  intros [Hm Hc Hf Ho] Ha Hne. destruct (Hc Ha) as [Hlen Hact].
  unfold pop. pose proof (try_recv_law (pool (the_pool u))) as Hr.
  destruct (contents (pool (the_pool u))) as [|b l] eqn:Ec; [done|].
  destruct Hr as (c' & -> & Hc' & Hm'). simpl.
  apply Forall_cons in Hf as [Hb Hf]. eexists _, _. split; [done|].
  split_and!; simpl; [done..|by rewrite Hc'|]. split; simpl.
  - by rewrite Hm'.
  - intros _. rewrite Hc', length_app. simpl in *. lia.
  - by rewrite Hc'.
  - apply Forall_app_2; [done|]. repeat constructor; simpl; lia.
Qed.

Lemma run_pool_op_inv o u :
  op_ok o → usage_inv u →
  match run_pool_op o u with
  | Panic => overruns u o
  | Ret u' => ¬ overruns u o ∧ usage_inv u'
  end.
Proof.
  intros Hok Hu. destruct o as [|i dev|i cnt|i|]; simpl.
  - destruct (pool_alive (the_pool u)) eqn:Ea; [|split; [tauto|done]].
    destruct (decide (contents (pool (the_pool u)) = [])) as [Ec|Ec].
    + pose proof (try_recv_law (pool (the_pool u))) as Hr. rewrite Ec in Hr.
      unfold pop. rewrite Hr. split; [tauto|done].
    + destruct (pop_inv u Hu Ea Ec) as (b & p & -> & _ & _ & _ & _ & Hp). split; [tauto|done].
  - destruct (out u !! i) as [b|] eqn:Hi; [|split; [tauto|done]].
    pose proof (ui_out _ Hu) as Ho. eapply Forall_lookup_1 in Ho; [|done].
    destruct (read_frame_spec b dev Ho (Hok _)) as (r & -> & Hr). destruct r as [b'|err].
    + destruct (Hr b' eq_refl) as [Hb _]. split; [tauto|]. by eapply replace_buffer_inv.
    + destruct (drop_buffer_inv u i b Hu Hi) as (p & -> & _ & Hp). split; [tauto|done].
  - destruct (out u !! i) as [b|] eqn:Hi; [|split; [by intros (? & ? & _)|done]].
    pose proof (ui_out _ Hu) as Ho. eapply Forall_lookup_1 in Ho as [Hl Hf]; [|done].
    unfold advance_mut, remaining_mut.
    destruct (Nat.ltb_spec (length (buffer b) - filled_len b) cnt) as [Hlt|Hge]; simpl.
    + exists b. split; [done|lia].
    + split; [intros (? & [= <-] & ?); lia|]. eapply replace_buffer_inv; [done..|].
      split; simpl; [done|lia].
  - destruct (out u !! i) as [b|] eqn:Hi; [|split; [tauto|done]].
    destruct (drop_buffer_inv u i b Hu Hi) as (p & -> & _ & Hp). split; [tauto|done].
  - split; [tauto|]. destruct Hu as [Hm Hc Hf Ho]. by split.
Qed.

Lemma run_pool_ops_inv os u :
  Forall op_ok os → usage_inv u →
  match run_pool_ops os u with
  | Panic => overrun_in os u
  | Ret u' => ¬ overrun_in os u ∧ usage_inv u'
  end.
Proof.
  revert u. induction os as [|o os IH]; intros u Hok Hu; simpl.
  { split; [by intros ([] & ? & ? & ? & ? & _)|done]. }
  apply Forall_cons in Hok as [Ho Hok]. pose proof (run_pool_op_inv o u Ho Hu) as Hs.
  destruct (run_pool_op o u) as [u'|] eqn:E; simpl; [|by exists [], o, os, u].
  destruct Hs as [Hno Hu']. specialize (IH u' Hok Hu').
  destruct (run_pool_ops os u'); [|by apply (overrun_in_cons o os u u')].
  by rewrite (overrun_in_cons o os u u').
Qed.
End Sized.


(** A frame read into a fresh buffer is exactly what the slice then shows,
    whatever bytes an earlier use has left in the buffer. *)
Theorem read_frame_roundtrip (stale frame : list byte) (dev : device_recv) :
  device_ok dev → dev (length stale) = Ok frame →
  ∃ b, read_frame {| buffer := stale; filled_len := 0 |} dev = Ret (Ok b) ∧
    deref b = Ret frame ∧ length (buffer b) = length stale.
Proof.
  intros Hd Ef.
  destruct (read_frame_spec (length stale) {| buffer := stale; filled_len := 0 |} dev)
    as (r & Er & Hr); [split; simpl; lia|apply Hd|].
  destruct r as [b|err].
  - exists b. destruct (Hr b eq_refl) as [[Hb _] (f & Hf & Hde)]. split; [done|].
    unfold remaining_mut in Hf. simpl in Hf. rewrite Nat.sub_0_r, Ef in Hf. simplify_eq.
    by split.
  - exfalso. revert Er. unfold read_frame. simpl. rewrite Nat.sub_0_r, Ef. by case_match.
Qed.

(** The gauge of available buffers is one too low after a buffer has come
    back: it is set before the buffer is in the pool. *)
Theorem available_gauge_lags (b : PooledBuffer) (p p' : BufferPool) :
  (length (contents (pool p)) < max_capacity (pool p))%nat → pool_alive p = true →
  PooledBuffer_drop b p = Ret p' →
  capacity_gauge p' = Z.of_nat (length (contents (pool p'))) - 1.
Proof.
  intros Hlt Ha. unfold PooledBuffer_drop. rewrite Ha. simpl.
  pose proof (try_send_law (buffer b) (pool p)) as Hs. rewrite decide_True in Hs by done.
  destruct Hs as (c' & -> & Hc & Hm). intros [= <-]. simpl.
  rewrite capacity_law, Hc, length_app. simpl. lia.
Qed.
End Facts.

(** ** A reference channel: a queue with a bound *)
Module MpscRef.
Record queue := { q_items : list (list byte); q_max : nat }.

#[export] Instance mpsc : Mpsc (list byte) := {
  channel := queue;
  channel_new n := {| q_items := []; q_max := n |};
  try_send a c :=
    if decide (length (q_items c) < q_max c)%nat
    then (Ok tt, {| q_items := q_items c ++ [a]; q_max := q_max c |}) else (Err Full, c);
  try_recv c :=
    match q_items c with
    | [] => None
    | a :: l => Some (a, {| q_items := l; q_max := q_max c |})
    end;
  capacity c := (q_max c - length (q_items c))%nat;
  max_capacity := q_max;
}.

#[export] Instance mpsc_laws : MpscLaws (list byte) (q_items : channel → _).
Proof.
  split; simpl; intros; [done| | |done].
  - case_decide; [by eexists|done].
  - case_match; [done|by eexists].
Qed.

Definition items : channel → list (list byte) := q_items.

Definition frame : list byte := [x01; x02; x03].
Definition dev : device_recv := λ n, if (3 <=? n)%nat then Ok frame else Ok [].

Lemma dev_ok : device_ok dev.
Proof.
  intros n f. unfold dev. destruct (3 <=? n)%nat eqn:E; intros [= <-]; simpl; [|lia].
  by apply Nat.leb_le in E.
Qed.

Definition usage : list pool_op :=
  [Pop; Read 0 dev; Pop; Pop; DropBuffer 0; Advance 0 2; Pop; DropBuffer 1].

Lemma usage_ok : Forall op_ok usage.
Proof. repeat constructor. apply dev_ok. Qed.
End MpscRef.
Import MpscRef.

Definition runs (os : list pool_op) : outcome bool :=
  let! p := BufferPool_new 2 8 in
  match run_pool_ops os {| the_pool := p; out := [] |} with
  | Ret _ => Ret true
  | Panic => Ret false
  end.

Lemma usage_runs : runs usage = Ret true ∧ runs [Pop; Advance 0 9] = Ret false.
Proof. split; by vm_compute. Qed.


Lemma read_frame_roundtrip_witness :
  ∃ b, read_frame {| buffer := replicate 8 xff; filled_len := 0 |} dev = Ret (Ok b) ∧
    deref b = Ret frame ∧ length (buffer b) = 8%nat.
Proof. apply (read_frame_roundtrip (replicate 8 xff) frame dev dev_ok eq_refl). Defined.

(** A pool of one buffer, which is handed out. *)
Definition handed_out : BufferPool :=
  {| pool := ({| q_items := []; q_max := 1 |} : channel); pool_alive := true;
     capacity_gauge := 0; active_gauge := 1 |}.

Lemma available_gauge_lags_witness :
  ∃ p', PooledBuffer_drop {| buffer := [x00]; filled_len := 0 |} handed_out = Ret p' ∧
    capacity_gauge p' = Z.of_nat (length (items (pool p'))) - 1.
Proof.
  eexists. split; [reflexivity|].
  apply (available_gauge_lags (contents := items) {| buffer := [x00]; filled_len := 0 |}
    handed_out); [simpl; lia|done|reflexivity].
Defined.
