(* ===== verification/PacketTests.v ===== *)
(** * The unit tests of packets, congestion and buffers

    The tests of [src/src/tun/packet.rs], [src/src/route/ecn.rs] and
    [src/src/buffer_pool.rs], translated to programs over the model, with the
    reference implementations of the crates. A test is [true] under [Some] or
    [Ret] when all its assertions hold; [None] and [Panic] are a failed [unwrap],
    [expect] or [panic!]. The tests that read an error message are left out: the
    model has no messages for them. *)

From S2P Require Import Prelude ErrorCode Net IpText Packet Ecn BufferPool.
From stdpp Require Import prelude strings.
From Stdlib Require Import Strings.Byte Floats.SpecFloat.

Local Open Scope Z_scope.

Local Notation "a == b" := (bool_decide (a = b)) (at level 70).

#[local] Instance DestUnreachableHeader_eq_dec : EqDecision DestUnreachableHeader.
Proof. solve_decision. Defined.
#[local] Instance DestUnreachableCode_eq_dec : EqDecision DestUnreachableCode.
Proof. solve_decision. Defined.
#[local] Instance Icmpv4Type_eq_dec : EqDecision Icmpv4Type.
Proof. solve_decision. Defined.
#[local] Instance Icmpv6Type_eq_dec : EqDecision Icmpv6Type.
Proof. solve_decision. Defined.
#[local] Instance IcmpType_eq_dec : EqDecision IcmpType.
Proof. solve_decision. Defined.
#[local] Instance PacketAction_eq_dec : EqDecision PacketAction.
Proof. solve_decision. Defined.

(** ** [tun/packet.rs] *)
Module packet_tests.
Import EtherparseRef.

Definition test_ipv4_mtu_too_large : option bool :=
  gateway ← from_addr <$> IpAddr_from_str "8.8.4.4";
  '(to_addr, buf) ← ok (generate_reply gateway MOCK_IPV4_PACKET (packet_too_big 1400));
  let expected := map byte_of [
    0x45; 0x00; 0x00; 0x38; 0x00; 0x00; 0x00; 0x00; 0x40; 0x01; 0xad; 0x07; 0x08; 0x08;
    0x04; 0x04; 0xc0; 0xa8; 0x01; 0x0a; 0x03; 0x04; 0x90; 0xed; 0x00; 0x00; 0x05; 0x78;
    0x45; 0x00; 0x00; 0x1c; 0x00; 0x00; 0x40; 0x00; 0x40; 0x11; 0xb8; 0x2d; 0xc0; 0xa8;
    0x01; 0x0a; 0x08; 0x08; 0x08; 0x08; 0x0b; 0xb8; 0x0b; 0xb8; 0x00; 0x08; 0x00; 0x00] in
  expected_addr ← IpAddr_from_str "192.168.1.10";
  Some ((buf == expected) && (to_addr == expected_addr)).

Definition test_ipv6_mtu_too_large : option bool :=
  gateway ← from_addr <$> IpAddr_from_str "2001:db8::1";
  '(to_addr, buf) ← ok (generate_reply gateway MOCK_IPV6_PACKET (packet_too_big 1280));
  let expected := map byte_of [
    0x60; 0x00; 0x00; 0x00; 0x00; 0x38; 0x3a; 0x40; 0x20; 0x01; 0x0d; 0xb8; 0x00; 0x00;
    0x00; 0x00; 0x00; 0x00; 0x00; 0x00; 0x00; 0x00; 0x00; 0x01; 0x20; 0x01; 0x0d; 0xb8;
    0x00; 0x00; 0x00; 0x00; 0x00; 0x00; 0x00; 0x00; 0x00; 0x00; 0x0f; 0xe1; 0x02; 0x00;
    0x89; 0x43; 0x00; 0x00; 0x05; 0x00; 0x60; 0x00; 0x00; 0x00; 0x00; 0x08; 0x11; 0x40;
    0x20; 0x01; 0x0d; 0xb8; 0x00; 0x00; 0x00; 0x00; 0x00; 0x00; 0x00; 0x00; 0x00; 0x00;
    0x0f; 0xe1; 0x20; 0x01; 0x0d; 0xb8; 0x00; 0x00; 0x00; 0x00; 0x00; 0x00; 0x00; 0x00;
    0x00; 0x00; 0x0f; 0xe2; 0x0b; 0xb8; 0x0b; 0xb8; 0x00; 0x08; 0x00; 0x00] in
  expected_addr ← IpAddr_from_str "2001:db8::fe1";
  Some ((buf == expected) && (to_addr == expected_addr)).

Definition test_ipv4_no_route : option bool :=
  gateway ← from_addr <$> IpAddr_from_str "8.8.4.4";
  '(to_addr, buf) ← ok (generate_reply gateway MOCK_IPV4_PACKET unreachable_net);
  let expected := map byte_of [
    0x45; 0x00; 0x00; 0x38; 0x00; 0x00; 0x00; 0x00; 0x40; 0x01; 0xad; 0x07; 0x08; 0x08;
    0x04; 0x04; 0xc0; 0xa8; 0x01; 0x0a; 0x03; 0x06; 0x96; 0x63; 0x00; 0x00; 0x00; 0x00;
    0x45; 0x00; 0x00; 0x1c; 0x00; 0x00; 0x40; 0x00; 0x40; 0x11; 0xb8; 0x2d; 0xc0; 0xa8;
    0x01; 0x0a; 0x08; 0x08; 0x08; 0x08; 0x0b; 0xb8; 0x0b; 0xb8; 0x00; 0x08; 0x00; 0x00] in
  expected_addr ← IpAddr_from_str "192.168.1.10";
  Some ((buf == expected) && (to_addr == expected_addr)).

Definition test_ipv6_no_route : option bool :=
  gateway ← from_addr <$> IpAddr_from_str "2001:db8::1";
  '(to_addr, buf) ← ok (generate_reply gateway MOCK_IPV6_PACKET unreachable_net);
  let expected := map byte_of [
    0x60; 0x00; 0x00; 0x00; 0x00; 0x38; 0x3a; 0x40; 0x20; 0x01; 0x0d; 0xb8; 0x00; 0x00;
    0x00; 0x00; 0x00; 0x00; 0x00; 0x00; 0x00; 0x00; 0x00; 0x01; 0x20; 0x01; 0x0d; 0xb8;
    0x00; 0x00; 0x00; 0x00; 0x00; 0x00; 0x00; 0x00; 0x00; 0x00; 0x0f; 0xe1; 0x01; 0x00;
    0x8f; 0x43; 0x00; 0x00; 0x00; 0x00; 0x60; 0x00; 0x00; 0x00; 0x00; 0x08; 0x11; 0x40;
    0x20; 0x01; 0x0d; 0xb8; 0x00; 0x00; 0x00; 0x00; 0x00; 0x00; 0x00; 0x00; 0x00; 0x00;
    0x0f; 0xe1; 0x20; 0x01; 0x0d; 0xb8; 0x00; 0x00; 0x00; 0x00; 0x00; 0x00; 0x00; 0x00;
    0x00; 0x00; 0x0f; 0xe2; 0x0b; 0xb8; 0x0b; 0xb8; 0x00; 0x08; 0x00; 0x00] in
  expected_addr ← IpAddr_from_str "2001:db8::fe1";
  Some ((buf == expected) && (to_addr == expected_addr)).

Definition unparseable_packet_is_rejected : option bool :=
  gateway ← from_addr <$> IpAddr_from_str "8.8.4.4";
  Some (negb (is_ok (generate_reply gateway (map byte_of [0xde; 0xad; 0xbe; 0xef])
                       unreachable_net))).

(** The header is written out as [Ipv4Header::to_bytes] lays it out, with protocol
    253. *)
Definition reply_echoes_at_most_64_bytes_of_the_original_packet : option bool :=
  let header sum := [x45; x00] ++ u16 (20 + 80) ++ u16 0 ++ u16 0 ++ map byte_of [64; 253]
    ++ u16 sum ++ map byte_of [192; 168; 1; 10] ++ map byte_of [8; 8; 8; 8] in
  let input := header (checksum (header 0)) ++ map byte_of (seqZ 0 80) in
  gateway ← from_addr <$> IpAddr_from_str "8.8.4.4";
  '(to_addr, reply) ← ok (generate_reply gateway input unreachable_net);
  expected_addr ← IpAddr_from_str "192.168.1.10";
  Some ((length input == 100%nat) && (length reply == (20 + 8 + 64)%nat)
        && (drop 28 reply == take 64 input) && (to_addr == expected_addr)).

Definition inet_slice_identifies_ipv4_ipv6_and_rejects_garbage : option bool :=
  s4 ← ok (inet_slice MOCK_IPV4_PACKET);
  s6 ← ok (inet_slice MOCK_IPV6_PACKET);
  Some (match s4 with InternetSlice_Ipv4 _ _ => true | _ => false end
        && match s6 with InternetSlice_Ipv6 _ _ => true | _ => false end
        && negb (is_ok (inet_slice (map byte_of [0xde; 0xad; 0xbe; 0xef])))).

Definition destination_ip_reads_the_ipv4_destination : option bool :=
  slice ← ok (inet_slice MOCK_IPV4_PACKET);
  expected ← IpAddr_from_str "8.8.8.8";
  Some (destination_ip slice == Some expected).

Definition destination_ip_reads_the_ipv6_destination : option bool :=
  slice ← ok (inet_slice MOCK_IPV6_PACKET);
  expected ← IpAddr_from_str "2001:db8::fe2";
  Some (destination_ip slice == Some expected).

Definition from_addr_populates_only_the_matching_address_family : option bool :=
  v4 ← from_addr <$> IpAddr_from_str "10.1.2.3";
  v6 ← from_addr <$> IpAddr_from_str "2001:db8::5";
  Some ((own_ipv4 v4 == Some 0x0a010203) && (own_ipv6 v4 == None)
        && (own_ipv6 v6 == Some (Ipv6Addr_new [0x2001; 0xdb8; 0; 0; 0; 0; 0; 5]))
        && (own_ipv4 v6 == None)).

Definition icmp_type_constructors_build_the_expected_variants : option bool :=
  Some ((unreachable_net == {| v4 := Icmpv4_DestinationUnreachable NetworkUnknown;
                               v6 := Icmpv6_DestinationUnreachable NoRoute |})
        && (unreachable_host == {| v4 := Icmpv4_DestinationUnreachable Host;
                                   v6 := Icmpv6_DestinationUnreachable Address |})
        && (packet_too_big 1400 ==
              {| v4 := Icmpv4_DestinationUnreachable (FragmentationNeeded 1400);
                 v6 := Icmpv6_PacketTooBig 1400 |})
        && negb (unreachable_net == unreachable_host)).

Example packet_tests_pass :
  Forall (λ t, t = Some true)
    [test_ipv4_mtu_too_large; test_ipv6_mtu_too_large; test_ipv4_no_route; test_ipv6_no_route;
     unparseable_packet_is_rejected; reply_echoes_at_most_64_bytes_of_the_original_packet;
     inet_slice_identifies_ipv4_ipv6_and_rejects_garbage;
     destination_ip_reads_the_ipv4_destination; destination_ip_reads_the_ipv6_destination;
     from_addr_populates_only_the_matching_address_family;
     icmp_type_constructors_build_the_expected_variants].
Proof. repeat constructor; vm_compute; reflexivity. Qed.
End packet_tests.

(** ** [route/ecn.rs] *)
Module ecn_tests.
Import EtherparseRef HeaderRef.

Definition PAYLOAD : list byte := map byte_of [0xde; 0xad; 0xbe; 0xef].
Definition V4_SRC : list byte := map byte_of [10; 0; 0; 1].
Definition V4_DST : list byte := map byte_of [10; 0; 0; 2].
Definition V6_SRC : list byte :=
  map byte_of [0x20; 0x01; 0x0d; 0xb8; 0; 0; 0; 0; 0; 0; 0; 0; 0; 0; 0; 1].
Definition V6_DST : list byte :=
  map byte_of [0x20; 0x01; 0x0d; 0xb8; 0; 0; 0; 0; 0; 0; 0; 0; 0; 0; 0; 2].

Definition ipv4_packet (ecn : IpEcn) : list byte :=
  let header := {| h_vihl := x45; h_tos := byte_of (ecn_val ecn);
                   h_mid := u16 (20 + Z.of_nat (length PAYLOAD)) ++ map byte_of [0; 0; 0; 0; 64; 17];
                   h_sum := 0; h_tail := V4_SRC ++ V4_DST |} in
  let header := set_header_checksum (calc_header_checksum (header : Ipv4Header)) header in
  to_bytes4 header ++ PAYLOAD.

Definition ipv6_packet (ecn : IpEcn) : list byte :=
  let header := {| h_first := x60; h_class := x00;
                   h_rest := [x00; x00] ++ u16 (Z.of_nat (length PAYLOAD)) ++ map byte_of [17; 64]
                             ++ V6_SRC ++ V6_DST |} in
  to_bytes6 (set_ecn6 ecn (header : Ipv6Header)) ++ PAYLOAD.

(** [Ipv4Header::from_slice] and [Ipv6Header::from_slice], with the remainder. *)
Definition v4_from_slice (p : list byte) : outcome (hdr4 * list byte) :=
  match parse p with
  | Some (inl h) => Ret (h, drop (length (bytes4 h)) p)
  | _ => Panic
  end.
Definition v6_from_slice (p : list byte) : outcome (hdr6 * list byte) :=
  match parse p with Some (inr h) => Ret (h, drop 40 p) | _ => Panic end.

Definition ipv4_ect0_is_marked_congestion_experienced_and_forwarded : outcome bool :=
  let packet := ipv4_packet Ect0 in
  let! (action, packet) := process_packet_congestion packet in
  let! (header, remainder) := v4_from_slice packet in
  Ret ((action == Forward) && (ecn4 (header : Ipv4Header) == CongestionExperienced)
       && (header_checksum (header : Ipv4Header) == calc_header_checksum (header : Ipv4Header))
       && (remainder == PAYLOAD)
       && (take 4 (h_tail header) == V4_SRC) && (drop 4 (h_tail header) == V4_DST)
       && (h_mid header !! 6%nat == Some (byte_of 64))).

Definition ipv4_ect1_is_marked_congestion_experienced_and_forwarded : outcome bool :=
  let packet := ipv4_packet Ect1 in
  let! (action, packet) := process_packet_congestion packet in
  let! (header, _) := v4_from_slice packet in
  Ret ((action == Forward) && (ecn4 (header : Ipv4Header) == CongestionExperienced)
       && (header_checksum (header : Ipv4Header) == calc_header_checksum (header : Ipv4Header))).

Definition ipv4_already_congestion_experienced_is_forwarded_unchanged : outcome bool :=
  let packet := ipv4_packet CongestionExperienced in
  let before := packet in
  let! (action, packet) := process_packet_congestion packet in
  Ret ((action == Forward) && (packet == before)).

Definition ipv4_not_ect_is_dropped_unchanged : outcome bool :=
  let packet := ipv4_packet NotEct in
  let before := packet in
  let! (action, packet) := process_packet_congestion packet in
  Ret ((action == Drop) && (packet == before)).

Definition ipv6_ect0_is_marked_congestion_experienced_and_forwarded : outcome bool :=
  let packet := ipv6_packet Ect0 in
  let! (action, packet) := process_packet_congestion packet in
  let! (header, remainder) := v6_from_slice packet in
  Ret ((action == Forward) && (ecn6 (header : Ipv6Header) == CongestionExperienced)
       && (remainder == PAYLOAD)
       && (take 16 (drop 6 (h_rest header)) == V6_SRC)
       && (take 16 (drop 22 (h_rest header)) == V6_DST)
       && (h_rest header !! 5%nat == Some (byte_of 64))).

Definition ipv6_ect1_is_marked_congestion_experienced_and_forwarded : outcome bool :=
  let packet := ipv6_packet Ect1 in
  let! (action, packet) := process_packet_congestion packet in
  let! (header, _) := v6_from_slice packet in
  Ret ((action == Forward) && (ecn6 (header : Ipv6Header) == CongestionExperienced)).

Definition ipv6_already_congestion_experienced_is_forwarded_unchanged : outcome bool :=
  let packet := ipv6_packet CongestionExperienced in
  let before := packet in
  let! (action, packet) := process_packet_congestion packet in
  Ret ((action == Forward) && (packet == before)).

Definition ipv6_not_ect_is_dropped_unchanged : outcome bool :=
  let packet := ipv6_packet NotEct in
  let before := packet in
  let! (action, packet) := process_packet_congestion packet in
  Ret ((action == Drop) && (packet == before)).

Definition unparseable_packets_are_dropped : outcome bool :=
  let! (empty, _) := process_packet_congestion [] in
  let! (garbage, _) := process_packet_congestion (map byte_of [0xff; 0xff; 0xff; 0xff]) in
  let! (truncated, _) := process_packet_congestion (map byte_of [0x45; 0x00; 0x00]) in
  Ret ((empty == Drop) && (garbage == Drop) && (truncated == Drop)).

Example marking_tests_pass :
  Forall (λ t, t = Ret true)
    [ipv4_ect0_is_marked_congestion_experienced_and_forwarded;
     ipv4_ect1_is_marked_congestion_experienced_and_forwarded;
     ipv4_already_congestion_experienced_is_forwarded_unchanged;
     ipv4_not_ect_is_dropped_unchanged;
     ipv6_ect0_is_marked_congestion_experienced_and_forwarded;
     ipv6_ect1_is_marked_congestion_experienced_and_forwarded;
     ipv6_already_congestion_experienced_is_forwarded_unchanged;
     ipv6_not_ect_is_dropped_unchanged; unparseable_packets_are_dropped].
Proof. repeat constructor; vm_compute; reflexivity. Qed.

(** The literals 0.1 to 0.9: the nearest [f32]. *)
Definition tenths (n : Z) : spec_float := f32.div (f32.of_Z n) (f32.of_Z 10).
Definition zero : spec_float := f32.of_Z 0.

(** [x as u32] for a finite [x] in range. *)
Definition as_u32 (x : spec_float) : Z :=
  match x with
  | S754_finite false m e => Z.shiftl (Z.pos m) e
  | _ => 0
  end.

(** [FixedRng]: the 32 bits of every [next_u32]. *)
Definition FixedRng : Type := Z.
Definition yielding (fraction : spec_float) : FixedRng :=
  let SCALE := f32.of_Z (Z.shiftl 1 24) in
  let bits24 := Z.min (as_u32 (f32.mul fraction SCALE)) (Z.shiftl 1 24 - 1) in
  Z.shiftl bits24 8.

(** The thread's generator yields any bits. *)
Definition linear_aqm_queues_below_threshold_regardless_of_rng (rng : Z) : bool :=
  linear_aqm_rng (yielding zero) (tenths 8) (tenths 1)
  && linear_aqm_rng (yielding f32.one) (tenths 8) (tenths 1)
  && linear_aqm_rng rng (tenths 9) (tenths 1).

Definition linear_aqm_drops_above_threshold_when_rng_is_low : bool :=
  negb (linear_aqm_rng (yielding zero) (tenths 2) (tenths 8)).

Definition linear_aqm_queues_exactly_at_threshold : bool :=
  linear_aqm_rng (yielding zero) (tenths 5) (tenths 5)
  && linear_aqm_rng (yielding f32.one) (tenths 5) (tenths 5).

Definition linear_aqm_probability_scales_with_fill : bool :=
  linear_aqm_rng (yielding (tenths 5)) zero (tenths 5)
  && negb (linear_aqm_rng (yielding (tenths 5)) zero (tenths 6)).

Definition linear_aqm_full_queue_drops_below_full_threshold : bool :=
  negb (linear_aqm_rng (yielding zero) (tenths 3) f32.one).

Definition linear_aqm_threshold_one_always_queues : bool :=
  linear_aqm_rng (yielding zero) f32.one f32.one
  && linear_aqm_rng (yielding f32.one) f32.one f32.one.

Example policy_tests_pass :
  (∀ rng, linear_aqm_queues_below_threshold_regardless_of_rng rng = true) ∧
  linear_aqm_drops_above_threshold_when_rng_is_low = true ∧
  linear_aqm_queues_exactly_at_threshold = true ∧
  linear_aqm_probability_scales_with_fill = true ∧
  linear_aqm_full_queue_drops_below_full_threshold = true ∧
  linear_aqm_threshold_one_always_queues = true.
Proof. split_and!; [intros rng| ..]; vm_compute; reflexivity. Qed.
End ecn_tests.

(** ** [buffer_pool.rs]

    A [pop] that would wait is [None]; with the clock paused and nobody else to
    return a buffer, that is what the tests' timeouts observe. *)
Module buffer_pool_tests.
Import MpscRef.

(** [pool.pop().await] when the test goes on. *)
Definition pop_now (p : BufferPool) : outcome (PooledBuffer * BufferPool) :=
  match pop p with Some r => Ret r | None => Panic end.

Definition bytes (l : list Z) : list byte := map byte_of l.

Fixpoint pop_fresh (n buf_size : nat) (pool : BufferPool) : outcome bool :=
  match n with
  | O => Ret true
  | S n =>
      let! (buf, pool) := pop_now pool in
      let! data := deref buf in
      let ok := (remaining_mut buf == buf_size) && (length data == 0%nat) in
      (* [buf] is dropped at the end of the iteration *)
      let! pool := PooledBuffer_drop buf pool in
      let! rest := pop_fresh n buf_size pool in
      Ret (ok && rest)
  end.

Definition new_prefills_count_buffers_of_the_requested_size : outcome bool :=
  let! pool := BufferPool_new 3 16 in
  pop_fresh 3 16 pool.

Definition pop_blocks_until_a_buffer_is_returned : outcome bool :=
  let! pool := BufferPool_new 1 8 in
  let! (buf, pool) := pop_now pool in
  let waits := if pop pool then false else true in
  let! pool := PooledBuffer_drop buf pool in
  let! (buf, pool) := pop_now pool in
  let! _ := PooledBuffer_drop buf pool in
  Ret waits.

Definition dropping_a_buffer_after_the_pool_is_gone_does_not_panic : outcome bool :=
  let! pool := BufferPool_new 1 8 in
  let! (buf, pool) := pop_now pool in
  let pool := BufferPool_drop pool in
  let! _ := PooledBuffer_drop buf pool in
  Ret true.

Definition buf_mut_writes_are_visible_through_deref : outcome bool :=
  let! pool := BufferPool_new 1 8 in
  let! (buf, pool) := pop_now pool in
  let! buf := put_slice (bytes [1; 2; 3]) buf in
  let! first := deref buf in
  let left := remaining_mut buf in
  let! buf := put_slice (bytes [4; 5]) buf in
  let! second := deref buf in
  Ret ((first == bytes [1; 2; 3]) && (left == 5%nat)
       && (second == bytes [1; 2; 3; 4; 5]) && (remaining_mut buf == 3%nat)).

Definition advance_mut_past_capacity_panics : outcome PooledBuffer :=
  let! pool := BufferPool_new 1 4 in
  let! (buf, pool) := pop_now pool in
  advance_mut 5 buf.

(** [ReadBuf::put_slice] panics when the bytes do not fit. *)
Definition read_buf_put_slice (src : list byte) (n : nat) : outcome (list byte) :=
  if (length src <=? n)%nat then Ret src else Panic.

Definition read_buf_commits_the_written_region_on_drop : outcome bool :=
  let! pool := BufferPool_new 1 8 in
  let! (buf, pool) := pop_now pool in
  let! buf := read_buf buf (read_buf_put_slice (bytes [7; 7; 7])) in
  let! first := deref buf in
  let left := remaining_mut buf in
  let! buf := read_buf buf (read_buf_put_slice (bytes [8])) in
  let! second := deref buf in
  Ret ((first == bytes [7; 7; 7]) && (left == 5%nat) && (second == bytes [7; 7; 7; 8])).

Definition pooled_slice_exposes_the_filled_bytes_and_converts_back : outcome bool :=
  let! pool := BufferPool_new 1 8 in
  let! (buf, pool) := pop_now pool in
  let! buf := put_slice (bytes [4; 5; 6]) buf in
  let slice := PooledSlice_from buf in
  let! seen := slice_deref slice in
  let buf := to_buffer slice in
  let! data := deref buf in
  Ret ((seen == bytes [4; 5; 6]) && (data == bytes [4; 5; 6]) && (remaining_mut buf == 5%nat)).

Definition dropping_a_pooled_slice_returns_the_buffer_to_the_pool : outcome bool :=
  let! pool := BufferPool_new 1 8 in
  let! (buf, pool) := pop_now pool in
  let slice := PooledSlice_from buf in
  let waits := if pop pool then false else true in
  let! pool := PooledBuffer_drop (owned slice) pool in
  let! (buf, pool) := pop_now pool in
  let! _ := PooledBuffer_drop buf pool in
  Ret waits.

Example buffer_pool_tests_pass :
  Forall (λ t, t = Ret true)
    [new_prefills_count_buffers_of_the_requested_size; pop_blocks_until_a_buffer_is_returned;
     dropping_a_buffer_after_the_pool_is_gone_does_not_panic;
     buf_mut_writes_are_visible_through_deref; read_buf_commits_the_written_region_on_drop;
     pooled_slice_exposes_the_filled_bytes_and_converts_back;
     dropping_a_pooled_slice_returns_the_buffer_to_the_pool] ∧
  advance_mut_past_capacity_panics = Panic.
Proof. split; [repeat constructor|]; vm_compute; reflexivity. Qed.
End buffer_pool_tests.
