(* ===== verification/DataPlane.v ===== *)
(** * The data plane: from the TUN device to a peer

    Models [Peer::send_packet] of [src/src/peer.rs] and [tun_rx_loop] of
    [src/src/main.rs]: a packet read from the TUN device goes to the resolver,
    to the connected peer of its destination, or is answered with an ICMP
    error. *)

From S2P Require Import Prelude ErrorCode Net Keys Packet Ecn Route Relay Dns.
From stdpp Require Import prelude gmap strings.
From Stdlib Require Import Strings.Byte.
From Stdlib Require Import Floats.SpecFloat.

Local Open Scope Z_scope.

(** ** Sending to a peer *)

(** What a connection answers while a packet is sent: the largest datagram it
    takes, the free space of its send buffer now and at the start, the random
    bits drawn, and the result of [send_datagram]. *)
Record SendEnv := {
  max_datagram_size : option Z;
  datagram_send_buffer_space : Z;
  initial_buffer_space : Z;
  random_bits : Z;
  send_datagram : list byte → result unit AnyhowError;
}.

(** [Peer::new] *)
Definition max_send_buffer_space (env : SendEnv) : spec_float :=
  f32.of_Z (initial_buffer_space env).

Definition fullness (env : SendEnv) : spec_float :=
  f32.sub f32.one
    (f32.div (f32.of_Z (datagram_send_buffer_space env)) (max_send_buffer_space env)).

(** [usize::min(mtu, u16::MAX) as u16]. *)
Definition clamp_mtu (mtu : Z) : Z := Z.min mtu 65535.

Definition too_long (env : SendEnv) (packet : list byte) : option Z :=
  match max_datagram_size env with
  | Some mtu => if mtu <? Z.of_nat (length packet) then Some mtu else None
  | None => None
  end.

Section Send.
Context `{Etherparse, IpHeaderOps}.

(** Returns the datagram given to [send_datagram], if any, and the result. *)
Definition send_packet (icmp_gateway : IcmpGateway) (env : SendEnv) (packet : list byte) :
    outcome (option (list byte) * result (option TxPacket) AnyhowError) :=
  match too_long env packet with
  | Some mtu =>
      let mtu := clamp_mtu mtu in
      match generate_reply icmp_gateway packet (packet_too_big mtu) with
      | Ok (_addr, buf) => Ret (None, Ok (Some (mkTxPacket buf)))
      | Err _ => Ret (None, Ok None)
      end
  | None =>
      let! (action, packet) :=
        if negb (linear_aqm_rng (random_bits env) ECN_THRESHOLD (fullness env))
        then process_packet_congestion packet
        else Ret (Forward, packet) in
      match action with
      | Drop => Ret (None, Ok None)
      | Forward =>
          let result := send_datagram env packet in
          Ret (Some packet, let? _ := result in Ok None)
      end
  end.
End Send.

(** ** The loop over packets from the TUN device *)

(** [dns_stack::dns::handle_packet], for a resolver. *)
Class DnsHandler := {
  handle_packet : Z → (string → outcome Reply) → list byte → option (list byte);
}.

(** What the loop does with a packet. *)
Inductive rx_effect : Type :=
  | ToTun (p : TxPacket)
  | RxCounter (name : string) (labels : list Label).

Section RxLoop.
Context `{Etherparse, IpHeaderOps, DnsStack, DnsHandler, ThinStatusOps}.
Context {W T : Type}.

(** The state the loop reads: the relay, the resolver with its address, the ICMP
    gateway, and how the connection of a peer answers. *)
Record RxEnv := {
  rx_relay : Relay W T;
  dns_dispatch : option (Z * PeerNames);
  rx_gateway : IcmpGateway;
  peer_env : T → SendEnv;
  (** Whether [try_send] to the TUN writer is accepted. *)
  tx_accepts : bool;
}.

Definition dest_ip (packet : list byte) : option IpAddr :=
  match inet_slice packet with
  | Ok s => destination_ip s
  | Err _ => None
  end.

Definition is_dns (env : RxEnv) (packet : list byte) : option (Z * PeerNames) :=
  match dns_dispatch env with
  | Some (server_addr, names) =>
      if bool_decide (dest_ip packet = Some (V6 server_addr)) then Some (server_addr, names)
      else None
  | None => None
  end.

(** One iteration: the datagram sent to a peer, if any, and the other effects. *)
Definition tun_rx_step (env : RxEnv) (packet : list byte) :
    outcome (option (T * list byte) * list rx_effect) :=
  match is_dns env packet with
  | Some (server_addr, names) =>
      Ret (None,
        match handle_packet server_addr (PeerNames_resolve names) packet with
        | Some reply => if tx_accepts env then [ToTun (mkTxPacket reply)] else []
        | None => []
        end)
  | None =>
      let! (sent, icmp_packet, counted) :=
        match dest_ip packet ≫= Relay_get (rx_relay env) with
        | Some (Connected peer) =>
            let! (datagram, result) := send_packet (rx_gateway env) (peer_env env peer) packet in
            let sent := (λ d, (peer, d)) <$> datagram in
            match result with
            | Ok icmp_packet => Ret (sent, icmp_packet, [])
            | Err err =>
                Ret (sent, None,
                  [RxCounter "p2p_vpn_tun_rx_loop_send_packet" (into_labels (from_anyhow err))])
            end
        | Some Parked => Ret (None, icmp_reply (rx_gateway env) packet unreachable_host, [])
        | None => Ret (None, icmp_reply (rx_gateway env) packet unreachable_net, [])
        end in
      Ret (sent, counted ++
        match icmp_packet with
        | Some icmp =>
            if tx_accepts env then [ToTun icmp]
            else [RxCounter "p2p_vpn_tun_rx_loop_return_icmp" (into_labels (from_anyhow anyhow_msg))]
        | None => []
        end)
  end.

(** The loop over the packets of its channel, each with the state it finds. *)
Fixpoint tun_rx_loop (packets : list (RxEnv * list byte)) :
    outcome (list (option (T * list byte) * list rx_effect)) :=
  match packets with
  | [] => Ret []
  | (env, packet) :: packets =>
      let! e := tun_rx_step env packet in
      let! es := tun_rx_loop packets in
      Ret (e :: es)
  end.
End RxLoop.

(** ** Properties *)
Section Facts.
Context `{EtherparseLaws, IpHeaderLaws}.

(** What [send_packet] gives to the connection for a packet that fits. *)
Lemma send_packet_fits gw env packet :
  too_long env packet = None →
  ∃ sent res, send_packet gw env packet = Ret (sent, res) ∧
    match sent with
    | None => res = Ok None ∧ (packet_ecn packet = Some NotEct ∨ packet_ecn packet = None)
    | Some d => res = (let? _ := send_datagram env d in Ok None) ∧
        length d = length packet ∧
        drop (packet_header_len packet) d = drop (packet_header_len packet) packet ∧
        (d = packet ∨ packet_ecn d = Some CongestionExperienced ∧ checksum_valid d)
    end.
Proof.
  intros Hl. unfold send_packet. rewrite Hl.
  destruct (linear_aqm_rng _ _ _); simpl.
  - eexists _, _. split; [done|]. simpl. split_and!; try done. by left.
  - destruct (congestion_marking_facts packet) as (action & p' & -> & Hlen & Hdrop & Hm).
    destruct action.
    + eexists _, _. split; [done|]. simpl. split_and!; [done..|].
      destruct (packet_ecn packet) as [[]|]; naive_solver.
    + eexists _, _. split; [done|]. simpl. split; [done|].
      destruct (packet_ecn packet) as [[]|]; naive_solver.
Qed.

Lemma too_long_none env packet mtu :
  too_long env packet = None → max_datagram_size env = Some mtu →
  Z.of_nat (length packet) ≤ mtu.
Proof. unfold too_long. intros Ht Hm. rewrite Hm in Ht. case_match; [done|]. bool_to_prop. lia. Qed.

Lemma send_packet_total gw env packet :
  ∃ sent res, send_packet gw env packet = Ret (sent, res) ∧
    (∀ d, sent = Some d → too_long env packet = None ∧ length d = length packet ∧
       drop (packet_header_len packet) d = drop (packet_header_len packet) packet ∧
       (d = packet ∨ packet_ecn d = Some CongestionExperienced ∧ checksum_valid d)) ∧
    (∀ p, res = Ok (Some p) → ∃ t, icmp_reply gw packet t = Some p).
Proof.
  destruct (too_long env packet) as [mtu|] eqn:Ht.
  - unfold send_packet. rewrite Ht.
    destruct (generate_reply _ _ _) as [[a buf]|e] eqn:Eg; (eexists _, _; split; [done|]);
      (split; [done|]); [|done].
    intros p [= <-]. exists (packet_too_big (clamp_mtu mtu)). unfold icmp_reply. by rewrite Eg.
  - destruct (send_packet_fits gw env packet Ht) as (sent & res & -> & Hs).
    eexists _, _. split; [done|]. destruct sent as [d|].
    + destruct Hs as (-> & Hl & Hd & Hm). split; [by intros ? [= <-]|].
      by destruct (send_datagram env d).
    + destruct Hs as [-> _]. by split.
Qed.

(** C25: sending never panics and never hands the connection a datagram beyond
    its limit. A packet that is too long is not sent; if it parses and the
    gateway has an address of its family, the answer is an ICMP packet from the
    gateway to its source. A packet that fits is sent with its length and its
    payload intact, unchanged or with a valid congestion mark, or is dropped
    because its transport does not take marks. *)
Theorem send_packet_spec (gw : IcmpGateway) (env : SendEnv) (packet : list byte) :
  IcmpGateway_wf gw →
  ∃ sent res, send_packet gw env packet = Ret (sent, res) ∧
    (∀ d mtu, sent = Some d → max_datagram_size env = Some mtu → Z.of_nat (length d) ≤ mtu) ∧
    match too_long env packet with
    | Some mtu => sent = None ∧
        (∀ s a, packet ≠ [] → inet_slice packet = Ok s → gateway_for gw s = Some a →
           ∃ reply r, res = Ok (Some (mkTxPacket reply)) ∧ inet_slice reply = Ok r ∧
             source_ip r = Some a ∧ destination_ip r = source_ip s)
    | None =>
        match sent with
        | None => res = Ok None ∧ (packet_ecn packet = Some NotEct ∨ packet_ecn packet = None)
        | Some d => res = (let? _ := send_datagram env d in Ok None) ∧
            length d = length packet ∧
            drop (packet_header_len packet) d = drop (packet_header_len packet) packet ∧
            (d = packet ∨ packet_ecn d = Some CongestionExperienced ∧ checksum_valid d)
        end
    end.
Proof.
  intros Hg. destruct (too_long env packet) as [mtu|] eqn:Ht.
  - unfold send_packet. rewrite Ht.
    destruct (generate_reply gw packet (packet_too_big (clamp_mtu mtu))) as [[a buf]|e] eqn:Eg;
      (eexists _, _; split; [done|]); (split; [done|]); (split; [done|]);
      intros s b Hne Hs Hb;
      destruct (generate_reply_ok gw packet (packet_too_big (clamp_mtu mtu)) s b Hg Hne Hs Hb)
        as (src & reply & Hsrc & Hr & (r & ? & ? & Hd) & _); rewrite Eg in Hr; [|done].
    injection Hr as -> ->. exists reply, r. by rewrite Hsrc.
  - destruct (send_packet_fits gw env packet Ht) as (sent & res & -> & Hs).
    exists sent, res. split; [done|]. split; [|done]. intros d mtu -> Hm.
    destruct Hs as (_ & -> & _). by eapply too_long_none.
Qed.

Section Rx.
Context `{DnsStackLaws, DnsHandler, ThinStatusOps} {W T : Type}.

(** The datagram [d] carries [packet] to [peer]: the relay dispatches the
    destination to that peer, the payload and the length are kept, and so is the
    header unless it got a congestion mark. *)
Definition carried (env : RxEnv (W := W) (T := T)) (packet : list byte) (peer : T)
    (d : list byte) : Prop :=
  is_dns env packet = None ∧
  (∃ ip, dest_ip packet = Some ip ∧ Relay_get (rx_relay env) ip = Some (Connected peer)) ∧
  length d = length packet ∧
  drop (packet_header_len packet) d = drop (packet_header_len packet) packet ∧
  (d = packet ∨ packet_ecn d = Some CongestionExperienced ∧ checksum_valid d).

Lemma tun_rx_step_facts (env : RxEnv (W := W) (T := T)) (packet : list byte) :
  ∃ sent effects, tun_rx_step env packet = Ret (sent, effects) ∧
    (∀ peer d, sent = Some (peer, d) → carried env packet peer d) ∧
    (is_dns env packet = None →
     ∀ icmp, dest_ip packet ≫= Relay_get (rx_relay env) = icmp →
     match icmp with
     | Some (Connected _) => ∀ p, ToTun p ∈ effects → ∃ t, icmp_reply (rx_gateway env) packet t = Some p
     | Some Parked => sent = None ∧ (tx_accepts env = true →
         effects = ToTun <$> option_list (icmp_reply (rx_gateway env) packet unreachable_host))
     | None => sent = None ∧ (tx_accepts env = true →
         effects = ToTun <$> option_list (icmp_reply (rx_gateway env) packet unreachable_net))
     end).
Proof.
  unfold tun_rx_step. destruct (is_dns env packet) as [[srv names]|] eqn:Ed.
  { eexists _, _. by split_and!. }
  destruct (dest_ip packet ≫= Relay_get (rx_relay env)) as [[peer|]|] eqn:Eg.
  - destruct (send_packet_total (rx_gateway env) (peer_env env peer) packet)
      as (sent & res & -> & Hs & Hi).
    assert (∃ ip, dest_ip packet = Some ip ∧ Relay_get (rx_relay env) ip = Some (Connected peer))
      as Hip by (destruct (dest_ip packet); simpl in Eg; [eauto|done]).
    destruct res as [icmp|err]; (eexists _, _; split; [done|]); split.
    1,3: intros peer' dg (dg' & -> & [= -> ->])%fmap_Some;
      destruct (Hs dg' eq_refl) as (_ & ? & ? & ?);
      done.
    + intros _ ? <- p. destruct icmp as [p'|]; simpl; [|set_solver].
      destruct (tx_accepts env); intros Hin%list_elem_of_singleton; [|done].
      simplify_eq. eauto.
    + intros _ ? <- p. set_solver.
  - eexists _, _. split; [done|]. split; [done|]. intros _ ? <-. split; [done|].
    intros ->. by destruct (icmp_reply _ _ _).
  - eexists _, _. split; [done|]. split; [done|]. intros _ ? <-. split; [done|].
    intros ->. by destruct (icmp_reply _ _ _).
Qed.

(** C7: every packet from the TUN device is handled without panic, and a
    packet reaches a peer only if the relay dispatches its destination to that
    very peer, unchanged or with a valid congestion mark, its payload and length
    intact, and it was not for the resolver. A packet for a parked peer or for no peer is answered with the
    ICMP error of the case, if one can be built, and nothing is sent. *)
Theorem tun_rx_step_spec (env : RxEnv (W := W) (T := T)) (packet : list byte) :
  ∃ sent effects, tun_rx_step env packet = Ret (sent, effects) ∧
    (∀ peer d, sent = Some (peer, d) →
       is_dns env packet = None ∧
       (∃ ip, dest_ip packet = Some ip ∧ Relay_get (rx_relay env) ip = Some (Connected peer)) ∧
       length d = length packet ∧
       drop (packet_header_len packet) d = drop (packet_header_len packet) packet ∧
       (d = packet ∨ packet_ecn d = Some CongestionExperienced ∧ checksum_valid d)) ∧
    (is_dns env packet = None →
     ∀ icmp, dest_ip packet ≫= Relay_get (rx_relay env) = icmp →
     match icmp with
     | Some (Connected _) => ∀ p, ToTun p ∈ effects → ∃ t, icmp_reply (rx_gateway env) packet t = Some p
     | Some Parked => sent = None ∧ (tx_accepts env = true →
         effects = ToTun <$> option_list (icmp_reply (rx_gateway env) packet unreachable_host))
     | None => sent = None ∧ (tx_accepts env = true →
         effects = ToTun <$> option_list (icmp_reply (rx_gateway env) packet unreachable_net))
     end).
Proof. exact (tun_rx_step_facts env packet). Qed.

(** A packet for a connected peer that fits, over a connection that is not
    congested and takes it, is sent as it is. *)
Lemma tun_rx_step_forwards (env : RxEnv (W := W) (T := T)) packet peer :
  is_dns env packet = None → dest_ip packet ≫= Relay_get (rx_relay env) = Some (Connected peer) →
  too_long (peer_env env peer) packet = None →
  linear_aqm_rng (random_bits (peer_env env peer)) ECN_THRESHOLD (fullness (peer_env env peer)) = true →
  send_datagram (peer_env env peer) packet = Ok tt →
  tun_rx_step env packet = Ret (Some (peer, packet), []).
Proof.
  intros Hd Hg Hl Ha Hs. unfold tun_rx_step, send_packet. by rewrite Hd, Hg, Hl, Ha; simpl; rewrite Hs.
Qed.
End Rx.
End Facts.

(** ** Witnesses *)
Import EtherparseRef HeaderRef DnsRef MockRoutes RelayRef.

Module Plane.
(** A resolver that answers no packet; the loop only forwards its answers. *)
#[export] Instance dns_handler : DnsHandler := { handle_packet _ _ _ := None }.

(** A connection with an empty send buffer and the given datagram limit. *)
Definition idle_conn (mtu : Z) : SendEnv :=
  {| max_datagram_size := Some mtu; datagram_send_buffer_space := 65536;
     initial_buffer_space := 65536; random_bits := 0; send_datagram _ := Ok tt |}.

(** The same with a full send buffer. *)
Definition full_conn (mtu : Z) : SendEnv :=
  {| max_datagram_size := Some mtu; datagram_send_buffer_space := 0;
     initial_buffer_space := 65536; random_bits := 2 ^ 32 - 1; send_datagram _ := Ok tt |}.

Definition relay_with (d : Dispatch nat) : Relay world nat :=
  {| handle := empty;
     peer_map := {[ V4 0x08080808 :=
       {| value := match d with Connected v => Some v | Parked => None end;
          route := {| Route.dest_ip := V4 0x08080808 |} |} ]};
     counters := [] |}.

Definition rx_env (d : Dispatch nat) (conn : SendEnv) : RxEnv :=
  {| rx_relay := relay_with d; dns_dispatch := Some (1, PeerNames_new "p2p");
     rx_gateway := gateway4; peer_env _ := conn; tx_accepts := true |}.

Example small_packet_is_sent :
  tun_rx_step (rx_env (Connected 5%nat) (idle_conn 1200)) MOCK_IPV4_PACKET =
    Ret (Some (5%nat, MOCK_IPV4_PACKET), []).
Proof. by vm_compute. Qed.

(** The packet is not of an ECN-capable transport, so congestion drops it. *)
Example congested_packet_is_dropped :
  tun_rx_step (rx_env (Connected 5%nat) (full_conn 1200)) MOCK_IPV4_PACKET = Ret (None, []).
Proof. by vm_compute. Qed.
End Plane.
Import Plane.

Lemma send_packet_spec_witness :
  ∃ sent res, send_packet gateway4 (idle_conn 20) MOCK_IPV4_PACKET = Ret (sent, res) ∧
    sent = None ∧
    ∃ reply r, res = Ok (Some (mkTxPacket reply)) ∧ inet_slice reply = Ok r ∧
      source_ip r = Some (V4 0x08080404) ∧
      destination_ip r = source_ip (InternetSlice_Ipv4 0xc0a8010a 0x08080808).
Proof.
  destruct (send_packet_spec gateway4 (idle_conn 20) MOCK_IPV4_PACKET gateway4_wf)
    as (sent & res & E & _ & Hs).
  assert (too_long (idle_conn 20) MOCK_IPV4_PACKET = Some 20) as Ht by (by vm_compute).
  rewrite Ht in Hs. destruct Hs as [Hn Hr]. exists sent, res. split; [exact E|].
  split; [exact Hn|]. apply (Hr _ (V4 0x08080404)); by vm_compute.
Defined.

Lemma tun_rx_step_spec_witness :
  ∃ sent effects,
    tun_rx_step (rx_env Parked (idle_conn 1200)) MOCK_IPV4_PACKET = Ret (sent, effects) ∧
    sent = None ∧
    effects = ToTun <$> option_list (icmp_reply gateway4 MOCK_IPV4_PACKET unreachable_host).
Proof.
  destruct (tun_rx_step_spec (rx_env Parked (idle_conn 1200)) MOCK_IPV4_PACKET)
    as (sent & effects & E & _ & Hp).
  destruct (Hp ltac:(by vm_compute) (Some Parked) ltac:(by vm_compute)) as [Hn He].
  exact (ex_intro _ sent (ex_intro _ effects (conj E (conj Hn (He eq_refl))))).
Defined.
