(* ===== verification/PeerTests.v ===== *)
(** * The unit tests of the peers

    The tests of [src/src/peer.rs] and their helpers in
    [src/src/peer/test_util.rs], translated to programs over the model. The pair
    of endpoints of the harness is a pair of keys and streams that carry every
    message whole; for the tests that measure time, how long a close takes to
    arrive is given. *)

From S2P Require Import Prelude ErrorCode Net Keys Addr Proto Validate Packet Handshake HandshakeTime Route Relay.
From S2P Require Import Dns Session Ecn BufferPool PacketTests DataPlane.
From stdpp Require Import prelude gmap strings.
From Stdlib Require Import Strings.Byte.

Local Open Scope Z_scope.

Local Notation "a == b" := (bool_decide (a = b)) (at level 70).

Import IpnetRef KeysRef MessageRef EtherparseRef HeaderRef DnsRef MockRoutes RelayRef Plane MpscRef TokioRef.

(** ** [test_util.rs] *)
Module test_util.
(** One side of a connected pair: its key and that of the other side. *)
Record TestNode := { secret_key : @SecretKey keys; remote : @PublicKey keys }.

(** [key_a], [key_b]: what [SecretKey::generate] draws. *)
Definition connect_pair (key_a key_b : @SecretKey keys) : TestNode * TestNode :=
  ({| secret_key := key_a; remote := SecretKey_public key_b |},
   {| secret_key := key_b; remote := SecretKey_public key_a |}).

Definition advertise_for (secret_key : @SecretKey keys) (subnet : IpNet) : outcome Advertise :=
  let! (net, signature) := generate_signed_ipnet subnet secret_key in
  Ret {| own_addresses :=
    [{| peer_network := IpNet_to_string net;
        peer_network_signature := Signature_to_bytes signature |}] |}.

Definition common_config (icmp_gateway : IcmpGateway) : CommonPeerConfig :=
  let common := CommonPeerConfig_new icmp_gateway in
  {| allowed_networks := allowed_networks common; handshake_timeout := 5000;
     Handshake.icmp_gateway := Handshake.icmp_gateway common |}.

Definition peer_config (node : TestNode) (common : CommonPeerConfig) (advertise : Advertise) :
    PeerConfig :=
  {| Handshake.common := common; remote_id := remote node; Handshake.advertise := advertise |}.

(** The bytes of the packet, through a buffer of a pool of its own. *)
Definition rx_packet (data : list byte) : outcome (list byte) :=
  let! pool := BufferPool_new 1 (length data) in
  let! (buffer, pool) := buffer_pool_tests.pop_now pool in
  let! buffer := put_slice data buffer in
  deref buffer.
End test_util.
Import test_util.

(** ** [peer.rs] *)
Module peer_tests.
(** [tokio::join!(peer_a.handshake(), peer_b.handshake())]: a handshake over the
    connection, with the peer that comes out of it. *)
Definition join_handshakes (a b : PeerConfig) :
    result (ConnectedPeer * RoutesChanged) AnyhowError *
    result (ConnectedPeer * RoutesChanged) AnyhowError :=
  let run self peer :=
    let? routes := handshake self (example_env self peer) in
    Ok ({| cp_config := self; cp_conn := 0 |}, routes) in
  (run a b, run b a).

Definition expect {A E} (r : result A E) : outcome A :=
  match r with Ok a => Ret a | Err _ => Panic end.
Definition is_err {A E} (r : result A E) : bool :=
  match r with Ok _ => false | Err _ => true end.

Section Tests.
Context (key_a key_b : @SecretKey keys).

Definition handshake_exchanges_routes_test : outcome bool :=
  let '(node_a, node_b) := connect_pair key_a key_b in
  let common := common_config IcmpGateway_default in
  let subnet := Net6 (vpn_subnet 0) in
  let! advertise_a := advertise_for (secret_key node_a) subnet in
  let! advertise_b := advertise_for (secret_key node_b) subnet in
  let peer_a := peer_config node_a common advertise_a in
  let peer_b := peer_config node_b common advertise_b in
  let '(result_a, result_b) := join_handshakes peer_a peer_b in
  let! (connected_a, routes_a) := expect result_a in
  let! (connected_b, routes_b) := expect result_b in
  Ret ((ConnectedPeer_public_key connected_a == SecretKey_public (secret_key node_b))
    && (ConnectedPeer_public_key connected_b == SecretKey_public (secret_key node_a))
    && (length routes_a == 1%nat)
    && (length routes_b == 1%nat)).

Definition handshake_rejects_address_outside_allowed_networks : outcome bool :=
  let '(node_a, node_b) := connect_pair key_a key_b in
  let common := common_config IcmpGateway_default in
  let disallowed_subnet := Net4 (mkIpv4Net 0x0a000000 24) in
  let! advertise_a := advertise_for (secret_key node_a) disallowed_subnet in
  let! advertise_b := advertise_for (secret_key node_b) (Net6 (vpn_subnet 0)) in
  let peer_a := peer_config node_a common advertise_a in
  let peer_b := peer_config node_b common advertise_b in
  let '(result_a, result_b) := join_handshakes peer_a peer_b in
  Ret (is_err result_a && is_err result_b).

(** A closes instead of answering: [delay] milliseconds later every call of B on
    the connection fails. *)
Definition handshake_fails_if_connection_closes_mid_handshake (delay : Z) : option bool :=
  let '(node_a, node_b) := connect_pair key_a key_b in
  let common := common_config IcmpGateway_default in
  let subnet := Net6 (vpn_subnet 0) in
  match advertise_for (secret_key node_b) subnet with
  | Panic => None
  | Ret advertise_b =>
      let peer_b := peer_config node_b common advertise_b in
      let closed := {| direct := Ok tt; in_time := true; opened := Err anyhow_msg;
                       accepted_bi := Err anyhow_msg |} in
      '(elapsed, result) ← handshake_timed peer_b closed
        {| direct_done := Some 0; send_done := Some delay; recv_done := Some delay |};
      Some (is_err result && (elapsed <? 2000))
  end.

(** A keeps the connection open and does nothing. *)
Definition handshake_times_out_if_peer_never_responds : option bool :=
  let '(node_a, node_b) := connect_pair key_a key_b in
  let short_timeout := 200 in
  let common := CommonPeerConfig_new IcmpGateway_default in
  let common := {| allowed_networks := allowed_networks common; handshake_timeout := short_timeout;
                   Handshake.icmp_gateway := Handshake.icmp_gateway common |} in
  let subnet := Net6 (vpn_subnet 0) in
  match advertise_for (secret_key node_b) subnet with
  | Panic => None
  | Ret advertise_b =>
      let peer_b := peer_config node_b common advertise_b in
      let silent := {| direct := Ok tt; in_time := true; opened := Ok (example_send, []);
                       accepted_bi := Err anyhow_msg |} in
      '(elapsed, result) ← handshake_timed peer_b silent
        {| direct_done := Some 0; send_done := None; recv_done := None |};
      Some (is_err result && (short_timeout <=? elapsed) && (elapsed <? 2000))
  end.

(** [send_packet] over a connection with room in its buffer, whose datagrams
    arrive at the receive loop of the other side. *)
Definition send_packet_delivers_datagram_end_to_end : outcome bool :=
  let '(node_a, node_b) := connect_pair key_a key_b in
  let common := common_config IcmpGateway_default in
  let subnet := Net6 (vpn_subnet 0) in
  let! advertise_a := advertise_for (secret_key node_a) subnet in
  let! advertise_b := advertise_for (secret_key node_b) subnet in
  let peer_a := peer_config node_a common advertise_a in
  let peer_b := peer_config node_b common advertise_b in
  let '(result_a, result_b) := join_handshakes peer_a peer_b in
  let! (connected_a, _) := expect result_a in
  let! (connected_b, _) := expect result_b in
  let payload := String.list_byte_of_string "hello over quic" in
  let! packet := rx_packet payload in
  let! (datagram, result) := send_packet
    (Handshake.icmp_gateway (Handshake.common (cp_config connected_a))) (idle_conn 1200) packet in
  let! icmp_reply := expect result in
  let '(_, b) := recv_loop (option_list datagram) anyhow_msg (Example_.node0 empty) in
  Ret (match icmp_reply with None => true | Some _ => false end
    && (tx_data <$> tun_tx b == [payload])).

Definition recv_control_loop_returns_updated_routes : outcome bool :=
  let '(node_a, node_b) := connect_pair key_a key_b in
  let common := common_config IcmpGateway_default in
  let subnet := Net6 (vpn_subnet 0) in
  let! advertise_a := advertise_for (secret_key node_a) subnet in
  let! advertise_b := advertise_for (secret_key node_b) subnet in
  let peer_a := peer_config node_a common advertise_a in
  let peer_b := peer_config node_b common advertise_b in
  let '(result_a, result_b) := join_handshakes peer_a peer_b in
  let! (connected_a, _) := expect result_a in
  let! (connected_b, _) := expect result_b in
  let a := cp_config connected_a in
  let b := cp_config connected_b in
  let! _ := expect (snd (send_advertise a (example_opened a b))) in
  match recv_control_loop b [example_accepted a] with
  | Some recv_result =>
      let! routes := expect recv_result in
      Ret (length routes == 1%nat)
  | None => Panic
  end.
End Tests.

Example peer_tests_pass :
  Forall (λ t, t (sk "a") (sk "b") = Ret true)
    [handshake_exchanges_routes_test; handshake_rejects_address_outside_allowed_networks;
     send_packet_delivers_datagram_end_to_end; recv_control_loop_returns_updated_routes].
Proof. repeat constructor; vm_compute; reflexivity. Qed.

Example timed_peer_tests_pass :
  handshake_fails_if_connection_closes_mid_handshake (sk "a") (sk "b") 1999 = Some true ∧
  handshake_times_out_if_peer_never_responds (sk "a") (sk "b") = Some true.
Proof. split; vm_compute; reflexivity. Qed.
End peer_tests.
