(* ===== verification/DropPolicy.v ===== *)
(** * The drop policy in numbers

    [Peer::send_packet] of [src/src/peer.rs] computes how full the send buffer of
    a connection is and [linear_aqm_rng] of [src/src/route/ecn.rs] decides with a
    random number, both in [f32]. For a buffer whose size is a power of two up to
    2^24 (QUIC's default is 2^20 bytes) none of these operations rounds, so that
    the decision is a comparison of integers. *)

From S2P Require Import Prelude ErrorCode Net Packet Floats Ecn DataPlane.
From stdpp Require Import prelude.
From Stdlib Require Import Strings.Byte.
From Stdlib Require Import Floats.SpecFloat.

Local Open Scope Z_scope.

Ltac f32_lia := unfold emin, f32.prec, f32.emax in *; lia.

Notation exact := (exact f32.prec f32.emax).
Notation normal := (normal f32.prec f32.emax).

(** The value of an exact number at the least exponent, 2^-149. *)
Lemma integer_f32 y e :
  0 ≤ y ≤ 2 ^ 24 → -125 ≤ e ≤ 103 →
  exact (binary_normalize f32.prec f32.emax y e false) (y * 2 ^ (e + 149)).
Proof.
  intros Hy He. replace (e + 149) with (e - emin f32.prec f32.emax) by f32_lia.
  by apply integer_exact; [|unfold f32.prec|f32_lia].
Qed.

(** [k] parts of [2^24]. *)
Definition frac (k : Z) : spec_float := binary_normalize f32.prec f32.emax k (-24) false.

Lemma frac_exact k : 0 ≤ k ≤ 2 ^ 24 → exact (frac k) (k * 2 ^ 125).
Proof. intros Hk. by apply integer_f32. Qed.

(** A number of at least [2 ^ -24] has an exponent that is not small. *)
Lemma normal_large q E v :
  normal q E → v = Z.pos q * 2 ^ (E - emin f32.prec f32.emax) → 2 ^ 125 ≤ v → -48 ≤ E ≤ 104.
Proof.
  intros Hq -> Hv. pose proof (normal_bounds f32.prec f32.emax eq_refl q E Hq) as [_ Hhi].
  destruct (normal_exp _ _ _ _ Hq) as [_ ?]. unfold emin, f32.prec, f32.emax in *. split; [|lia].
  apply Z.le_ngt. intros Hlt.
  pose proof (Z.pow_le_mono_r 2 (24 + (E - (3 - 128 - 24))) 125). lia.
Qed.

(** ** How full the buffer is *)
Lemma div_exact x j :
  0 ≤ j ≤ 24 → 0 ≤ x ≤ 2 ^ 24 →
  exact (f32.div (f32.of_Z x) (f32.of_Z (2 ^ j))) (x * 2 ^ (149 - j)).
Proof.
  intros Hj Hx.
  assert (normal (2 ^ 23) (j - 23)) as Hh
    by (split; [done|f32_lia]).
  assert (f32.of_Z (2 ^ j) = S754_finite false (2 ^ 23) (j - 23)) as ->.
  { apply normalize_exact; [done|]. apply (exact_normal _ _ _ _ (2 ^ 23) (j - 23)); [done..|].
    unfold emin, f32.prec, f32.emax. change (Z.pos (2 ^ 23)) with (2 ^ 23).
    rewrite <- !Z.pow_add_r by lia. f_equal. lia. }
  destruct (integer_f32 x 0 Hx ltac:(lia)) as [E0 Hv|q E E0 Hq Hv]; unfold f32.of_Z; rewrite E0.
  - assert (x = 0) as -> by lia. by left.
  - assert (1 ≤ x) by (pose proof (normal_pos _ _ q E Hq); lia).
    pose proof (normal_large q E _ Hq Hv ltac:(lia)).
    assert (normal q (E - (j - 23) - 23)) as Hq'
      by (split; [apply Hq|f32_lia]).
    apply (exact_normal _ _ _ _ q (E - (j - 23) - 23)); [|done|].
    + apply div_pow2; [done..|]. f32_lia.
    + apply (Z.mul_reg_r _ _ (2 ^ j)); [apply Z.pow_nonzero; lia|].
      unfold emin, f32.prec, f32.emax in *. rewrite <- !Z.mul_assoc, <- !Z.pow_add_r by lia.
      replace (149 - j + j) with (0 + 149) by lia. rewrite Hv. do 2 f_equal. lia.
Qed.

Lemma fullness_exact env j :
  0 ≤ j ≤ 24 → initial_buffer_space env = 2 ^ j → 0 ≤ datagram_send_buffer_space env ≤ 2 ^ j →
  fullness env = frac ((2 ^ j - datagram_send_buffer_space env) * 2 ^ (24 - j)).
Proof.
  intros Hj Hi Hs. unfold fullness, max_send_buffer_space. rewrite Hi.
  set (x := datagram_send_buffer_space env) in *.
  pose proof (Z.pow_le_mono_r 2 j 24).
  assert (0 < 2 ^ (24 - j)) by (apply Z.pow_pos_nonneg; lia).
  assert (2 ^ j * 2 ^ (24 - j) = 2 ^ 24) as Hp
    by (rewrite <- Z.pow_add_r by lia; f_equal; lia).
  assert (2 ^ (149 - j) = 2 ^ (24 - j) * 2 ^ 125) as Hq
    by (rewrite <- Z.pow_add_r by lia; f_equal; lia).
  apply (sub_exact _ _ _ _ _ (1 * 2 ^ 149) (x * 2 ^ (149 - j))).
  - by apply (integer_f32 1 0).
  - apply div_exact; lia.
  - rewrite Hq. nia.
  - replace (1 * 2 ^ 149 - _) with ((2 ^ j - x) * 2 ^ (24 - j) * 2 ^ 125) by (rewrite Hq; nia).
    apply frac_exact. nia.
Qed.

(** ** The decision *)
Lemma half_exact : exact ECN_THRESHOLD (1 * 2 ^ 148).
Proof. by apply (integer_f32 1 (-1)). Qed.

Lemma random_half_exact r :
  0 ≤ r ≤ 2 ^ 24 → exact (f32.mul (frac r) (f32.sub f32.one ECN_THRESHOLD)) (r * 2 ^ 124).
Proof.
  intros Hr. assert (f32.sub f32.one ECN_THRESHOLD = S754_finite false (2 ^ 23) (-24)) as -> by done.
  destruct (frac_exact r Hr) as [-> Hv|q E -> Hq Hv].
  - assert (r = 0) as -> by lia. by left.
  - assert (1 ≤ r) by (pose proof (normal_pos _ _ q E Hq); lia).
    pose proof (normal_large q E _ Hq Hv ltac:(lia)).
    assert (normal q (E + -24 + 23)) as Hq' by (split; [apply Hq|f32_lia]).
    apply (exact_normal _ _ _ _ q (E + -24 + 23)); [by apply mul_pow2|done|].
    apply (Z.mul_reg_r _ _ 2); [done|]. unfold emin, f32.prec, f32.emax in *.
    replace (r * 2 ^ 124 * 2) with (r * 2 ^ 125) by lia.
    rewrite Hv, <- Z.mul_assoc, (Z.mul_comm _ 2), <- Z.pow_succ_r by lia. do 2 f_equal. lia.
Qed.

Lemma linear_aqm_exact bits k :
  0 ≤ bits < 2 ^ 32 → 0 ≤ k ≤ 2 ^ 24 →
  linear_aqm_rng bits ECN_THRESHOLD (frac k) = true ↔ 2 * k - 2 ^ 24 ≤ Z.shiftr bits 8.
Proof.
  intros Hb Hk.
  assert (0 ≤ Z.shiftr bits 8 < 2 ^ 24) as Hr.
  { rewrite Z.shiftr_div_pow2 by done. split; [apply Z.div_pos; lia|].
    apply Z.div_lt_upper_bound; lia. }
  unfold linear_aqm_rng, random_f32, f32.lt, SFltb. fold (frac (Z.shiftr bits 8)).
  rewrite (compare_exact f32.prec f32.emax eq_refl _ _ _ _ (frac_exact k Hk) half_exact).
  destruct (Z.compare_spec (k * 2 ^ 125) (1 * 2 ^ 148)); [| |]; [|by split; [lia|]|].
  all: assert (f32.sub (frac k) ECN_THRESHOLD = frac (k - 2 ^ 23)) as ->
    by (apply (sub_exact _ _ _ _ _ _ _ (frac_exact k Hk) half_exact); [lia|];
        replace (k * 2 ^ 125 - 1 * 2 ^ 148) with ((k - 2 ^ 23) * 2 ^ 125) by lia;
        apply frac_exact; lia).
  all: unfold f32.le, SFleb; rewrite (compare_exact f32.prec f32.emax eq_refl _ _ ((k - 2 ^ 23) * 2 ^ 125)
    (Z.shiftr bits 8 * 2 ^ 124)) by (apply frac_exact || apply random_half_exact; lia).
  all: destruct (Z.compare_spec ((k - 2 ^ 23) * 2 ^ 125) (Z.shiftr bits 8 * 2 ^ 124));
    (split; [done || lia|done || lia]).
Qed.

Section Policy.
Context `{Etherparse, IpHeaderOps}.

(** C18: with a send buffer of [2 ^ j] bytes, [used] of them taken, a packet that
    fits is sent as it is exactly when the 24 random bits are at least
    [(2 * used - 2 ^ j) * 2 ^ (24 - j)], and goes through the congestion handling
    otherwise: never while the buffer is at most half full, always when it is
    full, and in between for a share of the draws that is exactly
    [2 * used / 2 ^ j - 1]. No rounding bends the line. *)
Theorem drop_policy_linear (gw : IcmpGateway) (env : SendEnv) (packet : list byte) (j : Z) :
  let used := 2 ^ j - datagram_send_buffer_space env in
  let bits24 := Z.shiftr (random_bits env) 8 in
  let sent := Ret (Some packet, let? _ := send_datagram env packet in Ok None) in
  let congested :=
    let! (action, packet) := process_packet_congestion packet in
    match action with
    | Drop => Ret (None, Ok None)
    | Forward => Ret (Some packet, let? _ := send_datagram env packet in Ok None)
    end in
  0 ≤ j ≤ 24 → initial_buffer_space env = 2 ^ j → 0 ≤ used ≤ 2 ^ j →
  0 ≤ random_bits env < 2 ^ 32 → too_long env packet = None →
  send_packet gw env packet =
    (if (2 * used - 2 ^ j) * 2 ^ (24 - j) <=? bits24 then sent else congested) ∧
  (2 * used ≤ 2 ^ j → send_packet gw env packet = sent) ∧
  (used = 2 ^ j → send_packet gw env packet = congested).
Proof.
  cbv zeta. intros Hj Hi Hu Hb Ht. set (used := 2 ^ j - _) in *.
  assert (0 < 2 ^ (24 - j)) by (apply Z.pow_pos_nonneg; lia).
  assert (2 ^ j * 2 ^ (24 - j) = 2 ^ 24) as Hp by (rewrite <- Z.pow_add_r by lia; f_equal; lia).
  assert (0 ≤ Z.shiftr (random_bits env) 8 < 2 ^ 24) as Hr.
  { rewrite Z.shiftr_div_pow2 by done. split; [apply Z.div_pos; lia|].
    apply Z.div_lt_upper_bound; lia. }
  pose proof (linear_aqm_exact (random_bits env) (used * 2 ^ (24 - j)) Hb ltac:(nia)) as Hl.
  pose proof (fullness_exact env j Hj Hi ltac:(unfold used in *; lia)) as Hf.
  fold used in Hf. rewrite <- Hf in Hl.
  replace (2 * (used * 2 ^ (24 - j)) - 2 ^ 24) with ((2 * used - 2 ^ j) * 2 ^ (24 - j)) in Hl by nia.
  unfold send_packet. rewrite Ht.
  destruct (linear_aqm_rng _ _ _); simpl.
  - rewrite (proj2 (Z.leb_le _ _)) by (by apply Hl). split_and!; [done..|].
    intros E. assert (2 ^ 24 ≤ Z.shiftr (random_bits env) 8); [|lia].
    rewrite <- Hp. etransitivity; [|by apply Hl]. nia.
  - rewrite (proj2 (Z.leb_gt _ _)) by (apply Z.nle_gt; by rewrite <- Hl).
    split_and!; [|intros E; exfalso; apply (Bool.diff_false_true), Hl; nia|intros _].
    all: by destruct (process_packet_congestion packet) as [[[] p']|].
Qed.
End Policy.

(** ** Witness: a buffer of a mebibyte that is three quarters full *)
Import EtherparseRef HeaderRef.

Definition busy_conn (bits : Z) : SendEnv :=
  {| max_datagram_size := Some 1200; datagram_send_buffer_space := 2 ^ 18;
     initial_buffer_space := 2 ^ 20; random_bits := bits; send_datagram _ := Ok tt |}.

(** Half of the draws send the packet, the other half drops it. *)
Lemma drop_policy_linear_witness :
  send_packet gateway4 (busy_conn (2 ^ 31)) MOCK_IPV4_PACKET = Ret (Some MOCK_IPV4_PACKET, Ok None) ∧
  send_packet gateway4 (busy_conn (2 ^ 31 - 1)) MOCK_IPV4_PACKET = Ret (None, Ok None).
Proof.
  split;
    [rewrite (proj1 (drop_policy_linear gateway4 (busy_conn (2 ^ 31)) MOCK_IPV4_PACKET 20
       ltac:(lia) eq_refl ltac:(by cbn) ltac:(by cbn) eq_refl))
    |rewrite (proj1 (drop_policy_linear gateway4 (busy_conn (2 ^ 31 - 1)) MOCK_IPV4_PACKET 20
       ltac:(lia) eq_refl ltac:(by cbn) ltac:(by cbn) eq_refl))]; by vm_compute.
Defined.
