(* ===== verification/Security.v ===== *)
(** * Hostile peers

    [Session.System] again, but with no assumption on what the peers advertise:
    every connection a link can yield is allowed, with every behaviour during
    its handshake and every datagram afterwards. Whatever the peers do, in any
    order of the steps of their sessions, the node stays well-formed (it panics at
    most on a peer that advertises an address twice), its routes
    outside the allowed networks are left alone, and a packet only leaves over a
    connection whose remote key has signed for its destination. *)

From S2P Require Import Prelude ErrorCode Net Keys Addr Proto Validate Packet Handshake Route Relay Dns Session Ecn DataPlane.
From stdpp Require Import prelude gmap strings.
From Stdlib Require Import Strings.Byte.

Section Hostile.
Context `{IpnetLaws, IrohLaws, MessageLaws ControlRequest, MessageLaws ControlResponse}.
Context `{ErrorCodeExt, DebugFmt, ThinStatusOps, RoutingTableLaws W routes}.
Context (cfgs : list PeerSessionConfig) (installed : gset IpAddr).

(** Any connection can come up at any time. *)
Definition any_connection (i : nat) (conn : Connection) : Prop := True.

(** The networks the node allows, as configured, are well-formed. *)
Definition networks_ok : Prop :=
  Forall (λ self, Forall IpNet_wf (allowed_networks (ps_common self))) cfgs.

(** An address that the node may have to do with. *)
Definition permitted (ip : IpAddr) : Prop :=
  IpAddr_wf ip ∧ ∃ self a, self ∈ cfgs ∧ a ∈ allowed_networks (ps_common self) ∧ in_network a ip.

Lemma entitled_permitted self conn ip :
  self ∈ cfgs → entitled (peer_config self conn) ip → permitted ip.
Proof.
  intros Hs (net & sig & a & -> & Hwf & _ & _ & Ha & Hin). split; [|by exists self, a].
  destruct net; apply Hwf.
Qed.

(** ** The invariant *)

Record relay_ok (r : Relay W ConnectedPeer) : Prop := {
  ro_inv : relay_inv routes r;
  ro_permitted ip : is_Some (Relay_get r ip) → permitted ip;
  ro_entitled ip cp : Relay_get r ip = Some (Connected cp) → entitled (cp_config cp) ip;
  ro_routes ip : ¬ permitted ip → ip ∈ routes (handle r) ↔ ip ∈ installed;
}.

Definition names_ok (names : PeerNames) : Prop :=
  map_Forall (λ _ addrs, Forall permitted addrs) (addresses names).

Record node_ok (n : Node (W := W)) : Prop := {
  no_relay : relay_ok (relay n);
  no_names names : dns_names n = Some names → names_ok names;
}.

Definition phase_ok (self : PeerSessionConfig) (p : phase) : Prop :=
  Forall permitted (phase_addrs p) ∧
  match p with
  | Registering conn changed _ =>
      handshake (peer_config self conn) (conn_handshake conn) = Ok changed ∧
      Forall (entitled (peer_config self conn)) changed
  | _ => True
  end.

(** A change of the entries and routes of [ips] only. *)
Lemma relay_ok_change ips r r' :
  relay_ok r → relay_inv routes r' → Forall permitted ips →
  (∀ ip, ip ∉ ips → Relay_get r' ip = Relay_get r ip) →
  (∀ ip cp, ip ∈ ips → Relay_get r' ip = Some (Connected cp) → entitled (cp_config cp) ip) →
  (∀ ip, ip ∉ ips → ip ∈ routes (handle r') ↔ ip ∈ routes (handle r)) →
  relay_ok r'.
Proof.
  intros [Hi Hp He Hr] Hi' Hips Hout Hin Hroutes. rewrite Forall_forall in Hips. split; [done|..].
  - intros ip Hs. destruct (decide (ip ∈ ips)) as [?|Hn]; [by apply Hips|].
    rewrite Hout in Hs by done. by apply Hp.
  - intros ip cp Hg. destruct (decide (ip ∈ ips)) as [?|Hn]; [by apply Hin|].
    rewrite Hout in Hg by done. by apply He.
  - intros ip Hn. rewrite Hroutes; [by apply Hr|]. intros Hip. by apply Hn, Hips.
Qed.

Lemma relay_ok_remove ips r r' :
  relay_ok r → Forall permitted ips → relay_inv routes r' →
  routes (handle r) ∖ list_to_set ips ⊆ routes (handle r') ⊆ routes (handle r) →
  (∀ ip, Relay_get r' ip = if decide (ip ∈ ips) then None else Relay_get r ip) →
  relay_ok r'.
Proof.
  intros Hr Hips Hr' Hw Hg. apply (relay_ok_change ips r); [done..| | |set_solver].
  - intros ip Hn. by rewrite Hg, decide_False.
  - intros ip cp Hip. by rewrite Hg, decide_True.
Qed.

Lemma relay_ok_park ips r : relay_ok r → relay_ok (Relay_park ips r).
Proof.
  intros Hr. pose proof Hr as [Hi Hp He Hro]. split.
  - by apply park_inv.
  - intros ip. rewrite get_park. case_decide; [rewrite fmap_is_Some|]; apply Hp.
  - intros ip cp. rewrite get_park. case_decide; [|apply He]. by destruct (Relay_get r ip).
  - intros ip. rewrite (proj1 (park_handle ips r)). apply Hro.
Qed.

Lemma relay_ok_insert ips cp r res r' :
  relay_ok r → Forall permitted ips → Forall (entitled (cp_config cp)) ips →
  relay_inv routes r' → insert_post routes ips cp r res r' → relay_ok r'.
Proof.
  intros Hr Hips Hent Hr' Hp. rewrite Forall_forall in Hent.
  apply (relay_ok_change ips r); [done..| | |]; destruct res; destruct Hp as [Hw Hg].
  1,2: intros ip Hn; by rewrite Hg, decide_False.
  1,2: intros ip cp' Hip; rewrite Hg, decide_True by done; intros [= <-]; by apply Hent.
  - intros ip Hn. rewrite Hw. set_solver.
  - set_solver.
Qed.

Lemma node_ok_park rs n : node_ok n → node_ok (park_routes rs n).
Proof.
  intros [Hr Hn]. unfold park_routes. case_match; [|by split].
  split; simpl; [by apply relay_ok_park|done].
Qed.

(** A step of a session. *)
Lemma advance_ok self ev p n o :
  networks_ok → self ∈ cfgs → advance self ev p n = Some o → node_ok n → phase_ok self p →
  (o = Panic ∧ ∃ conn changed previous, p = Registering conn changed previous ∧ ¬ NoDup changed) ∨
  ∃ p' n', o = Ret (p', n') ∧ node_ok n' ∧ phase_ok self p'.
Proof.
  intros Hnets Hs E Hn [Hp Hph]. pose proof Hn as [Hr Hnames].
  destruct p as [rs|conn changed prev|conn cp rs|], ev as [[conn'| |]| |]; simplify_eq/=.
  - right. destruct (handshake _ _) as [changed|err] eqn:Eh; simplify_eq/=; [|by eexists _, _].
    assert (Forall (entitled (peer_config self conn')) changed) as Hent.
    { eapply handshake_entitled; [|exact Eh]. by apply (proj1 (Forall_forall _ _) Hnets). }
    assert (Forall permitted changed) as Hch
      by (eapply Forall_impl; [exact Hent|]; intros ip; by apply entitled_permitted).
    destruct (remove_nonempty_spec (stale_of changed rs) (relay n) (ro_inv _ Hr))
      as (r' & -> & Hr' & Hw & Hg).
    eexists _, _. split; [done|]. split; [|split; [by apply Forall_app|done]].
    split; simpl; [|done]. eapply relay_ok_remove; [done| |done..].
    rewrite Forall_forall in Hp |- *. intros ip Hip. apply Hp. by apply stale_of_spec in Hip as [? _].
  - right. eexists _, _. split; [done|]. split; [by apply node_ok_park|done].
  - right. destruct (withdraw_routes_spec self rs (count_session n "p2p_vpn_peer_session_link_ended"
      [("peer"%string, ps_name self)]) (ro_inv _ Hr)) as (n' & -> & Hr' & Hd & Hw & Hg).
    eexists _, _. split; [done|]. split; [|by split]. split; [by eapply relay_ok_remove|].
    intros names. rewrite Hd. simpl. destruct (dns_names n) as [nm|]; [|done]. intros [= <-].
    apply map_Forall_delete. by apply Hnames.
  - apply Forall_app in Hp as [Hch Hprev].
    pose proof (Relay_insert_outcome changed (connected_of self conn) (relay n) (ro_inv _ Hr)) as Hout.
    destruct (Relay_insert changed (connected_of self conn) (relay n)) as [[res r']|].
    2: { left. split; [done|]. by exists conn, changed, prev. }
    right. destruct Hout as [Hr' Hpost], Hph as [_ Hph].
    assert (relay_ok r') as Hok
      by exact (relay_ok_insert changed (connected_of self conn) (relay n) res r' Hr Hch Hph Hr' Hpost).
    destruct res as [[]|err]; eexists _, _; (split; [done|]);
      [|by split; [split|split; [constructor|]]].
    split; [|by split]. destruct (dns_names n) as [nm|] eqn:Ed; (split; simpl; [done|]);
      [|by intros ?; rewrite Ed]. intros ? [= <-]. apply map_Forall_insert_2; [done|by apply Hnames].
  - right. eexists _, _. split; [done|]. split; [|done].
    destruct (relay_receive self conn rs n) as [Er Ed]. split.
    + rewrite Er. apply (node_ok_park rs n Hn).
    + by rewrite Ed.
Qed.

Record hostile_inv (s : System (W := W)) : Prop := {
  hi_node : node_ok (node s);
  hi_len : length (phases s) = length cfgs;
  hi_phases i self p : cfgs !! i = Some self → phases s !! i = Some p → phase_ok self p;
}.

Lemma hostile_step s o :
  networks_ok → hostile_inv s → sys_step cfgs any_connection s o →
  (o = Panic ∧ registers_repeat cfgs any_connection s) ∨ ∃ s', o = Ret s' ∧ hostile_inv s'.
Proof.
  intros Hnets [Hn Hlen Hph] [i self ev p o' Hi Hp _ E].
  destruct (advance_ok self ev p (node s) o')
    as [[-> (conn & changed & prev & -> & Hnd)]|(p' & n' & -> & Hn' & Hp')]; eauto.
  { by eapply list_elem_of_lookup_2. }
  { left. split; [done|]. destruct (Hph _ _ _ Hi Hp) as [_ [Hh _]].
    by exists i, self, conn, changed, prev. }
  right.
  eexists. split; [done|]. split; simpl; [done|by rewrite length_insert|].
  intros j self' q Hj Hq.
  destruct (decide (j = i)) as [->|Hne].
  - rewrite list_lookup_insert_eq in Hq by (by eapply lookup_lt_Some). by simplify_eq.
  - rewrite list_lookup_insert_ne in Hq by done. eauto.
Qed.

(** A node that has just started: no peer is connected, no name is known. *)
Record fresh_node (n : Node (W := W)) : Prop := {
  fn_relay : ∃ w, relay n = Relay_new w ∧ routes w = installed;
  fn_names names : dns_names n = Some names → addresses names = ∅;
}.

Lemma hostile_init n : fresh_node n → hostile_inv (sys_init cfgs n).
Proof.
  intros [(w & Er & Ew) Hnames]. split; simpl.
  - split; [rewrite Er; split|].
    + apply Relay_new_inv.
    + by intros ip [d Hd].
    + by intros ip cp Hg.
    + intros ip _. simpl. by rewrite Ew.
    + intros names Hd. unfold names_ok. rewrite (Hnames names Hd). apply map_Forall_empty.
  - apply length_replicate.
  - by intros i self p _ [-> _]%lookup_replicate.
Qed.

Lemma hostile_reachable n o :
  networks_ok → fresh_node n → reachable cfgs any_connection (sys_init cfgs n) o →
  (o = Panic ∧ reaches_repeat cfgs any_connection (sys_init cfgs n)) ∨ ∃ s, o = Ret s ∧ hostile_inv s.
Proof.
  intros Hnets Hn Hr. induction Hr as [|s' o Hr IH Hstep].
  - right. eexists. split; [done|]. by apply hostile_init.
  - destruct IH as [[? _]|(s1 & [= <-] & Hs1)]; [done|].
    destruct (hostile_step s' o Hnets Hs1 Hstep) as [[-> Hrep]|?]; [|by right].
    left. split; [done|]. by exists s'.
Qed.

Lemma hostile_phase s p : hostile_inv s → p ∈ phases s → Forall permitted (phase_addrs p).
Proof.
  intros [_ Hlen Hph] [i Hi]%list_elem_of_lookup_1.
  assert (is_Some (cfgs !! i)) as [self Hs]
    by (apply lookup_lt_is_Some_2; rewrite <- Hlen; by eapply lookup_lt_Some).
  by destruct (Hph i self p Hs Hi).
Qed.


(** C15: whatever the peers do, a packet from the TUN device leaves only over a
    connection whose remote key has signed a network that the signature derives
    the destination of the packet in, and the destination is in a network the
    node allows. *)
Theorem packets_reach_entitled `{EtherparseLaws, IpHeaderLaws, DnsStackLaws, DnsHandler}
    (n : Node (W := W)) (s : System) (env : RxEnv (W := W) (T := ConnectedPeer))
    (packet : list byte) :
  networks_ok → fresh_node n → reachable cfgs any_connection (sys_init cfgs n) (Ret s) →
  rx_relay env = relay (node s) →
  ∃ sent effects, tun_rx_step env packet = Ret (sent, effects) ∧
    ∀ cp datagram, sent = Some (cp, datagram) →
      ∃ ip, dest_ip packet = Some ip ∧ entitled (cp_config cp) ip ∧ permitted ip.
Proof.
  intros Hnets Hn Hr He.
  destruct (hostile_reachable n _ Hnets Hn Hr) as [[? _]|(s' & [= <-] & Hs)]; [done|].
  pose proof (hi_node _ Hs) as [[_ Hp Hent _] _].
  destruct (tun_rx_step_facts env packet) as (sent & effects & E & Hc & _).
  exists sent, effects. split; [done|]. intros cp datagram Hsent.
  destruct (Hc cp datagram Hsent) as (_ & (ip & Hip & Hg) & _). rewrite He in Hg.
  exists ip. split_and!; [done|by apply Hent|by apply Hp].
Qed.
End Hostile.

(** ** Witnesses: Mallory claims Bob's address while Bob is connected *)
Import IpnetRef KeysRef MessageRef EtherparseRef HeaderRef DnsRef MockRoutes RelayRef Plane.
Import Session.Example_.

Module Takeover.
Definition peers : list PeerSessionConfig := [alice_session "peer"; alice_session "peer"].

Definition takeover : list (nat * event) :=
  [(0, EvLink (LinkUp bob_conn)); (0, EvInsert); (1, EvLink (LinkUp mallory_conn)); (1, EvInsert)].

Definition start : System := sys_init peers (node0 empty).

Lemma run_steps_reachable evs s :
  run_steps evs start = Ret s →
  reachable peers any_connection start (Ret s) ∧ length (phases s) = length peers.
Proof.
  revert s. induction evs as [|[i ev] evs IH] using rev_ind; intros s.
  { intros [= <-]. split; [apply reach_init|done]. }
  unfold run_steps. rewrite foldl_app. fold (run_steps evs start). cbn [foldl].
  destruct (run_steps evs start) as [s1|]; [|done]. simpl.
  destruct (IH s1 eq_refl) as [Hr Hlen].
  destruct (phases s1 !! i) as [p|] eqn:Ep; [|done].
  destruct (advance _ ev p (node s1)) as [o|] eqn:Ea; [|done].
  assert (peers !! i = Some (alice_session "peer")) as Hi.
  { apply lookup_lt_Some in Ep. rewrite Hlen in Ep. simpl in Ep. by destruct i as [|[|i]]; [..|lia]. }
  pose proof (sys_session peers any_connection s1 i _ ev p o Hi Ep) as Hs.
  destruct o as [[p' n']|]; [|done]. intros [= <-]. split; [|by simpl; rewrite length_insert].
  apply (reach_step _ _ _ s1); [done|]. by apply Hs; [destruct ev as [[]| |]|].
Qed.

(** Both connect, and Bob's address is dispatched to Mallory's connection. *)
Lemma taken_over :
  ∃ s, reachable peers any_connection start (Ret s) ∧ conn_of (node s) bob_addr = Some (Some 2).
Proof.
  assert ((let! s := run_steps takeover start in Ret (conn_of (node s) bob_addr)) =
    Ret (Some (Some 2))) as E by (by vm_compute).
  destruct (run_steps takeover start) as [s|] eqn:Es; [|done]. simpl in E. injection E as E.
  exists s. split; [|done]. by apply (run_steps_reachable takeover).
Qed.

Lemma peers_networks : networks_ok peers.
Proof. unfold networks_ok. by_decide. Qed.

Lemma start_fresh : fresh_node (W := world) (routes := mock_routes) ∅ (node0 empty).
Proof. split; [by exists empty|by intros names [= <-]]. Qed.

Definition packet_to_bob : list byte :=
  take 24 MOCK_IPV6_PACKET ++
  to_be_bytes 16 (match bob_addr with V6 a => a | V4 a => a end) ++ drop 40 MOCK_IPV6_PACKET.

Definition rx_of (s : System (W := world)) : RxEnv (W := world) (T := ConnectedPeer) :=
  {| rx_relay := relay (node s); dns_dispatch := None; rx_gateway := gateway6;
     peer_env _ := idle_conn 1200; tx_accepts := true |}.

Lemma packet_to_bob_sent s cp :
  Relay_get (relay (node s)) bob_addr = Some (Connected cp) →
  tun_rx_step (rx_of s) packet_to_bob = Ret (Some (cp, packet_to_bob), []).
Proof.
  intros Hg. apply tun_rx_step_forwards; [done| |by vm_compute..].
  assert (dest_ip packet_to_bob = Some bob_addr) as -> by (by vm_compute). exact Hg.
Qed.
End Takeover.
Import Takeover.


Lemma packets_reach_entitled_witness :
  ∃ s cp, tun_rx_step (rx_of s) packet_to_bob = Ret (Some (cp, packet_to_bob), []) ∧
    cp_conn cp = 2 ∧ entitled (cp_config cp) bob_addr.
Proof.
  destruct taken_over as (s & Hr & Hc).
  destruct (packets_reach_entitled (routes := mock_routes) peers ∅ (node0 empty) s (rx_of s)
    packet_to_bob peers_networks start_fresh Hr eq_refl) as (sent & effects & E & Hs).
  unfold conn_of in Hc. destruct (Relay_get (relay (node s)) bob_addr) as [[cp|]|] eqn:Eg; [|done..].
  pose proof (packet_to_bob_sent s cp Eg) as Ep. rewrite Ep in E. injection E as <- <-.
  exists s, cp. split; [exact Ep|]. split; [congruence|].
  destruct (Hs cp packet_to_bob eq_refl) as (ip & Hip & Hent & _).
  assert (dest_ip packet_to_bob = Some bob_addr) as Hb by (by vm_compute). congruence.
Defined.
