(* ===== verification/Tun.v ===== *)
(** * The loops of the TUN device

    Models [src/src/tun.rs]: assigning the interface address with retries, and
    the two tasks of [control], which move packets between the device and the
    channels through the buffer pool. *)

From S2P Require Import Prelude ErrorCode Net Retry Packet BufferPool.
From stdpp Require Import prelude strings.
From Stdlib Require Import Strings.Byte.

Local Open Scope Z_scope.

(** [tun_rs::AsyncDevice]: assigning an address with a prefix length. *)
Class TunDevice (K : Type) := {
  add_address_v4 : Z → Z → K → result unit IoError * K;
  add_address_v6 : Z → Z → K → result unit IoError * K;
}.

(** [fuel] bounds the retries, as in [retry_on_windows_not_found]. *)
Definition add_if_addr `{TunDevice K, Backoff} (fuel : nat) (ip : IpAddr) (k : K) :
    option (result unit AnyhowError * K) :=
  let op := λ k, match ip with
                 | V4 a => add_address_v4 a 32 k
                 | V6 a => add_address_v6 a 128 k
                 end in
  '(r, k, _) ← retry_on_windows_not_found fuel op k;
  Some (map_err anyhow_io r, k).

(** The size of the buffers of the pool. *)
Definition BUFFER_SIZE : nat := 2048.

Section Control.
Context `{Libc, ThinStatusOps, Mpsc (list byte)} (if_name : string).

Definition transient_labels (err : IoError) : list Label :=
  into_labels (from_io err) ++ [("if_name"%string, if_name)].

(** The state of the read task: the pool with the buffers that are out, the last
    of which may still wait for room in the channel, and the counters. *)
Record RxState := {
  rx_usage : Usage;
  rx_waiting : bool;
  rx_counters : list (string * list Label);
}.

Definition rx_drop (b : PooledBuffer) (p : BufferPool) (s : RxState) : outcome RxState :=
  let! p := PooledBuffer_drop b p in
  Ret {| rx_usage := {| the_pool := p; out := out (rx_usage s) |}; rx_waiting := rx_waiting s;
         rx_counters := rx_counters s |}.

(** [rx_task] over the reads of the device; [rx_open]: the channel is open, and
    takes [room] packets before the task waits in [send]. It returns [None] when
    it waits, for a buffer, for a read or for room, and otherwise the error it
    ends with. *)
Fixpoint rx_task (rx_open : bool) (room : nat) (reads : list device_recv) (s : RxState) :
    outcome (option AnyhowError * RxState) :=
  match reads with
  | [] => Ret (None, s)
  | dev :: reads =>
      match pop (the_pool (rx_usage s)) with
      | None => Ret (None, s)
      | Some (b, p) =>
          let! r := read_frame b dev in
          match r with
          | Err err =>
              let! s := rx_drop b p s in
              if is_tun_transient err then
                rx_task rx_open room reads
                  {| rx_usage := rx_usage s; rx_waiting := rx_waiting s;
                     rx_counters :=
                       ("p2p_vpn_tun_read_transient_errors"%string, transient_labels err)
                         :: rx_counters s |}
              else Ret (Some (anyhow_io err), s)
          | Ok buf =>
              let! data := deref buf in
              if (0 <? length data)%nat then
                if rx_open then
                  let u := {| the_pool := p; out := out (rx_usage s) ++ [buf] |} in
                  match room with
                  | S room =>
                      rx_task rx_open room reads
                        {| rx_usage := u; rx_waiting := rx_waiting s; rx_counters := rx_counters s |}
                  | O => Ret (None, {| rx_usage := u; rx_waiting := true;
                                       rx_counters := rx_counters s |})
                  end
                else
                  let! s := rx_drop buf p s in
                  Ret (Some anyhow_msg, s)
              else
                let! s := rx_drop buf p s in
                rx_task rx_open room reads s
          end
      end
  end.

(** [tx_task] over the packets of the channel, each with the answer of the
    device; the channel is dropped after the last one when [closed]. Returns the
    frames it has handed to the device, each with whether the device took it. *)
Fixpoint tx_task (closed : bool) (packets : list (TxPacket * result nat IoError)) :
    option AnyhowError * list (list byte * bool) * list (string * list Label) :=
  match packets with
  | [] => (if closed then Some anyhow_msg else None, [], [])
  | (packet, answer) :: packets =>
      match write_frame (tx_data packet) (λ _, answer) with
      | Err err =>
          if is_tun_transient err then
            let '(r, attempts, counted) := tx_task closed packets in
            (r, (tx_data packet, false) :: attempts,
             ("p2p_vpn_tun_send_transient_errors"%string, transient_labels err) :: counted)
          else (Some (anyhow_io err), [(tx_data packet, false)], [])
      | Ok _ =>
          let '(r, attempts, counted) := tx_task closed packets in
          (r, (tx_data packet, true) :: attempts, counted)
      end
  end.
End Control.

(** ** Properties *)
Section Facts.
Context `{Libc, ThinStatusOps, MpscLaws (list byte) contents} (if_name : string).

(** What a sequence of reads should deliver: the non-empty frames before the
    first fatal error, and that error. *)
Fixpoint delivered (reads : list (result (list byte) IoError)) :
    list (list byte) * option IoError :=
  match reads with
  | [] => ([], None)
  | Err err :: reads => if is_tun_transient err then delivered reads else ([], Some err)
  | Ok frame :: reads =>
      let '(frames, e) := delivered reads in
      (if decide (frame = []) then frames else frame :: frames, e)
  end.

(** A device that answers a read into a whole buffer with [r]. *)
Definition answers (r : result (list byte) IoError) : device_recv := λ _, r.

Definition fits_buffer (r : result (list byte) IoError) : Prop :=
  match r with Ok frame => (length frame ≤ BUFFER_SIZE)%nat | Err _ => True end.

Lemma rx_drop_spec count s b p :
  usage_inv (contents := contents) count BUFFER_SIZE
    {| the_pool := p; out := out (rx_usage s) ++ [b] |} → pool_alive p = true →
  ∃ p', rx_drop b p s =
      Ret {| rx_usage := {| the_pool := p'; out := out (rx_usage s) |};
             rx_waiting := rx_waiting s; rx_counters := rx_counters s |} ∧
    pool_alive p' = true ∧
    length (contents (pool p')) = S (length (contents (pool p))) ∧
    usage_inv (contents := contents) count BUFFER_SIZE
      {| the_pool := p'; out := out (rx_usage s) |}.
Proof.
  intros Hu Ha. unfold rx_drop.
  destruct (drop_buffer_inv count BUFFER_SIZE _ (length (out (rx_usage s))) b Hu)
    as (p' & Ep & Ha' & Hu'); [apply list_lookup_middle; done|].
  simpl in Ep, Ha', Hu'. rewrite Ep, Ha in *. eexists. split; [done|]. split; [done|].
  assert (delete (length (out (rx_usage s))) (out (rx_usage s) ++ [b]) = out (rx_usage s)) as Ed
    by (by rewrite delete_middle, app_nil_r).
  rewrite Ed in Hu'. split; [|done].
  destruct (ui_conserved _ _ _ Hu Ha) as [Hl1 _].
  destruct (ui_conserved _ _ _ Hu' Ha') as [Hl2 _]. simpl in Hl1, Hl2.
  rewrite length_app in Hl1. simpl in Hl1. lia.
Qed.

Lemma rx_task_delivers_facts count room reads s :
  usage_inv (contents := contents) count BUFFER_SIZE (rx_usage s) →
  pool_alive (the_pool (rx_usage s)) = true →
  Forall fits_buffer reads → (length (fst (delivered reads)) ≤ room)%nat →
  (length (fst (delivered reads)) < length (contents (pool (the_pool (rx_usage s)))))%nat →
  ∃ s', rx_task if_name true room (answers <$> reads) s =
      Ret (anyhow_io <$> snd (delivered reads), s') ∧
    usage_inv (contents := contents) count BUFFER_SIZE (rx_usage s') ∧
    pool_alive (the_pool (rx_usage s')) = true ∧
    deref <$> out (rx_usage s') =
      (deref <$> out (rx_usage s)) ++ (Ret <$> fst (delivered reads)).
Proof.
  revert room s. induction reads as [|r reads IH]; intros room s Hu Ha Hf Hroom Hlen; csimpl.
  { eexists. split; [done|]. split; [done|]. split; [done|]. simpl. by rewrite app_nil_r. }
  apply Forall_cons in Hf as [Hr Hf].
  destruct (pop_inv count BUFFER_SIZE _ Hu Ha) as (b & p & -> & Hp & Hz & Hb & Hc & Hu').
  { intros E. rewrite E in Hlen. simpl in Hlen. lia. }
  assert (remaining_mut b = BUFFER_SIZE) as Hrem by (unfold remaining_mut; rewrite Hz, Hb; lia).
  destruct (read_frame_spec BUFFER_SIZE b (answers r)) as (res & Er & Hres).
  { split; [done|]. rewrite Hz. lia. }
  { intros f E. rewrite Hrem. unfold answers in E. by rewrite E in Hr. }
  rewrite Er. destruct res as [buf|err].
  - destruct (Hres buf eq_refl) as [Hbuf (frame & Ef & Hd)]. unfold answers in Ef. subst r.
    rewrite Hz in Hd. simpl in Hd. rewrite Hd.
    assert (usage_inv (contents := contents) count BUFFER_SIZE
      {| the_pool := p; out := out (rx_usage s) ++ [buf] |}) as Hu2.
    { pose proof (replace_buffer_inv count BUFFER_SIZE _ (length (out (rx_usage s))) b buf Hu')
        as Hrep. simpl in Hrep.
      rewrite <- (Nat.add_0_r (length (out (rx_usage s)))), insert_app_r in Hrep.
      apply Hrep; [|done]. rewrite Nat.add_0_r. by apply list_lookup_middle. }
    simpl in Hlen, Hroom. destruct (delivered reads) as [frames e] eqn:Edel. simpl in IH, Hlen, Hroom; csimpl.
    destruct frame as [|x frame]; csimpl.
    + destruct (rx_drop_spec count s buf p Hu2 Hp) as (p' & -> & Hp' & Hc' & Hu3).
      apply (IH room {| rx_usage := {| the_pool := p'; out := out (rx_usage s) |};
        rx_waiting := rx_waiting s; rx_counters := rx_counters s |}); simpl; [done..|].
      simpl in Hlen. lia.
    + destruct room as [|room]; [simpl in Hroom; lia|].
      destruct (IH room {| rx_usage := {| the_pool := p; out := out (rx_usage s) ++ [buf] |};
        rx_waiting := rx_waiting s; rx_counters := rx_counters s |})
        as (s' & -> & Hs' & Ha' & Ho); simpl; [done..| | |].
      { simpl in Hroom. lia. }
      { simpl in Hlen. lia. }
      eexists. split; [done|]. split; [done|]. split; [done|]. rewrite Ho. simpl.
      rewrite fmap_app, <- app_assoc. simpl. by rewrite Hd.
  - assert (r = Err err) as ->.
    { revert Er. unfold read_frame, answers. rewrite Hz. simpl. destruct r; [|by intros [= ->]].
      by case_match. }
    destruct (rx_drop_spec count s b p Hu' Hp) as (p' & -> & Hp' & Hc' & Hu3).
    simpl in Hlen, Hroom. destruct (is_tun_transient err).
    + apply (IH room {| rx_usage := {| the_pool := p'; out := out (rx_usage s) |};
        rx_waiting := _; rx_counters := _ |});
        simpl; [done..|]. lia.
    + eexists. split; [done|]. split; [done|]. split; [done|]. simpl. by rewrite app_nil_r.
Qed.

(** Reading from the device, with frames that fit a buffer, and a free buffer and
    room in the channel for each, the read task hands over exactly the non-empty frames, in order and
    unaltered, until the first error that is not transient, with which it ends;
    transient errors and empty frames cost no buffer. *)
Theorem rx_task_delivers (count room : nat) (reads : list (result (list byte) IoError))
    (p : BufferPool) (counted : list (string * list Label)) :
  BufferPool_new count BUFFER_SIZE = Ret p → Forall fits_buffer reads →
  (length (fst (delivered reads)) ≤ room)%nat → (length (fst (delivered reads)) < count)%nat →
  ∃ s', rx_task if_name true room (answers <$> reads)
      {| rx_usage := {| the_pool := p; out := [] |}; rx_waiting := false; rx_counters := counted |} =
      Ret (anyhow_io <$> snd (delivered reads), s') ∧
    deref <$> out (rx_usage s') = Ret <$> fst (delivered reads) ∧
    (length (contents (pool (the_pool (rx_usage s'))))
       + length (fst (delivered reads)) = count)%nat.
Proof.
  intros Hp Hf Hroom Hlen. destruct (new_inv count BUFFER_SIZE) as (p' & Ep & Ha & Hu).
  rewrite Hp in Ep. injection Ep as <-.
  destruct (ui_conserved _ _ _ Hu Ha) as [Hc _]. simpl in Hc.
  destruct (rx_task_delivers_facts count room reads
    {| rx_usage := {| the_pool := p; out := [] |}; rx_waiting := false; rx_counters := counted |})
    as (s' & Es & Hu' & Ha' & Ho); simpl; [done..|by rewrite <- Hc, Nat.add_0_r in Hlen|].
  exists s'. split; [exact Es|]. split; [exact Ho|]. cbn [out rx_usage fmap list_fmap app] in Ho.
  destruct (ui_conserved _ _ _ Hu' Ha') as [Hc' _].
  apply (f_equal length) in Ho. rewrite !length_fmap in Ho. lia.
Qed.

(** The frames written, and whether the task ends, as the answers say. *)
Definition tx_fatal (pa : TxPacket * result nat IoError) : option IoError :=
  match write_frame (tx_data pa.1) (λ _, pa.2) with
  | Err err => if is_tun_transient err then None else Some err
  | Ok _ => None
  end.

(** Whether the device took a packet. *)
Definition tx_taken (pa : TxPacket * result nat IoError) : bool :=
  is_ok (write_frame (tx_data pa.1) (λ _, pa.2)).

(** The first [k] packets were handed to the device: all of them when none is
    fatal, and otherwise up to the first fatal one, whose error ends the task. *)
Definition written_in_order (closed : bool) (packets : list (TxPacket * result nat IoError))
    (e : option AnyhowError) (attempts : list (list byte * bool)) : Prop :=
  ∃ k, attempts = take k ((λ pa, (tx_data pa.1, tx_taken pa)) <$> packets) ∧
    ((k = length packets ∧ Forall (λ pa, tx_fatal pa = None) packets ∧
      e = if closed then Some anyhow_msg else None) ∨
     (∃ pa err, packets !! pred k = Some pa ∧ (0 < k)%nat ∧ tx_fatal pa = Some err ∧
      Forall (λ pa, tx_fatal pa = None) (take (pred k) packets) ∧ e = Some (anyhow_io err))).

Lemma written_cons closed pa packets e attempts :
  tx_fatal pa = None → written_in_order closed packets e attempts →
  written_in_order closed (pa :: packets) e ((tx_data pa.1, tx_taken pa) :: attempts).
Proof.
  intros Hf (k & -> & Hk). exists (S k). split; [done|].
  destruct Hk as [(-> & Hall & He)|(pb & err & Hpb & Hpos & Hfat & Hall & He)].
  - left. split; [done|]. split; [by constructor|done].
  - right. exists pb, err. destruct k as [|k]; [lia|]. simpl in *.
    split_and!; [done|lia|done|by constructor|done].
Qed.

Lemma tx_task_written closed packets :
  let '(e, attempts, _) := tx_task if_name closed packets in
  written_in_order closed packets e attempts.
Proof.
  induction packets as [|[packet answer] packets IH].
  { exists 0%nat. split; [done|]. left. by repeat constructor. }
  pose proof (written_cons closed (packet, answer) packets) as Hcons.
  cbn [tx_task]. unfold tx_fatal, tx_taken in Hcons. cbn [fst snd] in Hcons.
  destruct (write_frame _ _) as [[]|err] eqn:Ew.
  - destruct (tx_task if_name closed packets) as [[e frames] counted]. by apply Hcons.
  - destruct (is_tun_transient err) eqn:Et.
    + destruct (tx_task if_name closed packets) as [[e frames] counted]. by apply Hcons.
    + exists 1%nat. split; [unfold tx_taken; csimpl; by rewrite Ew|]. right. exists (packet, answer), err. simpl.
      split_and!; [done|lia| |constructor|done]. unfold tx_fatal. simpl. by rewrite Ew, Et.
Qed.

(** The write task hands every packet of its channel to the device once and
    in order, and goes on after transient errors, with which the packet is lost; it
    ends with the first other
    error, a short write included, or when the channel is dropped. *)
Theorem tx_task_in_order (closed : bool) (packets : list (TxPacket * result nat IoError)) :
  (let '(e, attempts, _) := tx_task if_name closed packets in
   written_in_order closed packets e attempts) ∧
  (∀ packet n, n ≠ length (tx_data packet) → is_Some (tx_fatal (packet, Ok n))).
Proof.
  split; [apply tx_task_written|]. intros packet n Hn. unfold tx_fatal, write_frame. simpl.
  rewrite (proj2 (Nat.eqb_neq _ _) Hn). by eexists.
Qed.
End Facts.

(** ** Witnesses: the error numbers of Linux *)
Module TunRef.
#[export] Instance libc : Libc := {
  EAGAIN := 11; EINTR := 4; EINVAL := 22; EMSGSIZE := 90; ENOBUFS := 105;
}.
#[export] Instance thin_status : ThinStatusOps := {
  from_error_kind _ := ErrorCode.Unknown;
  code_str _ := "UNKNOWN"%string;
  status_from_io e := {| code_raw := 2; message := error_kind_str (kind e) |};
}.

Definition again : IoError := {| kind := ErrorKind.WouldBlock; raw_os_error := Some 11 |}.
Definition gone : IoError := {| kind := ErrorKind.NotFound; raw_os_error := Some 19 |}.

Definition reads : list (result (list byte) IoError) :=
  [Ok [x01; x02]; Err again; Ok []; Ok [x03]; Err gone; Ok [x04]].
End TunRef.
Import TunRef MpscRef.

Lemma rx_task_delivers_witness :
  ∃ p s', rx_task "tun0" true 2 (answers <$> reads)
      {| rx_usage := {| the_pool := p; out := [] |}; rx_waiting := false; rx_counters := [] |} =
      Ret (Some (anyhow_io gone), s') ∧
    deref <$> out (rx_usage s') = [Ret [x01; x02]; Ret [x03]].
Proof.
  destruct (BufferPool_new 3 BUFFER_SIZE) as [p|] eqn:Ep; [|by vm_compute in Ep].
  destruct (rx_task_delivers (contents := items) "tun0" 3 2 reads p [] Ep) as (s' & Es & Ho & _).
  - repeat constructor; simpl; unfold BUFFER_SIZE; lia.
  - by_decide.
  - by_decide.
  - exact (ex_intro _ p (ex_intro _ s' (conj Es Ho))).
Defined.

Definition writes : list (TxPacket * result nat IoError) :=
  [(mkTxPacket [x01], Ok 1%nat); (mkTxPacket [x02], Err again); (mkTxPacket [x03; x04], Ok 1%nat);
   (mkTxPacket [x05], Ok 1%nat)].

Lemma tx_task_in_order_witness :
  written_in_order false writes
    (Some (anyhow_io {| kind := ErrorKind.Other; raw_os_error := None |}))
    [([x01], true); ([x02], false); ([x03; x04], false)] ∧
  is_Some (tx_fatal (mkTxPacket [x03; x04], Ok 1%nat)).
Proof.
  destruct (tx_task_in_order "tun0" false writes) as [Hw Hs]. split.
  - exact Hw.
  - apply Hs. by_decide.
Defined.
