(* ===== verification/TxQueue.v ===== *)
(** * The queue to the TUN device

    Everything that goes to the TUN device goes through one bounded channel: the
    receive loops of all peers wait for room in it ([ConnectedPeer::recv_loop] of
    [src/src/peer.rs]), the packet loop of [src/src/main.rs] drops its replies
    when there is none ([try_send]), and the write task of [src/src/tun.rs] takes
    the packets out. [Session.recv_loop] runs the loop of one peer in one go; here
    the loops take turns. *)

From S2P Require Import Prelude ErrorCode Net Keys Addr Proto Validate Packet Handshake Route Relay Dns Session BufferPool Tun.
From stdpp Require Import prelude strings.
From Stdlib Require Import Strings.Byte.

(** [mpsc::channel::<tun::TxPacket>(64)]. *)
Definition TX_CAPACITY : nat := 64.

Inductive source : Type :=
  | FromPeer (i : nat)
  | FromLoop.

#[export] Instance source_eq_dec : EqDecision source.
Proof. solve_decision. Defined.

(** A receive loop: waiting for a datagram, with those still to come, waiting for
    room in the channel, or returned. *)
Inductive receiver : Type :=
  | Reading (rest : list (list byte))
  | Sending (packet : TxPacket) (rest : list (list byte))
  | Stopped (err : AnyhowError).

(** The channel, oldest first, and whether its receiving half is alive; the
    loops; the packets given to the device; the replies refused. *)
Record Fan := {
  queue : list (source * TxPacket);
  queue_open : bool;
  receivers : list receiver;
  writes : list (source * TxPacket);
  refused : list TxPacket;
}.

Definition is_sending (r : receiver) : Prop := match r with Sending _ _ => True | _ => False end.

Definition with_receiver (s : Fan) (i : nat) (r : receiver) : Fan :=
  {| queue := queue s; queue_open := queue_open s; receivers := <[i := r]> (receivers s);
     writes := writes s; refused := refused s |}.
Definition push (s : Fan) (src : source) (p : TxPacket) : Fan :=
  {| queue := queue s ++ [(src, p)]; queue_open := queue_open s; receivers := receivers s;
     writes := writes s; refused := refused s |}.
Definition refuse (s : Fan) (p : TxPacket) : Fan :=
  {| queue := queue s; queue_open := queue_open s; receivers := receivers s;
     writes := writes s; refused := refused s ++ [p] |}.

Section Steps.
Context `{Libc, ThinStatusOps} (if_name : string).
(** The error that ends the connection of each peer. *)
Context (conn_error : nat → AnyhowError).

(** One packet by [tx_task], with the answer of the device; a fatal error ends
    the task, which drops the receiving half of the channel. *)
Definition write_one (s : Fan) (src : source) (p : TxPacket) (q : list (source * TxPacket))
    (answer : result nat IoError) : Fan :=
  let '(e, _, _) := tx_task if_name false [(p, answer)] in
  {| queue := q; queue_open := match e with None => true | Some _ => false end;
     receivers := receivers s; writes := writes s ++ [(src, p)]; refused := refused s |}.

(** The steps of the loops and of the write task. *)
Inductive work (s : Fan) : Fan → Prop :=
  | work_read i d rest :
      receivers s !! i = Some (Reading (d :: rest)) →
      work s (with_receiver s i (Sending (mkTxPacket d) rest))
  | work_ends i :
      receivers s !! i = Some (Reading []) →
      work s (with_receiver s i (Stopped (conn_error i)))
  | work_send i p rest :
      receivers s !! i = Some (Sending p rest) → queue_open s = true →
      length (queue s) < TX_CAPACITY →
      work s (push (with_receiver s i (Reading rest)) (FromPeer i) p)
  | work_send_fails i p rest :
      receivers s !! i = Some (Sending p rest) → queue_open s = false →
      work s (with_receiver s i (Stopped anyhow_msg))
  | work_write src p q answer :
      queue_open s = true → queue s = (src, p) :: q →
      work s (write_one s src p q answer).

(** A reply of the packet loop: [try_send] takes it or refuses it, also while a
    receive loop waits for the room that has become free. *)
Inductive reply (s : Fan) : Fan → Prop :=
  | reply_taken p :
      queue_open s = true → length (queue s) < TX_CAPACITY → reply s (push s FromLoop p)
  | reply_refused p :
      queue_open s = false ∨ TX_CAPACITY ≤ length (queue s) ∨ Exists is_sending (receivers s) →
      reply s (refuse s p).

(** A run, with the number of its work steps and of its replies. *)
Inductive fan_run : nat → nat → Fan → Fan → Prop :=
  | run_nil s : fan_run 0 0 s s
  | run_work n k s s1 s2 : fan_run n k s s1 → work s1 s2 → fan_run (S n) k s s2
  | run_reply n k s s1 s2 : fan_run n k s s1 → reply s1 s2 → fan_run n (S k) s s2.

Definition fan_init (datagrams : list (list (list byte))) : Fan :=
  {| queue := []; queue_open := true; receivers := Reading <$> datagrams; writes := [];
     refused := [] |}.

(** ** What every run keeps *)

(** The packets of a peer, in their order. *)
Definition from_peer (i : nat) (l : list (source * TxPacket)) : list (list byte) :=
  omap (λ x, if decide (x.1 = FromPeer i) then Some (tx_data x.2) else None) l.

(** The datagrams a loop still has. *)
Definition pending (r : receiver) : list (list byte) :=
  match r with
  | Reading rest => rest
  | Sending p rest => tx_data p :: rest
  | Stopped _ => []
  end.

Lemma from_peer_app i l k : from_peer i (l ++ k) = from_peer i l ++ from_peer i k.
Proof. apply omap_app. Qed.

(** The datagrams of peer [i] are those in the channel or at the device, those
    its loop still has, and, only once the channel is closed, lost ones. *)
Definition accounted (s : Fan) (i : nat) (ds : list (list byte)) : Prop :=
  ∃ r lost, receivers s !! i = Some r ∧
    from_peer i (writes s ++ queue s) ++ pending r ++ lost = ds ∧
    (queue_open s = true → lost = []) ∧
    (∀ e, r = Stopped e → queue_open s = true → e = conn_error i).

Record fan_inv (datagrams : list (list (list byte))) (s : Fan) : Prop := {
  fi_bound : length (queue s) ≤ TX_CAPACITY;
  fi_len : length (receivers s) = length datagrams;
  fi_peers i ds : datagrams !! i = Some ds → accounted s i ds;
}.

Lemma fan_init_inv datagrams : fan_inv datagrams (fan_init datagrams).
Proof.
  split; simpl; [lia|by rewrite length_fmap|]. intros i ds Hi. exists (Reading ds), [].
  simpl. rewrite list_lookup_fmap, Hi, app_nil_r. naive_solver.
Qed.

(** A step of loop [i] that keeps the channel and the device. *)
Lemma accounted_with_receiver s i r' ds j :
  accounted s j ds →
  (∀ r lost, j = i → receivers s !! i = Some r → (queue_open s = true → lost = []) →
     ∃ lost', pending r' ++ lost' = pending r ++ lost ∧ (queue_open s = true → lost' = []) ∧
       (∀ e, r' = Stopped e → queue_open s = true → e = conn_error i)) →
  accounted (with_receiver s i r') j ds.
Proof.
  intros (r & lost & Hr & Hds & Hl & He) Hstep. unfold accounted. simpl.
  destruct (decide (j = i)) as [->|Hne].
  - destruct (Hstep r lost eq_refl Hr Hl) as (lost' & Hp & Hl' & He').
    exists r', lost'. rewrite list_lookup_insert_eq by (by eapply lookup_lt_Some).
    by rewrite Hp.
  - exists r, lost. by rewrite list_lookup_insert_ne.
Qed.

(** A step that does not touch the loops. *)
Lemma accounted_same s s' i ds :
  accounted s i ds → receivers s' = receivers s →
  from_peer i (writes s' ++ queue s') = from_peer i (writes s ++ queue s) →
  (queue_open s' = true → queue_open s = true) →
  accounted s' i ds.
Proof.
  intros (r & lost & Hr & Hds & Hl & He) Hrs Hf Ho. exists r, lost. rewrite Hrs, Hf. naive_solver.
Qed.

Lemma accounted_sent s i p rest j ds :
  receivers s !! i = Some (Sending p rest) → accounted s j ds →
  accounted (push (with_receiver s i (Reading rest)) (FromPeer i) p) j ds.
Proof.
  intros Hi (r & lost & Hr & Hds & Hl & He). unfold accounted. simpl.
  rewrite (app_assoc (writes s)), from_peer_app. unfold from_peer at 2. simpl.
  destruct (decide (FromPeer i = FromPeer j)) as [[= ->]|Hne].
  - exists (Reading rest), lost. rewrite list_lookup_insert_eq by (by eapply lookup_lt_Some).
    assert (r = Sending p rest) as -> by congruence. simpl in *.
    rewrite <-!app_assoc. naive_solver.
  - exists r, lost. rewrite list_lookup_insert_ne by congruence. by rewrite app_nil_r.
Qed.

Lemma from_peer_pushed s i p : from_peer i (writes s ++ queue s ++ [(FromLoop, p)]) =
  from_peer i (writes s ++ queue s).
Proof. rewrite app_assoc, from_peer_app. apply app_nil_r. Qed.

Lemma write_one_fields s src p q answer :
  queue (write_one s src p q answer) = q ∧ receivers (write_one s src p q answer) = receivers s ∧
  writes (write_one s src p q answer) = writes s ++ [(src, p)].
Proof. unfold write_one. by destruct (tx_task _ _ _) as [[e ?] ?]. Qed.

Lemma work_inv datagrams s s' : fan_inv datagrams s → work s s' → fan_inv datagrams s'.
Proof.
  intros [Hb Hl Hp]. destruct 1 as [i d rest Hi|i Hi|i p rest Hi Ho Hc|i p rest Hi Ho|src p q a Ho Hq].
  - split; simpl; [done|by rewrite length_insert|]. intros j ds Hj.
    apply accounted_with_receiver; [by apply Hp|]. intros r lost _ Hr Hlost.
    exists lost. simplify_eq. naive_solver.
  - split; simpl; [done|by rewrite length_insert|]. intros j ds Hj.
    apply accounted_with_receiver; [by apply Hp|]. intros r lost _ Hr Hlost.
    exists lost. simplify_eq. naive_solver.
  - split; simpl; [rewrite length_app; simpl; lia|by rewrite length_insert|]. intros j ds Hj.
    apply accounted_sent; [done|by apply Hp].
  - split; simpl; [done|by rewrite length_insert|]. intros j ds Hj.
    apply accounted_with_receiver; [by apply Hp|]. intros r lost _ Hr Hlost.
    exists (pending r ++ lost). rewrite Ho. naive_solver.
  - destruct (write_one_fields s src p q a) as (Eq & Er & Ew). rewrite Hq in Hb. simpl in Hb.
    split; rewrite ?Eq, ?Er; [lia|done|]. intros j ds Hj.
    eapply accounted_same; [by apply Hp|done| |done].
    by rewrite Eq, Ew, Hq, <-app_assoc.
Qed.

Lemma reply_inv datagrams s s' : fan_inv datagrams s → reply s s' → fan_inv datagrams s'.
Proof.
  intros [Hb Hl Hp]. destruct 1 as [p Ho Hc|p Hr]; split; simpl; try done.
  - rewrite length_app. simpl. lia.
  - intros j ds Hj. eapply accounted_same; [by apply Hp|done| |done]. apply (from_peer_pushed s).
Qed.

Lemma fan_run_inv datagrams n k s : fan_run n k (fan_init datagrams) s → fan_inv datagrams s.
Proof.
  remember (fan_init datagrams) as s0 eqn:E. induction 1; subst.
  - apply fan_init_inv.
  - eauto using work_inv.
  - eauto using reply_inv.
Qed.

(** ** Every run comes to an end *)

Definition receiver_work (r : receiver) : nat :=
  match r with
  | Reading rest => 3 * length rest + 1
  | Sending _ rest => 3 * length rest + 3
  | Stopped _ => 0
  end.

Definition fan_work (s : Fan) : nat :=
  sum_list (receiver_work <$> receivers s) + length (queue s).

Lemma work_decreases s s' : work s s' → fan_work s' < fan_work s.
Proof.
  unfold fan_work.
  assert (∀ i r r', receivers s !! i = Some r →
    sum_list (receiver_work <$> receivers (with_receiver s i r')) + receiver_work r =
    sum_list (receiver_work <$> receivers s) + receiver_work r') as Hsum
    by (intros; by apply sum_list_insert).
  destruct 1 as [i d rest Hi|i Hi|i p rest Hi Ho Hc|i p rest Hi Ho|src p q a Ho Hq]; simpl.
  - specialize (Hsum i _ (Sending (mkTxPacket d) rest) Hi). simpl in Hsum. lia.
  - specialize (Hsum i _ (Stopped (conn_error i)) Hi). simpl in Hsum. lia.
  - specialize (Hsum i _ (Reading rest) Hi). rewrite length_app. simpl in *. lia.
  - specialize (Hsum i _ (Stopped anyhow_msg) Hi). simpl in Hsum. lia.
  - destruct (write_one_fields s src p q a) as (-> & -> & _). rewrite Hq. simpl. lia.
Qed.

Lemma fan_run_bound n k s s' : fan_run n k s s' → n + fan_work s' ≤ fan_work s + k.
Proof.
  induction 1 as [|n k s s1 s2 _ IH Hw|n k s s1 s2 _ IH Hr]; [lia|..].
  - apply work_decreases in Hw. lia.
  - destruct Hr; unfold fan_work in *; simpl in *; rewrite ?length_app; simpl; lia.
Qed.

(** Nothing is left to do: every loop has returned, and the channel is empty or
    has lost its receiving half. *)
Definition stopped (r : receiver) : Prop := match r with Stopped _ => True | _ => False end.

Definition finished (s : Fan) : Prop :=
  Forall stopped (receivers s) ∧ (queue s = [] ∨ queue_open s = false).

Lemma receiver_progress s i r :
  receivers s !! i = Some r → stopped r ∨ (∃ s', work s s') ∨
  (queue_open s = true ∧ queue s ≠ []).
Proof.
  intros Hi. destruct r as [[|d rest]|p rest|e]; [..|by left]; right.
  - left. eexists. by apply work_ends.
  - left. eexists. by eapply work_read.
  - destruct (queue_open s) eqn:Ho; [|left; eexists; by eapply work_send_fails].
    destruct (decide (length (queue s) < TX_CAPACITY)); [left; eexists; by eapply work_send|].
    right. split; [done|]. intros E. rewrite E in *. unfold TX_CAPACITY in *. simpl in *. lia.
Qed.

Lemma write_progress s : queue_open s = true → queue s ≠ [] → ∃ s', work s s'.
Proof.
  destruct (queue s) as [|[src p] q] eqn:Hq; [done|]. intros Ho _. eexists.
  by apply (work_write s src p q (Ok 0)).
Qed.

Lemma stuck_finished s : (∀ s', ¬ work s s') ↔ finished s.
Proof.
  split.
  - intros Hn. split.
    + apply Forall_lookup. intros i r Hi. destruct (receiver_progress s i r Hi) as [?|[[? ?]|[Ho Hq]]].
      * done.
      * by edestruct Hn.
      * by destruct (write_progress s Ho Hq) as [s' ?%Hn].
    + destruct (decide (queue s = [])) as [|Hq]; [by left|right].
      destruct (queue_open s) eqn:Ho; [|done]. by destruct (write_progress s Ho Hq) as [s' ?%Hn].
  - intros [Hs Hq] s' Hw. rewrite Forall_lookup in Hs.
    destruct Hw as [i ? ? Hi|i Hi|i ? ? Hi|i ? ? Hi|? ? ? ? Ho Hq']; [by specialize (Hs _ _ Hi)..|].
    destruct Hq; congruence.
Qed.

Lemma fan_work_init datagrams :
  fan_work (fan_init datagrams) = sum_list ((λ ds, 3 * length ds + 1) <$> datagrams).
Proof.
  unfold fan_work. simpl. rewrite Nat.add_0_r, <-list_fmap_compose. done.
Qed.

(** C22: whatever the order in which the receive loops, the packet loop and the
    write task take their turns, the channel never holds more than its 64
    packets, and the datagrams of each peer reach it, and from it the device, in
    the order in which they came and each once: what is at the device and in the
    channel, and what the loop still has, make up the datagrams of the peer.
    Datagrams are lost only after the device has failed. A loop that has returned
    with the device working has ended with the error of its connection and has
    queued what [recv_loop] queues when it runs alone. *)
Theorem tx_queue_fifo `{IrohKeys} (datagrams : list (list (list byte))) (n k : nat) (s : Fan) :
  fan_run n k (fan_init datagrams) s →
  length (queue s) ≤ TX_CAPACITY ∧
  ∀ i ds, datagrams !! i = Some ds → ∃ r lost,
    receivers s !! i = Some r ∧
    ds = from_peer i (writes s ++ queue s) ++ pending r ++ lost ∧
    (queue_open s = true → lost = []) ∧
    ∀ e W (node : Node (W := W)), r = Stopped e → queue_open s = true → tun_open node = true →
      recv_loop ds (conn_error i) node =
      (Err e, with_tun_tx node (tun_tx node ++ (mkTxPacket <$> from_peer i (writes s ++ queue s)))).
Proof.
  intros [Hb _ Hp]%fan_run_inv. split; [done|]. intros i ds Hi.
  destruct (Hp i ds Hi) as (r & lost & Hr & Hds & Hl & He). exists r, lost.
  split_and!; [done..|]. intros e W node -> Ho Hn. rewrite (He e), (Hl Ho) in * by done.
  rewrite recv_loop_open by done. simpl in Hds. by rewrite <-Hds, app_nil_r.
Qed.

(** C23: no peer waits for the device for ever. The loops and the write task
    together take no more steps than three for each datagram, one for each peer
    and one for each reply of the packet loop; and as long as a loop has not
    returned, or a packet is in the channel of a working device, one of them can
    take a step, so a full channel never blocks them all. When no step is left
    and the device has not failed, every datagram of every peer has been given to
    it, in order. *)
Theorem tx_queue_drains (datagrams : list (list (list byte))) (n k : nat) (s : Fan) :
  fan_run n k (fan_init datagrams) s →
  n ≤ sum_list ((λ ds, 3 * length ds + 1) <$> datagrams) + k ∧
  ((∀ s', ¬ work s s') ↔ finished s) ∧
  (finished s → queue_open s = true →
   ∀ i ds, datagrams !! i = Some ds → from_peer i (writes s) = ds).
Proof.
  intros Hrun. split; [apply fan_run_bound in Hrun; rewrite fan_work_init in Hrun; lia|].
  split; [apply stuck_finished|]. intros [Hs Hq] Ho i ds Hi.
  destruct (fan_run_inv _ _ _ _ Hrun) as [_ _ Hp].
  destruct (Hp i ds Hi) as (r & lost & Hr & Hds & Hl & _). rewrite Forall_lookup in Hs.
  specialize (Hs _ _ Hr). destruct r; [done..|]. destruct Hq as [Hq|]; [|congruence].
  simpl in Hds. by rewrite Hq, (Hl Ho), !app_nil_r in Hds.
Qed.
End Steps.

(** ** Witnesses: two peers, one reply *)
Import TunRef KeysRef.

Definition lost_conn (i : nat) : AnyhowError := anyhow_io gone.
Definition two_peers : list (list (list byte)) := [[[x01]]; [[x02]]].

(** The second peer is first; a reply gets between the two datagrams. *)
Definition drained : Fan :=
  let q := [(FromPeer 1, mkTxPacket [x02]); (FromLoop, mkTxPacket [x09]);
            (FromPeer 0, mkTxPacket [x01])] in
  {| queue := []; queue_open := true;
     receivers := [Stopped (lost_conn 0); Stopped (lost_conn 1)]; writes := q; refused := [] |}.

Tactic Notation "then_step" hyp(R) uconstr(c) :=
  eapply run_work in R; [|eapply c; vm_compute; (reflexivity || lia)].

Lemma drained_run : fan_run "tun0" lost_conn 9 1 (fan_init two_peers) drained.
Proof.
  pose proof (run_nil "tun0" lost_conn (fan_init two_peers)) as R.
  then_step R (work_read "tun0" lost_conn _ 1). then_step R (work_send "tun0" lost_conn _ 1).
  eapply run_reply in R; [|apply (reply_taken _ (mkTxPacket [x09])); vm_compute; (reflexivity || lia)].
  then_step R (work_read "tun0" lost_conn _ 0). then_step R (work_send "tun0" lost_conn _ 0).
  then_step R (work_ends "tun0" lost_conn _ 0). then_step R (work_ends "tun0" lost_conn _ 1).
  do 3 (eapply run_work in R; [|eapply (work_write "tun0" lost_conn _ _ _ _ (Ok 1)); reflexivity]).
  exact R.
Qed.

(** The device fails at the first packet: the rest of the datagrams is lost. *)
Definition failed : Fan :=
  {| queue := []; queue_open := false; receivers := [Stopped anyhow_msg; Stopped (lost_conn 1)];
     writes := [(FromPeer 1, mkTxPacket [x02])]; refused := [] |}.

Lemma failed_run : fan_run "tun0" lost_conn 6 0 (fan_init two_peers) failed.
Proof.
  pose proof (run_nil "tun0" lost_conn (fan_init two_peers)) as R.
  then_step R (work_read "tun0" lost_conn _ 1). then_step R (work_send "tun0" lost_conn _ 1).
  then_step R (work_read "tun0" lost_conn _ 0). then_step R (work_ends "tun0" lost_conn _ 1).
  eapply run_work in R; [|eapply (work_write "tun0" lost_conn _ _ _ _ (Err gone)); reflexivity].
  then_step R (work_send_fails "tun0" lost_conn _ 0).
  exact R.
Qed.

Lemma tx_queue_fifo_witness :
  (∃ r lost, receivers drained !! 0 = Some r ∧
     [[x01]] = from_peer 0 (writes drained ++ queue drained) ++ pending r ++ lost ∧ lost = []) ∧
  ∃ r lost, receivers failed !! 0 = Some r ∧
     [[x01]] = from_peer 0 (writes failed ++ queue failed) ++ pending r ++ lost ∧ lost = [[x01]].
Proof.
  split.
  - destruct (tx_queue_fifo "tun0" lost_conn two_peers 9 1 drained drained_run) as [_ Hp].
    destruct (Hp 0 [[x01]] eq_refl) as (r & lost & Hr & Hd & Hl & _). by exists r, lost; auto.
  - destruct (tx_queue_fifo "tun0" lost_conn two_peers 6 0 failed failed_run) as [_ Hp].
    destruct (Hp 0 [[x01]] eq_refl) as (r & lost & Hr & Hd & _). exists r, lost.
    split_and!; [done..|]. by injection Hr as <-.
Defined.

Lemma tx_queue_drains_witness :
  9 ≤ 9 ∧ from_peer 0 (writes drained) = [[x01]] ∧ from_peer 1 (writes drained) = [[x02]].
Proof.
  destruct (tx_queue_drains "tun0" lost_conn two_peers 9 1 drained drained_run) as (Hn & _ & Hd).
  assert (finished drained) as Hf by (split; [repeat constructor|by left]).
  split; [exact Hn|]. split; [exact (Hd Hf eq_refl 0 _ eq_refl)|exact (Hd Hf eq_refl 1 _ eq_refl)].
Defined.
