(* ===== verification/TunControl.v ===== *)
(** * The TUN device: creation and the concurrent loops

    Models the rest of [src/src/tun.rs]: [Tun::new], and [Tun::control], which
    runs the read and the write task of [Tun] under one [select!] until either
    of them ends, while the packet loop takes packets out of the bounded channel
    between them and drops them. *)

From S2P Require Import Prelude ErrorCode Packet BufferPool Tun.
From stdpp Require Import prelude strings.
From Stdlib Require Import Strings.Byte.

Local Open Scope Z_scope.

(** ** Creating the device *)

(** [tun_rs::DeviceBuilder] as far as the program sets it. *)
Record DeviceBuilder := { builder_name : option string; builder_description : option string }.

(** [build_async], and what the device answers about itself. *)
Class TunBuilder (K : Type) := {
  AsyncDevice : Type;
  build_async : DeviceBuilder → K → result AsyncDevice IoError * K;
  device_name : AsyncDevice → K → result string IoError;
  device_if_index : AsyncDevice → K → result Z IoError;
}.

Section New.
Context `{TunBuilder K} (windows : bool).

Record Tun := { device : AsyncDevice; if_name : string; if_index : Z }.

Definition with_description (builder : DeviceBuilder) (description : string) : DeviceBuilder :=
  if windows then
    {| builder_name := builder_name builder; builder_description := Some description |}
  else builder.

Definition Tun_new (name : option string) (description : string) (k : K) :
    result Tun AnyhowError * K :=
  let builder := {| builder_name := None; builder_description := None |} in
  let builder := match name with
                 | Some n => {| builder_name := Some n;
                                builder_description := builder_description builder |}
                 | None => builder
                 end in
  let builder := with_description builder description in
  let '(dev, k) := build_async builder k in
  (let? dev := map_err anyhow_io dev in
   let? name := map_err anyhow_io (device_name dev k) in
   let? index := map_err anyhow_io (device_if_index dev k) in
   Ok {| device := dev; if_name := name; if_index := index |}, k).
End New.

(** ** [control] *)

(** [mpsc::channel::<tun::RxPacket>(64)]. *)
Definition RX_CAPACITY : nat := 64.

Section Control.
Context `{Libc, ThinStatusOps, Mpsc (list byte)} (if_name : string).

(** What happens around the two tasks: the device completes a read, a packet that
    waits for room gets into the channel, the packet loop takes the oldest packet
    out of the channel, it drops a packet it has taken, a packet comes from the
    other channel and the device answers, and either channel is closed at its
    other end. *)
Inductive tun_event : Type :=
  | DevRead (dev : device_recv)
  | SendRx
  | Recv
  | Release (i : nat)
  | RxClosed
  | DevWrite (packet : TxPacket) (answer : result nat IoError)
  | TxClosed.

(** The state of the tasks; how many of the buffers that are out are in the
    channel, after those the packet loop holds and before one that waits; the
    frames handed to the channel and those handed to the device so far, the latter
    with whether the device took them; and the result once [control] has
    returned. *)
Record Control := {
  ct_rx : RxState;
  ct_queued : nat;
  ct_rx_open : bool;
  ct_counters : list (string * list Label);
  ct_delivered : list (list byte);
  ct_attempts : list (list byte * bool);
  ct_ended : option AnyhowError;
}.

(** The frames the device took. *)
Definition taken (attempts : list (list byte * bool)) : list (list byte) :=
  omap (λ a : list byte * bool, if a.2 then Some a.1 else None) attempts.
Definition ct_written (c : Control) : list (list byte) := taken (ct_attempts c).

Definition control_rx (c : Control) (rx : RxState) (queued : nat) (delivered : list (list byte)) :
    Control :=
  {| ct_rx := rx; ct_queued := queued; ct_rx_open := ct_rx_open c; ct_counters := ct_counters c;
     ct_delivered := delivered; ct_attempts := ct_attempts c; ct_ended := ct_ended c |}.

Definition control_tx (c : Control) (attempts : list (list byte * bool))
    (counted : list (string * list Label)) : Control :=
  {| ct_rx := ct_rx c; ct_queued := ct_queued c; ct_rx_open := ct_rx_open c;
     ct_counters := counted ++ ct_counters c; ct_delivered := ct_delivered c;
     ct_attempts := ct_attempts c ++ attempts; ct_ended := ct_ended c |}.

Definition control_close_rx (c : Control) : Control :=
  {| ct_rx := ct_rx c; ct_queued := ct_queued c; ct_rx_open := false;
     ct_counters := ct_counters c; ct_delivered := ct_delivered c; ct_attempts := ct_attempts c;
     ct_ended := ct_ended c |}.

(** A buffer that is out is dropped. *)
Definition release (i : nat) (u : Usage) : outcome Usage :=
  match out u !! i with
  | None => Ret u
  | Some b =>
      let! p := PooledBuffer_drop b (the_pool u) in
      Ret {| the_pool := p; out := delete i (out u) |}
  end.

Definition waiting_count (rx : RxState) : nat := if rx_waiting rx then 1 else 0.

(** The first task that ends ends both: the futures are dropped, with the packet
    that waits for room if any, and then the pool with the read task. *)
Definition control_end (c : Control) (rx : RxState) (e : AnyhowError) : outcome Control :=
  let! u := if rx_waiting rx then release (pred (length (out (rx_usage rx)))) (rx_usage rx)
            else Ret (rx_usage rx) in
  Ret {| ct_rx := {| rx_usage := {| the_pool := BufferPool_drop (the_pool u); out := out u |};
                     rx_waiting := false; rx_counters := rx_counters rx |};
         ct_queued := ct_queued c; ct_rx_open := ct_rx_open c; ct_counters := ct_counters c;
         ct_delivered := ct_delivered c; ct_attempts := ct_attempts c; ct_ended := Some e |}.

(** What the read task newly handed to its channel. *)
Definition handed_over (before after : RxState) : outcome (list (list byte)) :=
  foldr (λ b acc, let! frame := deref b in let! acc := acc in Ret (frame :: acc)) (Ret [])
    (drop (length (out (rx_usage before)))
      (take (length (out (rx_usage after)) - waiting_count after) (out (rx_usage after)))).

Definition control_step (ev : tun_event) (c : Control) : outcome Control :=
  let rx := ct_rx c in
  match ev, ct_ended c with
  | Release i, _ =>
      if (i <? length (out (rx_usage rx)) - ct_queued c - waiting_count rx)%nat then
        let! u := release i (rx_usage rx) in
        Ret (control_rx c {| rx_usage := u; rx_waiting := rx_waiting rx;
                             rx_counters := rx_counters rx |} (ct_queued c) (ct_delivered c))
      else Ret c
  | Recv, _ => Ret (control_rx c rx (pred (ct_queued c)) (ct_delivered c))
  | _, Some _ => Ret c
  | DevRead dev, None =>
      if rx_waiting rx then Ret c
      else
        let! (e, rx') := rx_task if_name (ct_rx_open c) (RX_CAPACITY - ct_queued c) [dev] rx in
        let! frames := handed_over rx rx' in
        match e with
        | Some e => control_end c rx' e
        | None => Ret (control_rx c rx' (ct_queued c + length frames) (ct_delivered c ++ frames))
        end
  | SendRx, None =>
      if rx_waiting rx && (ct_queued c <? RX_CAPACITY)%nat then
        let sent := {| rx_usage := rx_usage rx; rx_waiting := false;
                       rx_counters := rx_counters rx |} in
        let! frames := handed_over
          {| rx_usage := {| the_pool := the_pool (rx_usage rx);
                            out := take (pred (length (out (rx_usage rx)))) (out (rx_usage rx)) |};
             rx_waiting := false; rx_counters := rx_counters rx |} sent in
        Ret (control_rx c sent (S (ct_queued c)) (ct_delivered c ++ frames))
      else Ret c
  | RxClosed, None =>
      let c := control_close_rx c in
      if rx_waiting rx then control_end c rx anyhow_msg else Ret c
  | DevWrite packet answer, None =>
      let '(e, attempts, counted) := tx_task if_name false [(packet, answer)] in
      let c := control_tx c attempts counted in
      match e with Some e => control_end c rx e | None => Ret c end
  | TxClosed, None =>
      let '(e, attempts, counted) := tx_task if_name true [] in
      let c := control_tx c attempts counted in
      match e with Some e => control_end c rx e | None => Ret c end
  end.

Fixpoint control (events : list tun_event) (c : Control) : outcome Control :=
  match events with
  | [] => Ret c
  | ev :: events => let! c := control_step ev c in control events c
  end.

(** The start: a pool of [buffer_pool] buffers, open channels. *)
Definition control_init (buffer_pool : nat) : outcome Control :=
  let! p := BufferPool_new buffer_pool BUFFER_SIZE in
  Ret {| ct_rx := {| rx_usage := {| the_pool := p; out := [] |}; rx_waiting := false;
                     rx_counters := [] |};
         ct_queued := 0; ct_rx_open := true; ct_counters := []; ct_delivered := [];
         ct_attempts := []; ct_ended := None |}.

(** ** The specification

    A pool is the number of its free buffers, a packet its bytes: those the packet
    loop holds, those in the channel and the one that waits for room. The
    transient errors are lists, latest first. *)
Record TunSpec := {
  sp_free : nat;
  sp_held : list (list byte);
  sp_queue : list (list byte);
  sp_waiting : option (list byte);
  sp_rx_open : bool;
  sp_delivered : list (list byte);
  sp_rx_errors : list IoError;
  sp_attempts : list (list byte * bool);
  sp_tx_errors : list IoError;
  sp_ended : option AnyhowError;
}.

(** [sp_moved]: packets have moved; [sp_read_error]: a read failed for now;
    [sp_wrote]: a packet was handed to the device. *)
Definition sp_moved (s : TunSpec) (n_free : nat) (held queue : list (list byte))
    (waiting : option (list byte)) (delivered : list (list byte)) : TunSpec :=
  {| sp_free := n_free; sp_held := held; sp_queue := queue; sp_waiting := waiting;
     sp_rx_open := sp_rx_open s; sp_delivered := delivered; sp_rx_errors := sp_rx_errors s;
     sp_attempts := sp_attempts s; sp_tx_errors := sp_tx_errors s; sp_ended := sp_ended s |}.
Definition sp_read_error (s : TunSpec) (e : IoError) : TunSpec :=
  {| sp_free := sp_free s; sp_held := sp_held s; sp_queue := sp_queue s;
     sp_waiting := sp_waiting s; sp_rx_open := sp_rx_open s; sp_delivered := sp_delivered s;
     sp_rx_errors := e :: sp_rx_errors s; sp_attempts := sp_attempts s;
     sp_tx_errors := sp_tx_errors s; sp_ended := sp_ended s |}.
Definition sp_wrote (s : TunSpec) (frame : list byte) (took : bool) (errors : list IoError) : TunSpec :=
  {| sp_free := sp_free s; sp_held := sp_held s; sp_queue := sp_queue s;
     sp_waiting := sp_waiting s; sp_rx_open := sp_rx_open s; sp_delivered := sp_delivered s;
     sp_rx_errors := sp_rx_errors s; sp_attempts := sp_attempts s ++ [(frame, took)];
     sp_tx_errors := errors ++ sp_tx_errors s; sp_ended := sp_ended s |}.
Definition sp_close_rx (s : TunSpec) : TunSpec :=
  {| sp_free := sp_free s; sp_held := sp_held s; sp_queue := sp_queue s;
     sp_waiting := sp_waiting s; sp_rx_open := false; sp_delivered := sp_delivered s;
     sp_rx_errors := sp_rx_errors s; sp_attempts := sp_attempts s;
     sp_tx_errors := sp_tx_errors s; sp_ended := sp_ended s |}.

(** A packet that waits for room is dropped. *)
Definition spec_end (s : TunSpec) (e : AnyhowError) : TunSpec :=
  {| sp_free := sp_free s + length (option_list (sp_waiting s)); sp_held := sp_held s;
     sp_queue := sp_queue s; sp_waiting := None; sp_rx_open := sp_rx_open s;
     sp_delivered := sp_delivered s; sp_rx_errors := sp_rx_errors s;
     sp_attempts := sp_attempts s; sp_tx_errors := sp_tx_errors s; sp_ended := Some e |}.

Definition spec_read (s : TunSpec) (answer : result (list byte) IoError) : TunSpec :=
  match answer with
  | Err e => if is_tun_transient e then sp_read_error s e else spec_end s (anyhow_io e)
  | Ok [] => s
  | Ok frame =>
      if sp_rx_open s then
        if (length (sp_queue s) <? RX_CAPACITY)%nat
        then sp_moved s (pred (sp_free s)) (sp_held s) (sp_queue s ++ [frame]) None
               (sp_delivered s ++ [frame])
        else sp_moved s (pred (sp_free s)) (sp_held s) (sp_queue s) (Some frame) (sp_delivered s)
      else spec_end s anyhow_msg
  end.

Definition spec_step (ev : tun_event) (s : TunSpec) : TunSpec :=
  match ev, sp_ended s with
  | Release i, ended =>
      if (i <? length (sp_held s))%nat then
        sp_moved s (match ended with None => S (sp_free s) | Some _ => sp_free s end)
          (delete i (sp_held s)) (sp_queue s) (sp_waiting s) (sp_delivered s)
      else s
  | Recv, _ =>
      match sp_queue s with
      | [] => s
      | frame :: queue =>
          sp_moved s (sp_free s) (sp_held s ++ [frame]) queue (sp_waiting s) (sp_delivered s)
      end
  | _, Some _ => s
  | DevRead dev, None =>
      if sp_waiting s then s
      else if (0 <? sp_free s)%nat then spec_read s (dev BUFFER_SIZE) else s
  | SendRx, None =>
      match sp_waiting s with
      | None => s
      | Some frame =>
          if (length (sp_queue s) <? RX_CAPACITY)%nat
          then sp_moved s (sp_free s) (sp_held s) (sp_queue s ++ [frame]) None
                 (sp_delivered s ++ [frame])
          else s
      end
  | RxClosed, None =>
      let s := sp_close_rx s in
      if sp_waiting s then spec_end s anyhow_msg else s
  | DevWrite packet answer, None =>
      match write_frame (tx_data packet) (λ _, answer) with
      | Ok _ => sp_wrote s (tx_data packet) true []
      | Err e =>
          if is_tun_transient e then sp_wrote s (tx_data packet) false [e]
          else spec_end (sp_wrote s (tx_data packet) false []) (anyhow_io e)
      end
  | TxClosed, None => spec_end s anyhow_msg
  end.

Definition spec_run (events : list tun_event) (s : TunSpec) : TunSpec :=
  foldl (λ s ev, spec_step ev s) s events.

Definition spec_init (count : nat) : TunSpec :=
  {| sp_free := count; sp_held := []; sp_queue := []; sp_waiting := None; sp_rx_open := true;
     sp_delivered := []; sp_rx_errors := []; sp_attempts := []; sp_tx_errors := [];
     sp_ended := None |}.
End Control.

(** ** Refinement *)
Section Facts.
Context `{Libc, ThinStatusOps, MpscLaws (list byte) contents} (if_name : string) (count : nat).

Notation free s := (length (contents (pool (the_pool (rx_usage s))))).

(** What one completed read does, by the answer of the device: the error it ends
    with, the frames handed over, the frame that waits and the error counted. *)
Definition read_result (rx_open : bool) (room n_free : nat) (answer : result (list byte) IoError) :
    option AnyhowError * list (list byte) * option (list byte) * list IoError :=
  if (0 <? n_free)%nat then
    match answer with
    | Err e => if is_tun_transient e then (None, [], None, [e]) else (Some (anyhow_io e), [], None, [])
    | Ok [] => (None, [], None, [])
    | Ok frame =>
        if rx_open then
          if (0 <? room)%nat then (None, [frame], None, []) else (None, [], Some frame, [])
        else (Some anyhow_msg, [], None, [])
    end
  else (None, [], None, []).

(** The counters of transient errors. *)
Definition counted_as (metric : string) (errors : list IoError) : list (string * list Label) :=
  (λ e, (metric, transient_labels if_name e)) <$> errors.

Record rx_good (s : RxState) : Prop := {
  rg_inv : usage_inv (contents := contents) count BUFFER_SIZE (rx_usage s);
  rg_alive : pool_alive (the_pool (rx_usage s)) = true;
}.

Lemma pop_none p : contents (pool p) = [] → pop p = None.
Proof.
  intros E. unfold pop. pose proof (try_recv_law (pool p)) as Hr. rewrite E in Hr.
  by rewrite Hr.
Qed.

Lemma handed_none s s' :
  out (rx_usage s') = out (rx_usage s) → handed_over s s' = Ret [].
Proof. intros E. unfold handed_over. rewrite E, drop_ge; [done|]. rewrite length_take. lia. Qed.

Lemma handed_waiting s s' b :
  out (rx_usage s') = out (rx_usage s) ++ [b] → rx_waiting s' = true → handed_over s s' = Ret [].
Proof.
  intros E Hw. unfold handed_over, waiting_count. rewrite E, Hw, drop_ge; [done|].
  rewrite length_take, length_app. simpl. lia.
Qed.

Lemma handed_one s s' b frame :
  out (rx_usage s') = out (rx_usage s) ++ [b] → rx_waiting s' = false → deref b = Ret frame →
  handed_over s s' = Ret [frame].
Proof.
  intros E Hw Hd. unfold handed_over, waiting_count. rewrite E, Hw, Nat.sub_0_r, take_ge by lia.
  rewrite drop_app_length. simpl. by rewrite Hd.
Qed.

(** A read that hands nothing over gives its buffer back. *)
Lemma rx_drop_one s b p :
  rx_good s → pool_alive p = true → free s = S (length (contents (pool p))) →
  usage_inv (contents := contents) count BUFFER_SIZE
    {| the_pool := p; out := out (rx_usage s) ++ [b] |} →
  ∃ s', rx_drop b p s = Ret s' ∧ rx_good s' ∧ free s' = free s ∧
    out (rx_usage s') = out (rx_usage s) ∧ rx_waiting s' = rx_waiting s ∧
    rx_counters s' = rx_counters s.
Proof.
  intros Hg Hp Hc Hu. destruct (rx_drop_spec count s b p Hu Hp) as (p' & -> & Hp' & Hc' & Hu').
  eexists. split; [done|]. split; [by split|]. simpl. split; [lia|done].
Qed.

(** What a read leaves behind. *)
Record read_leaves (s s' : RxState) (frames : list (list byte)) (waiting : option (list byte))
    (errors : list IoError) : Prop := {
  rl_handed : handed_over s s' = Ret frames;
  rl_good : rx_good s';
  rl_free : (free s' + length (frames ++ option_list waiting) = free s)%nat;
  rl_out : deref <$> out (rx_usage s') =
    (deref <$> out (rx_usage s)) ++ (Ret <$> (frames ++ option_list waiting));
  rl_waiting : rx_waiting s' = bool_decide (is_Some waiting);
  rl_counters : rx_counters s' =
    counted_as "p2p_vpn_tun_read_transient_errors" errors ++ rx_counters s;
}.

Lemma read_leaves_same s s' errors :
  rx_good s' → free s' = free s → out (rx_usage s') = out (rx_usage s) → rx_waiting s' = false →
  rx_counters s' = counted_as "p2p_vpn_tun_read_transient_errors" errors ++ rx_counters s →
  read_leaves s s' [] None errors.
Proof.
  intros Hg Hf Ho Hw Hc. split; simpl; [by apply handed_none|done|lia| |done|done].
  by rewrite Ho, app_nil_r.
Qed.

(** The buffer a frame was read into is out, in the channel or waiting for it. *)
Lemma read_leaves_frame s s' b frame (waits : bool) :
  rx_good s' → free s = S (free s') → out (rx_usage s') = out (rx_usage s) ++ [b] →
  deref b = Ret frame → rx_waiting s' = waits → rx_counters s' = rx_counters s →
  read_leaves s s' (if waits then [] else [frame]) (if waits then Some frame else None) [].
Proof.
  intros Hg Hf Ho Hd Hw Hc. destruct waits; split; simpl; try done; try lia;
    try by (rewrite Ho, fmap_app; csimpl; by rewrite Hd).
  - by apply (handed_waiting s s' b).
  - by apply (handed_one s s' b).
Qed.

Lemma rx_task_one rx_open room dev s :
  rx_good s → rx_waiting s = false → device_ok dev →
  ∃ s', let '(e, frames, waiting, errors) :=
      read_result rx_open room (free s) (dev BUFFER_SIZE) in
    rx_task if_name rx_open room [dev] s = Ret (e, s') ∧
    read_leaves s s' frames waiting errors.
Proof.
  intros Hg Hw Hdev. unfold read_result.
  destruct (contents (pool (the_pool (rx_usage s)))) as [|x l] eqn:Ec.
  { exists s. cbn [length Nat.ltb Nat.leb rx_task]. rewrite pop_none by done.
    split; [done|]. by apply read_leaves_same. }
  destruct (pop_inv count BUFFER_SIZE _ (rg_inv _ Hg) (rg_alive _ Hg))
    as (b & p & Ep & Hp & Hz & Hb & Hc & Hu); [by rewrite Ec|].
  assert (remaining_mut b = BUFFER_SIZE) as Hrem by (unfold remaining_mut; rewrite Hz, Hb; lia).
  destruct (read_frame_spec BUFFER_SIZE b dev) as (res & Er & Hres).
  { split; [done|]. rewrite Hz. lia. }
  { intros f E. rewrite Hrem in *. by apply Hdev. }
  assert (match res with Err err => dev BUFFER_SIZE = Err err | Ok _ => True end) as Herr.
  { revert Er. unfold read_frame. rewrite Hz, Nat.sub_0_r, Hb. simpl.
    destruct (dev BUFFER_SIZE); [by case_match; intros [= <-]|by intros [= <-]]. }
  cbn [length Nat.ltb Nat.leb rx_task]. rewrite Ep, Er. destruct res as [buf|err].
  - destruct (Hres buf eq_refl) as [Hbuf (frame & Ef & Hd)]. rewrite Hrem in Ef. rewrite Ef.
    rewrite Hz in Hd. simpl in Hd. rewrite Hd.
    assert (usage_inv (contents := contents) count BUFFER_SIZE
      {| the_pool := p; out := out (rx_usage s) ++ [buf] |}) as Hu2.
    { pose proof (replace_buffer_inv count BUFFER_SIZE _ (length (out (rx_usage s))) b buf Hu)
        as Hrep. simpl in Hrep.
      rewrite <- (Nat.add_0_r (length (out (rx_usage s)))), insert_app_r in Hrep.
      apply Hrep; [|done]. rewrite Nat.add_0_r. by apply list_lookup_middle. }
    destruct (rx_drop_one s buf p Hg Hp ltac:(done) Hu2) as (s' & Ed & Hg' & Hf' & Ho' & Hw' & Hc').
    rewrite Hw in Hw'. assert (read_leaves s s' [] None []) as Hsame by (by apply read_leaves_same).
    destruct frame as [|y frame]; cbn [length Nat.ltb Nat.leb]; [by exists s'; rewrite Ed|].
    destruct rx_open; [|by exists s'; rewrite Ed].
    destruct room as [|room]; cbn [Nat.ltb Nat.leb]; (eexists; split; [done|]).
    + by apply (read_leaves_frame s _ buf (y :: frame) true).
    + by apply (read_leaves_frame s _ buf (y :: frame) false).
  - rewrite Herr. destruct (rx_drop_one s b p Hg Hp ltac:(done) Hu)
      as (s' & Ed & Hg' & Hf' & Ho' & Hw' & Hc'). rewrite Hw in Hw'.
    rewrite Ed. destruct (is_tun_transient err); (eexists; split; [done|]).
    + apply read_leaves_same; simpl; try done; [by destruct Hg'|]. by rewrite Hc'.
    + by apply read_leaves_same.
Qed.

(** The packets that are out, in their order. *)
Definition sp_out (s : TunSpec) : list (list byte) :=
  sp_held s ++ sp_queue s ++ option_list (sp_waiting s).

(** The state [c] is represented by [s]. *)
Record represents (c : Control) (s : TunSpec) : Prop := {
  rp_inv : usage_inv (contents := contents) count BUFFER_SIZE (rx_usage (ct_rx c));
  rp_alive : pool_alive (the_pool (rx_usage (ct_rx c))) =
    match ct_ended c with None => true | Some _ => false end;
  rp_free : free (ct_rx c) = sp_free s;
  rp_out : deref <$> out (rx_usage (ct_rx c)) = Ret <$> sp_out s;
  rp_queued : ct_queued c = length (sp_queue s);
  rp_bound : (length (sp_queue s) ≤ RX_CAPACITY)%nat;
  rp_waiting : rx_waiting (ct_rx c) = bool_decide (is_Some (sp_waiting s));
  rp_open : ct_rx_open c = sp_rx_open s;
  rp_delivered : ct_delivered c = sp_delivered s;
  rp_rx_errors : rx_counters (ct_rx c) =
    counted_as "p2p_vpn_tun_read_transient_errors" (sp_rx_errors s);
  rp_attempts : ct_attempts c = sp_attempts s;
  rp_tx_errors : ct_counters c =
    counted_as "p2p_vpn_tun_send_transient_errors" (sp_tx_errors s);
  rp_ended : ct_ended c = sp_ended s;
}.

Lemma represents_length c s :
  represents c s → length (out (rx_usage (ct_rx c))) = length (sp_out s).
Proof.
  intros Hr. pose proof (f_equal length (rp_out _ _ Hr)) as Hl. by rewrite !length_fmap in Hl.
Qed.

Lemma drop_pool_inv u :
  usage_inv (contents := contents) count BUFFER_SIZE u →
  usage_inv (contents := contents) count BUFFER_SIZE
    {| the_pool := BufferPool_drop (the_pool u); out := out u |}.
Proof. by intros [Hm Hc Hf Ho]. Qed.

Lemma delete_front {A} (l k : list A) i :
  (i < length l)%nat → delete i (l ++ k) = delete i l ++ k.
Proof.
  intros Hi. rewrite !delete_take_drop, take_app_le, drop_app_le by lia. by rewrite app_assoc.
Qed.

(** Dropping a buffer that is out gives it back while the pool lives. *)
Lemma release_out u i b :
  usage_inv (contents := contents) count BUFFER_SIZE u → out u !! i = Some b →
  ∃ u', release i u = Ret u' ∧ usage_inv (contents := contents) count BUFFER_SIZE u' ∧
    out u' = delete i (out u) ∧ pool_alive (the_pool u') = pool_alive (the_pool u) ∧
    length (contents (pool (the_pool u'))) =
      (length (contents (pool (the_pool u))) + if pool_alive (the_pool u) then 1 else 0)%nat.
Proof.
  intros Hi Eb. unfold release. rewrite Eb.
  destruct (drop_buffer_inv count BUFFER_SIZE _ i b Hi Eb) as (p & Ep & Hp & Hu). rewrite Ep.
  eexists. split; [done|]. split; [done|]. split; [done|]. split; [done|]. simpl.
  destruct (pool_alive (the_pool u)) eqn:Ea.
  - destruct (ui_conserved _ _ _ Hi Ea) as [Hc1 _].
    destruct (ui_conserved _ _ _ Hu) as [Hc2 _]; [by simpl; rewrite Hp|].
    simpl in Hc2. rewrite length_delete in Hc2 by (by eexists).
    pose proof (lookup_lt_Some _ _ _ Eb). lia.
  - unfold PooledBuffer_drop in Ep. rewrite Ea in Ep. injection Ep as <-. lia.
Qed.

Lemma waiting_count_spec c s :
  represents c s → waiting_count (ct_rx c) = length (option_list (sp_waiting s)).
Proof.
  intros Hr. unfold waiting_count. rewrite (rp_waiting _ _ Hr). by destruct (sp_waiting s).
Qed.

Lemma held_count c s :
  represents c s →
  (length (out (rx_usage (ct_rx c))) - ct_queued c - waiting_count (ct_rx c) =
     length (sp_held s))%nat.
Proof.
  intros Hr. rewrite (represents_length _ _ Hr), (rp_queued _ _ Hr), (waiting_count_spec _ _ Hr).
  unfold sp_out. rewrite !length_app. lia.
Qed.

Lemma release_represents c s i :
  represents c s →
  ∃ c', control_step if_name (Release i) c = Ret c' ∧ represents c' (spec_step (Release i) s).
Proof.
  intros Hr. unfold control_step, spec_step. rewrite (held_count _ _ Hr).
  destruct (Nat.ltb_spec i (length (sp_held s))) as [Hi|Hi];
    [|by destruct (ct_ended c), (sp_ended s); eexists].
  pose proof (represents_length _ _ Hr) as Hlen. unfold sp_out in Hlen. rewrite !length_app in Hlen.
  destruct (lookup_lt_is_Some_2 (out (rx_usage (ct_rx c))) i) as [b Eb]; [lia|].
  destruct (release_out _ i b (rp_inv _ _ Hr) Eb) as (u & -> & Hu & Ho & Ha & Hf).
  assert (represents (control_rx c {| rx_usage := u; rx_waiting := rx_waiting (ct_rx c);
      rx_counters := rx_counters (ct_rx c) |} (ct_queued c) (ct_delivered c))
    (sp_moved s (match sp_ended s with None => S (sp_free s) | Some _ => sp_free s end)
       (delete i (sp_held s)) (sp_queue s) (sp_waiting s) (sp_delivered s))) as Hr'.
  { pose proof (rp_alive _ _ Hr) as Hal. rewrite Hal in Ha, Hf. destruct Hr. split; simpl; try done.
    - rewrite Hf, rp_free0, <- rp_ended0. destruct (ct_ended c); lia.
    - rewrite Ho, list_fmap_delete, rp_out0, <- list_fmap_delete. unfold sp_out. simpl.
      by rewrite delete_front by done. }
  by destruct (ct_ended c), (sp_ended s); eexists.
Qed.

Lemma recv_represents c s :
  represents c s →
  ∃ c', control_step if_name Recv c = Ret c' ∧ represents c' (spec_step Recv s).
Proof.
  intros Hr.
  assert (represents (control_rx c (ct_rx c) (pred (ct_queued c)) (ct_delivered c))
    (match sp_queue s with [] => s | frame :: queue =>
       sp_moved s (sp_free s) (sp_held s ++ [frame]) queue (sp_waiting s) (sp_delivered s) end)) as Hr'.
  { destruct Hr. destruct (sp_queue s) as [|frame queue] eqn:Eq; split; simpl; try done.
    - by rewrite rp_queued0, Eq.
    - by rewrite Eq.
    - rewrite rp_out0. unfold sp_out. simpl. rewrite Eq. simpl. by rewrite <- app_assoc.
    - by rewrite rp_queued0.
    - simpl in rp_bound0. lia. }
  unfold control_step, spec_step. by destruct (ct_ended c), (sp_ended s); eexists.
Qed.

(** The end of both tasks. *)
Lemma end_represents c s e :
  represents c s → ct_ended c = None →
  ∃ c', control_end c (ct_rx c) e = Ret c' ∧ represents c' (spec_end s e).
Proof.
  intros Hr He. unfold control_end. pose proof (rp_waiting _ _ Hr) as Hw.
  pose proof (represents_length _ _ Hr) as Hlen. pose proof (rp_alive _ _ Hr) as Ha. rewrite He in Ha.
  unfold sp_out in Hlen. destruct (sp_waiting s) as [frame|] eqn:Ew; simpl in Hw, Hlen; rewrite Hw.
  - rewrite !length_app in Hlen. simpl in Hlen.
    destruct (lookup_lt_is_Some_2 (out (rx_usage (ct_rx c))) (pred (length (out (rx_usage (ct_rx c))))))
      as [b Eb]; [lia|].
    destruct (release_out _ _ b (rp_inv _ _ Hr) Eb) as (u & -> & Hu & Ho & Ha' & Hf). rewrite Ha in Hf.
    eexists. split; [done|]. destruct Hr. split; simpl; try done; [by apply drop_pool_inv| |].
    + rewrite Ew. simpl. lia.
    + rewrite Ho, list_fmap_delete, rp_out0. unfold sp_out. rewrite Ew. simpl. rewrite app_nil_r.
      replace (pred _) with (length (sp_held s ++ sp_queue s)) by (rewrite length_app; lia).
      rewrite app_assoc, fmap_app. csimpl.
      rewrite <- (length_fmap (Ret (A := list byte))), delete_middle. by rewrite app_nil_r.
  - eexists. split; [done|]. destruct Hr. split; simpl; try done; [by apply drop_pool_inv| |].
    + rewrite Ew. simpl. lia.
    + rewrite rp_out0. unfold sp_out. by rewrite Ew.
Qed.

Lemma running_good c s : represents c s → ct_ended c = None → rx_good (ct_rx c).
Proof. intros Hr He. split; [apply Hr|]. by rewrite (rp_alive _ _ Hr), He. Qed.

(** A device keeps to the slice it is given. *)
Definition event_ok (ev : tun_event) : Prop :=
  match ev with DevRead dev => device_ok dev | _ => True end.

(** The state after a read, whatever it left. *)
Lemma after_read c s rx frames waiting errors s1 :
  represents c s → ct_ended c = None → sp_waiting s = None →
  read_leaves (ct_rx c) rx frames waiting errors →
  s1 = {| sp_free := sp_free s1; sp_held := sp_held s; sp_queue := sp_queue s ++ frames;
          sp_waiting := waiting; sp_rx_open := sp_rx_open s;
          sp_delivered := sp_delivered s ++ frames; sp_rx_errors := errors ++ sp_rx_errors s;
          sp_attempts := sp_attempts s; sp_tx_errors := sp_tx_errors s; sp_ended := sp_ended s |} →
  (sp_free s1 + length (frames ++ option_list waiting) = sp_free s)%nat →
  (length (sp_queue s ++ frames) ≤ RX_CAPACITY)%nat →
  represents (control_rx c rx (ct_queued c + length frames) (ct_delivered c ++ frames)) s1.
Proof.
  intros Hr He Hw [Hh [Hi Ha] Hf Ho Hwt Hc] -> Hfree Hb. simpl in Hfree. destruct Hr.
  split; simpl; try done.
  - by rewrite Ha, He.
  - lia.
  - rewrite Ho, rp_out0. unfold sp_out. simpl. rewrite Hw. simpl.
    by rewrite <- fmap_app, app_nil_r, <- !app_assoc.
  - rewrite rp_queued0, length_app. lia.
  - congruence.
  - unfold counted_as in *. by rewrite Hc, rp_rx_errors0, fmap_app.
Qed.

Lemma same_read c s rx :
  represents c s → ct_ended c = None → sp_waiting s = None → read_leaves (ct_rx c) rx [] None [] →
  represents (control_rx c rx (ct_queued c) (ct_delivered c)) s ∧
  represents (control_rx c rx (ct_queued c + 0) (ct_delivered c ++ [])) s.
Proof.
  intros Hr He Hw Hl. rewrite Nat.add_0_r, app_nil_r. cut (represents (control_rx c rx
    (ct_queued c + 0) (ct_delivered c ++ [])) s); [by rewrite Nat.add_0_r, app_nil_r|].
  apply (after_read c s rx [] None [] s Hr He Hw Hl).
  - destruct s. simpl in *. by rewrite !app_nil_r, Hw.
  - simpl. lia.
  - rewrite app_nil_r. apply Hr.
Qed.

Lemma read_represents c s dev :
  represents c s → ct_ended c = None → device_ok dev →
  ∃ c', control_step if_name (DevRead dev) c = Ret c' ∧ represents c' (spec_step (DevRead dev) s).
Proof.
  intros Hr He Hdev. unfold control_step, spec_step.
  rewrite He, <- (rp_ended _ _ Hr), He. pose proof (rp_waiting _ _ Hr) as Hwt.
  destruct (sp_waiting s) as [frame|] eqn:Ew; simpl in Hwt; rewrite Hwt; [by eexists|].
  destruct (rx_task_one (ct_rx_open c) (RX_CAPACITY - ct_queued c) dev (ct_rx c)
    (running_good c s Hr He) Hwt Hdev) as (rx & Hone).
  rewrite (rp_free _ _ Hr), (rp_open _ _ Hr) in *. unfold read_result in Hone.
  assert (∀ e, read_leaves (ct_rx c) rx [] None [] →
    ∃ c', control_end c rx e = Ret c' ∧ represents c' (spec_end s e)) as Hend.
  { intros e Hl. exact (end_represents _ s e (proj1 (same_read c s rx Hr He Ew Hl)) He). }
  pose proof (rp_queued _ _ Hr) as Hq. pose proof (rp_bound _ _ Hr) as Hb.
  destruct (Nat.ltb_spec 0 (sp_free s)) as [Hfree|Hfree].
  2: { destruct Hone as [-> Hl]. rewrite (rl_handed _ _ _ _ _ Hl). eexists. split; [done|].
       by apply same_read. }
  unfold spec_read. destruct (dev BUFFER_SIZE) as [[|y frame]|err].
  - destruct Hone as [-> Hl]. rewrite (rl_handed _ _ _ _ _ Hl). eexists. split; [done|].
    by apply same_read.
  - destruct (sp_rx_open s) eqn:Eo.
    2: { destruct Hone as [-> Hl]. rewrite (rl_handed _ _ _ _ _ Hl). by apply Hend. }
    destruct (Nat.ltb_spec 0 (RX_CAPACITY - ct_queued c)) as [Hroom|Hroom];
      destruct Hone as [-> Hl]; rewrite (rl_handed _ _ _ _ _ Hl); (eexists; split; [done|]).
    + rewrite (proj2 (Nat.ltb_lt _ _)) by lia.
      apply (after_read c s rx [y :: frame] None [] _ Hr He Ew Hl); [done|simpl; lia|].
      rewrite length_app. simpl. lia.
    + rewrite (proj2 (Nat.ltb_ge _ _)) by lia.
      apply (after_read c s rx [] (Some (y :: frame)) [] _ Hr He Ew Hl); [|simpl; lia|].
      * unfold sp_moved. simpl. by rewrite !app_nil_r.
      * by rewrite app_nil_r.
  - destruct (is_tun_transient err); destruct Hone as [-> Hl]; rewrite (rl_handed _ _ _ _ _ Hl);
      [|by apply Hend]. eexists. split; [done|].
    apply (after_read c s rx [] None [err] _ Hr He Ew Hl); [|simpl; lia|by rewrite app_nil_r].
    unfold sp_read_error. simpl. by rewrite !app_nil_r, Ew.
Qed.

(** The packet that waits gets into the channel. *)
Lemma send_represents c s :
  represents c s → ct_ended c = None →
  ∃ c', control_step if_name SendRx c = Ret c' ∧ represents c' (spec_step SendRx s).
Proof.
  intros Hr He. unfold control_step, spec_step. rewrite He, <- (rp_ended _ _ Hr), He.
  rewrite (rp_waiting _ _ Hr), (rp_queued _ _ Hr).
  destruct (sp_waiting s) as [frame|] eqn:Ew; simpl; [|by eexists].
  destruct (Nat.ltb_spec (length (sp_queue s)) RX_CAPACITY) as [Hq|Hq]; [|by eexists].
  pose proof (rp_out _ _ Hr) as Ho. unfold sp_out in Ho. rewrite Ew in Ho. simpl in Ho.
  rewrite app_assoc, fmap_app in Ho.
  apply fmap_app_inv in Ho as (bs & ws & Hbs & Hws & Eo).
  destruct ws as [|b [|]]; try discriminate Hws. injection Hws as Hb.
  erewrite (handed_one _ _ b frame); simpl; [|rewrite Eo, length_app; simpl;
    rewrite Nat.add_1_r; simpl; by rewrite take_app_length|done|done].
  eexists. split; [done|]. destruct Hr. split; simpl; try done.
  - rewrite rp_out0. unfold sp_out. simpl. rewrite Ew. simpl. by rewrite app_nil_r.
  - rewrite length_app. simpl. lia.
  - rewrite length_app. simpl. lia.
  - by rewrite rp_delivered0.
Qed.

(** One packet to the device. *)
Lemma write_represents c s packet answer :
  represents c s → ct_ended c = None →
  ∃ c', control_step if_name (DevWrite packet answer) c = Ret c' ∧
    represents c' (spec_step (DevWrite packet answer) s).
Proof.
  intros Hr He. unfold control_step, spec_step. rewrite He, <- (rp_ended _ _ Hr), He. simpl.
  assert (∀ took errors, represents
    (control_tx c [(tx_data packet, took)] (counted_as "p2p_vpn_tun_send_transient_errors" errors))
    (sp_wrote s (tx_data packet) took errors)) as Hw.
  { intros took errors. destruct Hr. split; simpl; try done; [by rewrite rp_attempts0|].
    unfold counted_as in *. by rewrite rp_tx_errors0, fmap_app. }
  destruct (write_frame _ _) as [[]|err]; [by eexists; split; [done|apply (Hw true [])]|].
  destruct (is_tun_transient err); [by eexists; split; [done|apply (Hw false [err])]|].
  exact (end_represents _ _ _ (Hw false []) He).
Qed.

Lemma control_step_represents ev c s :
  represents c s → event_ok ev →
  ∃ c', control_step if_name ev c = Ret c' ∧ represents c' (spec_step ev s).
Proof.
  intros Hr Hok. pose proof (rp_ended _ _ Hr) as Hen.
  destruct ev as [dev| | |i| |packet answer|];
    [| |by apply recv_represents|by apply release_represents|..];
    (destruct (ct_ended c) as [e|] eqn:He;
      [by exists c; unfold control_step, spec_step; rewrite He, <- Hen|]).
  - by apply read_represents.
  - by apply send_represents.
  - unfold control_step, spec_step. rewrite He, <- Hen.
    assert (represents (control_close_rx c) (sp_close_rx s)) as Hr' by (destruct Hr; by split).
    rewrite (rp_waiting _ _ Hr). simpl.
    destruct (sp_waiting s); simpl; [exact (end_represents _ _ _ Hr' He)|by eexists].
  - by apply write_represents.
  - unfold control_step, spec_step. rewrite He, <- Hen. simpl.
    assert (represents (control_tx c [] []) s) as Hr'
      by (destruct Hr; split; simpl; try done; by rewrite app_nil_r).
    exact (end_represents _ _ _ Hr' He).
Qed.

Lemma control_represents events c s :
  represents c s → Forall event_ok events →
  ∃ c', control if_name events c = Ret c' ∧ represents c' (spec_run events s).
Proof.
  intros Hr Hok. revert c s Hr. induction Hok as [|ev events Hev Hok IH]; intros c s Hr; simpl.
  { by exists c. }
  destruct (control_step_represents ev c s Hr Hev) as (c1 & -> & Hr1). by apply IH.
Qed.

Lemma init_represents c : control_init count = Ret c → represents c (spec_init count).
Proof.
  intros Hc. unfold control_init in Hc.
  destruct (new_inv count BUFFER_SIZE) as (p & Ep & Ha & Hu). rewrite Ep in Hc.
  injection Hc as <-. destruct (ui_conserved _ _ _ Hu Ha) as [Hlen _]. simpl in Hlen.
  split; simpl; try done; lia.
Qed.

(** C19: whatever the order in which reads complete, packets get into the channel,
    are taken out and dropped, packets are written and channels are closed,
    [control] does not panic and does what the specification says: each frame of
    the device is handed over once, in order, while a buffer is free and the
    channel, which never holds more than its capacity, has room, for which one
    packet waits; each packet of the other channel is handed to the device once,
    in order, and is recorded as taken or not; transient errors only cost the
    packet and are counted, each once, with their labels; the first other error,
    or a closed channel, ends both tasks with that error. While it runs no buffer
    is lost. *)
Theorem control_refines (events : list tun_event) (c : Control) :
  control_init count = Ret c → Forall event_ok events →
  ∃ c', control if_name events c = Ret c' ∧ represents c' (spec_run events (spec_init count)) ∧
    (ct_ended c' = None →
     (free (ct_rx c') + length (out (rx_usage (ct_rx c'))) = count)%nat).
Proof.
  intros Hc Hok.
  destruct (control_represents events _ _ (init_represents c Hc) Hok) as (c' & Ec & Hr').
  exists c'. split; [exact Ec|]. split; [exact Hr'|]. intros He.
  apply (ui_conserved _ _ _ (rp_inv _ _ Hr')). by rewrite (rp_alive _ _ Hr'), He.
Qed.
End Facts.

(** ** Witness: two buffers, so that the third frame waits *)
Import TunRef MpscRef.

Module ControlRef.
Definition frame (l : list byte) : tun_event := DevRead (λ n, Ok (take n l)).
Definition error (e : IoError) : tun_event := DevRead (λ _, Err e).

Lemma frame_ok l : event_ok (frame l).
Proof. intros n f [= <-]. rewrite length_take. lia. Qed.
Lemma error_ok e : event_ok (error e).
Proof. done. Qed.

Definition events : list tun_event :=
  [frame [x01]; DevWrite (mkTxPacket [x0a]) (Ok 1%nat); Recv; frame [x02]; frame [x03]; error again;
   Release 0; error again; frame []; frame [x04]; DevWrite (mkTxPacket [x0b]) (Err again);
   Recv; Recv; Release 1; error gone; frame [x05]; Release 0].

(** A channel that is full: the last frame waits until a packet is taken out. *)
Definition full : list tun_event :=
  (frame ∘ (λ n, [default x00 (Byte.of_nat n)])) <$> seq 1 65.

Definition view (o : outcome Control) :=
  let! c := o in
  Ret (length (ct_delivered c), ct_queued c, rx_waiting (ct_rx c),
       length (out (rx_usage (ct_rx c))), ct_ended c).

Example full_channel :
  (let! c := control_init 66 in view (control "tun0" (full ++ [frame [x66]; SendRx]) c)) =
    Ret (64, 64, true, 65, None)%nat ∧
  (let! c := control_init 66 in view (control "tun0" (full ++ [Recv; SendRx]) c)) =
    Ret (65, 64, false, 65, None)%nat ∧
  (let! c := control_init 66 in view (control "tun0" (full ++ [TxClosed]) c)) =
    Ret (64, 64, false, 64, Some anyhow_msg)%nat.
Proof. split_and!; by vm_compute. Qed.
End ControlRef.
Import ControlRef.

Lemma control_refines_witness :
  ∃ c c', control_init 2 = Ret c ∧ control "tun0" events c = Ret c' ∧
    ct_delivered c' = [[x01]; [x02]; [x04]] ∧
    ct_attempts c' = [([x0a], true); ([x0b], false)] ∧ ct_written c' = [[x0a]] ∧
    (length (rx_counters (ct_rx c')), length (ct_counters c')) = (1, 1)%nat ∧
    ct_ended c' = Some (anyhow_io gone).
Proof.
  destruct (control_init 2) as [c|] eqn:Ec; [|by vm_compute in Ec].
  destruct (control_refines (contents := items) "tun0" 2 events c Ec) as (c' & Ec' & Hr & _).
  { repeat constructor; (apply frame_ok || apply error_ok). }
  exists c, c'. split; [done|]. split; [exact Ec'|]. unfold ct_written.
  rewrite (rp_delivered _ _ _ _ Hr), (rp_attempts _ _ _ _ Hr), (rp_ended _ _ _ _ Hr),
    (rp_rx_errors _ _ _ _ Hr), (rp_tx_errors _ _ _ _ Hr).
  by vm_compute.
Defined.
