(* ===== verification/EndToEnd.v ===== *)
(** * From device to device

    The parts of the data plane put together: frames read from the TUN device of
    one node ([Tun::control]), dispatched by its packet loop ([tun_rx_loop] of
    [src/src/main.rs], [Peer::send_packet]), received by the session of another
    node ([ConnectedPeer::recv_loop]) and written to its device. The network
    between them is that of QUIC datagrams: it may lose and reorder them, but
    neither makes them up nor repeats them ([⊆+]). The channels between the loops
    of a node are queues, of which a reader sees a first part ([prefix_of]). *)

From S2P Require Import Prelude ErrorCode Net Keys Packet Ecn Proto Handshake Route Relay Dns Session BufferPool DataPlane Tun TunControl.
From stdpp Require Import prelude gmap strings.
From Stdlib Require Import Strings.Byte.

(** ** What goes in and out of a TUN loop *)
Section Events.
Context `{Libc}.

(** The frames the device delivers, and the packets that are handed to it. *)
Definition frames_read (events : list tun_event) : list (list byte) :=
  omap (λ ev, match ev with DevRead dev => ok (dev BUFFER_SIZE) | _ => None end) events.
Definition packets_written (events : list tun_event) : list TxPacket :=
  omap (λ ev, match ev with DevWrite packet _ => Some packet | _ => None end) events.

(** The device takes a packet that it is given. *)
Definition takes (ev : tun_event) : Prop :=
  match ev with DevWrite packet answer => answer = Ok (length (tx_data packet)) | _ => True end.

(** The frames that have been read and not been dropped: those handed over and
    the one that waits for room. *)
Definition sp_read (s : TunSpec) : list (list byte) :=
  sp_delivered s ++ option_list (sp_waiting s).

Lemma spec_end_read s e : sp_read (spec_end s e) `sublist_of` sp_read s.
Proof. unfold sp_read. simpl. apply sublist_app; [done|apply sublist_nil_l]. Qed.

Lemma spec_step_ended ev s :
  is_Some (sp_ended s) →
  is_Some (sp_ended (spec_step ev s)) ∧ sp_read (spec_step ev s) = sp_read s ∧
  sp_attempts (spec_step ev s) = sp_attempts s.
Proof.
  intros [e He]. unfold spec_step. rewrite He.
  destruct ev; try (by rewrite He); case_match; simpl; by rewrite ?He.
Qed.

(** A read adds at most its frame. *)
Lemma spec_step_reads ev s :
  sp_ended s = None → sp_read (spec_step ev s) `sublist_of` sp_read s ++ frames_read [ev].
Proof.
  intros He. unfold spec_step. rewrite He.
  assert (∀ e l, sp_read (spec_end s e) `sublist_of` sp_read s ++ l) as Hend
    by (intros e l; etrans; [apply spec_end_read|by apply sublist_inserts_r]).
  assert (∀ l, sp_read s `sublist_of` sp_read s ++ l) as Hsame by (intros l; by apply sublist_inserts_r).
  destruct ev as [dev| | |i| |packet answer|]; simpl.
  - destruct (sp_waiting s) eqn:Ew; [apply Hsame|]. destruct (0 <? sp_free s)%nat; [|apply Hsame].
    unfold spec_read. destruct (dev BUFFER_SIZE) as [[|y frame]|err]; simpl; [apply Hsame| |].
    + destruct (sp_rx_open s); [|apply Hend].
      unfold sp_read. rewrite Ew. destruct (_ <? _)%nat; simpl; by rewrite !app_nil_r.
    + destruct (is_tun_transient err); [apply Hsame|apply Hend].
  - destruct (sp_waiting s) eqn:Ew; [|apply Hsame]. destruct (_ <? _)%nat; [|apply Hsame].
    unfold sp_read. simpl. by rewrite Ew, !app_nil_r.
  - destruct (sp_queue s); apply Hsame.
  - destruct (_ <? _)%nat; apply Hsame.
  - destruct (sp_waiting s) eqn:Ew; [|apply Hsame].
    etrans; [apply spec_end_read|apply Hsame].
  - destruct (write_frame _ _); [apply Hsame|]. destruct (is_tun_transient _); [apply Hsame|].
    etrans; [apply spec_end_read|apply Hsame].
  - apply Hend.
Qed.

(** A packet that is handed to the device is recorded, as taken if it is. *)
Lemma spec_step_writes ev s :
  sp_ended s = None →
  ∃ l, sp_attempts (spec_step ev s) = sp_attempts s ++ l ∧
    l.*1 = tx_data <$> packets_written [ev] ∧ (takes ev → taken l = l.*1).
Proof.
  intros He. unfold spec_step. rewrite He.
  assert (∃ l, sp_attempts s = sp_attempts s ++ l ∧ l.*1 = [] ∧ (takes ev → taken l = l.*1)) as Hnone
    by (exists []; by rewrite app_nil_r).
  destruct ev as [dev| | |i| |packet answer|]; simpl; try exact Hnone.
  - destruct (sp_waiting s); [exact Hnone|]. destruct (0 <? sp_free s)%nat; [|exact Hnone].
    unfold spec_read. destruct (dev BUFFER_SIZE) as [[|y frame]|err]; simpl; [exact Hnone| |].
    + destruct (sp_rx_open s); [|exact Hnone]. by destruct (_ <? _)%nat.
    + by destruct (is_tun_transient err).
  - destruct (sp_waiting s); [by destruct (_ <? _)%nat|exact Hnone].
  - by destruct (sp_queue s).
  - by destruct (_ <? _)%nat.
  - by destruct (sp_waiting s).
  - destruct (write_frame (tx_data packet) (λ _, answer)) as [[]|err] eqn:Ew; [by eexists|].
    assert (answer = Ok (length (tx_data packet)) →
      taken [(tx_data packet, false)] = [tx_data packet]) as Ht.
    { intros ->. unfold write_frame in Ew. by rewrite Nat.eqb_refl in Ew. }
    destruct (is_tun_transient err); by eexists.
Qed.

Lemma spec_run_ended events s :
  is_Some (sp_ended s) →
  is_Some (sp_ended (spec_run events s)) ∧ sp_read (spec_run events s) = sp_read s ∧
  sp_attempts (spec_run events s) = sp_attempts s.
Proof.
  revert s. induction events as [|ev events IH]; intros s Hs; [done|].
  destruct (spec_step_ended ev s Hs) as (He & <- & <-). by apply (IH (spec_step ev s)).
Qed.

Lemma taken_app l k : taken (l ++ k) = taken l ++ taken k.
Proof. apply omap_app. Qed.

Lemma taken_sublist l : taken l `sublist_of` l.*1.
Proof.
  induction l as [|[f b] l IH]; [done|]. destruct b; csimpl; by constructor.
Qed.

(** As long as the loop runs, every packet has been handed to the device. *)
Lemma spec_run_running events s :
  sp_ended (spec_run events s) = None →
  ∃ l, sp_attempts (spec_run events s) = sp_attempts s ++ l ∧
    l.*1 = tx_data <$> packets_written events ∧ (Forall takes events → taken l = l.*1).
Proof.
  revert s. induction events as [|ev events IH]; intros s Hr; [by exists []; rewrite app_nil_r|].
  destruct (sp_ended s) as [e|] eqn:He.
  { destruct (spec_run_ended (ev :: events) s) as [[e' Hs] _]; [by eexists|]. congruence. }
  change (spec_run (ev :: events) s) with (spec_run events (spec_step ev s)) in *.
  destruct (spec_step_writes ev s He) as (l1 & E1 & H1 & T1).
  destruct (IH _ Hr) as (l2 & E2 & H2 & T2). exists (l1 ++ l2). split_and!.
  - by rewrite E2, E1, app_assoc.
  - unfold packets_written in *. by rewrite (omap_app _ [ev] events), !fmap_app, H1, H2.
  - intros [Hev Hall]%Forall_cons. by rewrite taken_app, fmap_app, T1, T2.
Qed.

(** What is handed over was read, in that order, and what is handed to the device
    are the first packets. *)
Lemma spec_run_flow events s :
  sp_read (spec_run events s) `sublist_of` sp_read s ++ frames_read events ∧
  (sp_attempts (spec_run events s)).*1 `prefix_of`
    (sp_attempts s).*1 ++ (tx_data <$> packets_written events).
Proof.
  revert s. induction events as [|ev events IH]; intros s.
  { simpl. by rewrite !app_nil_r. }
  destruct (sp_ended s) as [e|] eqn:He.
  { destruct (spec_run_ended (ev :: events) s) as (_ & -> & ->); [by eexists|].
    split; [by apply sublist_inserts_r|by apply prefix_app_r]. }
  destruct (IH (spec_step ev s)) as [Hr Hw].
  pose proof (spec_step_reads ev s He) as Hr1.
  destruct (spec_step_writes ev s He) as (l & El & Hl & _).
  change (spec_run (ev :: events) s) with (spec_run events (spec_step ev s)).
  unfold frames_read, packets_written in *.
  rewrite (omap_app _ [ev] events), (omap_app _ [ev] events). split.
  - etrans; [exact Hr|]. rewrite app_assoc. by apply sublist_app.
  - by rewrite El, !fmap_app, Hl, <- app_assoc in Hw; rewrite fmap_app.
Qed.

(** From the start of a loop. *)
Lemma delivered_were_read events count :
  sp_delivered (spec_run events (spec_init count)) `sublist_of` frames_read events.
Proof.
  etrans; [|exact (proj1 (spec_run_flow events (spec_init count)))].
  unfold sp_read. by apply sublist_inserts_r.
Qed.
End Events.

(** ** The packet loop and the receive loop *)
Section Loops.
Context `{EtherparseLaws, IpHeaderLaws, DnsStackLaws, DnsHandler, ThinStatusOps}.
Context {W T : Type} `{EqDecision T}.

(** The datagrams of a run of the packet loop that were given to [peer]. *)
Definition sent_to (peer : T) (es : list (option (T * list byte) * list rx_effect)) :
    list (list byte) :=
  omap (λ e, '(p, d) ← e.1; if decide (p = peer) then Some d else None) es.

(** Every datagram carries one packet, in the order of the packets. *)
Lemma tun_rx_loop_carries (peer : T) (packets : list (RxEnv (W := W) (T := T) * list byte)) :
  ∃ es origins, tun_rx_loop packets = Ret es ∧ origins `sublist_of` packets ∧
    Forall2 (λ '(env, packet) d, carried env packet peer d) origins (sent_to peer es).
Proof.
  induction packets as [|[env packet] packets (es & origins & Ees & Hsub & Hall)].
  { exists [], []. by repeat constructor. }
  destruct (tun_rx_step_facts env packet) as (sent & effects & Estep & Hsent & _).
  simpl. rewrite Estep, Ees. exists ((sent, effects) :: es).
  destruct sent as [[p dg]|]; simpl.
  2: { exists origins. split; [done|]. split; [by constructor|done]. }
  destruct (decide (p = peer)) as [->|Hne].
  - exists ((env, packet) :: origins). split; [done|]. split; [by constructor|].
    constructor; [by apply Hsent|done].
  - exists origins. split; [done|]. split; [by constructor|done].
Qed.

Lemma tun_rx_loop_forwards (peer : T) (packets : list (RxEnv (W := W) (T := T) * list byte)) :
  Forall (λ '(env, packet), tun_rx_step env packet = Ret (Some (peer, packet), [])) packets →
  ∃ es, tun_rx_loop packets = Ret es ∧ sent_to peer es = packets.*2.
Proof.
  induction 1 as [|[env packet] packets Hp _ (es & Ees & Hes)]; simpl; [by exists []|].
  rewrite Hp, Ees. eexists. split; [done|]. simpl. rewrite decide_True by done. by f_equal.
Qed.
End Loops.

(** Datagrams of a multiset have their origins in a multiset. *)
Lemma submseteq_origins {A B} (R : A → B → Prop) (l : list A) (k k' : list B) :
  Forall2 R l k → k' ⊆+ k → ∃ l', l' ⊆+ l ∧ Forall2 R l' k'.
Proof.
  intros Hall [r Hr]%submseteq_Permutation.
  apply Forall2_flip in Hall.
  destruct (Permutation_Forall2 Hr Hall) as (l0 & Hl & H0).
  apply Forall2_flip, Forall2_app_inv_r in H0 as (l1 & l2 & H1 & _ & ->).
  exists l1. split; [|done]. rewrite Hl. apply submseteq_inserts_r. done.
Qed.

(** ** From device to device *)
Section EndToEnd.
Context `{EtherparseLaws, IpHeaderLaws, DnsStackLaws, DnsHandler, ThinStatusOps, Libc}.
Context `{IrohKeys, MpscLaws (list byte) contents} {W W' T : Type} `{EqDecision T}.
Context (if_a if_b : string) (count_a count_b : nat).

Notation Env := (RxEnv (W := W) (T := T)).

(** C11: whatever the schedules of both nodes and the network do, nothing panics, and
    every frame that the second node hands to its device for the connection to the
    first was read from the first node's device: it was addressed to what the
    relay then dispatched to the second node, its length and its payload are
    intact, and no frame is written twice. What the device takes is among what it
    is handed. *)
Theorem end_to_end (events_a : list tun_event) (ca0 cb0 : Control) (peer : T)
    (n : Node (W := W')) (last : AnyhowError) :
  control_init count_a = Ret ca0 → control_init count_b = Ret cb0 →
  Forall event_ok events_a → tun_open n = true →
  ∃ ca, control if_a events_a ca0 = Ret ca ∧
  ∀ packets : list (Env * list byte), packets.*2 `prefix_of` ct_delivered ca →
  ∃ es, tun_rx_loop packets = Ret es ∧
  ∀ datagrams events_b, datagrams ⊆+ sent_to peer es → Forall event_ok events_b →
    packets_written events_b `prefix_of` tun_tx (recv_loop datagrams last n).2 →
  ∃ cb origins, control if_b events_b cb0 = Ret cb ∧
    (ct_attempts cb).*1 `prefix_of` (tx_data <$> tun_tx n) ++ datagrams ∧
    ct_written cb `sublist_of` (ct_attempts cb).*1 ∧
    origins ⊆+ packets ∧ origins.*2 ⊆+ frames_read events_a ∧
    Forall2 (λ '(env, packet) d, carried env packet peer d) origins datagrams.
Proof.
  intros Ha0 Hb0 Hoka Hopen.
  destruct (control_represents if_a count_a events_a _ _ (init_represents _ _ _ Ha0) Hoka)
    as (ca & Eca & Hra).
  exists ca. split; [exact Eca|]. intros packets Hpre.
  destruct (tun_rx_loop_carries peer packets) as (es & carried_ & Ees & Hsub & Hall).
  exists es. split; [exact Ees|]. intros datagrams events_b Hd Hokb Hw.
  destruct (control_represents if_b count_b events_b _ _ (init_represents _ _ _ Hb0) Hokb)
    as (cb & Ecb & Hrb).
  destruct (submseteq_origins _ _ _ _ Hall Hd) as (origins & Ho & Hor).
  assert (origins ⊆+ packets) as Hop by (etrans; [exact Ho|by apply sublist_submseteq]).
  exists cb, origins. split; [exact Ecb|]. split_and!; [|apply taken_sublist|done| |done].
  - rewrite (rp_attempts _ _ _ _ Hrb).
    destruct (spec_run_flow events_b (spec_init count_b)) as [_ Hpw].
    etrans; [exact Hpw|]. simpl. rewrite recv_loop_open in Hw by done. simpl in Hw. destruct Hw as [k Hk].
    apply (f_equal (fmap tx_data)) in Hk. rewrite !fmap_app, <- list_fmap_compose, list_fmap_id in Hk.
    rewrite Hk. by apply prefix_app_r.
  - rewrite (rp_delivered _ _ _ _ Hra) in Hpre.
    destruct Hpre as [k Hk]. etrans; [apply fmap_submseteq, Hop|].
    etrans; [|apply sublist_submseteq, (delivered_were_read events_a count_a)].
    rewrite Hk. by apply submseteq_inserts_r.
Qed.

(** C12: over a connection that keeps every datagram and their order, is not
    congested and takes what it is given, the second node hands to its device
    exactly the packets that the first node's packet loop has for it, in order,
    once it has written its queue; and if the device takes every packet it is
    given, these are exactly the packets it gets. *)
Theorem lossless_end_to_end (events_b : list tun_event) (cb0 : Control) (peer : T)
    (packets : list (Env * list byte)) (n : Node (W := W')) (last : AnyhowError) :
  control_init count_b = Ret cb0 → Forall event_ok events_b → tun_open n = true →
  Forall (λ '(env, packet),
    is_dns env packet = None ∧ dest_ip packet ≫= Relay_get (rx_relay env) = Some (Connected peer) ∧
    too_long (peer_env env peer) packet = None ∧
    linear_aqm_rng (random_bits (peer_env env peer)) ECN_THRESHOLD
      (fullness (peer_env env peer)) = true ∧
    send_datagram (peer_env env peer) packet = Ok tt) packets →
  ∃ es cb, tun_rx_loop packets = Ret es ∧ control if_b events_b cb0 = Ret cb ∧
    (packets_written events_b = tun_tx (recv_loop (sent_to peer es) last n).2 →
     ct_ended cb = None →
     (ct_attempts cb).*1 = (tx_data <$> tun_tx n) ++ packets.*2 ∧
     (Forall takes events_b → ct_written cb = (tx_data <$> tun_tx n) ++ packets.*2)).
Proof.
  intros Hb0 Hokb Hopen Hall.
  destruct (tun_rx_loop_forwards peer packets) as (es & Ees & Hes).
  { eapply Forall_impl; [exact Hall|]. intros [env packet] (?&?&?&?&?). by apply tun_rx_step_forwards. }
  destruct (control_represents if_b count_b events_b _ _ (init_represents _ _ _ Hb0) Hokb)
    as (cb & Ecb & Hrb).
  exists es, cb. split; [exact Ees|]. split; [exact Ecb|]. intros Hw He.
  destruct (spec_run_running events_b (spec_init count_b)) as (l & El & Hl & Ht);
    [by rewrite <- (rp_ended _ _ _ _ Hrb)|].
  unfold ct_written. rewrite (rp_attempts _ _ _ _ Hrb), El. simpl.
  rewrite Hw, recv_loop_open, Hes in Hl by done. simpl in Hl.
  rewrite fmap_app, <- list_fmap_compose, list_fmap_id in Hl.
  split; [done|]. intros Htk. by rewrite Ht.
Qed.
End EndToEnd.

(** ** Witnesses: a packet, and one that is lost *)
Import EtherparseRef HeaderRef DnsRef Plane KeysRef MpscRef TunRef ControlRef MockRoutes.

Module TransferRef.
(** Two frames of the first device; the first is small, the second has a longer
    payload. *)
Definition long_packet : list byte := MOCK_IPV4_PACKET ++ [xff; xfe].
Definition events_a : list tun_event := [frame MOCK_IPV4_PACKET; frame []; frame long_packet].

Lemma events_a_ok : Forall event_ok events_a.
Proof. repeat constructor; apply frame_ok. Qed.

Definition env : RxEnv (W := world) (T := nat) := rx_env (Connected 5) (idle_conn 1200).
Definition packets : list (RxEnv (W := world) (T := nat) * list byte) :=
  [(env, MOCK_IPV4_PACKET); (env, long_packet)].

Definition node_b : Node (W := unit) :=
  {| relay := Relay_new tt; dns_names := None; tun_tx := [mkTxPacket [x01]]; tun_open := true;
     session_counters := [] |}.

Definition writes (l : list (list byte)) : list tun_event :=
  (λ f, DevWrite (mkTxPacket f) (Ok (length f))) <$> l.

Lemma writes_ok l : Forall event_ok (writes l).
Proof. by apply Forall_fmap, Forall_true. Qed.
Lemma writes_taken l : Forall takes (writes l).
Proof. by apply Forall_fmap, Forall_true. Qed.
End TransferRef.
Import TransferRef.

Lemma end_to_end_witness :
  ∃ cb0 cb origins, control_init 2 = Ret cb0 ∧
    control "tunB" (TransferRef.writes [[x01]; long_packet]) cb0 = Ret cb ∧
    (ct_attempts cb).*1 `prefix_of` [[x01]; long_packet] ∧ origins ⊆+ packets ∧
    origins.*2 ⊆+ [MOCK_IPV4_PACKET; []; long_packet] ∧
    Forall2 (λ '(env, packet) d, carried env packet 5 d) origins [long_packet].
Proof.
  assert ((let! c := control_init 3 in let! c := control "tunA" events_a c in
           Ret (ct_delivered c)) = Ret [MOCK_IPV4_PACKET; long_packet]) as Hd by (by vm_compute).
  assert ((let! es := tun_rx_loop packets in Ret (sent_to 5 es)) =
    Ret [MOCK_IPV4_PACKET; long_packet]) as Hs by (by vm_compute).
  destruct (control_init 3) as [ca0|] eqn:Ea; [|done].
  destruct (control_init 2) as [cb0|] eqn:Eb; [|by vm_compute in Eb].
  destruct (end_to_end (contents := items) (W := world) "tunA" "tunB" 3 2 events_a ca0 cb0 5 node_b
    anyhow_msg Ea Eb events_a_ok eq_refl) as (ca & Eca & Hca).
  rewrite Eca in Hd. injection Hd as Hd.
  destruct (Hca packets) as (es & Ees & Hes); [by rewrite Hd|].
  rewrite Ees in Hs. injection Hs as Hs.
  destruct (Hes [long_packet] (TransferRef.writes [[x01]; long_packet]))
    as (cb & origins & Ecb & Hw & _ & Ho & Hf & Hall).
  - rewrite Hs. apply submseteq_cons. done.
  - apply writes_ok.
  - done.
  - exists cb0, cb, origins. split; [done|]. split; [exact Ecb|]. split; [exact Hw|].
    split; [exact Ho|]. split; [exact Hf|exact Hall].
Defined.

Lemma lossless_end_to_end_witness :
  ∃ es cb0 cb, tun_rx_loop packets = Ret es ∧ control_init 2 = Ret cb0 ∧
    control "tunB" (TransferRef.writes [[x01]; MOCK_IPV4_PACKET; long_packet]) cb0 = Ret cb ∧
    ct_written cb = [[x01]; MOCK_IPV4_PACKET; long_packet].
Proof.
  assert ((let! es := tun_rx_loop packets in Ret (sent_to 5 es)) =
    Ret [MOCK_IPV4_PACKET; long_packet]) as Hs by (by vm_compute).
  assert ((let! c := control_init 2 in let! c := control "tunB"
    (TransferRef.writes [[x01]; MOCK_IPV4_PACKET; long_packet]) c in Ret (ct_ended c)) = Ret None)
    as He by (by vm_compute).
  destruct (control_init 2) as [cb0|] eqn:Eb; [|done].
  destruct (lossless_end_to_end (contents := items) (W := world) "tunB" 2
    (TransferRef.writes [[x01]; MOCK_IPV4_PACKET; long_packet]) cb0 5 packets node_b anyhow_msg
    Eb (writes_ok _) eq_refl) as (es & cb & Ees & Ecb & Hw).
  { repeat constructor; by vm_compute. }
  rewrite Ees in Hs. injection Hs as Hs. rewrite Ecb in He. injection He as He.
  exists es, cb0, cb. split; [exact Ees|]. split; [done|]. split; [exact Ecb|].
  apply Hw; [|exact He|apply writes_taken]. by rewrite Hs.
Defined.
