(* ===== verification/ConnMetrics.v ===== *)
(** * Export of connection statistics

    Models [src/src/peer/conn_metrics.rs]: the gauges of a connection in the
    registry of the [metrics] crate, and the task that copies the statistics of
    the connection into them until it is cancelled or the connection closes. *)

From S2P Require Import Prelude ErrorCode Floats.
From stdpp Require Import prelude gmap strings.
From Stdlib Require Import Floats.SpecFloat.

Local Open Scope Z_scope.

(** ** [f64] *)
Module f64.
Definition prec : Z := 53.
Definition emax : Z := 1024.

(** [x as f64] for an unsigned integer [x]. *)
Definition of_Z (z : Z) : spec_float := binary_normalize prec emax z 0 false.
Definition add := SFadd prec emax.
Definition div := SFdiv prec emax.
End f64.

(** [Duration], and [Duration::as_secs_f64]. *)
Record Duration := { secs : Z; nanos : Z }.

Definition as_secs_f64 (d : Duration) : spec_float :=
  f64.add (f64.of_Z (secs d)) (f64.div (f64.of_Z (nanos d)) (f64.of_Z 1000000000)).

(** ** The registry *)

(** A gauge is the handle of an entry of the registry: its name and labels. *)
Definition Gauge : Type := string * list Label.
Definition Registry : Type := gmap Gauge spec_float.

Definition Gauge_set (self : Gauge) (v : spec_float) (reg : Registry) : Registry :=
  <[self := v]> reg.

Record QuinnMetrics := {
  datagram_tx : Gauge;
  datagram_rx : Gauge;
  rtt : Gauge;
  relayed : Gauge;
  cwnd : Gauge;
  congestion_events : Gauge;
  lost_packets : Gauge;
  lost_bytes : Gauge;
  sent_plpmtud_probes : Gauge;
  lost_plpmtud_probes : Gauge;
  black_holes_detected : Gauge;
  current_mtu : Gauge;
}.

Definition QuinnMetrics_new (labels : list Label) : QuinnMetrics :=
  {| datagram_tx := ("p2p_vpn_peer_quinn_datagram_tx"%string, labels);
     datagram_rx := ("p2p_vpn_peer_quinn_datagram_rx"%string, labels);
     rtt := ("p2p_vpn_peer_quinn_rtt_seconds"%string, labels);
     relayed := ("p2p_vpn_peer_quinn_relayed"%string, labels);
     cwnd := ("p2p_vpn_peer_quinn_cwnd"%string, labels);
     congestion_events := ("p2p_vpn_peer_quinn_congestion_events_total"%string, labels);
     lost_packets := ("p2p_vpn_peer_quinn_lost_packets_total"%string, labels);
     lost_bytes := ("p2p_vpn_peer_quinn_lost_bytes_total"%string, labels);
     sent_plpmtud_probes := ("p2p_vpn_peer_quinn_sent_plpmtud_probes_total"%string, labels);
     lost_plpmtud_probes := ("p2p_vpn_peer_quinn_lost_plpmtud_probes_total"%string, labels);
     black_holes_detected := ("p2p_vpn_peer_quinn_black_holes_detected_total"%string, labels);
     current_mtu := ("p2p_vpn_peer_quinn_current_mtu_bytes"%string, labels) |}.

(** ** The statistics of a connection *)

(** [ConnectionStats]: datagram frames sent and received. *)
Record ConnectionStats := { frame_tx_datagram : Z; frame_rx_datagram : Z }.

Record PathStats := {
  ps_rtt : Duration;
  ps_cwnd : Z;
  ps_congestion_events : Z;
  ps_lost_packets : Z;
  ps_lost_bytes : Z;
  ps_sent_plpmtud_probes : Z;
  ps_lost_plpmtud_probes : Z;
  ps_black_holes_detected : Z;
  ps_current_mtu : Z;
}.

(** A path of the connection; its statistics are gone once the connection is. *)
Record NetPath := { is_selected : bool; is_relay : bool; path_stats : option PathStats }.

(** What the connection answers at one tick: why it is closed, if it is, its
    statistics and its paths. *)
Record Snapshot := {
  close_reason : option string;
  stats : ConnectionStats;
  paths : list NetPath;
}.

(** What [select!] returns: a tick of the interval, or the cancellation. *)
Inductive wake : Type :=
  | Tick (conn : Snapshot)
  | Cancelled.

(** ** The exporter *)
Definition update_connection (self : QuinnMetrics) (s : ConnectionStats) (reg : Registry) :
    Registry :=
  let reg := Gauge_set (datagram_tx self) (f64.of_Z (frame_tx_datagram s)) reg in
  Gauge_set (datagram_rx self) (f64.of_Z (frame_rx_datagram s)) reg.

Definition update_path (self : QuinnMetrics) (s : PathStats) (reg : Registry) : Registry :=
  let reg := Gauge_set (rtt self) (as_secs_f64 (ps_rtt s)) reg in
  let reg := Gauge_set (cwnd self) (f64.of_Z (ps_cwnd s)) reg in
  let reg := Gauge_set (congestion_events self) (f64.of_Z (ps_congestion_events s)) reg in
  let reg := Gauge_set (lost_packets self) (f64.of_Z (ps_lost_packets s)) reg in
  let reg := Gauge_set (lost_bytes self) (f64.of_Z (ps_lost_bytes s)) reg in
  let reg := Gauge_set (sent_plpmtud_probes self) (f64.of_Z (ps_sent_plpmtud_probes s)) reg in
  let reg := Gauge_set (lost_plpmtud_probes self) (f64.of_Z (ps_lost_plpmtud_probes s)) reg in
  let reg := Gauge_set (black_holes_detected self) (f64.of_Z (ps_black_holes_detected s)) reg in
  Gauge_set (current_mtu self) (f64.of_Z (ps_current_mtu s)) reg.

Definition selected_path (conn : Snapshot) : option NetPath :=
  snd <$> list_find (λ path, is_selected path = true) (paths conn).

(** The body of the loop for a connection that is not closed. *)
Definition export_tick (self : QuinnMetrics) (conn : Snapshot) (reg : Registry) : Registry :=
  let reg := update_connection self (stats conn) reg in
  match selected_path conn with
  | Some path =>
      let reg := Gauge_set (relayed self) (f64.of_Z (if is_relay path then 1 else 0)) reg in
      match path_stats path with
      | Some stats => update_path self stats reg
      | None => reg
      end
  | None => reg
  end.

(** The task of [spawn_exporter], over what has woken it up so far. The flag
    says whether it has ended. *)
Fixpoint exporter (self : QuinnMetrics) (wakes : list wake) (reg : Registry) : bool * Registry :=
  match wakes with
  | [] => (false, reg)
  | Cancelled :: _ => (true, reg)
  | Tick conn :: wakes =>
      match close_reason conn with
      | Some _ => (true, reg)
      | None => exporter self wakes (export_tick self conn reg)
      end
  end.

(** ** Integers below 2^53 are exact *)

(** The value of a float that is an integer. *)
Definition integer_value (f : spec_float) : option Z :=
  match f with
  | S754_zero _ => Some 0
  | S754_finite s m e =>
      let v := if 0 <=? e then Some (Z.pos m * 2 ^ e)
               else if Z.pos m mod 2 ^ (- e) =? 0 then Some (Z.pos m / 2 ^ (- e)) else None in
      (λ v, if s then - v else v) <$> v
  | _ => None
  end.

Lemma of_Z_exact z : 0 ≤ z < 2 ^ 53 → integer_value (f64.of_Z z) = Some z.
Proof.
  intros Hz. unfold f64.of_Z.
  destruct (integer_exact f64.prec f64.emax ltac:(done) z 0) as [-> Hv|q E -> [_ HE] Hv];
    unfold f64.prec, f64.emax, emin in *; [lia|lia|cbn; f_equal; lia|].
  cbn [integer_value]. case_match eqn:EE; bool_to_prop; cbn.
  - f_equal. apply (Z.mul_reg_r _ _ (2 ^ (0 - (3 - 1024 - 53)))); [done|].
    rewrite Hv, <- Z.mul_assoc, <- Z.pow_add_r by lia. do 2 f_equal; lia.
  - assert (Z.pos q = z * 2 ^ (- E)) as ->.
    { apply (Z.mul_reg_r _ _ (2 ^ (E - (3 - 1024 - 53)))); [apply Z.pow_nonzero; lia|].
      rewrite <- Hv, <- Z.mul_assoc, <- Z.pow_add_r by lia. do 2 f_equal; lia. }
    rewrite Z.mod_mul, Z.div_mul by (apply Z.pow_nonzero; lia). done.
Qed.

(** ** Properties *)

(** The answers of the connection before the task ends. *)
Fixpoint live (wakes : list wake) : list Snapshot :=
  match wakes with
  | Tick conn :: wakes =>
      match close_reason conn with None => conn :: live wakes | Some _ => [] end
  | _ => []
  end.

Definition stops (w : wake) : Prop :=
  match w with Cancelled => True | Tick conn => is_Some (close_reason conn) end.

Lemma exporter_live self wakes reg :
  (exporter self wakes reg).2 = foldl (λ reg conn, export_tick self conn reg) reg (live wakes) ∧
  ((exporter self wakes reg).1 = true ↔ Exists stops wakes).
Proof.
  revert reg. induction wakes as [|[conn|] wakes IH]; intros reg; simpl.
  - split; [done|]. by rewrite Exists_nil.
  - rewrite Exists_cons. destruct (close_reason conn) as [r|] eqn:Er; simpl.
    + split; [done|]. split; [left; by rewrite Er|done].
    + destruct (IH (export_tick self conn reg)) as [-> ->]. split; [done|].
      rewrite Er. split; [by right|]. intros [[? [=]]|?]; done.
  - split; [done|]. rewrite Exists_cons. by split; [left|].
Qed.

(** What the gauges of a path show. *)
Definition path_gauges (m : QuinnMetrics) : list (Gauge * (PathStats → spec_float)) :=
  [(rtt m, λ s, as_secs_f64 (ps_rtt s)); (cwnd m, λ s, f64.of_Z (ps_cwnd s));
   (congestion_events m, λ s, f64.of_Z (ps_congestion_events s));
   (lost_packets m, λ s, f64.of_Z (ps_lost_packets s));
   (lost_bytes m, λ s, f64.of_Z (ps_lost_bytes s));
   (sent_plpmtud_probes m, λ s, f64.of_Z (ps_sent_plpmtud_probes s));
   (lost_plpmtud_probes m, λ s, f64.of_Z (ps_lost_plpmtud_probes s));
   (black_holes_detected m, λ s, f64.of_Z (ps_black_holes_detected s));
   (current_mtu m, λ s, f64.of_Z (ps_current_mtu s))].

Definition conn_gauges (m : QuinnMetrics) : list (Gauge * (ConnectionStats → spec_float)) :=
  [(datagram_tx m, λ s, f64.of_Z (frame_tx_datagram s));
   (datagram_rx m, λ s, f64.of_Z (frame_rx_datagram s))].

Definition gauges (m : QuinnMetrics) : list Gauge :=
  (conn_gauges m).*1 ++ relayed m :: (path_gauges m).*1.

(** Setting the gauges of a list, the names of which are distinct. *)
Definition set_all {A} (l : list (Gauge * (A → spec_float))) (x : A) (reg : Registry) : Registry :=
  foldl (λ reg gf, Gauge_set gf.1 (gf.2 x) reg) reg l.

Lemma set_all_other {A} (l : list (Gauge * (A → spec_float))) x reg g :
  g ∉ l.*1 → set_all l x reg !! g = reg !! g.
Proof.
  revert reg. induction l as [|[g' f] l IH]; intros reg Hg; [done|].
  rewrite fmap_cons, not_elem_of_cons in Hg. destruct Hg as [Hne Hg].
  change (set_all ((g', f) :: l) x reg) with (set_all l x (Gauge_set g' (f x) reg)).
  rewrite IH by done. by apply lookup_insert_ne.
Qed.

Lemma set_all_lookup {A} (l : list (Gauge * (A → spec_float))) x reg g f :
  NoDup l.*1 → (g, f) ∈ l → set_all l x reg !! g = Some (f x).
Proof.
  revert reg. induction l as [|[g' f'] l IH]; intros reg Hd Hin; [set_solver|].
  rewrite fmap_cons, NoDup_cons in Hd. destruct Hd as [Hn Hd].
  change (set_all ((g', f') :: l) x reg) with (set_all l x (Gauge_set g' (f' x) reg)).
  apply elem_of_cons in Hin as [[= <- <-]|Hin]; [|by apply IH].
  rewrite set_all_other by done. apply lookup_insert_eq.
Qed.

Section Exporter.
Context (labels : list Label).
Notation m := (QuinnMetrics_new labels).

Lemma gauges_distinct : NoDup (gauges m).
Proof.
  change (gauges m) with ((λ n, (n, labels)) <$> (gauges (QuinnMetrics_new [])).*1).
  apply NoDup_fmap_2; [by intros ?? [= ->]|]. by_decide.
Qed.

(** One tick, as it is seen through the gauges. *)
Lemma export_tick_spec conn reg :
  (∀ g f, (g, f) ∈ conn_gauges m → export_tick m conn reg !! g = Some (f (stats conn))) ∧
  export_tick m conn reg !! relayed m =
    match selected_path conn with
    | Some path => Some (f64.of_Z (if is_relay path then 1 else 0))
    | None => reg !! relayed m
    end ∧
  (∀ g f, (g, f) ∈ path_gauges m → export_tick m conn reg !! g =
    match selected_path conn ≫= path_stats with
    | Some s => Some (f s)
    | None => reg !! g
    end) ∧
  (∀ g, g ∉ gauges m → export_tick m conn reg !! g = reg !! g).
Proof.
  pose proof gauges_distinct as Hd. unfold gauges in Hd |- *.
  apply NoDup_app in Hd as (Hdc & Hcp & Hdp). apply NoDup_cons in Hdp as [Hr Hdp].
  set (r1 := set_all (conn_gauges m) (stats conn) reg).
  set (r2 p := Gauge_set (relayed m) (f64.of_Z (if is_relay p then 1 else 0)) r1).
  assert (export_tick m conn reg = match selected_path conn with
    | Some p => match path_stats p with Some s => set_all (path_gauges m) s (r2 p) | None => r2 p end
    | None => r1 end) as -> by done.
  assert (∀ g, g ≠ relayed m → ∀ p, r2 p !! g = r1 !! g) as H2
    by (intros g Hg p; by apply lookup_insert_ne).
  assert (∀ p, r2 p !! relayed m = Some (f64.of_Z (if is_relay p then 1 else 0))) as H2'
    by (intros p; apply lookup_insert_eq).
  assert (∀ g f, (g, f) ∈ conn_gauges m → g ≠ relayed m ∧ g ∉ (path_gauges m).*1) as Hcg.
  { intros g f Hin. apply not_elem_of_cons, Hcp. by apply (list_elem_of_fmap_2 fst _ (g, f)). }
  assert (∀ g f, (g, f) ∈ path_gauges m → g ≠ relayed m ∧ g ∉ (conn_gauges m).*1) as Hpg.
  { intros g f Hin. apply (list_elem_of_fmap_2 fst) in Hin. simpl in Hin.
    split; [by intros ->|]. intros Hc. apply (Hcp _ Hc). by right. }
  assert (relayed m ∉ (conn_gauges m).*1) as Hrc
    by (intros Hc; apply (Hcp _ Hc); by left).
  split_and!.
  - intros g f Hin. destruct (Hcg g f Hin) as [? ?].
    destruct (selected_path conn) as [p|]; [destruct (path_stats p)|];
      rewrite ?set_all_other, ?H2 by done; by apply set_all_lookup.
  - destruct (selected_path conn) as [p|]; [destruct (path_stats p)|];
      rewrite ?(set_all_other (path_gauges m)) by done; [done..|]. by apply set_all_other.
  - intros g f Hin. destruct (Hpg g f Hin) as [? ?].
    destruct (selected_path conn) as [p|]; cbn [mbind option_bind]; [destruct (path_stats p)|];
      [by apply set_all_lookup|rewrite ?H2 by done; by apply set_all_other..].
  - intros g Hg. rewrite not_elem_of_app, not_elem_of_cons in Hg. destruct Hg as (? & ? & ?).
    destruct (selected_path conn) as [p|]; [destruct (path_stats p)|];
      rewrite ?(set_all_other (path_gauges m)), ?H2 by done; by apply set_all_other.
Qed.

Notation fold := (foldl (λ reg conn, export_tick m conn reg)).

Lemma export_ticks_spec conns reg :
  (∀ g f conn, (g, f) ∈ conn_gauges m → last conns = Some conn →
     fold reg conns !! g = Some (f (stats conn))) ∧
  (∀ path, last (omap selected_path conns) = Some path →
     fold reg conns !! relayed m = Some (f64.of_Z (if is_relay path then 1 else 0))) ∧
  (∀ g f s, (g, f) ∈ path_gauges m →
     last (omap (λ conn, selected_path conn ≫= path_stats) conns) = Some s →
     fold reg conns !! g = Some (f s)) ∧
  (∀ g, g ∉ gauges m → fold reg conns !! g = reg !! g).
Proof.
  induction conns as [|conn conns IH] using rev_ind; [done|].
  destruct IH as (_ & IHr & IHp & IHo).
  rewrite foldl_app, last_snoc, !omap_app. cbn [foldl omap list_omap].
  destruct (export_tick_spec conn (fold reg conns)) as (Hc & Hr & Hp & Ho). split_and!.
  - intros g f c Hin [= <-]. by apply Hc.
  - intros path Hl. rewrite Hr. destruct (selected_path conn) as [p|].
    + rewrite last_snoc in Hl. by injection Hl as ->.
    + rewrite app_nil_r in Hl. by apply IHr.
  - intros g f s Hin Hl. rewrite (Hp g f Hin).
    destruct (selected_path conn ≫= path_stats) as [s'|].
    + rewrite last_snoc in Hl. by injection Hl as ->.
    + rewrite app_nil_r in Hl. by apply IHp.
  - intros g Hg. by rewrite Ho, IHo.
Qed.

(** C35: the exporter ends exactly when it is cancelled or finds the connection
    closed, and writes nothing from then on. Until then its gauges show the
    latest statistics of the connection, counters below 2^53 exactly, the latest
    statistics of a selected path, and whether the latest selected path is
    relayed; it touches no gauge but its own. *)
Theorem exporter_spec (wakes : list wake) (reg : Registry) :
  let '(ended, reg') := exporter m wakes reg in
  (ended = true ↔ Exists stops wakes) ∧
  (∀ conn, last (live wakes) = Some conn →
     0 ≤ frame_tx_datagram (stats conn) < 2 ^ 53 → 0 ≤ frame_rx_datagram (stats conn) < 2 ^ 53 →
     (reg' !! datagram_tx m ≫= integer_value) = Some (frame_tx_datagram (stats conn)) ∧
     (reg' !! datagram_rx m ≫= integer_value) = Some (frame_rx_datagram (stats conn))) ∧
  (∀ path, last (omap selected_path (live wakes)) = Some path →
     (reg' !! relayed m ≫= integer_value) = Some (if is_relay path then 1 else 0)) ∧
  (∀ g f s, (g, f) ∈ path_gauges m →
     last (omap (λ conn, selected_path conn ≫= path_stats) (live wakes)) = Some s →
     reg' !! g = Some (f s)) ∧
  (∀ g, g ∉ gauges m → reg' !! g = reg !! g).
Proof.
  pose proof (exporter_live m wakes reg) as [Hreg Hend].
  destruct (exporter m wakes reg) as [ended reg']. simpl in Hreg, Hend. subst reg'.
  destruct (export_ticks_spec (live wakes) reg) as (Hc & Hr & Hp & Ho).
  split; [done|]. split; [|split; [|split; [exact Hp|exact Ho]]].
  - intros conn Hl Htx Hrx.
    rewrite (Hc _ (λ s, f64.of_Z (frame_tx_datagram s)) conn ltac:(by left) Hl).
    rewrite (Hc _ (λ s, f64.of_Z (frame_rx_datagram s)) conn ltac:(by right; left) Hl).
    split; by apply of_Z_exact.
  - intros path Hl. rewrite (Hr path Hl). by destruct (is_relay path).
Qed.
End Exporter.

(** ** Witness *)
Module ExporterRef.
Definition some_stats : PathStats :=
  {| ps_rtt := {| secs := 0; nanos := 25000000 |}; ps_cwnd := 14720; ps_congestion_events := 1;
     ps_lost_packets := 3; ps_lost_bytes := 4096; ps_sent_plpmtud_probes := 5;
     ps_lost_plpmtud_probes := 1; ps_black_holes_detected := 0; ps_current_mtu := 1452 |}.
Definition open_conn (tx : Z) (relay : bool) : Snapshot :=
  {| close_reason := None; stats := {| frame_tx_datagram := tx; frame_rx_datagram := 2 * tx |};
     paths := [{| is_selected := false; is_relay := negb relay; path_stats := None |};
               {| is_selected := true; is_relay := relay; path_stats := Some some_stats |}] |}.
Definition closed_conn : Snapshot :=
  {| close_reason := Some "closed"%string;
     stats := {| frame_tx_datagram := 0; frame_rx_datagram := 0 |}; paths := [] |}.
Definition wakes : list wake :=
  [Tick (open_conn 10 true); Tick (open_conn 25 false); Tick closed_conn; Tick (open_conn 7 true)].
Definition labels : list Label := [("peer"%string, "bob"%string)].
End ExporterRef.

Lemma exporter_spec_witness :
  let m := QuinnMetrics_new ExporterRef.labels in
  let '(ended, reg) := exporter m ExporterRef.wakes ∅ in
  ended = true ∧ (reg !! datagram_tx m ≫= integer_value) = Some 25 ∧
  (reg !! relayed m ≫= integer_value) = Some 0.
Proof.
  pose proof (exporter_spec ExporterRef.labels ExporterRef.wakes ∅) as H. cbv zeta in *.
  destruct (exporter _ ExporterRef.wakes ∅) as [ended reg].
  destruct H as (Hend & Hc & Hr & _). split; [|split].
  - apply Hend. right. right. left. by eexists.
  - by apply (Hc (ExporterRef.open_conn 25 false)).
  - by apply (Hr {| is_selected := true; is_relay := false;
                    path_stats := Some ExporterRef.some_stats |}).
Defined.
