(* ===== verification/Toml.v ===== *)
(** * TOML documents and their deserialization

    The configuration is read by the [toml] and [serde] crates. The parser, from
    text to a document, is a parameter of [Config]; this file has the documents,
    the part of serde's data model that the derived [Deserialize] of the
    configuration uses, and a reader for the part of TOML the repository's own
    files are written in. *)

From S2P Require Import Prelude Net IpText.
From stdpp Require Import prelude gmap strings.
From Stdlib Require Import Floats.SpecFloat Ascii.

Local Open Scope Z_scope.

(** ** Documents *)
Inductive toml : Type :=
  | Str (s : string)
  | Integer (z : Z)
  | Float (f : spec_float)
  | Boolean (b : bool)
  | Datetime (s : string)
  | Array (l : list toml)
  | Table (t : gmap string toml).

Notation table := (gmap string toml).

(** ** [serde::Deserialize] *)
Class Deserialize (A : Type) := deserialize : toml → option A.

#[export] Instance deserialize_string : Deserialize string := λ v,
  match v with Str s => Some s | _ => None end.

(** [u16]: an integer in range. *)
Definition deserialize_u16 (v : toml) : option Z :=
  match v with
  | Integer z => if bool_decide (unsigned 16 z) then Some z else None
  | _ => None
  end.

(** [HashMap<String, A>]: every value of the table must be an [A]. *)
#[export] Instance deserialize_map `{Deserialize A} : Deserialize (gmap string A) := λ v,
  match v with
  | Table t =>
      if bool_decide (map_Forall (λ _ v, is_Some (deserialize (A := A) v)) t)
      then Some (omap deserialize t) else None
  | _ => None
  end.

(** [Option<A>], of a value that is there. *)
#[export] Instance deserialize_option `{Deserialize A} : Deserialize (option A) := λ v,
  Some <$> deserialize v.

(** A derived struct takes its fields from a table by their names, and serde lets
    a format offer them in other ways, such as a sequence; what [toml] does with
    values that are no tables is a parameter. Keys that are no fields are
    ignored. *)
Class StructSeq := struct_of_other : list string → toml → option table.

Definition struct_fields `{StructSeq} (names : list string) (v : toml) : option table :=
  match v with
  | Table t => Some t
  | v => struct_of_other names v
  end.

(** A field that must be there, and one with [#[serde(default)]]. *)
Definition field {A} (de : toml → option A) (t : table) (k : string) : option A :=
  t !! k ≫= de.
Definition field_default {A} (de : toml → option A) (d : A) (t : table) (k : string) : option A :=
  match t !! k with Some v => de v | None => Some d end.

(** ** What a document has to look like *)
Definition required (t : table) (k : string) (P : toml → Prop) : Prop :=
  ∃ v, t !! k = Some v ∧ P v.
Definition optional (t : table) (k : string) (P : toml → Prop) : Prop :=
  ∀ v, t !! k = Some v → P v.
Definition text (v : toml) : Prop := ∃ s, v = Str s.
Definition record `{StructSeq} (names : list string) (P : table → Prop) (v : toml) : Prop :=
  ∃ t, struct_fields names v = Some t ∧ P t.

Lemma deserialize_string_spec v s : deserialize v = Some s ↔ v = Str s.
Proof. split; [|by intros ->]. intros E. destruct v; try done. by injection E as ->. Qed.

Lemma deserialize_text v : is_Some (deserialize (A := string) v) ↔ text v.
Proof. unfold is_Some, text. by setoid_rewrite deserialize_string_spec. Qed.

Lemma deserialize_u16_spec v n : deserialize_u16 v = Some n ↔ v = Integer n ∧ unsigned 16 n.
Proof.
  split; [|intros [-> Hn]; simpl; by rewrite bool_decide_eq_true_2].
  destruct v; simpl; try done. case_bool_decide; by intros [= <-].
Qed.

Lemma deserialize_map_spec `{Deserialize A} v :
  is_Some (deserialize (A := gmap string A) v) ↔
  ∃ t, v = Table t ∧ map_Forall (λ _ v, is_Some (deserialize (A := A) v)) t.
Proof.
  split.
  - intros [m E]. destruct v; try done. unfold deserialize, deserialize_map in E.
    case_bool_decide; [by eexists|done].
  - intros (t & -> & Ht). unfold deserialize, deserialize_map.
    rewrite bool_decide_eq_true_2 by done. by eexists.
Qed.

Lemma field_spec {A} (de : toml → option A) t k :
  is_Some (field de t k) ↔ required t k (λ v, is_Some (de v)).
Proof.
  unfold field, required. destruct (t !! k); simpl; [naive_solver|].
  split; [by intros []|naive_solver].
Qed.

Lemma field_default_spec {A} (de : toml → option A) d t k :
  is_Some (field_default de d t k) ↔ optional t k (λ v, is_Some (de v)).
Proof. unfold field_default, optional. destruct (t !! k); [naive_solver|]. by split; [|eexists]. Qed.

#[export] Instance required_proper :
  Proper ((=) ==> (=) ==> pointwise_relation _ iff ==> iff) required.
Proof. intros t ? <- k ? <- P Q HPQ. unfold required. by setoid_rewrite HPQ. Qed.
#[export] Instance optional_proper :
  Proper ((=) ==> (=) ==> pointwise_relation _ iff ==> iff) optional.
Proof. intros t ? <- k ? <- P Q HPQ. unfold optional. by setoid_rewrite HPQ. Qed.

(** ** A reader for the TOML of the repository's files

    Lines that are blank, comments, headers of one-level tables, or a bare key
    with a text without escapes, a decimal or hexadecimal number, or a truth
    value. *)
Module TomlRef.
Definition quote : ascii := "034"%char.

Definition is_space (c : ascii) : bool := bool_decide (c = " "%char ∨ c = "009"%char).

Fixpoint trim_start (s : string) : string :=
  match s with String c s' => if is_space c then trim_start s' else s | EmptyString => s end.

(** The text before and after the first character [c]. *)
Fixpoint cut (c : ascii) (s : string) : option (string * string) :=
  match s with
  | EmptyString => None
  | String d s =>
      if decide (c = d) then Some (EmptyString, s)
      else '(before, after) ← cut c s; Some (String d before, after)
  end.

(** Nothing but a comment. *)
Definition blank (s : string) : bool :=
  match trim_start s with EmptyString | String "#" _ => true | _ => false end.

(** A word, up to a character that cannot be in one. *)
Fixpoint word (s : string) : string * string :=
  match s with
  | String c s' =>
      match to_digit 36 c, bool_decide (c = "_"%char ∨ c = "-"%char) with
      | None, false => (EmptyString, s)
      | _, _ => let '(w, rest) := word s' in (String c w, rest)
      end
  | EmptyString => (EmptyString, s)
  end.

Fixpoint number (radix acc : Z) (s : string) : option Z :=
  match s with
  | EmptyString => Some acc
  | String c s => d ← to_digit radix c; number radix (acc * radix + d) s
  end.

Definition scalar (w : string) : option toml :=
  match w with
  | "" => None
  | "true" => Some (Boolean true)
  | "false" => Some (Boolean false)
  | String "0" (String "x" (String _ _ as digits)) => Integer <$> number 16 0 digits
  | _ => Integer <$> number 10 0 w
  end%string.

Definition value (s : string) : option (toml * string) :=
  match s with
  | String c s' =>
      if decide (c = quote) then '(text, rest) ← cut quote s'; Some (Str text, rest)
      else let '(w, rest) := word s in v ← scalar w; Some (v, rest)
  | EmptyString => None
  end.

(** The document so far and the table that is being filled. *)
Record state := { document : table; section : option (string * table) }.

Definition close (st : state) : option table :=
  match section st with
  | None => Some (document st)
  | Some (name, t) =>
      if decide (document st !! name = None) then Some (<[name := Table t]> (document st)) else None
  end.

Definition add (st : state) (k : string) (v : toml) : option state :=
  match section st with
  | None =>
      if decide (document st !! k = None)
      then Some {| document := <[k := v]> (document st); section := None |} else None
  | Some (name, t) =>
      if decide (t !! k = None)
      then Some {| document := document st; section := Some (name, <[k := v]> t) |} else None
  end.

Definition line (st : state) (s : string) : option state :=
  if blank s then Some st
  else match trim_start s with
  | String "[" s =>
      '(name, rest) ← cut "]" s; guard (blank rest);;
      doc ← close st; Some {| document := doc; section := Some (name, ∅) |}
  | s =>
      let '(k, rest) := word s in
      guard (k ≠ ""%string);;
      match trim_start rest with
      | String "=" rest => '(v, rest) ← value (trim_start rest); guard (blank rest);; add st k v
      | _ => None
      end
  end.

Fixpoint lines (st : state) (s : list string) : option table :=
  match s with
  | [] => close st
  | l :: s => st ← line st l; lines st s
  end.

Fixpoint split_lines (s : string) : list string :=
  match s with
  | EmptyString => [EmptyString]
  | String c s =>
      match split_lines s with
      | l :: ls => if decide (c = "010"%char) then EmptyString :: l :: ls else String c l :: ls
      | [] => []
      end
  end.

Definition read (s : string) : option table :=
  lines {| document := ∅; section := None |} (split_lines s).
End TomlRef.
