(* ===== verification/Config.v ===== *)
(** * Configuration, key files and the offline commands

    Models [src/src/config.rs] and [src/src/generate.rs]. The TOML parser, the
    discovery settings and the key-file format belong to other crates and are
    parameters; the derived [Deserialize] of the configuration is written out
    over the documents of [Toml]. Paths and the file system are modelled as far
    as the code uses them. *)

From S2P Require Import Prelude ErrorCode Net Keys Addr Toml.
From stdpp Require Import prelude gmap strings sorting.
From Stdlib Require Import Ascii.

Local Open Scope Z_scope.

(** ** Paths and files *)

(** A path: absolute or not, and its components. *)
Record Path := mkPath { absolute : bool; components : list string }.

#[export] Instance Path_eq_dec : EqDecision Path.
Proof. solve_decision. Defined.
#[export] Instance Path_countable : Countable Path.
Proof.
  apply (inj_countable' (λ p, (absolute p, components p)) (λ x, mkPath x.1 x.2)).
  by intros [].
Defined.

(** [Path::parent]: none for the root and for the empty path. *)
Definition parent (p : Path) : option Path :=
  match components p with
  | [] => None
  | c :: cs => Some (mkPath (absolute p) (removelast (c :: cs)))
  end.

(** [Path::join]: an absolute path replaces the directory. *)
Definition join (dir p : Path) : Path :=
  if absolute p then p else mkPath (absolute dir) (components dir ++ components p).

(** [PathBuf::from]: empty components are skipped, and so is a dot that is not
    the first component. *)
Fixpoint split_slash (s : string) : string * list string :=
  match s with
  | EmptyString => (EmptyString, [])
  | String c s =>
      let '(first, rest) := split_slash s in
      if decide (c = "/"%char) then (EmptyString, first :: rest) else (String c first, rest)
  end.

Definition path_of_string (s : string) : Path :=
  let '(first, rest) := split_slash s in
  let keep := filter (λ c, c ≠ ""%string ∧ c ≠ "."%string) in
  match s, rest with
  | String "/" _, _ => mkPath true (keep rest)
  | _, _ => mkPath false (if decide (first = ""%string) then keep rest else first :: keep rest)
  end.

Definition is_empty_path (p : Path) : bool :=
  negb (absolute p) && bool_decide (components p = []).

(** A file: its contents and, on Unix, its mode. *)
Record File := { contents : string; mode : Z }.

(** The file system: files, and the paths where reading, writing or changing the
    mode fails, with the error. *)
Record Fs := {
  files : gmap Path File;
  fails : Path → option IoError;
  no_chmod : Path → option IoError;
}.

Definition not_found : IoError := {| kind := ErrorKind.NotFound; raw_os_error := Some 2 |}.

(** The mode of a file that is created without asking for another one. *)
Definition default_mode : Z := 420 (* 0o644 *).

Definition exists_ (fs : Fs) (p : Path) : bool := bool_decide (is_Some (files fs !! p)).

Definition read_to_string (fs : Fs) (p : Path) : result string AnyhowError :=
  match fails fs p, files fs !! p with
  | Some e, _ => Err (anyhow_io e)
  | None, Some f => Ok (contents f)
  | None, None => Err (anyhow_io not_found)
  end.

(** [std::fs::write] keeps the mode of an existing file. *)
Definition write (fs : Fs) (p : Path) (s : string) : result unit AnyhowError * Fs :=
  match fails fs p with
  | Some e => (Err (anyhow_io e), fs)
  | None =>
      let m := match files fs !! p with Some f => mode f | None => default_mode end in
      (Ok tt, {| files := <[p := {| contents := s; mode := m |}]> (files fs);
                 fails := fails fs; no_chmod := no_chmod fs |})
  end.

Definition set_mode (fs : Fs) (p : Path) (m : Z) : result unit AnyhowError * Fs :=
  match no_chmod fs p, files fs !! p with
  | Some e, _ => (Err (anyhow_io e), fs)
  | None, None => (Err (anyhow_io not_found), fs)
  | None, Some f =>
      (Ok tt, {| files := <[p := {| contents := contents f; mode := m |}]> (files fs);
                 fails := fails fs; no_chmod := no_chmod fs |})
  end.

(** ** The configuration *)
Record RawTun := { raw_name : option string; raw_description : option string }.
Record RawHost := { raw_subnet : Z; raw_private_key_path : Path }.
Record RawDns := { raw_suffix : string }.

(** [RawTun::default]. *)
Definition RawTun_default : RawTun := {| raw_name := None; raw_description := None |}.

Record DnsConfig := { cfg_suffix : string }.
Record TunConfig := { tun_name : option string; tun_description : string }.

#[export] Instance DnsConfig_eq_dec : EqDecision DnsConfig.
Proof. solve_decision. Defined.

Section Config.
Context `{IrohKeys} {NodeExtraConfig : Type}.

(** [RawConfig], as the TOML deserializer fills it, defaults included. *)
Record RawConfig := {
  raw_host : RawHost;
  raw_peers : gmap string string;
  raw_tun : RawTun;
  raw_discovery : NodeExtraConfig;
  raw_dns : option RawDns;
}.

Record Config := {
  subnet : Z;
  private_key_path : Path;
  peers : gmap string PublicKey;
  tun : TunConfig;
  discovery : NodeExtraConfig;
  dns : option DnsConfig;
}.

Definition DEFAULT_TUN_DESCRIPTION : string := "zeroconf-p2p-vpn VPN interface".

(** Decoding the peers' keys; the first bad key is an error. *)
Fixpoint decode_peers (l : list (string * string)) :
    result (gmap string PublicKey) AnyhowError :=
  match l with
  | [] => Ok ∅
  | (name, key) :: l =>
      match from_z32 key with
      | None => Err anyhow_msg
      | Some k => let? rest := decode_peers l in Ok (<[name := k]> rest)
      end
  end.

Definition try_from (raw : RawConfig) : result Config AnyhowError :=
  if MAX_SUBNET <? raw_subnet (raw_host raw) then Err anyhow_msg
  else
    let? peers := decode_peers (map_to_list (raw_peers raw)) in
    Ok {| subnet := raw_subnet (raw_host raw);
          private_key_path := raw_private_key_path (raw_host raw);
          peers := peers;
          tun := {| tun_name := raw_name (raw_tun raw);
                    tun_description :=
                      default DEFAULT_TUN_DESCRIPTION (raw_description (raw_tun raw)) |};
          discovery := raw_discovery raw;
          dns := (λ raw_dns, {| cfg_suffix := raw_suffix raw_dns |}) <$> raw_dns raw |}.
End Config.
Arguments RawConfig : clear implicits.
Arguments Config {_} _ : assert.

(** The parser of [toml], and [NodeExtraConfig] and the key files of
    [secure_p2p_transport]. *)
Class ConfigFormats (keys : IrohKeys) (NodeExtraConfig : Type) := {
  toml_document : string → option table;
  toml_struct_of_other :: StructSeq;
  NodeExtraConfig_deserialize :: Deserialize NodeExtraConfig;
  NodeExtraConfig_default : NodeExtraConfig;
  save_key_to_disk : Fs → Path → SecretKey → result unit AnyhowError * Fs;
  load_key_from_disk : Fs → Path → result SecretKey AnyhowError;
}.

(** ** The derived [Deserialize] *)
#[export] Instance deserialize_path : Deserialize Path := λ v, path_of_string <$> deserialize v.

Definition deserialize_dns `{StructSeq} : Deserialize RawDns := λ v,
  t ← struct_fields ["suffix"] v;
  suffix ← field deserialize t "suffix";
  Some {| raw_suffix := suffix |}.

Definition deserialize_host `{StructSeq} : Deserialize RawHost := λ v,
  t ← struct_fields ["subnet"; "private_key_path"] v;
  subnet ← field_default deserialize_u16 0 t "subnet";
  private_key_path ← field deserialize t "private_key_path";
  Some {| raw_subnet := subnet; raw_private_key_path := private_key_path |}.

Definition deserialize_tun `{StructSeq} : Deserialize RawTun := λ v,
  t ← struct_fields ["name"; "description"] v;
  name ← field_default deserialize None t "name";
  description ← field_default deserialize None t "description";
  Some {| raw_name := name; raw_description := description |}.

#[export] Existing Instances deserialize_dns deserialize_host deserialize_tun.

(** [toml::from_str::<RawConfig>]. *)
Definition toml_from_str {keys : IrohKeys} `{!ConfigFormats keys NodeExtraConfig} (s : string) :
    option (RawConfig NodeExtraConfig) :=
  t ← toml_document s;
  host ← field deserialize t "host";
  peers ← field_default deserialize ∅ t "peers";
  tun ← field_default deserialize RawTun_default t "tun";
  discovery ← field_default deserialize NodeExtraConfig_default t "discovery";
  dns ← field_default deserialize None t "dns";
  Some {| raw_host := host; raw_peers := peers; raw_tun := tun; raw_discovery := discovery;
          raw_dns := dns |}.

(** Text with quotes, and lines of text. *)
Definition quoted (s : string) : string :=
  String (Ascii.ascii_of_N 34) EmptyString +:+ s +:+ String (Ascii.ascii_of_N 34) EmptyString.
Definition newline : string := String (Ascii.ascii_of_N 10) EmptyString.
Definition unlines (l : list string) : string :=
  foldr (λ line rest, line +:+ newline +:+ rest) EmptyString l.

Section Files.
Context {keys : IrohKeys} {NodeExtraConfig : Type} `{!ConfigFormats keys NodeExtraConfig}.

Definition parse (toml : string) : result (Config NodeExtraConfig) AnyhowError :=
  match toml_from_str toml with
  | None => Err anyhow_msg
  | Some raw => try_from raw
  end.

Definition load (fs : Fs) (path : Path) : result (Config NodeExtraConfig) AnyhowError :=
  let? contents := read_to_string fs path in
  let? config := parse contents in
  Ok match parent path with
     | Some config_dir =>
         {| subnet := subnet config;
            private_key_path := join config_dir (private_key_path config);
            peers := peers config; tun := tun config; discovery := discovery config;
            dns := dns config |}
     | None => config
     end.

(** ** [generate] *)
Definition DEFAULT_KEY_FILE_NAME : string := "zeroconf-p2p-vpn_private.key".

Definition default_config_toml : string := unlines [
  "# zeroconf-p2p-vpn configuration, created by `zeroconf-p2p-vpn generate`.";
  "# Fill in the [peers] table below, then run `zeroconf-p2p-vpn <this-file>`.";
  "# See example-config.toml for the optional [host] subnet, [tun] and [discovery] settings.";
  EmptyString;
  "[host]";
  "# This host's Ed25519 private key (raw 32-byte format). A relative path is";
  "# resolved next to this config file; `generate` created the key file for you.";
  "private_key_path = " +:+ quoted DEFAULT_KEY_FILE_NAME;
  EmptyString;
  "[peers]";
  "# z-base-32-encoded Ed25519 public keys of allowed peers, each keyed by a name of";
  "# your choosing. A peer's key is the " +:+ quoted "public key" +:+ " line printed by";
  "# `zeroconf-p2p-vpn generate` or `zeroconf-p2p-vpn show` on that peer's machine.";
  "# alice = " +:+ quoted "ri5s1riaxztowkfasg645kdngnugembhsjwke5qfrktno9qjn8ty"
]%string.

Definition ensure_config (fs : Fs) (config_path : Path) : result Path AnyhowError * Fs :=
  if exists_ fs config_path then
    (let? config := load fs config_path in Ok (private_key_path config), fs)
  else
    let '(r, fs) := write fs config_path default_config_toml in
    let key := mkPath false [DEFAULT_KEY_FILE_NAME] in
    (let? _ := r in
     Ok match parent config_path with
        | Some dir => if negb (is_empty_path dir) then join dir key else key
        | None => key
        end, fs).

(** [fresh]: the key [SecretKey::generate] draws. *)
Definition ensure_key (fs : Fs) (key_path : Path) (fresh : SecretKey) :
    result SecretKey AnyhowError * Fs :=
  if exists_ fs key_path then (load_key_from_disk fs key_path, fs)
  else
    let '(r, fs) := save_key_to_disk fs key_path fresh in
    match r with
    | Err e => (Err e, fs)
    | Ok _ =>
        let '(r, fs) := set_mode fs key_path 384 (* 0o600 *) in
        (let? _ := r in Ok fresh, fs)
    end.

Definition generate (fs : Fs) (config_path : Path) (fresh : SecretKey) :
    result SecretKey AnyhowError * Fs :=
  let '(r, fs) := ensure_config fs config_path in
  match r with
  | Err e => (Err e, fs)
  | Ok key_path => ensure_key fs key_path fresh
  end.
End Files.

(** What the code relies on of the formats: a key is saved into its file and
    touches no other, whatever mode the file then has; a file with that text gives
    the key back; and the template, which has no line for a peer, is the document
    it looks like. *)
Class ConfigFormatsLaws (keys : IrohKeys) (NodeExtraConfig : Type)
    (formats : ConfigFormats keys NodeExtraConfig) : Prop := {
  save_key_ok fs p k : fails fs p = None → ∃ f,
    save_key_to_disk fs p k =
      (Ok tt, {| files := <[p := f]> (files fs); fails := fails fs; no_chmod := no_chmod fs |});
  load_saved_key fs p k fs' f fs2 m :
    save_key_to_disk fs p k = (Ok tt, fs') → files fs' !! p = Some f →
    files fs2 !! p = Some {| contents := contents f; mode := m |} → fails fs2 p = None →
    load_key_from_disk fs2 p = Ok k;
  template_document : toml_document default_config_toml =
    Some {["host" := Table {["private_key_path" := Str DEFAULT_KEY_FILE_NAME]};
           "peers" := Table ∅]};
}.

(** ** Properties *)
Section ConfigFacts.
Context `{IrohKeys} {NodeExtraConfig : Type}.

Lemma decode_peers_spec (l : list (string * string)) :
  NoDup l.*1 →
  match decode_peers l with
  | Ok m => ∀ name, m !! name = (list_to_map l : gmap string string) !! name ≫= from_z32
                    ∧ (is_Some (m !! name) ↔ name ∈ l.*1)
  | Err _ => ∃ name key, (name, key) ∈ l ∧ from_z32 key = None
  end.
Proof.
  induction l as [|[name key] l IH]; intros Hd; simpl.
  { intros n. rewrite !lookup_empty. split; [done|]. split; [by intros []|set_solver]. }
  apply NoDup_cons in Hd as [Hn Hd]. specialize (IH Hd).
  destruct (from_z32 key) as [k|] eqn:Ek; [|exists name, key; set_solver].
  destruct (decode_peers l) as [m|e].
  - intros n. destruct (IH n) as [IH1 IH2]. destruct (decide (name = n)) as [<-|Hne].
    + rewrite !lookup_insert_eq. simpl. split; [done|]. split; [set_solver|by eexists].
    + rewrite !lookup_insert_ne by done. split; [done|]. rewrite IH2. set_solver.
  - destruct IH as (n & k' & Hin & Hk). exists n, k'. set_solver.
Qed.

(** A configuration is accepted exactly when its subnet is at most
    [MAX_SUBNET] and every peer's key decodes; it then has that subnet, which
    lies in the default allowed network, and exactly the peers of the file with
    their decoded keys. *)
Theorem try_from_spec (raw : RawConfig NodeExtraConfig) :
  match try_from raw with
  | Ok c =>
      raw_subnet (raw_host raw) ≤ MAX_SUBNET ∧ subnet c = raw_subnet (raw_host raw) ∧
      dns c = (λ d, {| cfg_suffix := raw_suffix d |}) <$> raw_dns raw ∧
      (∀ name, peers c !! name = raw_peers raw !! name ≫= from_z32) ∧
      dom (peers c) = dom (raw_peers raw)
  | Err _ =>
      MAX_SUBNET < raw_subnet (raw_host raw) ∨
      ∃ name key, raw_peers raw !! name = Some key ∧ from_z32 key = None
  end.
Proof.
  unfold try_from. destruct (Z.ltb_spec MAX_SUBNET (raw_subnet (raw_host raw))); [by left|].
  pose proof (decode_peers_spec (map_to_list (raw_peers raw)) (NoDup_fst_map_to_list _)) as Hp.
  destruct (decode_peers _) as [m|e].
  - rewrite list_to_map_to_list in Hp. simpl. split_and!; [done..| |].
    + intros name. apply Hp.
    + apply set_eq. intros name. rewrite !elem_of_dom. destruct (Hp name) as [_ ->].
      rewrite list_elem_of_fmap. split.
      * intros ([n k] & -> & Hin). apply elem_of_map_to_list in Hin. by eexists.
      * intros [k Hk]. exists (name, k). by rewrite elem_of_map_to_list.
  - right. destruct Hp as (name & key & Hin & Hk). exists name, key.
    by rewrite elem_of_map_to_list in Hin.
Qed.
End ConfigFacts.

(** ** What the deserializer accepts *)
Section DeserializeFacts.
Context {keys : IrohKeys} {NodeExtraConfig : Type} `{!ConfigFormats keys NodeExtraConfig}.

Lemma deserialize_path_spec v p :
  deserialize v = Some p ↔ ∃ s, v = Str s ∧ p = path_of_string s.
Proof.
  unfold deserialize at 1, deserialize_path. rewrite fmap_Some.
  by setoid_rewrite deserialize_string_spec.
Qed.

Lemma deserialize_host_spec v host :
  deserialize v = Some host ↔
  ∃ h, struct_fields ["subnet"; "private_key_path"] v = Some h ∧
    match h !! "subnet" with
    | None => raw_subnet host = 0
    | Some v => v = Integer (raw_subnet host) ∧ unsigned 16 (raw_subnet host)
    end ∧
    ∃ p, h !! "private_key_path" = Some (Str p) ∧ raw_private_key_path host = path_of_string p.
Proof.
  unfold deserialize, deserialize_host, field, field_default. split.
  - intros (h & Eh & (n & En & (p & Ep & [= <-])%bind_Some)%bind_Some)%bind_Some.
    exists h. split; [done|]. cbn [raw_subnet raw_private_key_path]. split.
    + destruct (h !! "subnet"); [by apply deserialize_u16_spec|]. by injection En.
    + apply bind_Some in Ep as (v' & -> & (q & -> & ->)%deserialize_path_spec). by exists q.
  - intros (h & -> & Hn & p & Hp & Ep). simpl. rewrite Hp. destruct host as [n path]. simpl in *.
    destruct (h !! "subnet").
    + apply deserialize_u16_spec in Hn. rewrite Hn. simpl. by rewrite Ep.
    + simpl. by rewrite Hn, Ep.
Qed.

Lemma deserialize_tun_spec v :
  is_Some (deserialize (A := RawTun) v) ↔
  record ["name"; "description"] (λ t, optional t "name" text ∧ optional t "description" text) v.
Proof.
  assert (pointwise_relation _ iff text (λ v, is_Some (deserialize (A := option string) v))) as Ho.
  { intros w. unfold deserialize, deserialize_option. by rewrite fmap_is_Some, deserialize_text. }
  unfold record, deserialize, deserialize_tun. split.
  - intros [r (t & Et & (n & En & (d & Ed & _)%bind_Some)%bind_Some)%bind_Some].
    exists t. split; [done|]. rewrite Ho.
    split; apply field_default_spec with (d := None); by eexists.
  - intros (t & -> & Hn & Hd). rewrite Ho in Hn, Hd.
    apply (field_default_spec deserialize None) in Hn as [n Hn].
    apply (field_default_spec deserialize None) in Hd as [d Hd]. simpl. rewrite Hn. simpl.
    rewrite Hd. by eexists.
Qed.

Lemma deserialize_dns_spec v dns :
  deserialize v = Some dns ↔
  ∃ d, struct_fields ["suffix"] v = Some d ∧ d !! "suffix" = Some (Str (raw_suffix dns)).
Proof.
  unfold deserialize, deserialize_dns, field. split.
  - intros (d & Ed & (s & (w & Ew & Hw)%bind_Some & [= <-])%bind_Some)%bind_Some.
    exists d. split; [done|]. apply deserialize_string_spec in Hw. by rewrite Ew, Hw.
  - intros (d & -> & Es). simpl. rewrite Es. simpl. by destruct dns.
Qed.

Lemma deserialize_peers_spec t (ps : gmap string string) :
  field_default deserialize ∅ t "peers" = Some ps →
  optional t "peers" (λ v, ∃ m, v = Table m ∧ map_Forall (λ _, text) m) ∧
  ∀ name key, ps !! name = Some key ↔
    ∃ m, t !! "peers" = Some (Table m) ∧ m !! name = Some (Str key).
Proof.
  unfold field_default, optional. destruct (t !! "peers") as [v|].
  - intros E. assert (is_Some (deserialize (A := gmap string string) v)) as Hv by (by eexists).
    apply deserialize_map_spec in Hv as (m & -> & Hm). unfold deserialize, deserialize_map in E.
    rewrite bool_decide_eq_true_2 in E by done. injection E as <-. split.
    + intros ? [= <-]. exists m. split; [done|]. eapply map_Forall_impl; [exact Hm|].
      intros k w. by rewrite deserialize_text.
    + intros name key. rewrite lookup_omap_Some. setoid_rewrite deserialize_string_spec. split.
      * intros (w & -> & Hw). by exists m.
      * intros (m' & [= <-] & Hw). by exists (Str key).
  - intros [= <-]. split; [done|]. intros name key. rewrite lookup_empty. naive_solver.
Qed.

(** A document the node takes as its configuration. *)
Definition well_formed_config (t : table) : Prop :=
  required t "host" (record ["subnet"; "private_key_path"] (λ h,
    optional h "subnet" (λ v, ∃ n, v = Integer n ∧ 0 ≤ n ≤ MAX_SUBNET) ∧
    required h "private_key_path" text)) ∧
  optional t "peers" (λ v, ∃ m, v = Table m ∧
    map_Forall (λ _ v, ∃ key, v = Str key ∧ is_Some (from_z32 key)) m) ∧
  optional t "tun" (record ["name"; "description"] (λ t,
    optional t "name" text ∧ optional t "description" text)) ∧
  optional t "discovery" (λ v, is_Some (deserialize (A := NodeExtraConfig) v)) ∧
  optional t "dns" (record ["suffix"] (λ d, required d "suffix" text)).

(** The fields of a raw configuration, by those of its document. *)
Lemma toml_from_str_fields s raw :
  toml_from_str s = Some raw ↔
  ∃ t, toml_document s = Some t ∧
    field deserialize t "host" = Some (raw_host raw) ∧
    field_default deserialize ∅ t "peers" = Some (raw_peers raw) ∧
    field_default deserialize RawTun_default t "tun" = Some (raw_tun raw) ∧
    field_default deserialize NodeExtraConfig_default t "discovery" = Some (raw_discovery raw) ∧
    field_default deserialize None t "dns" = Some (raw_dns raw).
Proof.
  unfold toml_from_str. split.
  - intros (t & Et & (h & Eh & (p & Ep & (tn & Etn & (di & Edi & (d & Ed & [= <-])%bind_Some)%bind_Some
      )%bind_Some)%bind_Some)%bind_Some)%bind_Some. by exists t.
  - intros (t & -> & Eh & Ep & Et & Edi & Ed). destruct raw. simpl in *.
    rewrite Eh. simpl. rewrite Ep. simpl. rewrite Et. simpl. rewrite Edi. simpl. by rewrite Ed.
Qed.

Lemma toml_subnet_u16 s raw : toml_from_str s = Some raw → unsigned 16 (raw_subnet (raw_host raw)).
Proof.
  intros (t & _ & (v & _ & (h & _ & Hn & _)%deserialize_host_spec)%bind_Some & _)%toml_from_str_fields.
  destruct (h !! "subnet"); [apply Hn|]. by rewrite Hn.
Qed.

Lemma record_host v :
  record ["subnet"; "private_key_path"] (λ h,
    optional h "subnet" (λ v, ∃ n, v = Integer n ∧ 0 ≤ n ≤ MAX_SUBNET) ∧
    required h "private_key_path" text) v ↔
  ∃ host, deserialize v = Some host ∧ raw_subnet host ≤ MAX_SUBNET.
Proof.
  setoid_rewrite deserialize_host_spec. unfold record, optional, required, text. split.
  - intros (h & Eh & Hn & w & Ew & p & ->).
    exists {| raw_subnet := match h !! "subnet" with Some (Integer n) => n | _ => 0 end;
              raw_private_key_path := path_of_string p |}. cbn [raw_subnet raw_private_key_path].
    destruct (h !! "subnet") as [v'|] eqn:Es.
    + destruct (Hn v' eq_refl) as (n & -> & Hr). split; [|lia].
      exists h. rewrite Es. change MAX_SUBNET with 32767 in Hr.
      split_and!; [done..|unfold unsigned; lia|by exists p].
    + split; [|done]. exists h. rewrite Es. by eauto 10.
  - intros (host & (h & Eh & Hn & p & Ep & _) & Hm). exists h. split_and!; [done| |by eauto].
    intros v' Ev. rewrite Ev in Hn. destruct Hn as [-> [Hr _]]. by exists (raw_subnet host).
Qed.

Lemma record_dns v :
  record ["suffix"] (λ d, required d "suffix" text) v ↔ is_Some (deserialize (A := RawDns) v).
Proof.
  unfold is_Some. setoid_rewrite deserialize_dns_spec. unfold record, required, text. split.
  - intros (d & Ed & w & Ew & s & ->). by exists {| raw_suffix := s |}, d.
  - intros (x & d & Ed & Es). eauto 10.
Qed.

Lemma option_field_spec `{Deserialize A} t k :
  is_Some (field_default (A := option A) deserialize None t k) ↔
  optional t k (λ v, is_Some (deserialize (A := A) v)).
Proof.
  rewrite field_default_spec. unfold optional, deserialize at 1, deserialize_option.
  by setoid_rewrite fmap_is_Some.
Qed.

Lemma accepted_well_formed s t raw c :
  toml_document s = Some t → toml_from_str s = Some raw → try_from raw = Ok c →
  well_formed_config t.
Proof.
  intros Et (t' & Et' & Hh & Hp & Ht & Hdi & Hd)%toml_from_str_fields Ec. simplify_eq.
  pose proof (try_from_spec raw) as Hs. rewrite Ec in Hs. destruct Hs as (Hs & _ & _ & Hpe & Hdom).
  apply bind_Some in Hh as (v & Ev & Hv). split_and!.
  - exists v. split; [done|]. apply record_host. by exists (raw_host raw).
  - apply deserialize_peers_spec in Hp as [Hopt Hl]. intros w Ew.
    destruct (Hopt w Ew) as (m & -> & Hm). exists m. split; [done|]. intros name x Hx.
    destruct (Hm name x Hx) as [key ->]. exists key. split; [done|].
    assert (raw_peers raw !! name = Some key) as Hk by (apply Hl; by exists m).
    assert (name ∈ dom (peers c)) as [k Hn]%elem_of_dom by (rewrite Hdom; by eapply elem_of_dom_2).
    rewrite Hpe, Hk in Hn. by exists k.
  - intros w Ew. apply deserialize_tun_spec. unfold field_default in Ht. rewrite Ew in Ht. by eexists.
  - eapply field_default_spec. by eexists.
  - intros w Ew. apply record_dns.
    assert (is_Some (field_default (A := option RawDns) deserialize None t "dns")) as Ho by (by eexists).
    by apply (proj1 (option_field_spec t "dns") Ho).
Qed.

Lemma well_formed_accepted s t :
  toml_document s = Some t → well_formed_config t →
  ∃ raw c, toml_from_str s = Some raw ∧ try_from raw = Ok c.
Proof.
  intros Et ((v & Ev & (host & Ehost & Hm)%record_host) & Hp & Ht & Hdi & Hd).
  assert (is_Some (field_default (A := gmap string string) deserialize ∅ t "peers")) as [ps Eps].
  { apply field_default_spec. intros w Ew. apply deserialize_map_spec.
    destruct (Hp w Ew) as (m & -> & Hall). exists m. split; [done|]. intros name x Hx.
    destruct (Hall name x Hx) as (key & -> & _). by eexists. }
  assert (is_Some (field_default deserialize RawTun_default t "tun")) as [tn Etn].
  { apply field_default_spec. intros w Ew. by apply deserialize_tun_spec, Ht. }
  destruct (proj2 (field_default_spec deserialize NodeExtraConfig_default t "discovery") Hdi)
    as [di Edi].
  assert (is_Some (field_default (A := option RawDns) deserialize None t "dns")) as [d Ed].
  { apply option_field_spec. intros w Ew. by apply record_dns, Hd. }
  set (raw := {| raw_host := host; raw_peers := ps; raw_tun := tn; raw_discovery := di;
                 raw_dns := d |}).
  assert (toml_from_str s = Some raw) as Er.
  { apply toml_from_str_fields. exists t. unfold field at 1. by rewrite Ev. }
  exists raw. pose proof (try_from_spec raw) as Hs. destruct (try_from raw) as [c|e]; [by exists c|].
  exfalso. destruct Hs as [Hlt|(name & key & Hk & Hz)]; [simpl in Hlt; lia|].
  apply deserialize_peers_spec in Eps as [_ Hl]. apply Hl in Hk as (m & Em & Hk).
  destruct (Hp _ Em) as (m' & [= <-] & Hall). destruct (Hall name _ Hk) as (key' & [= <-] & [k Hz']).
  by rewrite Hz in Hz'.
Qed.

(** C17: a text is a configuration exactly when the document it parses to has the
    shape of one: a host with a key file and a subnet in range if any, peers
    with keys that decode, and, where they are present, a well-typed device,
    discovery and DNS section, the last with a suffix. Other sections and fields
    are ignored. It then has the peers of the document and no others, the subnet
    of the document or zero, and DNS exactly when there is a section for it. *)
Theorem parse_accepts (s : string) :
  ((∃ c, parse s = Ok c) ↔ ∃ t, toml_document s = Some t ∧ well_formed_config t) ∧
  ∀ t c, toml_document s = Some t → parse s = Ok c →
    (∀ name k, peers c !! name = Some k ↔
       ∃ m key, t !! "peers" = Some (Table m) ∧ m !! name = Some (Str key) ∧
         from_z32 key = Some k) ∧
    (∃ h p, t !! "host" ≫= struct_fields ["subnet"; "private_key_path"] = Some h ∧
       h !! "private_key_path" = Some (Str p) ∧ private_key_path c = path_of_string p ∧
       match h !! "subnet" with Some v => v = Integer (subnet c) | None => subnet c = 0 end) ∧
    (dns c = None ↔ t !! "dns" = None).
Proof.
  unfold parse. split.
  - split.
    + intros [c E]. destruct (toml_from_str s) as [raw|] eqn:Er; [|done].
      assert (∃ t, toml_document s = Some t) as [t Et]
        by (apply toml_from_str_fields in Er; naive_solver).
      exists t. split; [done|]. by eapply accepted_well_formed.
    + intros (t & Et & Hw). destruct (well_formed_accepted s t Et Hw) as (raw & c & -> & Ec). eauto.
  - intros t c Et E. destruct (toml_from_str s) as [raw|] eqn:Er; [|done].
    apply toml_from_str_fields in Er as (t' & Et' & Hh & Hp & _ & _ & Hd). simplify_eq.
    pose proof (try_from_spec raw) as Hs. rewrite E in Hs.
    destruct Hs as (_ & Hsub & Hdns & Hpe & _). apply bind_Some in Hh as (v & Ev & Hv).
    apply deserialize_host_spec in Hv as (h & Eh & Hn & p & Ep & Hpath). split_and!.
    + intros name k. rewrite Hpe, bind_Some. apply deserialize_peers_spec in Hp as [_ Hl].
      setoid_rewrite Hl. naive_solver.
    + exists h, p. rewrite Ev, Hsub. split_and!; [done..| |].
      * unfold try_from in E. destruct (_ <? _); [done|]. destruct (decode_peers _); by simplify_eq/=.
      * by destruct (h !! "subnet") as [w|]; [destruct Hn|].
    + rewrite Hdns, fmap_None. unfold field_default in Hd. destruct (t !! "dns") as [w|]; [|naive_solver].
      unfold deserialize, deserialize_option in Hd. apply fmap_Some in Hd as (d & _ & ->). done.
Qed.
End DeserializeFacts.

Section GenerateFacts.
Context {keys : IrohKeys} {NodeExtraConfig : Type}.
Context `{!ConfigFormats keys NodeExtraConfig, !ConfigFormatsLaws keys NodeExtraConfig _}.

(** Where the template puts the key of a configuration file. *)
Definition default_key_path (config_path : Path) : Path :=
  match parent config_path with
  | Some dir => join dir (mkPath false [DEFAULT_KEY_FILE_NAME])
  | None => mkPath false [DEFAULT_KEY_FILE_NAME]
  end.

Lemma read_written fs p s m :
  files fs !! p = Some {| contents := s; mode := m |} → fails fs p = None →
  read_to_string fs p = Ok s.
Proof. intros E Hf. unfold read_to_string. by rewrite Hf, E. Qed.

Lemma template_parses :
  toml_from_str default_config_toml =
    Some {| raw_host := {| raw_subnet := 0;
                           raw_private_key_path := mkPath false [DEFAULT_KEY_FILE_NAME] |};
            raw_peers := ∅; raw_tun := RawTun_default; raw_discovery := NodeExtraConfig_default;
            raw_dns := None |}.
Proof.
  apply toml_from_str_fields. eexists. split; [apply template_document|]. by split_and!.
Qed.

Lemma load_template fs config_path m :
  files fs !! config_path = Some {| contents := default_config_toml; mode := m |} →
  fails fs config_path = None →
  ∃ c, load fs config_path = Ok c ∧ private_key_path c = default_key_path config_path ∧
    peers c = ∅ ∧ subnet c = 0.
Proof.
  intros E Hf. unfold load, parse, default_key_path. rewrite (read_written _ _ _ _ E Hf).
  rewrite template_parses. unfold try_from. cbn [raw_host raw_peers]. rewrite map_to_list_empty.
  destruct (parent config_path); eexists; split; done.
Qed.

Lemma ensure_config_fresh fs config_path :
  files fs !! config_path = None → fails fs config_path = None →
  ensure_config fs config_path =
    (Ok (default_key_path config_path),
     {| files := <[config_path := {| contents := default_config_toml; mode := default_mode |}]>
                   (files fs); fails := fails fs; no_chmod := no_chmod fs |}).
Proof.
  intros E Hf. unfold ensure_config, exists_, write, default_key_path.
  rewrite E, Hf, bool_decide_eq_false_2 by (by intros []).
  destruct (parent config_path) as [dir|] eqn:Ep; [|done].
  destruct (is_empty_path dir) eqn:Ee; [|done]. simpl.
  unfold is_empty_path in Ee. bool_to_prop. unfold join. simpl.
  by rewrite H, H0.
Qed.

(** A loaded configuration has a legal subnet. *)
Lemma load_subnet fs p c : load fs p = Ok c → 0 ≤ subnet c ≤ MAX_SUBNET.
Proof.
  unfold load, parse. intros E. destruct (read_to_string fs p) as [s|]; [|done].
  destruct (toml_from_str s) as [raw|] eqn:Er; [|done]. apply toml_subnet_u16 in Er as [Hr _].
  unfold try_from in E. destruct (Z.ltb_spec MAX_SUBNET (raw_subnet (raw_host raw))); [done|].
  destruct (decode_peers _); [|done]. destruct (parent p); by simplify_eq/=.
Qed.

Lemma exists_present fs p f : files fs !! p = Some f → exists_ fs p = true.
Proof. intros E. apply bool_decide_eq_true. rewrite E. by eexists. Qed.

(** A key file that is not there is created, and then restricted. *)
Lemma ensure_key_fresh fs key_path k f :
  files fs !! key_path = None →
  save_key_to_disk fs key_path k =
    (Ok tt, {| files := <[key_path := f]> (files fs); fails := fails fs; no_chmod := no_chmod fs |}) →
  ensure_key fs key_path k =
    match no_chmod fs key_path with
    | Some e => (Err (anyhow_io e), {| files := <[key_path := f]> (files fs);
                                       fails := fails fs; no_chmod := no_chmod fs |})
    | None => (Ok k, {| files := <[key_path := {| contents := contents f; mode := 384 |}]>
                                   (<[key_path := f]> (files fs));
                        fails := fails fs; no_chmod := no_chmod fs |})
    end.
Proof.
  intros Hk Es. unfold ensure_key, exists_. rewrite Hk, bool_decide_eq_false_2 by (by intros []).
  rewrite Es. unfold set_mode. cbn [files fails no_chmod]. rewrite lookup_insert_eq.
  by destruct (no_chmod fs key_path).
Qed.

(** C39: on a fresh directory [generate] writes the template and the fresh key,
    readable by its owner only, next to it; the daemon's [load] then finds that
    very key, and running [generate] again returns it and changes nothing. *)
Theorem generate_fresh (fs : Fs) (config_path : Path) (k k' : SecretKey) :
  let key_path := default_key_path config_path in
  config_path ≠ key_path →
  files fs !! config_path = None → files fs !! key_path = None →
  fails fs config_path = None → fails fs key_path = None → no_chmod fs key_path = None →
  ∃ fs1 c, generate fs config_path k = (Ok k, fs1) ∧
    load fs1 config_path = Ok c ∧ load_key_from_disk fs1 (private_key_path c) = Ok k ∧
    (mode <$> files fs1 !! key_path) = Some 384 ∧
    generate fs1 config_path k' = (Ok k, fs1).
Proof.
  intros key_path Hne Hc Hk Hfc Hfk Hm. unfold generate at 1.
  rewrite ensure_config_fresh by done. fold key_path. set (fs0 := Build_Fs _ _ _).
  destruct (save_key_ok fs0 key_path k Hfk) as [f Es]. rewrite (ensure_key_fresh fs0 key_path k f).
  2: { simpl. by rewrite lookup_insert_ne. }
  2: { exact Es. }
  simpl no_chmod. rewrite Hm. cbn [files fails no_chmod fs0]. set (fs1 := Build_Fs _ _ _).
  assert (files fs1 !! config_path = Some {| contents := default_config_toml; mode := default_mode |})
    as Ec by (simpl; by rewrite !lookup_insert_ne, lookup_insert_eq by done).
  assert (files fs1 !! key_path = Some {| contents := contents f; mode := 384 |}) as Ek
    by (simpl; by rewrite lookup_insert_eq).
  destruct (load_template fs1 config_path _ Ec Hfc) as (c & El & Ep & _).
  assert (load_key_from_disk fs1 key_path = Ok k) as Elk
    by (eapply load_saved_key; [exact Es|apply lookup_insert_eq|exact Ek|done]).
  exists fs1, c. rewrite Ep. fold key_path. split_and!; [done..|by rewrite Ek|].
  unfold generate, ensure_config. rewrite (exists_present _ _ _ Ec), El, Ep. fold key_path.
  unfold ensure_key. by rewrite (exists_present _ _ _ Ek), Elk.
Qed.

(** When the mode of a new key file cannot be restricted, [generate] fails but
    leaves the key file as it was created, and the next run accepts it like that. *)
Theorem loose_key_is_kept (fs : Fs) (config_path : Path) (k k' : SecretKey) (e : IoError) :
  let key_path := default_key_path config_path in
  config_path ≠ key_path →
  files fs !! config_path = None → files fs !! key_path = None →
  fails fs config_path = None → fails fs key_path = None → no_chmod fs key_path = Some e →
  ∃ fs1, generate fs config_path k = (Err (anyhow_io e), fs1) ∧
    generate fs1 config_path k' = (Ok k, fs1) ∧
    files fs1 !! key_path =
      files (save_key_to_disk (ensure_config fs config_path).2 key_path k).2 !! key_path ∧
    is_Some (files fs1 !! key_path).
Proof.
  intros key_path Hne Hc Hk Hfc Hfk Hm. unfold generate at 1.
  rewrite ensure_config_fresh by done. fold key_path. set (fs0 := Build_Fs _ _ _).
  destruct (save_key_ok fs0 key_path k Hfk) as [f Es]. rewrite (ensure_key_fresh fs0 key_path k f).
  2: { simpl. by rewrite lookup_insert_ne. }
  2: { exact Es. }
  simpl no_chmod. rewrite Hm. cbn [snd]. rewrite Es. cbn [snd].
  set (fs1 := Build_Fs (<[key_path := f]> _) _ _).
  assert (files fs1 !! config_path = Some {| contents := default_config_toml; mode := default_mode |})
    as Ec by (simpl; by rewrite lookup_insert_ne, lookup_insert_eq by done).
  assert (files fs1 !! key_path = Some f) as Ek by (simpl; by rewrite lookup_insert_eq).
  destruct (load_template fs1 config_path _ Ec Hfc) as (c & El & Ep & _).
  assert (load_key_from_disk fs1 key_path = Ok k) as Elk
    by (eapply (load_saved_key _ _ _ _ f _ (mode f)); [exact Es|done|by rewrite Ek; destruct f|done]).
  exists fs1. split; [done|]. split; [|by rewrite Ek].
  unfold generate, ensure_config. rewrite (exists_present _ _ _ Ec), El, Ep. fold key_path.
  unfold ensure_key. by rewrite (exists_present _ _ _ Ek), Elk.
Qed.
End GenerateFacts.

(** ** Witnesses: the reader of the repository's files, and keys stored as text *)
Import KeysRef.

Module FormatsRef.
#[export] Instance struct_seq : StructSeq := λ names v,
  match v with Array l => Some (list_to_map (zip names l)) | _ => None end.

(** A key file holds the text of the key. *)
Definition save (fs : Fs) (p : Path) (k : string) : result unit AnyhowError * Fs := write fs p k.
Definition load_text (fs : Fs) (p : Path) : result string AnyhowError := read_to_string fs p.

Lemma save_ok fs p k :
  fails fs p = None → ∃ f, save fs p k =
    (Ok tt, {| files := <[p := f]> (files fs); fails := fails fs; no_chmod := no_chmod fs |}).
Proof. intros Hf. unfold save, write. rewrite Hf. by eexists. Qed.

Lemma load_save fs p k fs' f fs2 m :
  save fs p k = (Ok tt, fs') → files fs' !! p = Some f →
  files fs2 !! p = Some {| contents := contents f; mode := m |} → fails fs2 p = None →
  load_text fs2 p = Ok k.
Proof.
  unfold save, write, load_text, read_to_string. destruct (fails fs p); [done|]. intros [= <-]. simpl.
  rewrite lookup_insert_eq. intros [= <-] -> ->. done.
Qed.

(** Any discovery section will do. *)
#[local] Instance deserialize_unit : Deserialize unit := λ _, Some tt.

#[export] Instance formats : ConfigFormats keys unit := {
  toml_document := TomlRef.read;
  toml_struct_of_other := struct_seq;
  NodeExtraConfig_deserialize := deserialize_unit;
  NodeExtraConfig_default := tt;
  save_key_to_disk := save;
  load_key_from_disk := load_text;
}.

#[export] Instance formats_laws : ConfigFormatsLaws keys unit formats.
Proof. split; [apply save_ok|apply load_save|by vm_compute]. Qed.

Definition empty_fs (chmod : option IoError) : Fs :=
  {| files := ∅; fails _ := None; no_chmod _ := chmod |}.
Definition config_path : Path := mkPath true ["etc"; "vpn"; "config.toml"]%string.
End FormatsRef.
Import FormatsRef.

Module Samples.
(** A file with everything the example file of the repository shows. *)
Definition full_toml : string := unlines [
  "[host]"; "subnet = 0x7ffF # in range"; "private_key_path = " +:+ quoted "keys/./host.raw";
  "unknown = true"; ""; "[peers]"; "alice = " +:+ quoted "a"; "bob = " +:+ quoted "b";
  "[tun]"; "name = " +:+ quoted "vpn0"; "[discovery]"; "use_dht = false";
  "[dns]"; "suffix = " +:+ quoted "p2p"]%string.

(** The lines of [example-config.toml] that are not comments. *)
Definition example_toml : string := unlines [
  "[host]"; "subnet = 0x0000"; "private_key_path = " +:+ quoted "/foo/bar"; "[peers]";
  "alice = " +:+ quoted "ri5s1riaxztowkfasg645kdngnugembhsjwke5qfrktno9qjn8ty";
  "bob = " +:+ quoted "..."; "[tun]"; "[dns]"; "[discovery]"]%string.

Definition parsed (s : string) : option (Z * Path * list (string * @PublicKey keys) * option string) :=
  match parse s with
  | Ok c => Some (subnet c, private_key_path c, map_to_list (peers c), cfg_suffix <$> dns c)
  | Err _ => None
  end.

Example full_parsed :
  parsed full_toml = Some (0x7fff, mkPath false ["keys"; "host.raw"]%string,
    [("alice", pk "a"); ("bob", pk "b")]%string, Some "p2p"%string).
Proof. by vm_compute. Qed.

(** The example file is refused as it is: it has a section for DNS with its
    suffix commented out. *)
Example example_refused : parsed example_toml = None.
Proof. by vm_compute. Qed.
End Samples.
Import Samples.

Lemma parse_accepts_witness :
  ∃ t c, toml_document full_toml = Some t ∧ parse full_toml = Ok c ∧
    (dns c = None ↔ t !! "dns"%string = None).
Proof.
  assert (is_Some (parsed full_toml)) as Hp by (by rewrite full_parsed; eexists).
  unfold parsed in Hp.
  destruct (parse full_toml) as [c|e] eqn:Ec; [|by destruct Hp].
  assert ((λ _, tt) <$> toml_document full_toml = Some tt) as Hd by (by vm_compute).
  apply fmap_Some in Hd as (t & Et & _).
  destruct (proj2 (parse_accepts full_toml) t c Et Ec) as (_ & _ & Hd).
  exact (ex_intro _ t (ex_intro _ c (conj Et (conj eq_refl Hd)))).
Defined.

Lemma generate_fresh_witness :
  ∃ fs1 c, generate (empty_fs None) config_path (sk "alice") = (Ok (sk "alice"), fs1) ∧
    load fs1 config_path = Ok c ∧
    load_key_from_disk fs1 (private_key_path c) = Ok (sk "alice") ∧
    (mode <$> files fs1 !! default_key_path config_path) = Some 384 ∧
    generate fs1 config_path (sk "bob") = (Ok (sk "alice"), fs1).
Proof. apply (generate_fresh (empty_fs None) config_path (sk "alice") (sk "bob")); done. Defined.

Lemma loose_key_is_kept_witness :
  ∃ fs1, generate (empty_fs (Some not_found)) config_path (sk "alice") =
      (Err (anyhow_io not_found), fs1) ∧
    generate fs1 config_path (sk "bob") = (Ok (sk "alice"), fs1) ∧
    files fs1 !! default_key_path config_path =
      files (save_key_to_disk (ensure_config (empty_fs (Some not_found)) config_path).2
        (default_key_path config_path) (sk "alice")).2 !! default_key_path config_path ∧
    is_Some (files fs1 !! default_key_path config_path).
Proof.
  apply (loose_key_is_kept (empty_fs (Some not_found)) config_path (sk "alice") (sk "bob")); done.
Defined.
