(* ===== verification/ConfigTests.v ===== *)
(** * The unit tests of the configuration and of [generate]

    The tests of [src/src/config.rs] and [src/src/generate.rs], translated to
    programs over the model: the texts as they are in the tests, read by
    [TomlRef], on a file system of their own. A test is [Some true] when all its
    assertions hold. The tests that read an error message, and the one that
    needs the public keys of key files of the repository, are left out. *)

From S2P Require Import Prelude ErrorCode Net IpText Keys Addr Toml Config.
From stdpp Require Import prelude gmap strings.

Local Open Scope Z_scope.

Local Notation "a == b" := (bool_decide (a = b)) (at level 70).

Import KeysRef.

(** ** Discovery settings, as the example file describes them *)
Module DiscoveryRef.
Inductive N0Discovery := Full | DisableRelay | NoN0.

Record NodeExtraConfig := { n0_discovery : N0Discovery; use_mdns : bool; use_dht : bool }.

#[export] Instance N0Discovery_eq_dec : EqDecision N0Discovery.
Proof. solve_decision. Defined.
#[export] Instance NodeExtraConfig_eq_dec : EqDecision NodeExtraConfig.
Proof. solve_decision. Defined.

Definition default : NodeExtraConfig :=
  {| n0_discovery := Full; use_mdns := true; use_dht := true |}.

#[export] Instance deserialize_n0 : Deserialize N0Discovery := λ v,
  match v with
  | Str "Full" => Some Full
  | Str "DisableRelay" => Some DisableRelay
  | Str "NoN0" => Some NoN0
  | _ => None
  end%string.
#[export] Instance deserialize_bool : Deserialize bool := λ v,
  match v with Boolean b => Some b | _ => None end.
#[export] Instance deserialize_discovery : Deserialize NodeExtraConfig := λ v,
  t ← struct_fields (H := FormatsRef.struct_seq) ["n0_discovery"; "use_mdns"; "use_dht"] v;
  n0 ← field_default deserialize (n0_discovery default) t "n0_discovery";
  mdns ← field_default deserialize (use_mdns default) t "use_mdns";
  dht ← field_default deserialize (use_dht default) t "use_dht";
  Some {| n0_discovery := n0; use_mdns := mdns; use_dht := dht |}.

#[export] Instance formats : ConfigFormats keys NodeExtraConfig := {
  toml_document := TomlRef.read;
  toml_struct_of_other := FormatsRef.struct_seq;
  NodeExtraConfig_deserialize := deserialize_discovery;
  NodeExtraConfig_default := default;
  save_key_to_disk := FormatsRef.save;
  load_key_from_disk := FormatsRef.load_text;
}.

(** [SecretKey::to_bytes]. *)
Definition to_bytes (k : @SecretKey keys) : string := k.
End DiscoveryRef.
Import DiscoveryRef.

(** The text of a raw string literal, by its lines. *)
Definition raw (lines : list string) : string := intersperse newline lines.

(** [result.expect(..)], and whether [expect_err] would pass. *)
Definition expect {A E} (r : result A E) : option A :=
  match r with Ok a => Some a | Err _ => None end.
Definition is_err {A E} (r : result A E) : bool :=
  match r with Ok _ => false | Err _ => true end.

(** [std::fs::remove_file], and [remove_dir_all], which deletes the files of a
    directory, all the way down. Directories are not part of the file system. *)
Definition remove_file (fs : Fs) (p : Path) : option Fs :=
  if exists_ fs p
  then Some {| files := delete p (files fs); fails := fails fs; no_chmod := no_chmod fs |} else None.

Definition remove_dir_all (fs : Fs) (dir : Path) : Fs :=
  {| files := filter (λ '(p, _),
       ¬ (absolute p = absolute dir ∧ take (length (components dir)) (components p) = components dir))
       (files fs);
     fails := fails fs; no_chmod := no_chmod fs |}.

(** ** [config.rs] *)
Module config_tests.
Definition ALICE_KEY_Z32 : string := "ri5s1riaxztowkfasg645kdngnugembhsjwke5qfrktno9qjn8ty".

(** [generated]: what [SecretKey::generate] draws. *)
Definition sample_key_z32 (generated : @SecretKey keys) : string :=
  to_z32 (SecretKey_public generated).

Definition test_parses_minimal_config (generated : @SecretKey keys) : option bool :=
  let alice := sample_key_z32 generated in
  let toml := raw [
    "";
    "            [host]";
    "            private_key_path = " +:+ quoted "/foo/bar";
    "";
    "            [peers]";
    "            alice = " +:+ quoted alice;
    "            "]%string in
  config ← expect (parse toml);
  Some ((subnet config == 0)
    && (private_key_path config == path_of_string "/foo/bar")
    && (size (peers config) == 1%nat)
    && (peers config !! "alice"%string == from_z32 alice)
    && (tun_name (tun config) == None)
    && (tun_description (tun config) == DEFAULT_TUN_DESCRIPTION)
    && (discovery config == default)).

Definition test_parses_discovery_section : option bool :=
  let toml := raw [
    "";
    "            [host]";
    "            private_key_path = " +:+ quoted "/foo/bar";
    "";
    "            [discovery]";
    "            n0_discovery = " +:+ quoted "NoN0";
    "            use_mdns = true";
    "            use_dht = false";
    "        "]%string in
  config ← expect (parse toml);
  Some (discovery config == {| n0_discovery := NoN0; use_mdns := true; use_dht := false |}).

Definition test_discovery_section_allows_partial_overrides : option bool :=
  let toml := raw [
    "";
    "            [host]";
    "            private_key_path = " +:+ quoted "/foo/bar";
    "";
    "            [discovery]";
    "            use_dht = false";
    "        "]%string in
  config ← expect (parse toml);
  Some (discovery config ==
    {| n0_discovery := n0_discovery default; use_mdns := use_mdns default; use_dht := false |}).

Definition test_parses_tun_section : option bool :=
  let toml := raw [
    "";
    "            [host]";
    "            private_key_path = " +:+ quoted "/foo/bar";
    "";
    "            [tun]";
    "            name = " +:+ quoted "zeroconf-p2p-vpn";
    "            description = " +:+ quoted "My VPN interface";
    "        "]%string in
  config ← expect (parse toml);
  Some ((tun_name (tun config) == Some "zeroconf-p2p-vpn"%string)
    && (tun_description (tun config) == "My VPN interface"%string)).

Definition test_tun_description_defaults_when_only_name_is_set : option bool :=
  let toml := raw [
    "";
    "            [host]";
    "            private_key_path = " +:+ quoted "/foo/bar";
    "";
    "            [tun]";
    "            name = " +:+ quoted "zeroconf-p2p-vpn";
    "        "]%string in
  config ← expect (parse toml);
  Some ((tun_name (tun config) == Some "zeroconf-p2p-vpn"%string)
    && (tun_description (tun config) == DEFAULT_TUN_DESCRIPTION)).

Definition test_decodes_real_docker_compose_peer_key : option bool :=
  let toml := raw [
    "";
    "            [host]";
    "            subnet = 0x0000";
    "            private_key_path = " +:+ quoted "/foo/bar";
    "";
    "            [peers]";
    "            alice = " +:+ quoted ALICE_KEY_Z32;
    "            "]%string in
  config ← expect (parse toml);
  Some (peers config !! "alice"%string == from_z32 ALICE_KEY_Z32).

Definition test_parses_config_with_multiple_peers (generated generated' : @SecretKey keys) :
    option bool :=
  let alice := sample_key_z32 generated in
  let bob := sample_key_z32 generated' in
  let toml := raw [
    "";
    "            [host]";
    "            subnet = 0x7ffF";
    "            private_key_path = " +:+ quoted "/foo/bar";
    "";
    "            [peers]";
    "            alice = " +:+ quoted alice;
    "            bob = " +:+ quoted bob;
    "            "]%string in
  config ← expect (parse toml);
  Some ((subnet config == 0x7fff)
    && (size (peers config) == 2%nat)
    && (peers config !! "alice"%string == from_z32 alice)
    && (peers config !! "bob"%string == from_z32 bob)).

Definition test_parses_config_without_peers : option bool :=
  let toml := raw [
    "";
    "            [host]";
    "            subnet = 0x0000";
    "            private_key_path = " +:+ quoted "/foo/bar";
    "        "]%string in
  config ← expect (parse toml);
  Some (peers config == ∅).

Definition test_subnet_defaults_to_zero_when_missing : option bool :=
  let toml := raw [
    "";
    "            [host]";
    "            private_key_path = " +:+ quoted "/foo/bar";
    "        "]%string in
  config ← expect (parse toml);
  Some (subnet config == 0).

Definition test_dns_defaults_to_disabled_when_missing : option bool :=
  let toml := raw [
    "";
    "            [host]";
    "            private_key_path = " +:+ quoted "/foo/bar";
    "        "]%string in
  config ← expect (parse toml);
  Some (dns config == None).

Definition test_parses_dns_section : option bool :=
  let toml := raw [
    "";
    "            [host]";
    "            private_key_path = " +:+ quoted "/foo/bar";
    "";
    "            [dns]";
    "            suffix = " +:+ quoted "p2p";
    "        "]%string in
  config ← expect (parse toml);
  Some (dns config == Some {| cfg_suffix := "p2p" |}).

Definition test_rejects_missing_host_section : option bool :=
  let toml := raw [
    "";
    "            [peers]";
    "            alice = " +:+ quoted "irrelevant";
    "        "]%string in
  Some (is_err (parse toml)).

Definition test_rejects_missing_private_key_path : option bool :=
  let toml := raw [
    "";
    "            [host]";
    "            subnet = 0x0000";
    "        "]%string in
  Some (is_err (parse toml)).

(** The tests that use files: [tmp] is [std::env::temp_dir()], [pid] the text of
    the process id. *)
Section Load.
Context (tmp : Path) (pid : string) (fs : Fs).

Definition test_load_reads_config_from_disk (generated : @SecretKey keys) : option bool :=
  let alice := sample_key_z32 generated in
  let toml := raw [
    "";
    "            [host]";
    "            subnet = 0x0000";
    "            private_key_path = " +:+ quoted "/foo/bar";
    "";
    "            [peers]";
    "            alice = " +:+ quoted alice;
    "            "]%string in
  let path := Config.join tmp (path_of_string ("zeroconf-p2p-vpn-config-test-" +:+ pid +:+ ".toml")) in
  let '(w, fs) := write fs path toml in
  _ ← expect w;
  config ← expect (load fs path);
  fs ← remove_file fs path;
  Some ((subnet config == 0)
    && (size (peers config) == 1%nat)
    && (private_key_path config == path_of_string "/foo/bar")).

Definition test_load_resolves_relative_private_key_path_against_config_dir : option bool :=
  let toml := raw [
    "";
    "            [host]";
    "            private_key_path = " +:+ quoted "keys/host.raw";
    "        "]%string in
  let dir := Config.join tmp (path_of_string ("zeroconf-p2p-vpn-config-test-dir-" +:+ pid)) in
  let path := Config.join dir (path_of_string "config.toml") in
  let '(w, fs) := write fs path toml in
  _ ← expect w;
  config ← expect (load fs path);
  let fs := remove_dir_all fs dir in
  Some (private_key_path config == Config.join dir (path_of_string "keys/host.raw")).

Definition test_load_keeps_relative_private_key_path_when_config_path_has_no_directory :
    option bool :=
  let toml := raw [
    "";
    "            [host]";
    "            private_key_path = " +:+ quoted "keys/host.raw";
    "        "]%string in
  let path := path_of_string ("zeroconf-p2p-vpn-config-test-bare-" +:+ pid +:+ ".toml") in
  let '(w, fs) := write fs path toml in
  _ ← expect w;
  config ← expect (load fs path);
  fs ← remove_file fs path;
  Some (private_key_path config == path_of_string "keys/host.raw").
End Load.

Definition tmp : Path := path_of_string "/tmp".

Example config_tests_pass :
  Forall (λ t, t = Some true)
    [test_parses_minimal_config (sk "a");
     test_parses_discovery_section;
     test_discovery_section_allows_partial_overrides;
     test_parses_tun_section;
     test_tun_description_defaults_when_only_name_is_set;
     test_decodes_real_docker_compose_peer_key;
     test_parses_config_with_multiple_peers (sk "a") (sk "b");
     test_parses_config_without_peers;
     test_subnet_defaults_to_zero_when_missing;
     test_dns_defaults_to_disabled_when_missing;
     test_parses_dns_section;
     test_rejects_missing_host_section;
     test_rejects_missing_private_key_path;
     test_load_reads_config_from_disk tmp "1" (FormatsRef.empty_fs None) (sk "a");
     test_load_resolves_relative_private_key_path_against_config_dir tmp "1"
       (FormatsRef.empty_fs None);
     test_load_keeps_relative_private_key_path_when_config_path_has_no_directory "1"
       (FormatsRef.empty_fs None)].
Proof. repeat constructor; vm_compute; reflexivity. Qed.
End config_tests.

(** ** [generate.rs] *)
Module generate_tests.
Section Tests.
Context (tmp : Path) (pid : string) (fs : Fs).

(** A fresh, empty directory. *)
Definition temp_dir (tag : string) : Path * Fs :=
  let dir := Config.join tmp
    (path_of_string ("zeroconf-p2p-vpn-generate-test-" +:+ pid +:+ "-" +:+ tag)) in
  (dir, remove_dir_all fs dir).

Definition creates_template_config_and_key_when_neither_exists (fresh : @SecretKey keys) :
    option bool :=
  let '(dir, fs) := temp_dir "fresh" in
  let config_path := Config.join dir (path_of_string "myconfig.toml") in
  let '(r, fs) := generate fs config_path fresh in
  key ← expect r;
  let key_path := Config.join dir (path_of_string DEFAULT_KEY_FILE_NAME) in
  bytes ← expect (read_to_string fs key_path);
  config ← expect (load fs config_path);
  loaded ← expect (load_key_from_disk fs key_path);
  let ok := exists_ fs config_path
    && exists_ fs key_path
    && (String.length bytes == 32%nat)
    && (private_key_path config == key_path)
    && (peers config == ∅)
    && (to_bytes key == to_bytes loaded) in
  let fs := remove_dir_all fs dir in
  Some ok.

Definition new_key_file_is_owner_only (fresh : @SecretKey keys) : option bool :=
  let '(dir, fs) := temp_dir "perms" in
  let config_path := Config.join dir (path_of_string "myconfig.toml") in
  let '(r, fs) := generate fs config_path fresh in
  _ ← expect r;
  mode ← mode <$> files fs !! Config.join dir (path_of_string DEFAULT_KEY_FILE_NAME);
  let fs := remove_dir_all fs dir in
  Some (Z.land mode 511 (* 0o777 *) == 384 (* 0o600 *)).

Definition is_idempotent_and_keeps_existing_files (fresh fresh' : @SecretKey keys) :
    option bool :=
  let '(dir, fs) := temp_dir "idempotent" in
  let config_path := Config.join dir (path_of_string "myconfig.toml") in
  let '(r, fs) := generate fs config_path fresh in
  first ← expect r;
  config_bytes ← expect (read_to_string fs config_path);
  let '(r, fs) := generate fs config_path fresh' in
  second ← expect r;
  config_bytes' ← expect (read_to_string fs config_path);
  let fs := remove_dir_all fs dir in
  Some ((to_bytes first == to_bytes second) && (config_bytes == config_bytes')).

Definition creates_only_the_key_when_config_already_exists (fresh : @SecretKey keys) :
    option bool :=
  let '(dir, fs) := temp_dir "config-only" in
  let config_path := Config.join dir (path_of_string "myconfig.toml") in
  let '(w, fs) := write fs config_path
    (unlines ["[host]"; "private_key_path = " +:+ quoted "host.key"]%string) in
  _ ← expect w;
  let '(r, fs) := generate fs config_path fresh in
  key ← expect r;
  let key_path := Config.join dir (path_of_string "host.key") in
  loaded ← expect (load_key_from_disk fs key_path);
  let ok := exists_ fs key_path && (to_bytes key == to_bytes loaded) in
  let fs := remove_dir_all fs dir in
  Some ok.
End Tests.

(** A key of 32 bytes. *)
Definition fresh_key : @SecretKey keys := sk "0123456789abcdef0123456789abcdef".

Example generate_tests_pass :
  let fs := FormatsRef.empty_fs None in
  Forall (λ t, t = Some true)
    [creates_template_config_and_key_when_neither_exists config_tests.tmp "1" fs fresh_key;
     new_key_file_is_owner_only config_tests.tmp "1" fs fresh_key;
     is_idempotent_and_keeps_existing_files config_tests.tmp "1" fs fresh_key (sk "another");
     creates_only_the_key_when_config_already_exists config_tests.tmp "1" fs fresh_key].
Proof. repeat constructor; vm_compute; reflexivity. Qed.
End generate_tests.
