(* ===== verification/Show.v ===== *)
(** * The report of a node

    Models [src/src/show.rs] and the entry point of [src/src/generate.rs]. The
    peers are kept in a [HashMap], whose iteration order is arbitrary: it is a
    parameter, and the report is proved not to depend on it. *)

From S2P Require Import Prelude ErrorCode Net IpText Keys Addr Config.
From stdpp Require Import prelude gmap strings sorting.
From Stdlib Require Import Ascii.

Local Open Scope Z_scope.

(** ** The order of names *)

(** [str::cmp] compares the bytes of the texts. *)
Definition name_le (a b : string) : Prop := String.leb a b = true.

#[export] Instance name_le_dec : RelDecision name_le.
Proof. intros a b. unfold name_le. apply _. Defined.

(** [writeln!] of one line. *)
Definition writeln (s : string) : string := s +:+ newline.

Section Show.
Context `{Ipnet} {keys : IrohKeys} {NodeExtraConfig : Type} `{!ConfigFormats keys NodeExtraConfig}.

(** How the map of peers is iterated over. *)
Context (iter : gmap string PublicKey → list (string * PublicKey)).

(** The order [sort_by] uses: on the names only. *)
Definition peer_le (a b : string * PublicKey) : Prop := name_le a.1 b.1.

#[export] Instance peer_le_dec : RelDecision peer_le.
Proof. intros a b. unfold peer_le. apply _. Defined.

Definition peer_line (peer : string * PublicKey) : string :=
  "peer " +:+ peer.1 +:+ ": " +:+ to_z32 peer.2.

Definition report (config : Config NodeExtraConfig) (secret_key : SecretKey) : outcome string :=
  let! (own_net, _) :=
    generate_signed_ipnet (Net6 (vpn_subnet (subnet config))) secret_key in
  let out := writeln ("public key:  " +:+ to_z32 (SecretKey_public secret_key)) in
  let out := out +:+ writeln ("VPN address: " +:+ IpAddr_to_string (IpNet_addr own_net)) in
  let peers := merge_sort peer_le (iter (peers config)) in
  Ret (foldl (λ out peer, out +:+ writeln (peer_line peer)) out peers).

(** The text printed to standard output. *)
Definition show_run (fs : Fs) (config_path : Path) : outcome (result string AnyhowError) :=
  match load fs config_path with
  | Err e => Ret (Err e)
  | Ok config =>
      match load_key_from_disk fs (private_key_path config) with
      | Err e => Ret (Err e)
      | Ok secret_key => let! out := report config secret_key in Ret (Ok out)
      end
  end.

(** The last line [generate] prints, after the lines about the files. *)
Definition generate_run (fs : Fs) (config_path : Path) (fresh : SecretKey) :
    result string AnyhowError * Fs :=
  let '(r, fs) := generate fs config_path fresh in
  (let? key := r in Ok (writeln ("public key: " +:+ to_z32 (SecretKey_public key))), fs).
End Show.

(** ** Names in order *)

Lemma ascii_compare_spec a b : CompareSpec (a = b)
  (N_of_ascii a < N_of_ascii b)%N (N_of_ascii b < N_of_ascii a)%N (Ascii.compare a b).
Proof.
  unfold Ascii.compare. destruct (N.compare_spec (N_of_ascii a) (N_of_ascii b)) as [E|E|E];
    constructor; try done.
  by rewrite <- (ascii_N_embedding a), E, ascii_N_embedding.
Qed.

Lemma ascii_compare_refl a : Ascii.compare a a = Eq.
Proof. unfold Ascii.compare. apply N.compare_refl. Qed.

Lemma string_compare_refl a : String.compare a a = Eq.
Proof. induction a as [|c a IH]; [done|]. cbn [String.compare]. by rewrite ascii_compare_refl. Qed.

Lemma name_le_cons x a y b :
  name_le (String x a) (String y b) ↔ (N_of_ascii x < N_of_ascii y)%N ∨ x = y ∧ name_le a b.
Proof.
  unfold name_le, String.leb. cbn [String.compare].
  destruct (ascii_compare_spec x y) as [->|Hlt|Hgt].
  - split; [by right|]. intros [?|[_ ?]]; [lia|done].
  - split; [by left|done].
  - split; [done|]. intros [?|[-> _]]; lia.
Qed.

#[export] Instance name_le_total : Total name_le.
Proof.
  intros a b. unfold name_le, String.leb. rewrite (String.compare_antisym a b).
  destruct (String.compare b a); simpl; auto.
Qed.

#[export] Instance name_le_anti : AntiSymm (=) name_le.
Proof.
  intros a b Hab Hba. unfold name_le, String.leb in *. rewrite String.compare_antisym in Hba.
  destruct (String.compare a b) eqn:E; simpl in Hba; try done. by apply String.compare_eq_iff.
Qed.

#[export] Instance name_le_trans : Transitive name_le.
Proof.
  intros a. induction a as [|x a IH]; intros b c Hab Hbc; [by destruct c|].
  destruct b as [|y b]; [done|]. destruct c as [|z c]; [by destruct b|].
  rewrite name_le_cons in *. destruct Hab as [?|[-> ?]], Hbc as [?|[-> ?]]; [left; lia|by left..|].
  right. split; [done|]. by eapply IH.
Qed.

(** ** Properties *)
Section Facts.
Context `{Ipnet} {keys : IrohKeys} {NodeExtraConfig : Type}.

(** An iteration visits every entry once, in some order. *)
Definition iterates (iter : gmap string PublicKey → list (string * PublicKey)) : Prop :=
  ∀ m, iter m ≡ₚ map_to_list m.

#[export] Instance peer_le_total : Total peer_le.
Proof. intros a b. apply name_le_total. Qed.
#[export] Instance peer_le_trans : Transitive peer_le.
Proof. intros a b c. apply name_le_trans. Qed.

Lemma sorted_names (ps : list (string * PublicKey)) :
  NoDup ps.*1 → StronglySorted peer_le ps → StronglySorted (strict name_le) ps.*1.
Proof.
  intros Hd Hs. induction Hs as [|p ps Hs IH Hp]; [constructor|].
  apply NoDup_cons in Hd as [Hn Hd]. constructor; [by apply IH|].
  apply Forall_fmap, Forall_forall. intros q Hq. rewrite Forall_forall in Hp. split; [by apply Hp|].
  intros Hle. apply Hn. rewrite (name_le_anti p.1 q.1 (Hp q Hq) Hle).
  by apply list_elem_of_fmap_2.
Qed.

(** Distinct names have one sorted listing. *)
Lemma sorted_unique (ps qs : list (string * PublicKey)) :
  NoDup ps.*1 → ps ≡ₚ qs → StronglySorted peer_le ps → StronglySorted peer_le qs → ps = qs.
Proof.
  intros Hd Hp Hs Hs'. apply (StronglySorted_unique_strong peer_le); [|done..].
  intros p q Hin Hin' Hle Hle'. rewrite <- Hp in Hin'.
  assert (p.1 = q.1) as E by by apply name_le_anti.
  destruct p as [n k], q as [n' k']. simpl in E. subst n'. f_equal.
  assert ((list_to_map ps : gmap string PublicKey) !! n = Some k) as E1
    by by apply elem_of_list_to_map_1.
  assert ((list_to_map ps : gmap string PublicKey) !! n = Some k') as E2
    by by apply elem_of_list_to_map_1.
  congruence.
Qed.

Lemma iterates_names iter m : iterates iter → NoDup (iter m).*1.
Proof. intros Hi. rewrite (Hi m). apply NoDup_fst_map_to_list. Qed.

Definition sorted_peers (m : gmap string PublicKey) : list (string * PublicKey) :=
  merge_sort peer_le (map_to_list m).

Lemma sort_iterates iter m : iterates iter → merge_sort peer_le (iter m) = sorted_peers m.
Proof.
  intros Hi. apply sorted_unique.
  - rewrite merge_sort_Permutation. by apply iterates_names.
  - unfold sorted_peers. by rewrite !merge_sort_Permutation.
  - apply StronglySorted_merge_sort; apply _.
  - apply StronglySorted_merge_sort; apply _.
Qed.

Lemma sorted_peers_spec m :
  StronglySorted (strict name_le) (sorted_peers m).*1 ∧ list_to_map (sorted_peers m) = m.
Proof.
  assert (NoDup (sorted_peers m).*1) as Hd
    by (unfold sorted_peers; rewrite merge_sort_Permutation; apply NoDup_fst_map_to_list).
  split.
  - apply sorted_names; [done|]. apply StronglySorted_merge_sort; apply _.
  - rewrite <- (list_to_map_to_list m) at 2. apply list_to_map_proper; [done|].
    apply merge_sort_Permutation.
Qed.

Lemma unlines_app a b : unlines (a ++ b) = unlines a +:+ unlines b.
Proof.
  induction a as [|s a IH]; [done|]. simpl.
  by rewrite IH, string_app_assoc, (string_app_assoc newline).
Qed.

Lemma foldl_lines {A} (f : A → string) out l :
  foldl (λ out x, out +:+ writeln (f x)) out l = out +:+ unlines (f <$> l).
Proof.
  revert out. induction l as [|x l IH]; intros out; csimpl; [by rewrite string_app_nil_r|].
  rewrite IH. unfold writeln. by rewrite !string_app_assoc.
Qed.

(** The lines of the report. *)
Definition report_lines (own : IpAddr) (public : PublicKey) (ps : list (string * PublicKey)) :
    list string :=
  ["public key:  " +:+ to_z32 public; "VPN address: " +:+ IpAddr_to_string own]
    ++ (peer_line <$> ps).

Lemma report_eq iter (config : Config NodeExtraConfig) secret_key own sig :
  iterates iter →
  generate_signed_ipnet (Net6 (vpn_subnet (subnet config))) secret_key = Ret (own, sig) →
  report iter config secret_key = Ret (unlines (report_lines (IpNet_addr own)
    (SecretKey_public secret_key) (sorted_peers (peers config)))).
Proof.
  intros Hi Eg. unfold report. rewrite Eg, foldl_lines, sort_iterates by done. f_equal.
  unfold report_lines. rewrite unlines_app. f_equal. simpl.
  unfold writeln. by rewrite string_app_nil_r, !string_app_assoc.
Qed.

(** C34: the report does not depend on the order in which the map of peers is
    iterated: whatever the order, it is the line of the key, the line of the
    address and one line per configured peer, in strictly ascending order of
    their names. *)
Theorem report_canonical (iter : gmap string PublicKey → list (string * PublicKey))
    (config : Config NodeExtraConfig) (secret_key : SecretKey) (own : IpNet) (sig : Signature) :
  iterates iter →
  generate_signed_ipnet (Net6 (vpn_subnet (subnet config))) secret_key = Ret (own, sig) →
  ∃ ps, report iter config secret_key =
      Ret (unlines (report_lines (IpNet_addr own) (SecretKey_public secret_key) ps)) ∧
    StronglySorted (strict name_le) ps.*1 ∧ list_to_map ps = peers config ∧
    ∀ iter', iterates iter' → report iter' config secret_key = report iter config secret_key.
Proof.
  intros Hi Eg. exists (sorted_peers (peers config)).
  destruct (sorted_peers_spec (peers config)) as [Hs Hm].
  split; [by apply report_eq with sig|]. split; [done|]. split; [done|].
  intros iter' Hi'. by rewrite !(report_eq _ config secret_key own sig).
Qed.
End Facts.

(** ** Witness: a map iterated backwards *)
Import IpnetRef KeysRef.

Module ReportRef.
Definition config : Config (H := keys) unit :=
  {| subnet := 0; private_key_path := mkPath true ["key"%string];
     peers := {["charlie"%string := pk "c"; "bob"%string := pk "b"]};
     tun := {| tun_name := None; tun_description := DEFAULT_TUN_DESCRIPTION |};
     discovery := tt; dns := None |}.

Definition backwards (m : gmap string (@PublicKey keys)) : list (string * @PublicKey keys) :=
  reverse (map_to_list m).

Lemma backwards_iterates : iterates backwards.
Proof. intros m. apply reverse_Permutation. Qed.
End ReportRef.
Import ReportRef.

Lemma report_canonical_witness :
  ∃ own sig ps,
    generate_signed_ipnet (Net6 (vpn_subnet 0)) (sk "alice") = Ret (own, sig) ∧
    report backwards config (sk "alice") =
      Ret (unlines (report_lines (IpNet_addr own) (pk "alice") ps)) ∧
    StronglySorted (strict name_le) ps.*1 ∧ list_to_map ps = peers config.
Proof.
  destruct (generate_verify (Net6 (vpn_subnet 0)) (sk "alice") ltac:(by_decide) ltac:(done))
    as (own & sig & Eg & _).
  destruct (report_canonical backwards config (sk "alice") own sig backwards_iterates Eg)
    as (ps & Er & Hs & Hm & _).
  exact (ex_intro _ own (ex_intro _ sig (ex_intro _ ps (conj Eg (conj Er (conj Hs Hm)))))).
Defined.
