(* ===== verification/Connection.v ===== *)
(** * Routing incoming connections

    Models [src/src/connection.rs]: the demultiplexer that hands every accepted
    connection to the channel of the peer with its key, and closes those of
    unknown peers. *)

From S2P Require Import Prelude Keys.
From stdpp Require Import prelude gmap strings.

Section Router.
Context `{IrohKeys}.

(** A connection: its identity and the key of its remote end. *)
Record Incoming := { in_conn : nat; in_remote : PublicKey }.

(** The receiving end of a peer's channel, by the peer it belongs to. *)
Definition channel_id : Type := nat.

Record IncomingRouter := { by_peer : gmap PublicKey channel_id }.

Definition IncomingRouter_new : IncomingRouter := {| by_peer := ∅ |}.

Definition register (self : IncomingRouter) (key : PublicKey) (incoming : channel_id) :
    IncomingRouter :=
  {| by_peer := <[key := incoming]> (by_peer self) |}.

(** What was put into the channels (a full channel makes the router wait, which
    changes nothing of the order), which of them are closed, the connections that
    were closed with their reason, and the counters. *)
Record RouterState := {
  queues : channel_id → list Incoming;
  closed : channel_id → bool;
  closed_conns : list (nat * string);
  submit_errors : nat;
  unknown_peers : nat;
}.

Definition dispatch (self : IncomingRouter) (conn : Incoming) (s : RouterState) : RouterState :=
  match by_peer self !! in_remote conn with
  | Some sender =>
      if closed s sender then
        {| queues := queues s; closed := closed s; closed_conns := closed_conns s;
           submit_errors := S (submit_errors s); unknown_peers := unknown_peers s |}
      else
        {| queues := λ c, if decide (c = sender) then queues s c ++ [conn] else queues s c;
           closed := closed s; closed_conns := closed_conns s;
           submit_errors := submit_errors s; unknown_peers := unknown_peers s |}
  | None =>
      {| queues := queues s; closed := closed s;
         closed_conns := closed_conns s ++ [(in_conn conn, "unknown peer"%string)];
         submit_errors := submit_errors s; unknown_peers := S (unknown_peers s) |}
  end.

(** What happens meanwhile: a connection is accepted, or the link of a peer drops
    the receiving end of its channel. *)
Inductive router_event : Type :=
  | Accepted (conn : Incoming)
  | ReceiverDropped (c : channel_id).

Definition drop_receiver (c : channel_id) (s : RouterState) : RouterState :=
  {| queues := queues s; closed := λ c', if decide (c' = c) then true else closed s c';
     closed_conns := closed_conns s; submit_errors := submit_errors s;
     unknown_peers := unknown_peers s |}.

(** [run], over what has happened so far. *)
Fixpoint router_run (self : IncomingRouter) (events : list router_event) (s : RouterState) :
    RouterState :=
  match events with
  | [] => s
  | Accepted conn :: events => router_run self events (dispatch self conn s)
  | ReceiverDropped c :: events => router_run self events (drop_receiver c s)
  end.

(** The registrations of [main], one channel per configured peer. *)
Definition register_all (l : list (PublicKey * channel_id)) : IncomingRouter :=
  foldl (λ r '(k, c), register r k c) IncomingRouter_new l.

(** ** Properties *)
Lemma register_all_from r0 l key c :
  NoDup l.*1 → (∀ k, k ∈ l.*1 → by_peer r0 !! k = None) →
  by_peer (foldl (λ r '(k, c), register r k c) r0 l) !! key = Some c ↔
  by_peer r0 !! key = Some c ∨ (key, c) ∈ l.
Proof.
  revert r0. induction l as [|[k c'] l IH]; intros r0 Hd Hno; simpl; [set_solver|].
  apply NoDup_cons in Hd as [Hk Hd]. rewrite IH; [|done|].
  - simpl. destruct (decide (k = key)) as [->|Hne].
    + rewrite lookup_insert_eq. pose proof (Hno key ltac:(left)) as Hn. rewrite Hn.
      assert ((key, c) ∉ l) as Hnl.
      { intros Hin. apply Hk, list_elem_of_fmap. by exists (key, c). }
      set_solver.
    + rewrite lookup_insert_ne by done. set_solver.
  - intros k' Hk'. simpl. rewrite lookup_insert_ne by set_solver. apply Hno. by right.
Qed.

Lemma register_all_lookup l key c :
  NoDup l.*1 → by_peer (register_all l) !! key = Some c ↔ (key, c) ∈ l.
Proof.
  intros Hd. unfold register_all. rewrite register_all_from; [|done|done].
  simpl. rewrite lookup_empty. naive_solver.
Qed.

(** The connections that were accepted, and those of them that were accepted
    while a channel had its receiver. *)
Definition accepted (events : list router_event) : list Incoming :=
  omap (λ e, match e with Accepted conn => Some conn | ReceiverDropped _ => None end) events.

Fixpoint before_drop (c : channel_id) (events : list router_event) : list Incoming :=
  match events with
  | [] => []
  | Accepted conn :: events => conn :: before_drop c events
  | ReceiverDropped c' :: events => if decide (c' = c) then [] else before_drop c events
  end.

Lemma router_run_spec self events s c :
  queues (router_run self events s) c =
    queues s c ++ (if closed s c then []
      else filter (λ conn, by_peer self !! in_remote conn = Some c) (before_drop c events)) ∧
  closed_conns (router_run self events s) =
    closed_conns s ++ ((λ conn, (in_conn conn, "unknown peer"%string))
      <$> filter (λ conn, by_peer self !! in_remote conn = None) (accepted events)).
Proof.
  revert s. induction events as [|[conn|c'] events IH]; intros s; simpl.
  - destruct (closed s c); by rewrite ?filter_nil, !app_nil_r.
  - destruct (IH (dispatch self conn s)) as [-> ->]. unfold dispatch.
    rewrite !filter_cons. destruct (by_peer self !! in_remote conn) as [sender|] eqn:Es.
    + rewrite (decide_False (P := Some sender = None)) by done.
      destruct (decide (c = sender)) as [->|Hne].
      * rewrite (decide_True (P := Some sender = Some sender)) by done.
        destruct (closed s sender) eqn:Ec; simpl; rewrite ?Ec; [done|].
        rewrite decide_True by done. by rewrite <- app_assoc.
      * rewrite (decide_False (P := Some sender = Some c)) by congruence.
        destruct (closed s sender); simpl; [done|]. by rewrite decide_False.
    + rewrite (decide_False (P := None = Some c)), decide_True by done. simpl.
      split; [done|]. by rewrite <- app_assoc.
  - destruct (IH (drop_receiver c' s)) as [-> ->]. simpl. split; [|done].
    destruct (decide (c' = c)) as [->|Hne].
    + rewrite decide_True by done. by destruct (closed s c).
    + by rewrite decide_False by done.
Qed.

(** How many connections the channels of the peers were given. *)
Definition queued (l : list (PublicKey * channel_id)) (s : RouterState) : nat :=
  sum_list_with (λ p, length (queues s p.2)) l.

Lemma queued_other l s s' :
  (∀ c, c ∈ l.*2 → queues s' c = queues s c) → queued l s' = queued l s.
Proof.
  unfold queued. induction l as [|[k c] l IH]; intros Hc; simpl; [done|].
  rewrite IH by set_solver. by rewrite Hc by set_solver.
Qed.

Lemma queued_one l s s' key c conn :
  NoDup l.*2 → (key, c) ∈ l → queues s' c = queues s c ++ [conn] →
  (∀ c', c' ≠ c → queues s' c' = queues s c') → queued l s' = S (queued l s).
Proof.
  intros Hd Hin Hc Ho. induction l as [|[k c'] l IH]; [by apply not_elem_of_nil in Hin|].
  apply NoDup_cons in Hd as [Hn Hd]. unfold queued. simpl. fold (queued l s) (queued l s').
  destruct (decide (c' = c)) as [->|Hne].
  - rewrite Hc, length_app. simpl. rewrite (queued_other l s s'); [lia|].
    intros c' Hc'. apply Ho. by intros ->.
  - rewrite Ho by done. rewrite IH; [lia|done|]. set_solver.
Qed.

(** Every connection goes one of three ways. *)
Lemma router_run_counts l events s :
  NoDup l.*1 → NoDup l.*2 →
  let s' := router_run (register_all l) events s in
  (queued l s' + submit_errors s' + unknown_peers s' =
    queued l s + submit_errors s + unknown_peers s + length (accepted events))%nat.
Proof.
  intros Hk Hc. revert s. induction events as [|[conn|c'] events IH]; intros s; simpl.
  - lia.
  - rewrite IH. unfold dispatch.
    destruct (by_peer (register_all l) !! in_remote conn) as [c|] eqn:Es.
    + destruct (closed s c); simpl; [unfold queued; simpl; lia|].
      apply register_all_lookup in Es; [|done].
      erewrite (queued_one l s _ _ c conn Hc Es); simpl; [lia|by rewrite decide_True|].
      intros c' Hne. by rewrite decide_False.
    + unfold queued. simpl. lia.
  - rewrite IH. unfold queued. simpl. lia.
Qed.

Definition router_init : RouterState :=
  {| queues _ := []; closed _ := false; closed_conns := []; submit_errors := 0;
     unknown_peers := 0 |}.

(** C38: with peers of distinct keys, each on a channel of its own, and whenever
    their links drop the receivers: a peer's channel is given exactly the incoming
    connections of that peer's key, in order, up to where its receiver is dropped;
    exactly the connections of no configured peer are closed; and every
    connection is either given to a channel or counted in one of the two error
    counters. *)
Theorem router_delivers (l : list (PublicKey * channel_id)) (events : list router_event) :
  NoDup l.*1 → NoDup l.*2 →
  let s := router_run (register_all l) events router_init in
  (∀ key c, (key, c) ∈ l →
     queues s c = filter (λ conn, in_remote conn = key) (before_drop c events)) ∧
  closed_conns s = (λ conn, (in_conn conn, "unknown peer"%string))
    <$> filter (λ conn, in_remote conn ∉ l.*1) (accepted events) ∧
  (queued l s + submit_errors s + unknown_peers s = length (accepted events))%nat.
Proof.
  intros Hk Hc s. split_and!.
  - intros key c Hin. unfold s.
    rewrite (proj1 (router_run_spec _ _ router_init c)). simpl.
    apply list_filter_iff. intros conn. rewrite register_all_lookup by done. split.
    + intros Hin'. apply list_elem_of_lookup_1 in Hin as [i Hi].
      apply list_elem_of_lookup_1 in Hin' as [j Hj].
      assert (i = j) as <-.
      { apply (NoDup_lookup l.*2 i j c); [done| |]; by rewrite list_lookup_fmap, ?Hi, ?Hj. }
      congruence.
    + by intros ->.
  - unfold s.
    rewrite (proj2 (router_run_spec _ _ router_init 0%nat)). simpl.
    f_equal. apply list_filter_iff. intros conn.
    rewrite eq_None_not_Some. unfold is_Some. setoid_rewrite register_all_lookup; [|done].
    rewrite list_elem_of_fmap. split.
    + intros Hno ([k c] & E & Hin). apply Hno. exists c. by rewrite E.
    + intros Hno [c Hin]. apply Hno. by exists (in_remote conn, c).
  - unfold s. rewrite router_run_counts by done. unfold queued. simpl.
    assert (∀ l' : list (PublicKey * channel_id), sum_list_with (λ _, 0) l' = 0)%nat as Hz
      by (intros l'; by induction l').
    by rewrite Hz.
Qed.
End Router.

(** ** Witness *)
Import KeysRef.

Lemma router_delivers_witness :
  let events := [Accepted {| in_conn := 1; in_remote := pk "bob" |};
                 Accepted {| in_conn := 2; in_remote := pk "eve" |};
                 Accepted {| in_conn := 3; in_remote := pk "bob" |};
                 ReceiverDropped 1;
                 Accepted {| in_conn := 4; in_remote := pk "bob" |}] in
  let l := [(pk "alice", 0); (pk "bob", 1)]%nat in
  let s := router_run (register_all l) events router_init in
  queues s 1%nat = filter (λ conn, in_remote conn = pk "bob") (before_drop 1 events) ∧
  closed_conns s = (λ conn, (in_conn conn, "unknown peer"%string))
    <$> filter (λ conn, in_remote conn ∉ l.*1) (accepted events) ∧
  (queued l s + submit_errors s + unknown_peers s = 4)%nat.
Proof.
  intros events l.
  destruct (router_delivers l events) as (Hq & Hc & Hn).
  - by_decide.
  - by_decide.
  - split; [|exact (conj Hc Hn)]. apply (Hq (pk "bob") 1%nat). unfold l. by_decide.
Defined.
