(* ===== verification/Main.v ===== *)
(** * Starting a node

    Models the parts of [src/src/main.rs] that compute: the command line, the
    address of the metrics listener, and the address of the resolver, with what
    a node derives from its key. [Startup] models the start itself. *)

From S2P Require Import Prelude ErrorCode Net Keys Addr Proto Validate Packet Handshake.
From stdpp Require Import prelude strings.
From Stdlib Require Import Ascii.

Local Open Scope Z_scope.

(** ** Command line and environment *)
Inductive Action : Type :=
  | Show (config_path : string)
  | Generate (config_path : string)
  | Daemon (config_path : string).

(** [argv] with the program's name first; any other shape panics with the usage. *)
Definition parse_args (argv : list string) : outcome Action :=
  match argv with
  | [_argv0; a; config_path] =>
      if decide (a = "show"%string) then Ret (Show config_path)
      else if decide (a = "generate"%string) then Ret (Generate config_path)
      else Panic
  | [_argv0; config_path] => Ret (Daemon config_path)
  | _ => Panic
  end.

(** [u16::from_str]: an optional plus sign and decimal digits, in range. *)
Fixpoint digits (acc : Z) (s : string) : option Z :=
  match s with
  | EmptyString => Some acc
  | String c s =>
      let n := Z.of_N (N_of_ascii c) in
      if (48 <=? n) && (n <=? 57) then digits (10 * acc + (n - 48)) s else None
  end.

Definition parse_u16 (s : string) : option Z :=
  let s := match s with
           | String "+"%char (String _ _ as s') => s'
           | _ => s
           end in
  match s with
  | EmptyString => None
  | _ => n ← digits 0 s; if n <=? 65535 then Some n else None
  end.

(** The port of the listener on the unspecified address; [var] is the value of
    METRICS_PORT. *)
Definition get_metrics_addr (var : option string) : outcome (IpAddr * Z) :=
  match var with
  | None => Ret (V6 0, 9189)
  | Some p => match parse_u16 p with Some port => Ret (V6 0, port) | None => Panic end
  end.

Example metrics_ports :
  get_metrics_addr None = Ret (V6 0, 9189) ∧
  get_metrics_addr (Some "+080"%string) = Ret (V6 0, 80) ∧
  get_metrics_addr (Some "65536"%string) = Panic ∧
  get_metrics_addr (Some "+"%string) = Panic.
Proof. by vm_compute. Qed.

(** ** The identity of a node *)
Section Setup.
Context `{Ipnet, IrohKeys}.

(** The resolver's address: the own address with its lowest bit flipped. *)
Definition dns_server_addr (own : IpAddr) : outcome Z :=
  match own with
  | V6 addr => Ret (Z.lxor addr 1)
  | V4 _ => Panic
  end.

End Setup.

(** ** Properties *)
Section Facts.
Context `{IpnetLaws, IrohLaws}.

Lemma lxor_one_ne a : Z.lxor a 1 ≠ a.
Proof.
  intros E. apply (f_equal (λ z, Z.testbit z 0)) in E. cbv beta in E.
  rewrite Z.lxor_spec in E. change (Z.testbit 1 0) with true in E.
  destruct (Z.testbit a 0); discriminate E.
Qed.

Lemma lxor_one_unsigned a : unsigned 128 a → unsigned 128 (Z.lxor a 1).
Proof.
  intros Ha. apply unsigned_bits; [lia| |].
  - apply Z.lxor_nonneg. destruct Ha. split; intros; lia.
  - intros i Hi. rewrite Z.lxor_spec, (testbit_unsigned_high 128 a) by (done || lia).
    by rewrite (testbit_unsigned_high 128 1) by (by_decide || lia).
Qed.

(** Flipping the lowest bit stays in every network with a host part. *)
Lemma lxor_one_network a p :
  0 ≤ p ≤ 127 → network 128 (Z.lxor a 1) p = network 128 a p.
Proof.
  intros Hp. unfold network. apply Z.bits_inj'. intros i Hi.
  rewrite !Z.land_spec, Z.lxor_spec, testbit_high_mask by lia.
  destruct (Z.leb_spec (128 - p) i); [|by rewrite !andb_false_r].
  rewrite (testbit_unsigned_high 1 1) by (by_decide || lia). by rewrite xorb_false_r.
Qed.

(** What a node derives from a subnet that an accepted configuration can have:
    its own address lies in the subnet, any peer with the default networks
    accepts its advertisement as exactly that address, its gateway can answer,
    and its resolver has another address of the same subnet. *)
Lemma own_identity (subnet : Z) (secret_key : SecretKey) :
  0 ≤ subnet ≤ MAX_SUBNET →
  ∃ own sig resolver,
    generate_signed_ipnet (Net6 (vpn_subnet subnet)) secret_key = Ret (own, sig) ∧
    IpNet_wf own ∧ is_ipv6 (IpNet_addr own) = true ∧
    in_network (Net6 (vpn_subnet subnet)) (IpNet_addr own) ∧
    validate_addresses [Net6 VPN_IPV6_DEFAULT_ALLOWED] (own_advertise own sig)
      (SecretKey_public secret_key) = ([own], []) ∧
    IcmpGateway_wf (from_addr (IpNet_addr own)) ∧
    dns_server_addr (IpNet_addr own) = Ret resolver ∧
    IpAddr_wf (V6 resolver) ∧ V6 resolver ≠ IpNet_addr own ∧
    in_network (Net6 (vpn_subnet subnet)) (V6 resolver).
Proof.
  intros Hs. change MAX_SUBNET with 0x7fff in Hs.
  assert (unsigned 16 subnet) as Hu by (unfold unsigned; lia).
  destruct (own_advertise_validated subnet secret_key Hu) as (own & sig & Eg & Hv).
  change MAX_SUBNET with 0x7fff in Hv. rewrite (proj2 (Z.leb_le _ _)) in Hv by lia.
  destruct (vpn_subnet_contained subnet Hu) as [Hwf _].
  destruct (generate_verify (Net6 (vpn_subnet subnet)) secret_key Hwf ltac:(done))
    as (own' & sig' & Eg' & Howf & _ & Hin & _).
  rewrite Eg in Eg'. injection Eg' as <- <-.
  destruct own as [n|n]; [done|]. simpl in Hin.
  assert (unsigned 128 (addr6 n)) as Ha by apply Howf.
  exists (Net6 n), sig, (Z.lxor (addr6 n) 1). simpl. split_and!; try done.
  - split; simpl; intros; by simplify_eq.
  - by apply lxor_one_unsigned.
  - intros [= E]. by apply lxor_one_ne in E.
  - rewrite lxor_one_network; [done|]. simpl. lia.
Qed.
End Facts.
