(* ===== verification/Startup.v ===== *)
(** * The start of the daemon

    Models the rest of [main] of [src/src/main.rs]: from the configuration file
    to the point where the loops run, with every early return. The steps act on
    the kernel (the device, its addresses, the routes, the host's resolver) in a
    monad of state, errors, panics and bounded retries. *)

From S2P Require Import Prelude ErrorCode Net Keys Addr Proto Validate Packet Handshake.
From S2P Require Import Retry Route Relay Dns Session Config IpText Show Connection Tun TunControl Main.
From stdpp Require Import prelude gmap strings.
From Stdlib Require Import Strings.Byte.

Local Open Scope Z_scope.

(** The other calls of [main] that reach outside: the metrics exporter, the
    handle of the routing table, the endpoint, and the host's DNS resolver. *)
Class Platform (K : Type) (keys : IrohKeys) (NodeExtraConfig : Type) := {
  install_exporter : IpAddr * Z → K → bool * K;
  route_handle_new : K → result unit IoError * K;
  TransportNode_new : SecretKey → string → NodeExtraConfig → K → result unit AnyhowError * K;
  DnsRouteConfig_new : Z → string → result unit AnyhowError;
  set_host_dns : string → Z → string → K → result unit AnyhowError * K;
}.

Declare Scope start_scope.

Section Startup.
Context `{Ipnet} {keys : IrohKeys} {NodeExtraConfig : Type} `{!ConfigFormats keys NodeExtraConfig}.
Context {K : Type} `{!NetRouteOps K, !TunDevice K, !TunBuilder K, !Platform K keys NodeExtraConfig}.
Context `{Backoff}.

(** [linux], [windows]: the target; [iter]: the iteration order of the peers. *)
Context (linux windows : bool) (iter : gmap string PublicKey → list (string * PublicKey)).

(** ** The monad

    [None] is the retry loop out of fuel. *)
Definition M (A : Type) : Type :=
  RouteState K → option (outcome (result A AnyhowError * RouteState K)).

Definition ret {A} (a : A) : M A := λ s, Some (Ret (Ok a, s)).

Definition bind {A B} (m : M A) (f : A → M B) : M B := λ s,
  match m s with
  | Some (Ret (Ok a, s)) => f a s
  | Some (Ret (Err e, s)) => Some (Ret (Err e, s))
  | Some Panic => Some Panic
  | None => None
  end.

Notation "'let*' x := e 'in' k" := (bind e (λ x, k))
  (at level 10, x pattern, e at level 100, k at level 200,
   format "'[v' 'let*'  x  :=  e  'in' '/' k ']'").

(** Errors, panics and calls of the kernel. *)
Definition lift {A} (r : result A AnyhowError) : M A := λ s, Some (Ret (r, s)).

Definition unwrap {A} (o : outcome A) : M A := λ s,
  match o with Ret a => Some (Ret (Ok a, s)) | Panic => Some Panic end.

Definition with_kernel (s : RouteState K) (k : K) : RouteState K :=
  {| kernel := k; add_total := add_total s; active := active s |}.

Definition call {A} (f : K → result A AnyhowError * K) : M A := λ s,
  let '(r, k) := f (kernel s) in Some (Ret (r, with_kernel s k)).

Definition call_retrying {A} (f : K → option (result A AnyhowError * K)) : M A := λ s,
  '(r, k) ← f (kernel s); Some (Ret (r, with_kernel s k)).

Definition call_routes {A} (f : RouteState K → option (result A IoError * RouteState K)) : M A := λ s,
  '(r, s) ← f s; Some (Ret (map_err anyhow_io r, s)).

(** [expect] on the installation of the exporter. *)
Definition expect_exporter (addr : IpAddr * Z) : M unit := λ s,
  let '(ok, k) := install_exporter addr (kernel s) in
  if ok then Some (Ret (Ok tt, with_kernel s k)) else Some Panic.

(** ** The steps *)

(** The local resolver: its route, and on Linux the host's resolver. *)
Definition start_dns (fuel : nat) (dns_cfg : option DnsConfig) (tun : Tun) (own_addr : IpAddr) :
    M (option (Z * PeerNames)) :=
  match dns_cfg with
  | None => ret None
  | Some {| cfg_suffix := suffix |} =>
      let* addr := unwrap (dns_server_addr own_addr) in
      let* _ := call_routes (NetRouteHandle_insert (if_index tun) fuel (V6 addr)) in
      if linux then
        let* _ := lift (DnsRouteConfig_new addr suffix) in
        let* _ := call (set_host_dns (if_name tun) addr suffix) in
        ret (Some (addr, PeerNames_new suffix))
      else lift (Err anyhow_msg)
  end.

(** The loop over the peers: each gets a channel, numbered in the order of the
    iteration, and a session. *)
Fixpoint links (i : nat) (peers : list (string * PublicKey)) (router : IncomingRouter)
    (names : list string) : IncomingRouter * list string :=
  match peers with
  | [] => (router, names)
  | (name, peer_key) :: peers => links (S i) peers (register router peer_key i) (names ++ [name])
  end.

(** What is running once [main] waits for its loops: the device, the own network,
    what the sessions share (the names are those the resolver answers from), the
    sessions, the router and the address of the resolver. *)
Record Started := {
  st_tun : Tun;
  st_own : IpNet;
  st_node : Node (W := RouteState K);
  st_sessions : list PeerSessionConfig;
  st_router : IncomingRouter;
  st_resolver : option Z;
}.

Definition ALPN : string := "zeroconf-p2p-vpn/vpn/1.0".

(** [metrics_port]: the variable METRICS_PORT. [None] as the result: no peers are
    configured and there is nothing to do. *)
Definition daemon (fuel : nat) (fs : Fs) (config_path : Path) (metrics_port : option string) :
    M (option Started) :=
  let* addr := unwrap (get_metrics_addr metrics_port) in
  let* _ := expect_exporter addr in
  let* config := lift (load fs config_path) in
  let* secret_key := lift (load_key_from_disk fs (private_key_path config)) in
  if decide (peers config = ∅) then ret None
  else
    let* tun := call (Tun_new windows (tun_name (tun config)) (tun_description (tun config))) in
    let* _ := call (λ k, let '(r, k) := route_handle_new k in (map_err anyhow_io r, k)) in
    let* _ := call (TransportNode_new secret_key ALPN (discovery config)) in
    let* (own_net, own_net_sig) :=
      unwrap (generate_signed_ipnet (Net6 (vpn_subnet (subnet config))) secret_key) in
    let* _ := call_retrying (add_if_addr fuel (IpNet_addr own_net)) in
    let icmp_gateway := from_addr (IpNet_addr own_net) in
    let advertise := own_advertise own_net own_net_sig in
    let common_config := CommonPeerConfig_new icmp_gateway in
    let* dns_dispatch := start_dns fuel (dns config) tun (IpNet_addr own_net) in
    let '(router, names) := links 0 (iter (peers config)) IncomingRouter_new [] in
    λ s, Some (Ret (Ok (Some
      {| st_tun := tun; st_own := own_net;
         st_node := {| relay := Relay_new s; dns_names := snd <$> dns_dispatch;
                       tun_tx := []; tun_open := true; session_counters := [] |};
         st_sessions := (λ name, {| ps_name := name; ps_common := common_config;
                                    ps_advertise := advertise |}) <$> names;
         st_router := router; st_resolver := fst <$> dns_dispatch |}), s)).

(** ** What a cooperative platform does *)
Record cooperative : Prop := {
  co_build b k : is_ok (build_async b k).1 = true;
  co_name d k : is_ok (device_name d k) = true;
  co_index d k : is_ok (device_if_index d k) = true;
  co_route_handle k : is_ok (route_handle_new k).1 = true;
  co_transport sk alpn d k : is_ok (TransportNode_new sk alpn d k).1 = true;
  co_add_address a p k : is_ok (add_address_v6 a p k).1 = true;
  co_net_add r k : is_ok (net_add r k).1 = true;
  co_dns_config a suffix : is_ok (DnsRouteConfig_new a suffix) = true;
  co_host_dns n a suffix k : is_ok (set_host_dns n a suffix k).1 = true;
}.
End Startup.

(** What the platform documents, in terms of the routes of the kernel and of the
    addresses of the device: an address that was added is there, and the
    later steps leave it and the routes alone. *)
Class PlatformLaws (K : Type) (keys : IrohKeys) (NodeExtraConfig : Type) `{!NetRouteOps K}
    `{!TunDevice K, !Platform K keys NodeExtraConfig}
    (kernel_routes : K → gset NetRoute) (addrs : K → gset IpAddr) : Prop := {
  pl_routes :: NetRouteLaws K kernel_routes;
  pl_add_v6 a p k k' : add_address_v6 a p k = (Ok tt, k') → V6 a ∈ addrs k';
  pl_net_add r k : addrs k ⊆ addrs (net_add r k).2;
  pl_host_dns n a suffix k : addrs k ⊆ addrs (set_host_dns n a suffix k).2;
  pl_host_dns_routes n a suffix k :
    kernel_routes k ⊆ kernel_routes (set_host_dns n a suffix k).2;
}.

(** ** Reasoning about the steps *)
Section Logic.
Context {K : Type}.

(** [m] returns from [s], and its result and state satisfy [Q]. *)
Definition returns {A} (m : M (K := K) A) (s : RouteState K)
    (Q : result A AnyhowError → RouteState K → Prop) : Prop :=
  ∃ r s', m s = Some (Ret (r, s')) ∧ Q r s'.

Lemma returns_bind {A B} (m : M A) (f : A → M B) s Q :
  returns m s (λ r s', match r with Ok a => returns (f a) s' Q | Err e => Q (Err e) s' end) →
  returns (bind m f) s Q.
Proof.
  intros (r & s' & E & HQ). unfold returns, bind. rewrite E.
  destruct r as [a|e]; [exact HQ|by exists (Err e), s'].
Qed.

Lemma returns_now {A} (m : M A) s r s' (Q : result A AnyhowError → RouteState K → Prop) :
  m s = Some (Ret (r, s')) → Q r s' → returns m s Q.
Proof. intros. by exists r, s'. Qed.

Lemma returns_call {A} (f : K → result A AnyhowError * K) s Q :
  Q (f (kernel s)).1 (with_kernel s (f (kernel s)).2) → returns (call f) s Q.
Proof. unfold returns, call. destruct (f (kernel s)) as [r k]. eauto. Qed.
End Logic.

(** ** The retried steps *)
Section Steps.
Context {keys : IrohKeys} {NodeExtraConfig : Type} {K : Type}.
Context `{!NetRouteOps K, !TunDevice K, !TunBuilder K, !Platform K keys NodeExtraConfig}.
Context {kernel_routes : K → gset NetRoute} {addrs : K → gset IpAddr}.
Context `{!PlatformLaws K keys NodeExtraConfig kernel_routes addrs}.
Context `{Backoff} (n : nat) (Hn : gives_up_within n (backoff_init 50 500 2000)).

(** An operation that never fails is called once. *)
Lemma calls_ok {T} (op : sys_op T K) j k r k' :
  calls op j k r k' → (∀ k, is_ok (op k).1 = true) → is_ok r = true.
Proof.
  induction 1 as [k r k' E|j k e k1 r k2 E _ _ IH]; intros Hop; pose proof (Hop k) as Hk;
    rewrite E in Hk; [done|discriminate Hk].
Qed.

(** The last call is the one that decides. *)
Lemma calls_last_call {T} (op : sys_op T K) j k r k' : calls op j k r k' → ∃ k0, op k0 = (r, k').
Proof. induction 1; eauto. Qed.

Lemma add_if_addr_v6 a k :
  ∃ r k', add_if_addr (S n) (V6 a) k = Some (r, k') ∧
    (r = Ok tt → V6 a ∈ addrs k') ∧
    ((∀ p k, is_ok (add_address_v6 a p k).1 = true) → r = Ok tt).
Proof.
  change (add_if_addr (S n) (V6 a) k) with
    ('(r, k, _) ← retry_loop (S n) (add_address_v6 a 128) (backoff_init 50 500 2000) k;
     Some (map_err anyhow_io r, k)).
  destruct (retry_loop_terminates (add_address_v6 a 128) n _ Hn k)
    as (r & k' & j & -> & _ & Hc & _). simpl. eexists _, _. split; [done|]. split.
  - destruct r as [[]|e]; [|done]. intros _.
    destruct (calls_last_call _ _ _ _ _ Hc) as [k0 E]. by apply pl_add_v6 in E.
  - intros Hok. pose proof (calls_ok _ _ _ _ _ Hc (Hok 128)). by destruct r as [[]|e].
Qed.

Lemma calls_addrs r j k res k' : calls (net_add r) j k res k' → addrs k ⊆ addrs k'.
Proof.
  induction 1 as [k res k' E|j k e k1 res k2 E _ _ IH]; pose proof (pl_net_add r k) as Hk;
    rewrite E in Hk; simpl in Hk; [done|set_solver].
Qed.

Lemma insert_step i ip s :
  ∃ r s', NetRouteHandle_insert i (S n) ip s = Some (r, s') ∧
    (r = Ok tt → ip ∈ host_routes i (kernel_routes (kernel s'))) ∧ addrs (kernel s) ⊆ addrs (kernel s') ∧
    ((∀ r k, is_ok (net_add r k).1 = true) → r = Ok tt).
Proof.
  unfold NetRouteHandle_insert, retry_on_windows_not_found.
  destruct (retry_loop_terminates (net_add (route_entry i ip)) n _ Hn (kernel s))
    as (r & k' & j & -> & _ & Hc & _). pose proof (calls_addrs _ _ _ _ _ Hc) as Ha.
  pose proof (calls_ok _ _ _ _ _ Hc) as Hok. apply add_calls in Hc as [Hroutes _].
  destruct r as [[]|e]; simpl; (eexists _, _; split; [done|]); simpl; split_and!; try done.
  - intros _. apply elem_of_host_routes. rewrite (Hroutes eq_refl), <- route_entry_host. set_solver.
  - intros Hall. discriminate (Hok (Hall _)).
Qed.
End Steps.

(** ** Registrations in the router *)
Section Registrations.
Context {keys : IrohKeys}.

Lemma register_all_snoc l k c : register_all (l ++ [(k, c)]) = register (register_all l) k c.
Proof. unfold register_all. by rewrite foldl_app. Qed.

(** The last registration of a key counts. *)
Lemma register_all_last l k c :
  by_peer (register_all l) !! k = Some c → ∃ l1 l2, l = l1 ++ (k, c) :: l2 ∧ k ∉ l2.*1.
Proof.
  induction l as [|[k' c'] l IH] using rev_ind; [done|]. rewrite register_all_snoc. simpl.
  destruct (decide (k' = k)) as [->|Hne].
  - rewrite lookup_insert_eq. intros [= ->]. exists l, []. split; [done|]. set_solver.
  - rewrite lookup_insert_ne by done. intros Hl. destruct (IH Hl) as (l1 & l2 & -> & Hn).
    exists l1, (l2 ++ [(k', c')]). rewrite <- app_assoc. split; [done|]. rewrite fmap_app. set_solver.
Qed.

Lemma register_all_none l k : by_peer (register_all l) !! k = None → k ∉ l.*1.
Proof.
  induction l as [|[k' c'] l IH] using rev_ind; [set_solver|]. rewrite register_all_snoc. simpl.
  destruct (decide (k' = k)) as [->|Hne]; [by rewrite lookup_insert_eq|].
  rewrite lookup_insert_ne by done. intros Hl%IH. rewrite fmap_app. set_solver.
Qed.

End Registrations.

(** ** Properties *)
Section Facts.
Context `{IpnetLaws} {keys : IrohKeys} `{!IrohLaws keys} {NodeExtraConfig : Type}.
Context `{!ConfigFormats keys NodeExtraConfig, !ConfigFormatsLaws keys NodeExtraConfig _}.
Context {K : Type} `{!NetRouteOps K, !TunDevice K, !TunBuilder K, !Platform K keys NodeExtraConfig}.
Context {kernel_routes : K → gset NetRoute} {addrs : K → gset IpAddr}.
Context `{!PlatformLaws K keys NodeExtraConfig kernel_routes addrs, BackoffLaws}.
Context (linux windows : bool) (iter : gmap string PublicKey → list (string * PublicKey)).

Notation daemon := (daemon (K := K) linux windows iter).
Notation cooperative := (cooperative (K := K) (keys := keys) (NodeExtraConfig := NodeExtraConfig)).

(** The channels in the order of the iteration. *)
Definition channels (ps : list (string * PublicKey)) : list (PublicKey * channel_id) :=
  imap (λ i p, (p.2, i)) ps.

Lemma links_from i (ps : list (string * PublicKey)) r names :
  links i ps r names =
    (foldl (λ r '(k, c), register r k c) r (imap (λ j (p : string * PublicKey), (p.2, (i + j)%nat)) ps), names ++ ps.*1).
Proof.
  revert i r names. induction ps as [|[name key] ps IH]; intros i r names; csimpl.
  { by rewrite app_nil_r. }
  rewrite IH, <- app_assoc, Nat.add_0_r. f_equal. f_equal. apply imap_ext.
  intros j p _. simpl. f_equal. lia.
Qed.

Lemma links_eq (ps : list (string * PublicKey)) :
  links 0 ps IncomingRouter_new [] = (register_all (channels ps), ps.*1).
Proof. by rewrite links_from. Qed.

Lemma channels_lookup (ps : list (string * PublicKey)) p key c :
  channels ps !! p = Some (key, c) → c = p ∧ ∃ name, ps !! p = Some (name, key).
Proof.
  unfold channels. rewrite list_lookup_imap.
  destruct (ps !! p) as [[name k]|]; intros; simplify_eq/=. eauto.
Qed.

(** Whose channel the connections of a key go to. *)
Lemma router_sessions ps key :
  match by_peer (register_all (channels ps)) !! key with
  | Some i => ∃ name, ps !! i = Some (name, key)
  | None => ∀ name, (name, key) ∉ ps
  end.
Proof.
  destruct (by_peer (register_all (channels ps)) !! key) as [i|] eqn:E.
  - apply register_all_last in E as (l1 & l2 & El & _).
    destruct (channels_lookup ps (length l1) key i) as [-> ?]; [|done].
    rewrite El. by apply list_lookup_middle.
  - apply register_all_none in E. intros name [i Hi]%list_elem_of_lookup. apply E.
    apply list_elem_of_fmap. exists (key, i). split; [done|].
    apply list_elem_of_lookup. exists i. unfold channels. by rewrite list_lookup_imap, Hi.
Qed.

(** What it means to have started with a configuration and a key. *)
Record started_ok (config : Config NodeExtraConfig) (secret_key : SecretKey) (st : Started)
    (s : RouteState K) : Prop := {
  so_own : ∃ sig,
    generate_signed_ipnet (Net6 (vpn_subnet (subnet config))) secret_key = Ret (st_own st, sig) ∧
    validate_addresses [Net6 VPN_IPV6_DEFAULT_ALLOWED] (own_advertise (st_own st) sig)
      (SecretKey_public secret_key) = ([st_own st], []) ∧
    Forall (λ c, ps_advertise c = own_advertise (st_own st) sig) (st_sessions st);
  so_assigned : IpNet_addr (st_own st) ∈ addrs (kernel s);
  so_dns : match dns config with
    | None => st_resolver st = None ∧ dns_names (st_node st) = None
    | Some {| cfg_suffix := suffix |} => linux = true ∧ ∃ a, st_resolver st = Some a ∧
        V6 a ≠ IpNet_addr (st_own st) ∧ V6 a ∈ host_routes (if_index (st_tun st)) (kernel_routes (kernel s)) ∧
        dns_names (st_node st) = Some (PeerNames_new suffix)
    end;
  so_common : Forall (λ c, ps_common c = CommonPeerConfig_new (from_addr (IpNet_addr (st_own st))))
    (st_sessions st);
  so_relay : relay (st_node st) = Relay_new s;
  so_sessions : ps_name <$> st_sessions st ≡ₚ (map_to_list (peers config)).*1;
  so_router key : match by_peer (st_router st) !! key with
    | Some i => ∃ self, st_sessions st !! i = Some self ∧ peers config !! ps_name self = Some key
    | None => ∀ name, peers config !! name ≠ Some key
    end;
  so_channel i self key : st_sessions st !! i = Some self →
    peers config !! ps_name self = Some key →
    (∀ name, peers config !! name = Some key → name = ps_name self) →
    by_peer (st_router st) !! key = Some i;
}.

(** The sessions and the router that the loop over the peers leaves. *)
Lemma links_sessions (m : gmap string PublicKey) (f : string → PeerSessionConfig) :
  iterates iter → (∀ name, ps_name (f name) = name) →
  let sessions := f <$> (iter m).*1 in
  let router := register_all (channels (iter m)) in
  ps_name <$> sessions ≡ₚ (map_to_list m).*1 ∧
  (∀ key, match by_peer router !! key with
    | Some i => ∃ self, sessions !! i = Some self ∧ m !! ps_name self = Some key
    | None => ∀ name, m !! name ≠ Some key
    end) ∧
  (∀ i self key, sessions !! i = Some self → m !! ps_name self = Some key →
     (∀ name, m !! name = Some key → name = ps_name self) → by_peer router !! key = Some i).
Proof.
  intros Hiter Hf sessions router. specialize (Hiter m).
  assert (ps_name <$> sessions = (iter m).*1) as Hnames.
  { unfold sessions. rewrite <- list_fmap_compose.
    rewrite (list_fmap_ext _ id) by (intros; apply Hf). by rewrite list_fmap_id. }
  assert (∀ name key, (name, key) ∈ iter m ↔ m !! name = Some key) as Hin.
  { intros name key. by rewrite Hiter, elem_of_map_to_list. }
  assert (∀ key, match by_peer router !! key with
    | Some i => ∃ self, sessions !! i = Some self ∧ m !! ps_name self = Some key
    | None => ∀ name, m !! name ≠ Some key
    end) as Hr.
  { intros key. pose proof (router_sessions (iter m) key) as Hr. fold router in Hr.
    destruct (by_peer router !! key) as [i|].
    - destruct Hr as [name Hi]. exists (f name). unfold sessions.
      unfold channel_id in *. rewrite !list_lookup_fmap, Hi. simpl. rewrite Hf. split; [done|]. by eapply Hin, list_elem_of_lookup_2.
    - intros name Hm. by apply (Hr name), Hin. }
  split_and!; [by rewrite Hnames; f_equiv|exact Hr|].
  intros i self key Hs Hm Hu. pose proof (Hr key) as Hk.
  destruct (by_peer router !! key) as [j|]; [|by destruct (Hk (ps_name self))].
  destruct Hk as (self' & Hj & Hm'). f_equal. unfold channel_id in *.
  assert (NoDup (ps_name <$> sessions)) as Hnd by (rewrite Hnames, Hiter; apply NoDup_fst_map_to_list).
  apply (NoDup_lookup _ _ _ (ps_name self) Hnd); rewrite list_lookup_fmap, ?Hj, ?Hs; [|done].
  simpl. by rewrite (Hu _ Hm').
Qed.

(** The resolver, once the own address is assigned. *)
Lemma start_dns_spec n dns_cfg tun own resolver s :
  gives_up_within n (backoff_init 50 500 2000) → dns_server_addr own = Ret resolver →
  own ∈ addrs (kernel s) →
  returns (start_dns linux (S n) dns_cfg tun own) s (λ r s',
    match r with
    | Ok d => own ∈ addrs (kernel s') ∧
        match dns_cfg with
        | None => d = None
        | Some {| cfg_suffix := suffix |} => linux = true ∧ d = Some (resolver, PeerNames_new suffix) ∧
            V6 resolver ∈ host_routes (if_index tun) (kernel_routes (kernel s'))
        end
    | Err _ => is_Some dns_cfg ∧ (linux = true → ¬ cooperative)
    end).
Proof.
  intros Hn Hr Ha. unfold start_dns. destruct dns_cfg as [[suffix]|].
  2: { by eapply returns_now. }
  apply returns_bind. eapply returns_now; [unfold unwrap; by rewrite Hr|].
  destruct (insert_step n Hn (if_index tun) (V6 resolver) s) as (r & s1 & E1 & Hin & Hsub & Hco).
  apply returns_bind. eapply returns_now; [unfold call_routes; by rewrite E1|].
  destruct r as [[]|e]; simpl.
  2: { split; [by eexists|]. intros _ Hc. discriminate (Hco (co_net_add Hc)). }
  destruct linux.
  2: { eapply returns_now; [done|]. by split; [eexists|]. }
  apply returns_bind. eapply returns_now; [done|].
  destruct (DnsRouteConfig_new resolver suffix) as [[]|e] eqn:Ed.
  2: { split; [by eexists|]. intros _ Hc. pose proof (co_dns_config Hc resolver suffix) as Hk.
       by rewrite Ed in Hk. }
  apply returns_bind, returns_call.
  pose proof (pl_host_dns (if_name tun) resolver suffix (kernel s1)) as Ha'.
  pose proof (host_routes_mono (if_index tun) _ _
    (pl_host_dns_routes (if_name tun) resolver suffix (kernel s1))) as Hr'.
  destruct (set_host_dns (if_name tun) resolver suffix (kernel s1)) as [[[]|e] k] eqn:Eh; simpl in *.
  - eapply returns_now; [done|]. simpl. specialize (Hin eq_refl). split_and!; [set_solver|done..|set_solver].
  - split; [by eexists|]. intros _ Hc.
    pose proof (co_host_dns Hc (if_name tun) resolver suffix (kernel s1)) as Hk. by rewrite Eh in Hk.
Qed.

Lemma Tun_new_cooperative name description k :
  cooperative → is_ok (Tun_new windows name description k).1 = true.
Proof.
  intros Hc. unfold Tun_new. set (b := with_description _ _ _).
  pose proof (co_build Hc b k) as Hb. destruct (build_async b k) as [[d|e] k']; [|done].
  pose proof (co_name Hc d k') as Hd. pose proof (co_index Hc d k') as Hi. simpl.
  destruct (device_name d k'); [|done]. by destruct (device_if_index d k').
Qed.

Lemma route_handle_cooperative k :
  cooperative → is_ok (let '(r, k) := route_handle_new k in (map_err anyhow_io r, k)).1 = true.
Proof.
  intros Hc. pose proof (co_route_handle Hc k) as Hr.
  destruct (route_handle_new k) as [[[]|e] k']; [done|discriminate Hr].
Qed.

(** A step that fails shows that the platform is not cooperative. *)
Lemma failed_step {A} (r : result A AnyhowError) e :
  (cooperative → is_ok r = true) → r = Err e → ¬ cooperative.
Proof. intros Hr -> Hc. discriminate (Hr Hc). Qed.

(** What the daemon's result says. *)
Definition daemon_result (fs : Fs) (config_path : Path) (s0 s' : RouteState K)
    (r : result (option Started) AnyhowError) : Prop :=
  match load fs config_path with
  | Err e => r = Err e
  | Ok config =>
      match load_key_from_disk fs (private_key_path config) with
      | Err e => r = Err e
      | Ok secret_key =>
          match r with
          | Ok None => peers config = ∅ ∧ s' = s0
          | Ok (Some st) => peers config ≠ ∅ ∧ started_ok config secret_key st s'
          | Err _ => peers config ≠ ∅ ∧ (is_Some (dns config) ∧ linux = false ∨ ¬ cooperative)
          end
      end
  end.

Lemma daemon_returns n fs config_path metrics_port addr s :
  iterates iter → gives_up_within n (backoff_init 50 500 2000) →
  get_metrics_addr metrics_port = Ret addr → (install_exporter addr (kernel s)).1 = true →
  returns (daemon (S n) fs config_path metrics_port) s
    (λ r s', daemon_result fs config_path (with_kernel s (install_exporter addr (kernel s)).2) s' r).
Proof.
  intros Hiter Hn Hport Hexp. unfold Startup.daemon, daemon_result.
  apply returns_bind. eapply returns_now; [unfold unwrap; by rewrite Hport|].
  apply returns_bind. set (s0 := with_kernel _ _).
  apply (returns_now _ _ (Ok tt) s0).
  { unfold expect_exporter, s0. destruct (install_exporter addr (kernel s)) as [b k]. simpl in *.
    by rewrite Hexp. }
  apply returns_bind. eapply returns_now; [done|].
  pose proof (load_subnet fs config_path) as Hsub.
  destruct (load fs config_path) as [config|e]; [|done]. specialize (Hsub config eq_refl).
  apply returns_bind. eapply returns_now; [done|].
  destruct (load_key_from_disk fs (private_key_path config)) as [secret_key|e]; [|done].
  case_decide as Hpeers; [by eapply returns_now|].
  destruct (own_identity (subnet config) secret_key Hsub)
    as (own & sig & resolver & Eg & _ & Hv6 & _ & Hval & _ & Hres & _ & Hne & _).
  apply returns_bind, returns_call.
  destruct (Tun_new _ _ _ _).1 as [tun|e] eqn:Et.
  2: { split; [done|]. right. by eapply failed_step; [apply Tun_new_cooperative|]. }
  apply returns_bind, returns_call.
  set (s_tun := with_kernel s0 _). pose proof (route_handle_cooperative (kernel s_tun)) as Hrh.
  destruct (let '(r, k) := route_handle_new (kernel s_tun) in (map_err anyhow_io r, k)).1 as [[]|e].
  2: { split; [done|]. right. intros Hc. discriminate (Hrh Hc). }
  apply returns_bind, returns_call.
  destruct (TransportNode_new _ _ _ _).1 as [[]|e] eqn:En.
  2: { split; [done|]. right. by eapply failed_step; [intros Hc; apply (co_transport Hc)|]. }
  apply returns_bind. eapply returns_now; [unfold unwrap; by rewrite Eg|]. cbv iota beta.
  destruct (IpNet_addr own) as [|a] eqn:Eo; [done|].
  apply returns_bind. unfold call_retrying at 1.
  set (s1 := with_kernel _ _).
  destruct (add_if_addr_v6 n Hn a (kernel s1)) as (r & k2 & E2 & Hadd & Hco).
  eapply returns_now; [by rewrite E2|].
  destruct r as [[]|e].
  2: { split; [done|]. right. intros Hc. discriminate (Hco (co_add_address Hc a)). }
  apply returns_bind.
  destruct (start_dns_spec n (dns config) tun (V6 a) resolver (with_kernel s1 k2) Hn Hres)
    as (d & s3 & E3 & Hd); [by apply Hadd|]. exists d, s3. split; [exact E3|].
  destruct d as [d|e].
  2: { split; [done|]. destruct Hd as [Hdns Hd]. destruct linux; [by right; apply Hd|by left]. }
  rewrite links_eq. eapply returns_now; [done|]. cbv beta iota. split; [done|].
  destruct Hd as [Hin Hd]. split; simpl.
  - exists sig. split; [done|]. split; [done|]. by apply Forall_fmap, Forall_true.
  - by rewrite Eo.
  - destruct (dns config) as [[suffix]|]; [|by subst d]. destruct Hd as (? & -> & ?).
    split; [done|]. exists resolver. rewrite Eo. done.
  - by rewrite Eo; apply Forall_fmap, Forall_true.
  - done.
  - by apply links_sessions.
  - by apply links_sessions.
  - by apply links_sessions.
Qed.

(** C16: with enough fuel for the retries the start always comes to an end. It
    panics exactly when METRICS_PORT is no port or the exporter cannot be
    installed. Without peers it returns at once and touches nothing. If it
    starts, the own address is assigned and is the one every peer accepts from
    the advertisement, the resolver has a route and another address, and there is
    exactly one session for every configured peer. The router has a channel for
    exactly the configured keys, it is that of a session whose peer has the key,
    and so that of the peer itself when no other peer has its key. The start fails
    only when the files cannot be read, when a
    call of the platform fails, or when DNS is asked for elsewhere than on
    Linux. *)
Theorem daemon_spec (fs : Fs) (config_path : Path) (metrics_port : option string)
    (s : RouteState K) :
  iterates iter →
  ∃ fuel,
    match get_metrics_addr metrics_port with
    | Panic => daemon fuel fs config_path metrics_port s = Some Panic
    | Ret addr =>
        let '(installed, k) := install_exporter addr (kernel s) in
        if installed then
          ∃ r s', daemon fuel fs config_path metrics_port s = Some (Ret (r, s')) ∧
            daemon_result fs config_path (with_kernel s k) s' r
        else daemon fuel fs config_path metrics_port s = Some Panic
    end.
Proof.
  intros Hiter. destruct (backoff_bounded 50 500 2000) as [n Hn]; [lia..|]. exists (S n).
  destruct (get_metrics_addr metrics_port) as [addr|] eqn:Ep.
  - pose proof (daemon_returns n fs config_path metrics_port addr s Hiter Hn Ep) as Hd.
    destruct (install_exporter addr (kernel s)) as [[] k] eqn:Ei; [by apply Hd|].
    unfold Startup.daemon, bind, unwrap, expect_exporter. by rewrite Ep, Ei.
  - unfold Startup.daemon, bind, unwrap. by rewrite Ep.
Qed.

(** C32: on a cooperative platform a node with peers starts, and [show] then
    prints, on its second line, the address that was assigned: reading the text
    of that line back gives exactly the address of the device. *)
Theorem daemon_starts (fs : Fs) (config_path : Path) (metrics_port : option string)
    (addr : IpAddr * Z) (s : RouteState K) (config : Config NodeExtraConfig)
    (secret_key : SecretKey) :
  cooperative → iterates iter → get_metrics_addr metrics_port = Ret addr →
  (install_exporter addr (kernel s)).1 = true → load fs config_path = Ok config →
  load_key_from_disk fs (private_key_path config) = Ok secret_key → peers config ≠ ∅ →
  dns config = None ∨ linux = true →
  ∃ fuel st s' key_line address rest,
    daemon fuel fs config_path metrics_port s = Some (Ret (Ok (Some st), s')) ∧
    show_run iter fs config_path =
      Ret (Ok (unlines (key_line :: ("VPN address: " +:+ address) :: rest))) ∧
    IpAddr_from_str address = Some (IpNet_addr (st_own st)) ∧
    IpNet_addr (st_own st) ∈ addrs (kernel s').
Proof.
  intros Hco Hiter Hport Hexp Hload Hkey Hpeers Hdns.
  destruct (backoff_bounded 50 500 2000) as [n Hn]; [lia..|].
  destruct (daemon_returns n fs config_path metrics_port addr s Hiter Hn Hport Hexp) as (r & s' & E & Hr).
  unfold daemon_result in Hr. rewrite Hload, Hkey in Hr.
  destruct r as [[st|]|e].
  2: { by destruct Hr as [? _]. }
  2: { destruct Hr as [_ [[[x Hx] ->]|Hn']]; [|done]. by destruct Hdns; simplify_eq. }
  destruct Hr as [_ Hst]. destruct (so_own _ _ _ _ Hst) as (sig & Eg & _ & _).
  destruct (own_identity (subnet config) secret_key) as (own & sig' & res & Eg' & Hwf & _);
    [by apply (load_subnet fs config_path)|].
  rewrite Eg in Eg'. injection Eg' as <- <-.
  eexists (S n), st, s', _, _, _. split; [exact E|]. split; [|split].
  - unfold show_run. rewrite Hload, Hkey, (report_eq iter config secret_key (st_own st) sig) by done.
    reflexivity.
  - apply IpAddr_text_roundtrip. by destruct (st_own st) as [m|m]; destruct Hwf.
  - apply Hst.
Qed.
End Facts.

(** ** The same key under two names *)
Section Duplicates.
Context {keys : IrohKeys}.

Lemma router_run_other self events s c :
  (∀ k, by_peer self !! k ≠ Some c) → queues (router_run self events s) c = queues s c.
Proof.
  intros Hc. revert s. induction events as [|[conn|c'] events IH]; intros s; simpl; [done| |by rewrite IH].
  rewrite IH. unfold dispatch. destruct (by_peer self !! in_remote conn) as [c'|] eqn:E; [|done].
  destruct (closed s c'); simpl; [done|]. rewrite decide_False; [done|]. by intros ->; apply (Hc (in_remote conn)).
Qed.

(** A key that is configured under two names has only one channel in the
    router: whatever connections come in, the channel of the name that the
    iteration visits first stays empty. *)
Theorem duplicate_key_starves (ps : list (string * PublicKey)) (i j : nat)
    (name name' : string) (key : PublicKey) (events : list router_event) (s : RouterState) :
  ps !! i = Some (name, key) → ps !! j = Some (name', key) → (i < j)%nat →
  queues (router_run (links 0 ps IncomingRouter_new []).1 events s) i = queues s i.
Proof.
  intros Hi Hj Hij. rewrite links_eq. apply router_run_other. intros k Hk.
  apply register_all_last in Hk as (l1 & l2 & El & Hn).
  assert (channels ps !! length l1 = Some (k, i)) as E1 by (rewrite El; by apply list_lookup_middle).
  apply channels_lookup in E1 as (Hlen & name1 & E1). rewrite <- Hlen, Hi in E1. injection E1 as <- <-.
  apply Hn, list_elem_of_fmap. exists (key, j). split; [done|].
  apply list_elem_of_lookup. exists (j - S (length l1))%nat.
  assert (channels ps !! j = Some (key, j)) as E2 by (unfold channels; by rewrite list_lookup_imap, Hj).
  unfold channel_id in *. rewrite El, lookup_app_r in E2 by lia.
  replace (j - length l1)%nat with (S (j - S (length l1))) in E2 by lia. exact E2.
Qed.
End Duplicates.

(** ** The loops

    [main] ends with [tokio::join!] of the TUN loop, the sessions and the packet
    loop, and drops their results. *)
Section Loops.
Context `{Ipnet, IrohKeys, Message ControlRequest, Message ControlResponse}.
Context `{ErrorCodeExt, DebugFmt, ThinStatusOps, RoutingTable W}.
Context (cfgs : list PeerSessionConfig).

Record Loops := {
  lp_node : Node (W := W);
  tun_loop_ended : bool;
  session_phases : list phase;
  rx_loop_ended : bool;
}.

Definition is_ended (p : phase) : bool := match p with Ended => true | _ => false end.

Definition main_returns (l : Loops) : bool :=
  tun_loop_ended l && forallb is_ended (session_phases l) && rx_loop_ended l.

(** When the TUN loop ends its ends of both channels are dropped: the packet loop
    runs out of packets, and the sessions can no longer send. *)
Inductive loops_step (l : Loops) : Loops → Prop :=
  | tun_ends :
      tun_loop_ended l = false →
      loops_step l {| lp_node := {| relay := relay (lp_node l); dns_names := dns_names (lp_node l);
                                    tun_tx := tun_tx (lp_node l); tun_open := false;
                                    session_counters := session_counters (lp_node l) |};
                      tun_loop_ended := true; session_phases := session_phases l;
                      rx_loop_ended := rx_loop_ended l |}
  | rx_ends :
      tun_loop_ended l = true →
      loops_step l {| lp_node := lp_node l; tun_loop_ended := true;
                      session_phases := session_phases l; rx_loop_ended := true |}
  | session_steps i self ev p p' n' :
      cfgs !! i = Some self → session_phases l !! i = Some p → ev ≠ EvLink LinkEnded →
      advance self ev p (lp_node l) = Some (Ret (p', n')) →
      loops_step l {| lp_node := n'; tun_loop_ended := tun_loop_ended l;
                      session_phases := <[i := p']> (session_phases l);
                      rx_loop_ended := rx_loop_ended l |}.

(** A session whose link goes on does not end, and with the TUN loop gone it
    forwards nothing. *)
Lemma advance_not_ended self ev p (n : Node (W := W)) p' n' :
  ev ≠ EvLink LinkEnded → advance self ev p n = Some (Ret (p', n')) →
  is_ended p' = false ∧ tun_open n' = tun_open n ∧
  (tun_open n = false → tun_tx n' = tun_tx n).
Proof.
  intros Hev E. destruct p as [rs|conn changed prev|conn cp rs|], ev as [[c| |]| |]; try done;
    simpl in E.
  - destruct (handshake _ _) as [changed|err]; [|by simplify_eq/=].
    destruct (if negb _ then _ else _) as [r|]; by simplify_eq/=.
  - simplify_eq/=. unfold park_routes. by case_match.
  - destruct (Relay_insert _ _ _) as [[[[]|err] r]|]; [| |done].
    + destruct (dns_names n); by simplify_eq/=.
    + by simplify_eq/=.
  - simplify_eq/=. split; [done|]. unfold receive.
    assert (∀ ds last (m : Node (W := W)), tun_open (recv_loop ds last m).2 = tun_open m ∧
      (tun_open m = false → tun_tx (recv_loop ds last m).2 = tun_tx m)) as Hrecv.
    { intros ds last. induction ds as [|d ds IH]; intros m; simpl; [done|].
      destruct (tun_open m) eqn:Em; simpl; [|by rewrite Em].
      destruct (IH (with_tun_tx m (tun_tx m ++ [mkTxPacket d]))) as [-> _]. by simpl; rewrite Em. }
    destruct (Hrecv (conn_datagrams conn) (conn_error conn) n) as [Ho Ht].
    destruct (recv_loop _ _ n) as [res m]. simpl in Ho, Ht. unfold park_routes.
    destruct res; repeat case_match; simpl; rewrite ?Ho; done.
Qed.

Lemma loops_step_facts l l' :
  loops_step l l' → session_phases l ≠ [] → Forall (λ p, is_ended p = false) (session_phases l) →
  session_phases l' ≠ [] ∧ Forall (λ p, is_ended p = false) (session_phases l') ∧
  (tun_open (lp_node l) = false →
     tun_open (lp_node l') = false ∧ tun_tx (lp_node l') = tun_tx (lp_node l)).
Proof.
  intros [Ht|Ht|i self ev p p' n' _ Hi Hev Ea] Hne Hall; simpl; try done.
  destruct (advance_not_ended _ _ _ _ _ _ Hev Ea) as (Hp & Ho & Hx). split_and!.
  - intros E. apply (f_equal length) in E. rewrite length_insert in E. by destruct (session_phases l).
  - by apply Forall_insert.
  - intros Hc. rewrite Ho. split; [done|by apply Hx].
Qed.

(** C33: [main] does not notice that the TUN device is lost. As long as the links
    of the peers go on, no run of the loops makes it return, whatever happened to
    the TUN loop; and once that loop has ended, the packets of the peers are
    dropped for good. *)
Theorem tun_failure_is_not_fatal (l l' : Loops) :
  rtc loops_step l l' → session_phases l ≠ [] →
  Forall (λ p, is_ended p = false) (session_phases l) →
  main_returns l' = false ∧
  (tun_open (lp_node l) = false →
     tun_open (lp_node l') = false ∧ tun_tx (lp_node l') = tun_tx (lp_node l)).
Proof.
  induction 1 as [l|l l1 l' Hs _ IH]; intros Hne Hall.
  - split; [|done]. unfold main_returns. destruct (session_phases l) as [|p ps]; [done|].
    apply Forall_cons in Hall as [Hp _]. simpl. rewrite Hp. by rewrite andb_false_r.
  - destruct (loops_step_facts l l1 Hs Hne Hall) as (Hne1 & Hall1 & Hopen).
    destruct (IH Hne1 Hall1) as [Hm Ho]. split; [done|]. intros Hc.
    destruct (Hopen Hc) as [Hc1 Ht1]. destruct (Ho Hc1) as [? ->]. done.
Qed.
End Loops.

(** ** Witnesses: a kernel that grants everything *)
Import IpnetRef KeysRef BackoffRef MessageRef EtherparseRef RelayRef.

Module PlatformRef.
Record kern := { k_routes : gset NetRoute; k_addrs : gset IpAddr; k_dns : option (Z * string) }.

Definition with_routes (k : kern) (rs : gset NetRoute) : kern :=
  {| k_routes := rs; k_addrs := k_addrs k; k_dns := k_dns k |}.

#[export] Instance kern_routes : NetRouteOps kern := {
  net_add r k := (Ok tt, with_routes k ({[r]} ∪ k_routes k));
  net_delete r k := (Ok tt, with_routes k (k_routes k ∖ {[r]}));
  net_add_ready _ _ := false;
}.

Definition add_addr (a : IpAddr) (k : kern) : kern :=
  {| k_routes := k_routes k; k_addrs := {[a]} ∪ k_addrs k; k_dns := k_dns k |}.

#[export] Instance kern_device : TunDevice kern := {
  add_address_v4 a _ k := (Ok tt, add_addr (V4 a) k);
  add_address_v6 a _ k := (Ok tt, add_addr (V6 a) k);
}.

#[export] Instance kern_builder : TunBuilder kern := {
  AsyncDevice := string;
  build_async b k := (Ok (default "tun0"%string (builder_name b)), k);
  device_name d _ := Ok d;
  device_if_index _ _ := Ok 3;
}.

#[export] Instance kern_platform : Platform kern keys unit := {
  install_exporter _ k := (true, k);
  route_handle_new k := (Ok tt, k);
  TransportNode_new _ _ _ k := (Ok tt, k);
  DnsRouteConfig_new _ _ := Ok tt;
  set_host_dns _ a suffix k :=
    (Ok tt, {| k_routes := k_routes k; k_addrs := k_addrs k; k_dns := Some (a, suffix) |});
}.

#[export] Instance kern_laws : PlatformLaws kern keys unit k_routes k_addrs.
Proof.
  constructor; [|simpl; intros; simplify_eq/=; set_solver..].
  constructor; simpl; intros; by simplify_eq/=.
Qed.

Lemma kern_cooperative : cooperative (K := kern) (keys := keys) (NodeExtraConfig := unit).
Proof. by constructor. Qed.

Definition fresh : RouteState kern :=
  {| kernel := {| k_routes := ∅; k_addrs := ∅; k_dns := None |};
     add_total _ := 0; active _ := 0 |}.

(** A configuration with two peers and DNS. *)
Definition alice_toml : string := unlines [
  "[host]"; "subnet = 5"; "private_key_path = " +:+ quoted "alice.key"; "[peers]";
  "bob = " +:+ quoted "b"; "charlie = " +:+ quoted "c"; "[dns]"; "suffix = " +:+ quoted "vpn"
]%string.

Definition config_path : Path := mkPath true ["etc"; "alice.toml"]%string.
Definition fs : Fs :=
  {| files := {[config_path := {| contents := alice_toml; mode := 420 |};
                mkPath true ["etc"; "alice.key"]%string := {| contents := "secret"; mode := 384 |}]};
     fails _ := None; no_chmod _ := None |}.

Definition iter (m : gmap string (@PublicKey keys)) : list (string * @PublicKey keys) := map_to_list m.
Lemma iter_iterates : iterates iter.
Proof. by intros m. Qed.
End PlatformRef.
Import FormatsRef PlatformRef.

Lemma daemon_spec_witness :
  ∃ fuel r s', daemon true false iter fuel fs config_path None fresh = Some (Ret (r, s')) ∧
    daemon_result (kernel_routes := k_routes) (addrs := k_addrs) true
      fs config_path (with_kernel fresh (kernel fresh)) s' r.
Proof. exact (daemon_spec true false iter fs config_path None fresh iter_iterates). Defined.

Lemma daemon_starts_witness :
  ∃ fuel st s' key_line address rest,
    daemon true false iter fuel fs config_path None fresh = Some (Ret (Ok (Some st), s')) ∧
    show_run iter fs config_path =
      Ret (Ok (unlines (key_line :: ("VPN address: " +:+ address) :: rest))) ∧
    IpAddr_from_str address = Some (IpNet_addr (st_own st)) ∧
    IpNet_addr (st_own st) ∈ k_addrs (kernel s').
Proof.
  destruct (load fs config_path) as [config|e] eqn:El.
  2: { assert (is_ok (load fs config_path) = true) as E by (vm_compute; reflexivity).
       by rewrite El in E. }
  assert (private_key_path config = mkPath true ["etc"; "alice.key"]%string) as Ek.
  { assert (match load fs config_path with Ok c => private_key_path c | Err _ => mkPath false [] end
      = mkPath true ["etc"; "alice.key"]%string) as E by (vm_compute; reflexivity).
    by rewrite El in E. }
  assert (peers config ≠ ∅) as Hp.
  { assert (match load fs config_path with
            | Ok c => bool_decide (is_Some (peers c !! "bob"%string)) | Err _ => false end = true) as E
      by (vm_compute; reflexivity).
    rewrite El in E. intros Ee. rewrite Ee in E. by vm_compute in E. }
  apply (daemon_starts true false iter fs config_path None (V6 0, 9189) fresh config (sk "secret"));
    [exact kern_cooperative|exact iter_iterates|done|done|exact El| |exact Hp|by right].
  rewrite Ek. reflexivity.
Defined.

Lemma duplicate_key_starves_witness :
  let ps := [("bob", pk "b"); ("charlie", pk "c"); ("bobby", pk "b")]%string in
  let s := {| queues _ := []; closed _ := false; closed_conns := []; submit_errors := 0;
              unknown_peers := 0 |} in
  queues (router_run (links 0 ps IncomingRouter_new []).1
    [Accepted {| in_conn := 1; in_remote := pk "b" |}] s) 0%nat = [].
Proof.
  exact (duplicate_key_starves [("bob", pk "b"); ("charlie", pk "c"); ("bobby", pk "b")]%string
    0 2 "bob" "bobby" (pk "b") [Accepted {| in_conn := 1; in_remote := pk "b" |}]
    {| queues _ := []; closed _ := false; closed_conns := []; submit_errors := 0;
       unknown_peers := 0 |} eq_refl eq_refl ltac:(lia)).
Defined.

Import MockRoutes.

(** The TUN loop ends and the packet loop after it. *)
Lemma tun_failure_is_not_fatal_witness :
  let n := Example_.node0 MockRoutes.empty in
  let l := {| lp_node := n; tun_loop_ended := false; session_phases := [Idle []];
              rx_loop_ended := false |} in
  ∃ l', rtc (loops_step [Example_.alice_session "bob"]) l l' ∧ tun_loop_ended l' = true ∧
    rx_loop_ended l' = true ∧ main_returns l' = false.
Proof.
  set (n := Example_.node0 MockRoutes.empty). cbv zeta.
  set (l := {| lp_node := n; tun_loop_ended := false; session_phases := [Idle []];
               rx_loop_ended := false |}).
  assert (∃ l', rtc (loops_step [Example_.alice_session "bob"]) l l' ∧ tun_loop_ended l' = true ∧
    rx_loop_ended l' = true) as (l' & Hrun & Ht & Hrx).
  { eexists. split; [|split].
    - eapply rtc_l; [by apply tun_ends|]. eapply rtc_l; [by apply rx_ends|]. apply rtc_refl.
    - done.
    - done. }
  destruct (tun_failure_is_not_fatal [Example_.alice_session "bob"] l l' Hrun) as [Hm _];
    [done|by repeat constructor|].
  exact (ex_intro _ l' (conj Hrun (conj Ht (conj Hrx Hm)))).
Defined.
