(* ===== verification/Daemon.v ===== *)
(** * The running daemon

    Puts the parts together: [Startup] up to the point where the loops run, the
    system routing table of [Route] as the table of the relay, and the sessions
    of [Session] with the peers of [Security], who do as they please. What they can
    bring about is bounded, but for the panic on a repeated address. *)

From S2P Require Import Prelude ErrorCode Net Keys Addr Proto Validate Packet Handshake Retry Route Relay Dns Session Toml Config Show Connection Tun TunControl Main Startup Security.
From stdpp Require Import prelude gmap strings.
From Stdlib Require Import Strings.Byte.

Local Open Scope Z_scope.

Section Daemon.
Context `{IpnetLaws} {keys : IrohKeys} `{!IrohLaws keys} {NodeExtraConfig : Type}.
Context `{!ConfigFormats keys NodeExtraConfig, !ConfigFormatsLaws keys NodeExtraConfig _}.
Context {K : Type} `{!NetRouteOps K, !TunDevice K, !TunBuilder K, !Platform K keys NodeExtraConfig}.
Context {kernel_routes : K → gset NetRoute} {addrs : K → gset IpAddr}.
Context `{!PlatformLaws K keys NodeExtraConfig kernel_routes addrs, BackoffLaws}.
Context `{MessageLaws ControlRequest, MessageLaws ControlResponse}.
Context `{ErrorCodeExt, DebugFmt, ThinStatusOps}.
Context (linux windows : bool) (iter : gmap string PublicKey → list (string * PublicKey)).
Context (Hiter : iterates iter).
Context (n : nat) (Hn : gives_up_within n (backoff_init 50 500 2000)).

Notation daemon := (daemon (K := K) linux windows iter).

Lemma started_of_daemon fs config_path metrics_port s st s' :
  daemon (S n) fs config_path metrics_port s = Some (Ret (Ok (Some st), s')) →
  ∃ config secret_key, load fs config_path = Ok config ∧
    load_key_from_disk fs (private_key_path config) = Ok secret_key ∧
    started_ok (kernel_routes := kernel_routes) (addrs := addrs) linux config secret_key st s'.
Proof.
  intros E. destruct (get_metrics_addr metrics_port) as [addr|] eqn:Ep.
  2: { unfold Startup.daemon, bind, unwrap in E. by rewrite Ep in E. }
  destruct (install_exporter addr (kernel s)).1 eqn:Ei.
  2: { unfold Startup.daemon, bind, unwrap, expect_exporter in E. rewrite Ep in E.
       destruct (install_exporter addr (kernel s)) as [b k]. simpl in Ei. by rewrite Ei in E. }
  destruct (daemon_returns linux windows iter n fs config_path metrics_port addr s Hiter Hn Ep Ei)
    as (r & s2 & E2 & Hr). rewrite E in E2. injection E2 as <- <-. unfold daemon_result in Hr.
  destruct (load fs config_path) as [config|e]; [|done].
  destruct (load_key_from_disk fs (private_key_path config)) as [key|e] eqn:Ek; [|done].
  exists config, key. destruct Hr. done.
Qed.

Section Running.
Context (st : Started (K := K)).

(** The relay of a started daemon runs on the routes of its own interface. *)
#[local] Instance own_table : RoutingTable (RouteState K) :=
  net_table (if_index (st_tun st)) (S n).
#[local] Instance own_table_laws :
  RoutingTableLaws (RouteState K)
    (λ s, host_routes (if_index (st_tun st)) (kernel_routes (kernel s))).
Proof. exact (net_table_laws (if_index (st_tun st)) n Hn). Qed.

(** The only network whose addresses a daemon deals with. *)
Lemma started_permitted (config : Config NodeExtraConfig) secret_key s' ip :
  started_ok (kernel_routes := kernel_routes) (addrs := addrs) linux config secret_key st s' →
  permitted (st_sessions st) ip → in_network (Net6 VPN_IPV6_DEFAULT_ALLOWED) ip.
Proof.
  intros Hst (_ & self & a & Hs & Ha & Hin). pose proof (so_common _ _ _ _ _ Hst) as Hc.
  rewrite Forall_forall in Hc. rewrite (Hc self Hs) in Ha.
  by apply list_elem_of_singleton in Ha as ->.
Qed.

End Running.
End Daemon.

(** ** Witness: a started daemon, and a peer that connects *)
Import IpnetRef KeysRef BackoffRef MessageRef EtherparseRef DnsRef RelayRef FormatsRef PlatformRef.
Import Session.Example_.

Definition started : option (Started (K := kern) * RouteState kern) :=
  match daemon true false iter 2002 fs config_path None fresh with
  | Some (Ret (Ok (Some st), s')) => Some (st, s')
  | _ => None
  end.

Lemma started_with_sessions : (λ '(st, _), length (st_sessions st)) <$> started = Some 2%nat.
Proof. by vm_compute. Qed.

(** A session that remembers no routes gets through its first step. *)
Lemma first_step (table : RoutingTable (RouteState kern)) self conn (n : Node) :
  ∃ p' n', advance self (EvLink (LinkUp conn)) (Idle []) n = Some (Ret (p', n')).
Proof. cbn [advance]. destruct (handshake _ _); by eexists _, _. Qed.

